(* ===== verification/_CoqProject ===== *)
-Q . S2P
Prelude.v
Io.v
Bin.v
MessageID.v
Proto.v
Tgerr.v
Schema.v
Fileid.v
Codec.v
Tg.v
Storage.v
Sequence.v
Updates.v
Channel.v
Workers.v
Manager.v
Hash.v
Keys.v
Cipher.v
Exchange.v
Dh.v
Srp.v
Download.v
Cdn.v
Upload.v
Mtproxy.v
Pool.v
Entity.v
Html.v
Pq.v
Flow.v
Salts.v
Rpc.v
Conn.v
Lifecycle.v
