(* ===== verification/Prelude.v ===== *)
(** * Verification of the MTProto client stack (package github.com/iamxvbaba/td)

    The program is a Telegram client library in Go.  This development models its
    protocol core, from the bytes on the wire over the key exchange and the answers
    of requests to the state of an account, and proves the theorems that make these
    parts correct.

    ** The parts and how they interact

    Bytes arrive at a transport connection (src/transport), which cuts them into
    frames with one of four codecs (src/proto/codec).  A frame is an envelope that
    the cipher (src/crypto) decrypts with the authorization key of the session and
    checks.  The connection (src/mtproto) rejects messages outside of the session,
    the time window or the replay buffer, takes containers and gzip-packed objects
    (src/proto) apart and dispatches what is inside: results, errors and
    acknowledgements to the request engine (src/rpc), salts to the salt store
    (src/mtproto/salts), updates to the application, where the update manager
    (src/telegram/updates) puts them in order with sequence boxes, asks for the
    differences it has missed, stores its position and runs a worker per channel.
    Outgoing requests take the same way back.  All values are TL-encoded with
    src/bin.  The authorization key comes from a key exchange (src/exchange, with
    the messages of src/mt and the payloads, hashes and checks of src/crypto); a
    connection in PFS mode makes a temporary key and binds it to the permanent one
    before it is used (src/mtproto connect.go, bind.go, pfs.go).

    ** Files

    - Prelude.v: Go results (Ok, Err, Panic), the error values, the state monad
      [GoM] with its notation, the calculus [post] and [keeps] of its
      postconditions, machine integers, byte lists, shared tactics.
    - Io.v: io.Reader, io.ReadFull, io.Writer.
    - Bin.v: src/bin, the Buffer with its Put and read methods, TL strings, bit
      fields; class [LawfulObject] is the contract of an encoder and a decoder.
    - MessageID.v: src/proto/message_id.go, ids, their generator, the replay buffer.
    - Proto.v: src/proto container.go, rpc_result.go, unencrypted_message.go, gzip.go.
    - Tgerr.v: src/tgerr, errors of remote calls and flood waits.
    - Schema.v: the messages of the key exchange (src/mt), each a lawful object.
    - Codec.v: src/proto/codec and src/transport connection.go, detect_codec.go;
      class [LawfulCodec] says what becomes of every payload, which is what a
      connection relies on.
    - Tg.v: the classes of src/tg that updates are made of, their classifier, and
      the conversions of src/telegram/updates (utils.go, sort_pts.go, conv_shorts.go,
      message_peer.go, short_peer.go).
    - Storage.v: storage.go, storage_mem.go, access_hash_feeder.go, min_backfill.go.
    - Sequence.v: gap_check.go, gap_buffer.go, update.go, sequence_box.go; class
      [Applier] is the state that updates are applied to.
    - Updates.v: state.go and state_apply.go, the state of an account.
    - Channel.v: state_channel.go, the worker of a channel.
    - Workers.v: the queues between account and workers and the semaphore
      (channel_diff_semaphore.go), as a system of interleaved steps.
    - Manager.v: manager.go, loading of the state and routing of updates.
    - Hash.v: SHA-1 and SHA-256, executable.
    - Keys.v: key schedules, authorization keys, nonces, random numbers of src/crypto.
    - Cipher.v: the MTProto 2.0 envelope of src/crypto.
    - Exchange.v: payloads of the key exchange: hashed data, RSA paddings, bind messages.
    - Dh.v: src/crypto check_gp.go, dh.go, check_dh.go.
    - Pq.v: src/crypto/pq.go.
    - Flow.v: src/exchange, the flows of the client and the server.
    - Salts.v: src/mtproto/salts.
    - Rpc.v: src/rpc engine.go and ack.go, as interleaved steps of any number of
      calls and notifications.
    - Conn.v: the message paths of src/mtproto and the service messages of src/mt.
    - Lifecycle.v: options, connecting, binding of temporary keys, Invoke, the loops
      and Run of src/mtproto.
    - Fileid.v: src/fileid, Bot API file identifiers, with the peer numbers of
      src/constant.
    - Srp.v: src/crypto/srp, the password login.
    - Download.v: src/telegram/downloader, parallel and streamed downloads as
      interleaved steps of their threads, with the verifier of hashes.
    - Cdn.v: the CDN side of the downloader: redirection, request plans, decryption
      and verification of windows.
    - Upload.v: src/telegram/uploader, part sizes, small files, and big files as
      interleaved steps of the reader and the senders.
    - Mtproxy.v: src/mtproxy, secrets, obfuscated2 on both sides, fake TLS; class
      [Reliable] is what a layer promises to the one above it.
    - Pool.v: src/pool, the connections to a data center as interleaved steps of
      callers and connections.
    - Entity.v: src/telegram/message/entity, the builder of messages with entities,
      with UTF-8 and the lengths in UTF-16.
    - Html.v: src/telegram/message/html, the parser of styled text and its
      unescaping in place.

    Definitions carry the names of the Go functions they translate.  A method
    with a mutable receiver is a function on the receiver's value; a panic is a
    result of its own, so that its absence is a theorem.  Integers are [Z], wrapped
    where the Go type wraps.

    ** What the theorems show

    - Round trips: TL values (Bin.buffer_roundtrip), containers, gzip objects,
      frames of every codec and whole connections (Codec.transports_lawful,
      connection_roundtrip), envelopes (Cipher.cipher_roundtrip), messages and
      payloads of the exchange, RSA paddings, bind messages, outgoing messages
      (Conn.conn_outgoing_roundtrip).
    - Safety on arbitrary input: reads, containers and frames never panic and stay
      within their bounds; a decrypted envelope passed every check; a connection
      acts only on authentic messages (Conn.conn_only_authentic); a corrupted frame
      or a decompression bomb is rejected; a client that gets a key has checked
      nonces, group and hash (Flow.exchange_client_checked).
    - Functional behaviour: updates are applied exactly once and in order
      (Sequence.history_applied_in_order, Updates.common_updates_in_order), a result
      of the server reaches its request (Conn.conn_delivers_result), both sides of
      the exchange get the same key (Flow.exchange_agreement), a temporary key is
      bound before it is used and keys are dropped only for a reason
      (Lifecycle.run_binds_before_use, bind_policy), messages are acknowledged once
      (Lifecycle.acks_sent_once), salts, message ids, sequence numbers,
      factorization, Diffie-Hellman checks.
    - State of an account: the stored positions follow the ones in memory
      (Updates.updates_run_persists, Channel.channel_run_persists), boxes hold
      values of their kind (Updates.boxes_typed), a restart continues
      (Manager.restart_continues).
    - Concurrency: in every interleaving an answer reaches its own call once, no
      channel is closed twice, nothing leaks, a closed engine refuses, an answered
      call can return (Rpc.v); pushes to channel workers can proceed and differences
      are limited (Workers.v); the cache of Diffie-Hellman parameters is transparent
      (Dh.v).
    - Identifiers and passwords: a file identifier is read back with the location it
      was made for, except for the hash of a web file, and any text is handled (Fileid.fileid_roundtrip,
      chat_photo_location, decode_any_text); the answer to a password challenge is
      the one the server of the protocol expects (Srp.srp_login).
    - Files: in every interleaving a download that ends without an error wrote the
      file and an upload sent each of its parts once; they do not get stuck while
      the server answers (Download.download_parallel_complete,
      Upload.upload_big_complete, upload_big_progress); a verified part has the hash
      of the server (Download.download_verified); a chunk from an honest CDN,
      which encrypts the file in counter mode, is the one of the file
      (Cdn.cdn_chunk_honest).
    - Proxies: obfuscated2, alone or over fake TLS, delivers what is written and
      tells the server protocol and data center, from the handshake on
      (Mtproxy.obfs_session, tls_session); the handshake of fake TLS accepts exactly
      the answers of the proxy to the hello that was sent (server_hello_checked).
    - Pools: a connection has one user, and the count of connections keeps its limit
      and never gets negative (Pool.pool_exclusive, pool_limit).
    - Messages: a message of blocks has their text and the entities that cover them,
      in any use entities cover whole characters (Entity.complete_blocks,
      builder_positions); HTML accepts the inputs whose end tags close the
      innermost open element, and its entities are nested (Html.html_structure); two routines that work in place
      compute what their recursions on values do (Html.unescape_in_place,
      Entity.shrink_equivalence).
    - Defects: updates of a difference can be lost or ask for differences without
      end, workers and account can block each other, stored channels can be
      forgotten (Updates.v, Workers.v, Manager.v); a plaintext frame can crash the
      client of a key exchange, and two of its reads have no deadline (Flow.v); the
      replay buffer forgets ids, the id generator can repeat itself, a failed
      exchange answer is not reported, callbacks can run late, packed objects nest
      without bound. A file identifier loses the access hash of a web file and runs of 256 zeros
      (Fileid.v).  A CDN can append bytes to the end of a file, a source that breaks
      off is uploaded as complete, the length of a stream may never be sent (Cdn.v,
      Upload.v); long writes break the records of fake TLS (Mtproxy.v); a pool can
      lose a living connection in two ways, and a request can miss the signal that a
      connection died (Pool.v); trimming can shorten the wrong entity, and a tag
      without attributes sees those of the tag before (Entity.v, Html.v).

    ** Bounds and fuel

    Loops that read are iterated as often as there are bytes: appendPayload at
    most once per remaining byte, RSAPad, DecomposePQ and the generator of the
    server once per random byte and one more, which always suffices because an
    iteration consumes at least 16 of them (a finite source is the beginning of
    the one of the operating system: what DecomposePQ finds does not depend on the
    bytes behind it, and that all bytes are used up means that the loop of the
    code goes on, without end for a prime); the reads of a flow once per frame and
    one more.  The theorems exclude the panic that running out of fuel is.  The
    inner loops of DecomposePQ are bounded by their loop conditions, and shown to
    end before the bound.  The depth of handleMessage and of getDifference is the
    depth of the call stack: their theorems hold for every depth, or for every depth
    beyond the number of answers that are not final.  Loops that wait for events are
    functions of the list of events.  Loops over text and
    the unescaping of HTML run once per byte; a read of fake TLS skips at most as
    many records as its theorems allow to be without data.

    ** Parameters

    AES-IGE ([IGE], [LawfulIGE]), crypto/subtle-style xor ([XorLib], [LawfulXor]),
    the gzip library ([gzip_lib], [GzipRoundtrip]), the growth of Go slices
    ([GrowSlice]), the RSA key law ([RSAKeyPair]), big.Int.ProbablyPrime, sort.Sort
    ([LawfulSort]), the storage and the access hashes of the application
    ([LawfulStorage], [LawfulHasher]), the generator of a server ([LawfulRNG]).  What
    remote calls answer, what handlers return and what clocks show are lists or
    functions that the theorems quantify over.  PBKDF2, the AES block function of
    counter mode, the hello message of uTLS, the tokens of an HTML document and the
    results of url.Parse are parameters without laws ([LongSort] has to permute); the
    servers of files are relations or functions with the law of an honest server.  Each law has an instance that
    the witnesses of the theorems use.

    ** Not modelled, and the plan

    Not modelled: generated schema code beyond the messages named above; the client
    of src/telegram, its authentication flows and the builders of requests,
    which are sequences of remote calls; src/telegram/dcs, listeners and
    websockets, which dial sockets; the import of sessions of other clients; tools,
    tests, logging; the goroutine that reads frames.  They need models of the schema
    of the API or of the operating system first. *)

From Stdlib Require Export ZArith Lia.
From coqutil Require Export Byte Word.LittleEndianList.
From stdpp Require Export base list strings gmap sorting.

#[global] Open Scope Z_scope.

(** The type of bytes itself: coqutil's [byte] notation carries a cast. *)
Abbreviation byte := Corelib.Init.Byte.byte.

(** ** Go values *)

(** Two records of src/tg that an error of the downloader carries: the hash of a
    window of a file, and the redirection to a CDN. *)
Record FileHash : Type := mkFileHash { fh_Offset : Z; fh_Limit : Z; fh_Hash : list Corelib.Init.Byte.byte }.
Record FileCDNRedirect : Type := mkRedirect {
  DCID : Z; FileToken : list Corelib.Init.Byte.byte; EncryptionKey : list Corelib.Init.Byte.byte;
  EncryptionIv : list Corelib.Init.Byte.byte; FileHashes : list FileHash }.

(** The comma-ok / error results of the modelled Go code.  [error] closes
    Go's open [error] interface over the errors the modelled packages can
    build; [Wrap] is [errors.Wrap] of github.com/go-faster/errors. *)
Inductive error : Type :=
| EOF                                        (* io.EOF *)
| ErrUnexpectedEOF                           (* io.ErrUnexpectedEOF *)
| InvalidLengthError (Length : Z) (Where : string)
| UnexpectedIDErr (ID : Z)
| Errorf (msg : string)                      (* errors.New / errors.Errorf *)
| Wrap (e : error) (msg : string)
| MultiErr (e1 e2 : error)                   (* multierr.Append *)
| invalidMsgLenErr (n : Z)
| alignedPayloadExpectedErr (expected : Z)
| ProtocolErr (Code : Z)
| ErrProtocolHeaderMismatch
| errSeqNoMismatch
| errCRCMismatch
| DecompressionBombErr (Compressed Decompressed : Z)
| Canceled                                   (* context.Canceled *)
| DeadlineExceeded                           (* context.DeadlineExceeded *)
| ErrEngineClosed
| RetryLimitReachedErr (Retries : Z)
| errRejected
| badMessageError (Code NewSalt : Z)
| RPCError (Code : Z) (Message : list byte)  (* tgerr.New(code, message) *)
| ErrTransportNotReady
| ErrPFSReconnectRequired
| ErrPFSDropKeysRequired
| ErrKeyFingerprintNotFound
| errChannelInaccessible
| ServerExchangeError (Code : Z) (e : error)
| UnexpectedEncryptedError (AuthKeyID Frame : list byte)
| RedirectError (Redirect : FileCDNRedirect)
| ErrHashMismatch
| OtherErr (code : Z).                       (* an error made by a caller *)

#[global] Instance byte_eq_dec : EqDecision byte.
Proof. intros x y. unfold Decision. apply Byte.byte_eq_dec. Defined.

#[global] Instance FileHash_eq_dec : EqDecision FileHash.
Proof. solve_decision. Defined.
#[global] Instance FileCDNRedirect_eq_dec : EqDecision FileCDNRedirect.
Proof. solve_decision. Defined.

#[global] Instance error_eq_dec : EqDecision error.
Proof. solve_decision. Defined.

(** The cause at the bottom of a chain of [errors.Wrap]. *)
Fixpoint cause (e : error) : error :=
  match e with Wrap e' _ => cause e' | _ => e end.

(** errors.Is for the errors of this development. *)
Fixpoint Is (err target : error) : bool :=
  bool_decide (err = target) ||
  match err with
  | Wrap e _ | ServerExchangeError _ e => Is e target
  | MultiErr e1 e2 => Is e1 target || Is e2 target
  | _ => false
  end.

(** What a Go call does: return normally, return an error, or panic. *)
Inductive outcome (A : Type) : Type :=
| Ok (a : A)
| Err (e : error)
| Panic.
Arguments Ok {A} a.
Arguments Err {A} e.
Arguments Panic {A}.

(** A Go function with a mutable receiver of type [S]: the receiver's new
    value is returned on every branch, also with an error. *)
Definition GoM (S A : Type) : Type := S -> outcome A * S.

Definition ret {S A} (a : A) : GoM S A := fun s => (Ok a, s).
Definition fail {S A} (e : error) : GoM S A := fun s => (Err e, s).
Definition bind {S A B} (m : GoM S A) (k : A -> GoM S B) : GoM S B :=
  fun s =>
    match m s with
    | (Ok a, s') => k a s'
    | (Err e, s') => (Err e, s')
    | (Panic, s') => (Panic, s')
    end.
Definition get {S} : GoM S S := fun s => (Ok s, s).
Definition put {S} (s : S) : GoM S unit := fun _ => (Ok tt, s).
Definition modify {S} (f : S -> S) : GoM S unit := fun s => (Ok tt, f s).

(** [if err := m; err != nil { return errors.Wrap(err, msg) }] *)
Definition wrapping {S A} (msg : string) (m : GoM S A) : GoM S A :=
  fun s =>
    match m s with
    | (Err e, s') => (Err (Wrap e msg), s')
    | r => r
    end.

Declare Scope go_scope.
Delimit Scope go_scope with go.
Notation "'let!' x ':=' m 'in' k" := (bind m (fun x => k))
  (at level 10, x pattern, m at level 100, k at level 200,
   format "'[v' 'let!'  x  ':='  m  'in' '/' k ']'") : go_scope.
Notation "m ;;! k" := (bind m (fun _ => k))
  (at level 100, right associativity, format "'[v' m  ';;!' '/' k ']'") : go_scope.
#[global] Open Scope go_scope.

(** The monad laws the proofs rewrite with. *)
Lemma bind_ret_l {S A B} (a : A) (k : A -> GoM S B) s : bind (ret a) k s = k a s.
Proof. reflexivity. Qed.

Lemma bind_ok {S A B} (m : GoM S A) (k : A -> GoM S B) a s s' :
  m s = (Ok a, s') -> bind m k s = k a s'.
Proof. unfold bind. now intros ->. Qed.

Lemma bind_err {S A B} (m : GoM S A) (k : A -> GoM S B) e s s' :
  m s = (Err e, s') -> bind m k s = (Err e, s').
Proof. unfold bind. now intros ->. Qed.

Lemma bind_inv_ok {S A B} (m : GoM S A) (k : A -> GoM S B) s b s'' :
  bind m k s = (Ok b, s'') -> exists a s', m s = (Ok a, s') /\ k a s' = (Ok b, s'').
Proof. unfold bind. destruct (m s) as [[a|e|] s'] eqn:E; naive_solver. Qed.

Lemma bind_assoc {S A B C} (m : GoM S A) (f : A -> GoM S B) (g : B -> GoM S C) s :
  bind (bind m f) g s = bind m (fun a => bind (f a) g) s.
Proof. unfold bind. destruct (m s) as [[a|e|] s']; reflexivity. Qed.

(** ** Postconditions *)

(** [post m s Q E]: from [s] the call does not panic, and establishes [Q] when it
    returns normally and [E] when it returns an error. *)
Definition post {S A} (m : GoM S A) (s : S) (Q : A -> S -> Prop) (E : error -> S -> Prop) : Prop :=
  match m s with
  | (Ok a, s') => Q a s'
  | (Err e, s') => E e s'
  | (Panic, _) => False
  end.

Section Post.
Context {S : Type}.
Implicit Types s : S.

Lemma post_ret {A} (a : A) s (Q : A -> S -> Prop) E : Q a s -> post (ret a) s Q E.
Proof. done. Qed.

Lemma post_fail {A} e s (Q : A -> S -> Prop) (E : error -> S -> Prop) : E e s -> post (fail e) s Q E.
Proof. done. Qed.

Lemma post_get s (Q : S -> S -> Prop) E : Q s s -> post get s Q E.
Proof. done. Qed.

Lemma post_modify f s (Q : unit -> S -> Prop) E : Q tt (f s) -> post (modify f) s Q E.
Proof. done. Qed.

Lemma post_mono {A} (m : GoM S A) s (Q Q' : A -> S -> Prop) (E E' : error -> S -> Prop) :
  post m s Q E -> (forall a s', Q a s' -> Q' a s') -> (forall e s', E e s' -> E' e s') -> post m s Q' E'.
Proof. unfold post. destruct (m s) as [[] ?]; auto. Qed.

Lemma post_bind {A B} (m : GoM S A) (k : A -> GoM S B) s (Q : B -> S -> Prop) E :
  post m s (fun a s' => post (k a) s' Q E) E -> post (bind m k) s Q E.
Proof. unfold post, bind. destruct (m s) as [[] ?]; auto. Qed.

(** Composition through an intermediate assertion. *)
Lemma post_seq {A B} (m : GoM S A) (k : A -> GoM S B) s (R : A -> S -> Prop) (Q : B -> S -> Prop) E :
  post m s R E -> (forall a s', R a s' -> post (k a) s' Q E) -> post (bind m k) s Q E.
Proof. intros Hm Hk. apply post_bind. eapply post_mono; [exact Hm|exact Hk|auto]. Qed.

Lemma post_wrapping {A} msg (m : GoM S A) s (Q : A -> S -> Prop) (E : error -> S -> Prop) :
  post m s Q (fun e s' => E (Wrap e msg) s') -> post (wrapping msg m) s Q E.
Proof. unfold post, wrapping. destruct (m s) as [[] ?]; auto. Qed.

(** A call that establishes its postcondition and has no error returns a value. *)
Lemma post_ok {A} (m : GoM S A) s (Q : A -> S -> Prop) :
  post m s Q (fun _ _ => False) -> exists a s', m s = (Ok a, s') /\ Q a s'.
Proof. unfold post. destruct (m s) as [[a|e|] s']; [|by intros []|by intros []]. intros H. by exists a, s'. Qed.

(** [keeps P m]: from every state with [P] the call does not panic and [P] holds
    afterwards, whatever it returns. *)
Definition keeps {A} (P : S -> Prop) (m : GoM S A) : Prop :=
  forall s, P s -> post m s (fun _ => P) (fun _ => P).

Lemma keeps_ret {A} P (a : A) : keeps P (ret a).
Proof. intros s Hs. exact Hs. Qed.
Lemma keeps_get P : keeps P get.
Proof. intros s Hs. exact Hs. Qed.
Lemma keeps_fail {A} P e : keeps P (@fail S A e).
Proof. intros s Hs. exact Hs. Qed.
Lemma keeps_modify P f : (forall s, P s -> P (f s)) -> keeps P (modify f).
Proof. intros Hf s Hs. by apply Hf. Qed.
Lemma keeps_bind {A B} P (m : GoM S A) (k : A -> GoM S B) :
  keeps P m -> (forall a, keeps P (k a)) -> keeps P (bind m k).
Proof. intros Hm Hk s Hs. eapply post_seq; [by apply Hm|]. intros a s' Hs'. by apply Hk. Qed.
Lemma keeps_wrapping {A} P msg (m : GoM S A) : keeps P m -> keeps P (wrapping msg m).
Proof. intros Hm s Hs. apply post_wrapping. by apply Hm. Qed.
End Post.

Create HintDb keeps.
#[export] Hint Resolve keeps_ret keeps_get keeps_fail keeps_wrapping : keeps.

(** Takes a composed call apart, down to the calls the database knows. *)
Ltac solve_keeps :=
  repeat first
    [ solve [auto 3 with keeps nocore]
    | apply keeps_bind; [|intros ?]
    | match goal with
      | |- keeps _ (if ?b then _ else _) => destruct b
      | |- keeps _ (match ?x with _ => _ end) => destruct x
      end ].

(** ** Machine integers *)

(** Conversions to the unsigned and the signed [w]-bit types. *)
Definition uwrap (w z : Z) : Z := z mod 2 ^ w.
Definition swrap (w z : Z) : Z := (z + 2 ^ (w - 1)) mod 2 ^ w - 2 ^ (w - 1).

Abbreviation u8 := (uwrap 8).
Abbreviation u32 := (uwrap 32).
Abbreviation u64 := (uwrap 64).
Abbreviation i32 := (swrap 32).
Abbreviation i64 := (swrap 64).

Definition is_unsigned (w z : Z) : Prop := 0 <= z < 2 ^ w.
Definition is_signed (w z : Z) : Prop := - 2 ^ (w - 1) <= z < 2 ^ (w - 1).
#[global] Instance is_unsigned_dec w z : Decision (is_unsigned w z).
Proof. unfold is_unsigned. apply _. Defined.
#[global] Instance is_signed_dec w z : Decision (is_signed w z).
Proof. unfold is_signed. apply _. Defined.

Abbreviation int32 := (is_signed 32).
Abbreviation int64 := (is_signed 64).
Abbreviation uint32 := (is_unsigned 32).
Abbreviation uint64 := (is_unsigned 64).

Lemma pow2_half w : 0 < w -> 2 ^ w = 2 * 2 ^ (w - 1).
Proof.
  intros. replace w with (Z.succ (w - 1)) at 1 by lia.
  rewrite Z.pow_succ_r by lia. reflexivity.
Qed.

Lemma swrap_id w z : 0 < w -> is_signed w z -> swrap w z = z.
Proof.
  intros Hw Hz. unfold swrap, is_signed in *. pose proof (pow2_half w Hw).
  rewrite Z.mod_small by lia. lia.
Qed.

Lemma uwrap_id w z : is_unsigned w z -> uwrap w z = z.
Proof. apply Z.mod_small. Qed.

Lemma swrap_range w z : 0 < w -> is_signed w (swrap w z).
Proof.
  intros Hw. unfold swrap, is_signed. pose proof (pow2_half w Hw).
  pose proof (Z.mod_pos_bound (z + 2 ^ (w - 1)) (2 ^ w)). lia.
Qed.

Lemma uwrap_range w z : 0 <= w -> is_unsigned w (uwrap w z).
Proof. intros Hw. apply Z.mod_pos_bound. lia. Qed.

Lemma swrap_uwrap w z : 0 < w -> swrap w (uwrap w z) = swrap w z.
Proof.
  intros Hw. unfold swrap, uwrap. rewrite Zplus_mod_idemp_l. reflexivity.
Qed.

Lemma uwrap_swrap w z : 0 < w -> uwrap w (swrap w z) = uwrap w z.
Proof.
  intros Hw. unfold swrap, uwrap. rewrite Zminus_mod_idemp_l. f_equal. lia.
Qed.

(** The Go signed integer that re-reads its own unsigned encoding. *)
Lemma is_signed_shiftr w z : 0 < w -> is_signed w z <-> Z.shiftr z (w - 1) = 0 \/ Z.shiftr z (w - 1) = -1.
Proof.
  intros Hw. rewrite Z.shiftr_div_pow2 by lia. unfold is_signed.
  pose proof (Z.pow_pos_nonneg 2 (w - 1) ltac:(lia) ltac:(lia)) as Hp.
  pose proof (Z.div_mod z (2 ^ (w - 1)) ltac:(lia)). pose proof (Z.mod_pos_bound z (2 ^ (w - 1)) Hp).
  generalize dependent (z / 2 ^ (w - 1)). generalize dependent (z mod 2 ^ (w - 1)).
  generalize dependent (2 ^ (w - 1)). intros m Hm r Hr q ->. split; [|intros [-> | ->]; lia].
  intros [H1 H2]. assert (-1 <= q < 1); [|lia]. split; nia.
Qed.

Lemma is_signed_lor w a b : 0 < w -> is_signed w a -> is_signed w b -> is_signed w (Z.lor a b).
Proof.
  intros Hw. rewrite !is_signed_shiftr, Z.shiftr_lor by done.
  intros [-> | ->] [-> | ->]; simpl; auto.
Qed.

Lemma swrap_uwrap_id w z : 0 < w -> is_signed w z -> swrap w (uwrap w z) = z.
Proof. intros. rewrite swrap_uwrap by done. now apply swrap_id. Qed.

(** ** Bytes *)

(** [make([]byte, n)]: zero bytes; the callers guard against [n < 0]. *)
Definition zeros (n : Z) : list byte := replicate (Z.to_nat n) Byte.x00.

Definition zlen {A} (l : list A) : Z := Z.of_nat (length l).
Arguments zlen {A} l : simpl never.

(** The slice expression [l[lo:hi]] for bounds that are in range. *)
Definition slice {A} (lo hi : Z) (l : list A) : list A :=
  take (Z.to_nat (hi - lo)) (drop (Z.to_nat lo) l).

Lemma zlen_nonneg {A} (l : list A) : 0 <= zlen l.
Proof. unfold zlen. lia. Qed.
Lemma zlen_app {A} (l k : list A) : zlen (l ++ k) = zlen l + zlen k.
Proof. unfold zlen. rewrite length_app. lia. Qed.
Lemma zlen_cons {A} (x : A) l : zlen (x :: l) = 1 + zlen l.
Proof. unfold zlen. simpl. lia. Qed.
Lemma zlen_nil {A} : zlen (@nil A) = 0.
Proof. reflexivity. Qed.
Lemma zlen_zeros n : 0 <= n -> zlen (zeros n) = n.
Proof. intros. unfold zlen, zeros. rewrite length_replicate. lia. Qed.
Lemma zlen_le_split n z : zlen (le_split n z) = Z.of_nat n.
Proof. unfold zlen. now rewrite length_le_split. Qed.
Lemma zlen_le_split_3 z : zlen (le_split 3 z) = 3.
Proof. apply (zlen_le_split 3). Qed.
Lemma zlen_le_split_4 z : zlen (le_split 4 z) = 4.
Proof. apply (zlen_le_split 4). Qed.
Lemma zlen_le_split_8 z : zlen (le_split 8 z) = 8.
Proof. apply (zlen_le_split 8). Qed.
Lemma zlen_take {A} n (l : list A) :
  0 <= n <= zlen l -> zlen (take (Z.to_nat n) l) = n.
Proof. unfold zlen. rewrite length_take. lia. Qed.
Lemma zlen_drop {A} n (l : list A) :
  0 <= n <= zlen l -> zlen (drop (Z.to_nat n) l) = zlen l - n.
Proof. unfold zlen. rewrite length_drop. lia. Qed.

Lemma take_zlen_app {A} (l k : list A) n : n = zlen l -> take (Z.to_nat n) (l ++ k) = l.
Proof. intros ->. unfold zlen. rewrite Nat2Z.id. apply take_app_length. Qed.
Lemma drop_zlen_app {A} (l k : list A) n : n = zlen l -> drop (Z.to_nat n) (l ++ k) = k.
Proof. intros ->. unfold zlen. rewrite Nat2Z.id. apply drop_app_length. Qed.

Create Rewrite HintDb zlen.
#[export] Hint Rewrite @zlen_app @zlen_cons @zlen_nil zlen_le_split_3 zlen_le_split_4 zlen_le_split_8 : zlen.

(** Simplifies lengths of concrete list shapes and calls [lia]. *)
Ltac zlen_lia :=
  autorewrite with zlen in *;
  repeat match goal with
    | l : list _ |- _ =>
        lazymatch goal with
        | _ : 0 <= zlen l |- _ => fail
        | _ => pose proof (zlen_nonneg l)
        end
    end; try rewrite zlen_zeros in * by lia; lia.

(** ** Little-endian words *)

Lemma le_split_3_bytes z :
  le_split 3 z = [byte.of_Z z; byte.of_Z (Z.shiftr z 8); byte.of_Z (Z.shiftr z 16)].
Proof. unfold le_split. rewrite Z.shiftr_shiftr by lia. reflexivity. Qed.

#[global] Opaque le_split le_combine.

Lemma le_combine_split_unsigned n z :
  is_unsigned (Z.of_nat n * 8) z -> le_combine (le_split n z) = z.
Proof. intros H. rewrite le_combine_split. now apply Z.mod_small. Qed.

Lemma le_combine_range n bs :
  length bs = n -> is_unsigned (Z.of_nat n * 8) (le_combine bs).
Proof. intros <-. unfold is_unsigned. pose proof (le_combine_bound bs). rewrite Z.mul_comm. lia. Qed.

Lemma le_split_uwrap n z : le_split n (uwrap (Z.of_nat n * 8) z) = le_split n z.
Proof. unfold uwrap. now rewrite <- le_split_mod. Qed.

(** Case analysis on the tests of the goal, with their meaning in context. *)
Ltac case_bool :=
  repeat match goal with
    | |- context [if ?b then _ else _] =>
        lazymatch type of b with
        | bool => let E := fresh "E" in destruct b eqn:E
        end
    end.

Ltac bool_to_prop :=
  repeat match goal with
    | H : (_ && _) = true |- _ => apply andb_true_iff in H; destruct H
    | H : (_ || _) = false |- _ => apply orb_false_iff in H; destruct H
    | H : negb _ = true |- _ => apply negb_true_iff in H
    | H : negb _ = false |- _ => apply negb_false_iff in H
    | H : (_ <? _) = true |- _ => apply Z.ltb_lt in H
    | H : (_ <? _) = false |- _ => apply Z.ltb_ge in H
    | H : (_ <=? _) = true |- _ => apply Z.leb_le in H
    | H : (_ <=? _) = false |- _ => apply Z.leb_gt in H
    | H : (_ >? _) = true |- _ => rewrite Z.gtb_ltb in H; apply Z.ltb_lt in H
    | H : (_ >? _) = false |- _ => rewrite Z.gtb_ltb in H; apply Z.ltb_ge in H
    | H : (_ =? _) = true |- _ => apply Z.eqb_eq in H
    | H : (_ =? _) = false |- _ => apply Z.eqb_neq in H
    end.

(** ** Lists of goroutines *)

(** A list of things that each goroutine holds, after one of them has changed. *)
Lemma flat_map_insert {A B} (f : A -> list B) (l : list A) i x old :
  l !! i = Some old -> f old ++ flat_map f (<[i := x]> l) ≡ₚ f x ++ flat_map f l.
Proof.
  revert i. induction l as [|y l IH]; intros [|i] Hi; simpl in *; [done..| |].
  - injection Hi as ->. rewrite !app_assoc. f_equiv. apply Permutation_app_comm.
  - rewrite !app_assoc, (Permutation_app_comm (f old)), (Permutation_app_comm (f x)), <- !app_assoc. f_equiv. by apply IH.
Qed.
