(* ===== verification/Io.v ===== *)
(** * io: readers and writers

    The parts of Go's package io that the modelled packages use: a reader is
    the bytes it delivers and the error that ends them, [ReadFull] is
    io.ReadFull on it; a writer is what was written and how much it still
    takes. *)
From S2P Require Import Prelude.

(** What a reader delivers: the bytes, then the error of every later read. *)
Record Stream : Type := mkStream { incoming : list byte; ending : error }.

(** io.ReadFull into [n] bytes: the bytes read and the error.  A stream that
    ends with io.EOF after some but not all bytes gives io.ErrUnexpectedEOF. *)
Definition ReadFull (n : Z) (r : Stream) : list byte * option error * Stream :=
  let got := take (Z.to_nat n) (incoming r) in
  let r' := mkStream (drop (Z.to_nat n) (incoming r)) (ending r) in
  if zlen got =? n then (got, None, r')
  else if zlen got =? 0 then (got, Some (ending r), r')
  else if decide (ending r = EOF) then (got, Some ErrUnexpectedEOF, r')
  else (got, Some (ending r), r').

(** What was written; [room] is how much can still be written and the error
    that follows, or [None] for a writer that does not fail. *)
Record Sink : Type := mkSink { sent : list byte; room : option (Z * error) }.

Definition SinkWrite (p : list byte) : GoM Sink unit := fun w =>
  match room w with
  | None => (Ok tt, mkSink (sent w ++ p) None)
  | Some (n, e) =>
      if zlen p <=? n then (Ok tt, mkSink (sent w ++ p) (Some (n - zlen p, e)))
      else (Err e, mkSink (sent w ++ take (Z.to_nat n) p) (Some (0, e)))
  end.

Lemma ReadFull_app n bs rest e :
  n = zlen bs -> ReadFull n (mkStream (bs ++ rest) e) = (bs, None, mkStream rest e).
Proof.
  intros ->. unfold ReadFull; simpl. rewrite take_zlen_app, drop_zlen_app by done.
  by rewrite Z.eqb_refl.
Qed.

Lemma ReadFull_spec n r got err r' :
  0 <= n -> ReadFull n r = (got, err, r') ->
  incoming r = got ++ incoming r' /\ ending r' = ending r /\
  match err with
  | None => zlen got = n
  | Some e => zlen got < n /\ incoming r' = [] /\ (e = ending r \/ e = ErrUnexpectedEOF)
  end.
Proof.
  intros Hn. unfold ReadFull.
  assert (zlen (take (Z.to_nat n) (incoming r)) <> n ->
          zlen (take (Z.to_nat n) (incoming r)) < n /\ drop (Z.to_nat n) (incoming r) = []) as Hshort.
  { unfold zlen. rewrite length_take. intros. split; [lia|]. apply drop_ge. lia. }
  destruct (Z.eqb_spec (zlen (take (Z.to_nat n) (incoming r))) n) as [E|E].
  - intros [= <- <- <-]. simpl. by rewrite take_drop.
  - destruct (Hshort E) as [Hlt Hnil]. clear Hshort E. destruct (_ =? 0); [|destruct (decide _)]; intros [= <- <- <-];
      simpl; rewrite take_drop; naive_solver.
Qed.

Lemma SinkWrite_ok p s : SinkWrite p (mkSink s None) = (Ok tt, mkSink (s ++ p) None).
Proof. done. Qed.

(** A read of [n] bytes that must succeed or end the caller:
    [if _, err := io.ReadFull(r, x); err != nil { return err }]. *)
Definition must_read (n : Z) : GoM Stream (list byte) := fun r =>
  match ReadFull n r with
  | (got, None, r') => (Ok got, r')
  | (_, Some e, r') => (Err e, r')
  end.

Lemma must_read_app n bs rest e :
  n = zlen bs -> must_read n (mkStream (bs ++ rest) e) = (Ok bs, mkStream rest e).
Proof. intros H. unfold must_read. by rewrite ReadFull_app. Qed.

Lemma must_read_inv n r got r' :
  0 <= n -> must_read n r = (Ok got, r') ->
  incoming r = got ++ incoming r' /\ zlen got = n /\ ending r' = ending r.
Proof.
  intros Hn. unfold must_read. destruct (ReadFull n r) as [[g err] r1] eqn:E.
  destruct (ReadFull_spec n r g err r1 Hn E) as (Hin & Hend & Herr).
  destruct err; [done|]. intros [= <- <-]. done.
Qed.

Lemma must_read_post n r : 0 <= n ->
  post (must_read n) r
    (fun got r' => incoming r = got ++ incoming r' /\ zlen got = n /\ ending r' = ending r)
    (fun e r' => ending r' = ending r /\ zlen (incoming r) < n /\ (e = ending r \/ e = ErrUnexpectedEOF)).
Proof.
  intros Hn. unfold post, must_read. destruct (ReadFull n r) as [[g err] r1] eqn:E.
  destruct (ReadFull_spec n r g err r1 Hn E) as (Hin & Hend & Herr).
  destruct err as [e|]; [|done]. destruct Herr as (Hlt & Hnil & He). rewrite Hin, Hnil, app_nil_r. done.
Qed.

Lemma must_read_no_panic n r : fst (must_read n r) <> Panic.
Proof. unfold must_read. destruct (ReadFull n r) as [[g [e|]] r']; done. Qed.
