(* ===== verification/MessageID.v ===== *)
(** * proto/message_id.go: message identifiers

    A message id is an int64 whose upper half is the unix time in seconds and
    whose lower half is the nanosecond part with its two lowest bits replaced by
    the message type.  [Gen] is [MessageIDGen], [Buf] is [MessageIDBuf]; both are
    used under their mutex, so each call is one step on the state.  Unix
    nanoseconds and times are plain integers; [time_nano] bounds the instants
    (1970 to 2038) whose id fits the int64. *)
From S2P Require Import Prelude.

Definition yieldClient : Z := 0.
Definition yieldServerResponse : Z := 1.
Definition yieldFromServer : Z := 3.
Definition messageIDModulo : Z := 4.

Definition newMessageID (nowNano yield : Z) : Z :=
  let nano := 10 ^ 9 in
  let intPart := Z.quot nowNano nano in
  let fracPart := Z.rem nowNano nano in
  let fracPart := Z.land fracPart (- messageIDModulo) in
  let fracPart := i64 (fracPart + yield) in
  Z.lor (i64 (Z.shiftl intPart 32)) fracPart.

Inductive MessageType : Type :=
| MessageUnknown | MessageFromClient | MessageServerResponse | MessageFromServer.
#[export] Instance MessageType_eq_dec : EqDecision MessageType.
Proof. solve_decision. Defined.

(** [MessageID.Time] in unix nanoseconds: time.Unix(intPart, fracPart). *)
Definition Time (id : Z) : Z :=
  let intPart := Z.shiftr id 32 in
  let fracPart := i32 id in
  intPart * 10 ^ 9 + fracPart.

Definition Type_ (id : Z) : MessageType :=
  let r := Z.rem id messageIDModulo in
  if r =? yieldClient then MessageFromClient
  else if r =? yieldServerResponse then MessageServerResponse
  else if r =? yieldFromServer then MessageFromServer
  else MessageUnknown.

Definition NewMessageIDNano (nano : Z) (typ : MessageType) : Z :=
  let yield :=
    match typ with
    | MessageFromClient => yieldClient
    | MessageFromServer => yieldFromServer
    | MessageServerResponse => yieldServerResponse
    | MessageUnknown => yieldClient
    end in
  newMessageID nano yield.

(** [NewMessageID(now, typ)] reads [now.UnixNano()]. *)
Definition NewMessageID (nowUnixNano : Z) (typ : MessageType) : Z :=
  NewMessageIDNano nowUnixNano typ.

Module Gen.
Record MessageIDGen : Type := { nano : Z }.

Definition NewMessageIDGen : MessageIDGen := {| nano := 0 |}.
Definition minResolutionNanos : Z := 10.

(** [New(t)] when [g.now().UnixNano()] returns [now]. *)
Definition New (now : Z) (t : MessageType) (g : MessageIDGen) : Z * MessageIDGen :=
  let n := if now >? nano g then now else i64 (nano g + minResolutionNanos) in
  (NewMessageIDNano n t, {| nano := n |}).
End Gen.

Module Buf.
(** [NewMessageIDBuf(n)]: [n] zero ids. *)
Definition NewMessageIDBuf (n : nat) : list Z := replicate n 0.

(** The range loop of [Consume]: [None] when [newID] is stored, otherwise the
    index and the value of the minimum search. *)
Fixpoint scan (newID : Z) (i : nat) (buf : list Z) (minIDx : nat) (minID : Z)
  : option (nat * Z) :=
  match buf with
  | [] => Some (minIDx, minID)
  | id :: buf =>
      if id =? newID then None
      else if id <? minID then scan newID (S i) buf i id
      else scan newID (S i) buf minIDx minID
  end.

(** The outcome is a panic when [b.buf[minIDx]] is out of range. *)
Definition Consume (newID : Z) : GoM (list Z) bool := fun buf =>
  match scan newID 0 buf 0 0 with
  | None => (Ok false, buf)
  | Some (minIDx, minID) =>
      if newID <? minID then (Ok false, buf)
      else if (minIDx <? length buf)%nat then (Ok true, <[minIDx := newID]> buf)
      else (Panic, buf)
  end.
End Buf.

(** ** Layout of an id *)

Definition yield_of (typ : MessageType) : Z :=
  match typ with
  | MessageFromClient | MessageUnknown => 0
  | MessageServerResponse => 1
  | MessageFromServer => 3
  end.

Definition time_nano (n : Z) : Prop := 0 <= n < 2 ^ 31 * 10 ^ 9.

Lemma land_m4 z : Z.land z (-4) = 4 * (z / 4).
Proof.
  change (-4) with (Z.lnot 3). rewrite <- Z.ldiff_land.
  change 3 with (Z.ones 2). rewrite Z.ldiff_ones_r by lia.
  rewrite Z.shiftl_mul_pow2, Z.shiftr_div_pow2 by lia. change (2 ^ 2) with 4. lia.
Qed.


Lemma lor_disjoint_add a b : 0 <= b < 2 ^ 32 -> Z.lor (a * 2 ^ 32) b = a * 2 ^ 32 + b.
Proof.
  intros Hb. rewrite <- Z.shiftl_mul_pow2 by lia.
  assert (Z.land (Z.shiftl a 32) b = 0) as H0.
  { apply Z.bits_inj'. intros i Hi. rewrite Z.land_spec, Z.bits_0.
    destruct (Z.ltb_spec i 32).
    - rewrite Z.shiftl_spec_low by lia. done.
    - destruct (decide (b = 0)) as [->|]; [by rewrite Z.bits_0, andb_false_r|].
      assert (Z.log2 b < 32) by (apply Z.log2_lt_pow2; lia).
      rewrite (Z.bits_above_log2 b) by lia. apply andb_false_r. }
  rewrite <- Z.lxor_lor by done. symmetry. apply Z.add_nocarry_lxor. done.
Qed.

(** In the representable range an id is seconds * 2^32 plus the nanoseconds
    rounded down to a multiple of 4 plus the type bits. *)
Lemma NewMessageIDNano_value n typ :
  time_nano n ->
  NewMessageIDNano n typ = n / 10 ^ 9 * 2 ^ 32 + (4 * (n mod 10 ^ 9 / 4) + yield_of typ).
Proof.
  intros Hn. unfold time_nano in Hn. unfold NewMessageIDNano, newMessageID.
  replace (match typ with MessageFromClient => _ | _ => _ end) with (yield_of typ)
    by (by destruct typ).
  rewrite Z.quot_div_nonneg, Z.rem_mod_nonneg by lia.
  unfold messageIDModulo. rewrite land_m4.
  assert (0 <= yield_of typ <= 3) by (destruct typ; simpl; lia).
  pose proof (Z.mod_pos_bound n (10 ^ 9)). pose proof (Z.div_mod (n mod 10 ^ 9) 4).
  pose proof (Z.mod_pos_bound (n mod 10 ^ 9) 4).
  assert (0 <= n / 10 ^ 9 < 2 ^ 31).
  { split; [apply Z.div_pos; lia|]. apply Z.div_lt_upper_bound; lia. }
  rewrite Z.shiftl_mul_pow2 by lia.
  rewrite !swrap_id by (unfold is_signed; lia).
  apply lor_disjoint_add. lia.
Qed.

Lemma yield_of_range typ : 0 <= yield_of typ <= 3.
Proof. destruct typ; simpl; lia. Qed.

(** The nanosecond part rounds the whole instant, since 4 divides 10^9. *)
Lemma block_decomp n : 4 * (n / 4) = n / 10 ^ 9 * 10 ^ 9 + 4 * (n mod 10 ^ 9 / 4).
Proof.
  rewrite (Z.div_mod n (10 ^ 9)) at 1 by lia.
  replace (10 ^ 9 * (n / 10 ^ 9) + n mod 10 ^ 9)
    with (n mod 10 ^ 9 + n / 10 ^ 9 * 250000000 * 4) by lia.
  rewrite Z.div_add by lia. lia.
Qed.

Lemma NewMessageIDNano_lt n1 n2 t1 t2 :
  time_nano n1 -> time_nano n2 -> n1 / 4 < n2 / 4 ->
  NewMessageIDNano n1 t1 < NewMessageIDNano n2 t2.
Proof.
  intros H1 H2 Hlt. rewrite !NewMessageIDNano_value by done.
  pose proof (yield_of_range t1). pose proof (yield_of_range t2).
  pose proof (block_decomp n1). pose proof (block_decomp n2).
  pose proof (Z.mod_pos_bound n1 (10 ^ 9)). pose proof (Z.mod_pos_bound n2 (10 ^ 9)).
  pose proof (Z.div_mod (n1 mod 10 ^ 9) 4). pose proof (Z.mod_pos_bound (n1 mod 10 ^ 9) 4).
  pose proof (Z.div_mod (n2 mod 10 ^ 9) 4). pose proof (Z.mod_pos_bound (n2 mod 10 ^ 9) 4).
  nia.
Qed.

Lemma NewMessageIDNano_block n1 n2 t :
  time_nano n1 -> time_nano n2 -> n1 / 4 = n2 / 4 ->
  NewMessageIDNano n1 t = NewMessageIDNano n2 t.
Proof.
  intros H1 H2 Heq. rewrite !NewMessageIDNano_value by done.
  pose proof (block_decomp n1). pose proof (block_decomp n2).
  pose proof (Z.mod_pos_bound n1 (10 ^ 9)). pose proof (Z.mod_pos_bound n2 (10 ^ 9)).
  pose proof (Z.div_mod (n1 mod 10 ^ 9) 4). pose proof (Z.mod_pos_bound (n1 mod 10 ^ 9) 4).
  pose proof (Z.div_mod (n2 mod 10 ^ 9) 4). pose proof (Z.mod_pos_bound (n2 mod 10 ^ 9) 4).
  nia.
Qed.

(** ** Generator runs *)

(** The ids returned by successive calls of [New], each with its clock reading. *)
Fixpoint run_gen (calls : list (Z * MessageType)) (g : Gen.MessageIDGen) : list Z :=
  match calls with
  | [] => []
  | (now, t) :: calls =>
      let '(id, g') := Gen.New now t g in id :: run_gen calls g'
  end.

(** A run in which the clock, whenever it is ahead of the generator, is ahead
    by at least 4 ns, and no instant leaves the representable range. *)
Fixpoint spaced (calls : list (Z * MessageType)) (g : Gen.MessageIDGen) : Prop :=
  match calls with
  | [] => True
  | (now, t) :: calls =>
      let g' := snd (Gen.New now t g) in
      (now <= Gen.nano g \/ Gen.nano g + 4 <= now) /\ time_nano (Gen.nano g')
      /\ spaced calls g'
  end.

Lemma New_spaced_block now t g :
  time_nano (Gen.nano g) -> now <= Gen.nano g \/ Gen.nano g + 4 <= now ->
  Gen.nano g / 4 < Gen.nano (snd (Gen.New now t g)) / 4.
Proof.
  unfold time_nano. intros Hg Hs. unfold Gen.New, Gen.minResolutionNanos. simpl.
  rewrite swrap_id by (unfold is_signed; lia).
  pose proof (Z.div_mod (Gen.nano g) 4). pose proof (Z.mod_pos_bound (Gen.nano g) 4).
  destruct (now >? Gen.nano g) eqn:E; bool_to_prop;
    (apply Z.div_le_lower_bound with (b := 4) (q := Gen.nano g / 4 + 1); lia) ||
    (apply Z.lt_le_trans with (Gen.nano g / 4 + 1); [lia|]; apply Z.div_le_lower_bound; lia).
Qed.

Lemma run_gen_above calls g :
  time_nano (Gen.nano g) -> spaced calls g ->
  StronglySorted Z.lt (run_gen calls g)
  /\ Forall (fun id => forall t, NewMessageIDNano (Gen.nano g) t < id) (run_gen calls g).
Proof.
  revert g. induction calls as [|[now t] calls IH]; intros g Hg Hs; simpl.
  { by repeat constructor. }
  destruct Hs as (Hgap & Hr & Hs). pose proof (New_spaced_block now t g Hg Hgap) as Hb.
  simpl in Hr, Hb, Hs. set (n := if now >? Gen.nano g then now else i64 (Gen.nano g + Gen.minResolutionNanos)) in *.
  specialize (IH {| Gen.nano := n |} Hr Hs) as [IHs IHa]. split.
  - constructor; [done|]. eapply Forall_impl; [exact IHa|]. intros id Hid. apply Hid.
  - constructor.
    + intros t'. by apply NewMessageIDNano_lt.
    + eapply Forall_impl; [exact IHa|]. intros id Hid t'. simpl in Hid.
      etrans; [|apply (Hid t)]. by apply NewMessageIDNano_lt.
Qed.

(** ** The replay buffer *)

Lemma scan_None newID buf : forall i mx m,
  Buf.scan newID i buf mx m = None <-> newID ∈ buf.
Proof.
  induction buf as [|id buf IH]; intros i mx m; simpl.
  { split; [done|]. intros H. by apply elem_of_nil in H. }
  rewrite elem_of_cons. destruct (Z.eqb_spec id newID) as [->|Hne].
  - split; [by left|done].
  - destruct (id <? m); rewrite IH; (split; [by right|]); by intros [?|?].
Qed.

(** The search starts from 0, so an index is only recorded for a negative id. *)
Lemma scan_nonneg newID buf : forall i mx,
  Forall (fun id => 0 <= id) buf -> newID ∉ buf -> Buf.scan newID i buf mx 0 = Some (mx, 0).
Proof.
  induction buf as [|id buf IH]; intros i mx Hf Hn; simpl; [done|].
  apply Forall_cons in Hf as [Hid Hf]. apply not_elem_of_cons in Hn as [Hne Hn].
  replace (id =? newID) with false by lia. replace (id <? 0) with false by lia. by apply IH.
Qed.

Lemma scan_index newID buf : forall i mx m mx' m',
  Buf.scan newID i buf mx m = Some (mx', m') ->
  mx' = mx \/ (i <= mx' < i + length buf)%nat.
Proof.
  induction buf as [|id buf IH]; intros i mx m mx' m'; simpl.
  { naive_solver. }
  destruct (id =? newID); [done|]. destruct (id <? m); intros H; apply IH in H; lia.
Qed.

Lemma scan_min newID buf : forall i mx m mx' m',
  Buf.scan newID i buf mx m = Some (mx', m') -> m' <= m /\ Forall (fun id => m' <= id) buf.
Proof.
  induction buf as [|id buf IH]; intros i mx m mx' m'; simpl.
  { intros [= -> ->]. split; [lia|constructor]. }
  destruct (id =? newID); [done|]. destruct (Z.ltb_spec id m); intros H'; apply IH in H' as [? ?];
    (split; [lia|]); constructor; [lia|done|lia|done].
Qed.

Lemma Consume_nonneg newID buf :
  0 <= newID -> Forall (fun id => 0 <= id) buf -> newID ∉ buf -> buf <> [] ->
  Buf.Consume newID buf = (Ok true, <[0%nat := newID]> buf).
Proof.
  intros Hid Hf Hn Hne. unfold Buf.Consume. rewrite scan_nonneg by done.
  replace (newID <? 0) with false by lia. by destruct buf.
Qed.

(** ** Correctness *)

(** An id generated at a representable instant carries its type, keeps its
    creation time to within 3 ns, is a positive int64, and ids of later 4 ns
    blocks are greater whatever their types. *)
Theorem message_id_layout (n n' : Z) (t t' : MessageType) :
  time_nano n -> time_nano n' -> t <> MessageUnknown ->
  Type_ (NewMessageIDNano n t) = t
  /\ (Time (NewMessageIDNano n t) = 4 * (n / 4) + yield_of t)
  /\ 0 <= NewMessageIDNano n t < 2 ^ 63
  /\ (n / 4 < n' / 4 -> NewMessageIDNano n t < NewMessageIDNano n' t').
Proof.
  intros Hn Hn' Ht.
  split; [|split; [|split]]; [| | |by intros; apply NewMessageIDNano_lt].
  all: rewrite NewMessageIDNano_value by done; pose proof (block_decomp n) as Hb;
    pose proof (yield_of_range t); pose proof (Z.mod_pos_bound n (10 ^ 9));
    pose proof (Z.div_mod (n mod 10 ^ 9) 4); pose proof (Z.mod_pos_bound (n mod 10 ^ 9) 4);
    assert (0 <= n / 10 ^ 9 < 2 ^ 31)
      by (unfold time_nano in Hn; split; [apply Z.div_pos|apply Z.div_lt_upper_bound]; lia).
  - unfold Type_, messageIDModulo. rewrite Z.rem_mod_nonneg by lia.
    replace (_ mod 4) with (yield_of t); [by destruct t|].
    replace (n / 10 ^ 9 * 2 ^ 32 + (4 * (n mod 10 ^ 9 / 4) + yield_of t))
      with (yield_of t + (n / 10 ^ 9 * 2 ^ 30 + n mod 10 ^ 9 / 4) * 4) by lia.
    rewrite Z.mod_add, Z.mod_small by lia. done.
  - unfold Time. rewrite Z.shiftr_div_pow2 by lia.
    set (f := 4 * (n mod 10 ^ 9 / 4) + yield_of t) in *.
    rewrite (Z.add_comm _ f), Z.div_add, Z.div_small by lia.
    unfold swrap. replace (f + n / 10 ^ 9 * 2 ^ 32 + 2 ^ (32 - 1))
      with (f + 2 ^ 31 + n / 10 ^ 9 * 2 ^ 32) by lia.
    rewrite Z.mod_add, Z.mod_small by lia. lia.
  - lia.
Qed.

Lemma message_id_layout_witness :
  Type_ (NewMessageIDNano 1700000000123456789 MessageFromServer) = MessageFromServer
  /\ Time (NewMessageIDNano 1700000000123456789 MessageFromServer) = 1700000000123456791.
Proof.
  edestruct (message_id_layout 1700000000123456789 1700000000123456799
    MessageFromServer MessageFromClient) as (H1 & H2 & _); [by vm_compute..|done|].
  split; [exact H1|]. rewrite H2. reflexivity.
Defined.

(** The generator never repeats or reorders ids as long as the clock, when
    it is ahead of the generator, is ahead by at least 4 ns (a stalled or
    backwards clock is allowed): the ids of any such run strictly increase. *)
Theorem message_id_gen_increasing (calls : list (Z * MessageType)) (g : Gen.MessageIDGen) :
  time_nano (Gen.nano g) -> spaced calls g -> StronglySorted Z.lt (run_gen calls g).
Proof. intros Hg Hs. by apply run_gen_above. Qed.

Lemma message_id_gen_increasing_witness :
  StronglySorted Z.lt
    (run_gen [(1000, MessageFromClient); (1000, MessageFromClient); (900, MessageFromServer);
              (5000, MessageFromClient)] {| Gen.nano := 0 |}).
Proof.
  apply message_id_gen_increasing; [by vm_compute|].
  unfold spaced, time_nano; simpl. vm_compute. intuition discriminate.
Defined.

(** When the clock is ahead of the generator by so little that it stays in
    the generator's 4 ns block, the next id of a type equals the id already
    issued for that type: the generator does issue duplicate ids. *)
Theorem message_id_gen_duplicate (now : Z) (t : MessageType) (g : Gen.MessageIDGen) :
  time_nano (Gen.nano g) -> time_nano now ->
  Gen.nano g < now -> now / 4 = Gen.nano g / 4 ->
  fst (Gen.New now t g) = NewMessageIDNano (Gen.nano g) t.
Proof.
  intros Hg Hn Hlt Hb. unfold Gen.New. simpl.
  replace (now >? Gen.nano g) with true by lia. by apply NewMessageIDNano_block.
Qed.

Lemma message_id_gen_duplicate_witness :
  run_gen [(100, MessageFromClient); (100, MessageFromClient); (111, MessageFromClient)]
    Gen.NewMessageIDGen = [100; 108; 108]
  /\ fst (Gen.New 111 MessageFromClient {| Gen.nano := 110 |})
     = NewMessageIDNano 110 MessageFromClient.
Proof.
  split; [reflexivity|].
  apply (message_id_gen_duplicate 111 MessageFromClient {| Gen.nano := 110 |}); by vm_compute.
Defined.

(** The replay buffer rejects every id it stores, never panics when it has a
    slot, an accepted id replaces exactly one stored id, and an id that is not
    stored is only rejected when it is below all stored ids (and below 0). *)
Theorem consume_rejects_stored (newID : Z) (buf : list Z) :
  buf <> [] ->
  match Buf.Consume newID buf with
  | (Ok true, buf') =>
      (newID ∉ buf) /\ (newID ∈ buf') /\ exists i, (i < length buf)%nat /\ buf' = <[i := newID]> buf
  | (Ok false, buf') =>
      buf' = buf /\ ((newID ∈ buf) \/ (newID < 0 /\ Forall (fun id => newID < id) buf))
  | _ => False
  end.
Proof.
  intros Hne. unfold Buf.Consume. destruct (Buf.scan newID 0 buf 0 0) as [[mx m]|] eqn:E.
  - assert (newID ∉ buf) as Hn by (rewrite <- (scan_None newID buf 0 0 0); by rewrite E).
    pose proof (scan_min _ _ _ _ _ _ _ E) as [Hm0 Hm].
    apply scan_index in E. destruct buf as [|x buf]; [done|]. simpl in E.
    assert (mx < length (x :: buf))%nat as Hlt by (simpl; lia).
    replace (mx <? _)%nat with true by (symmetry; by apply Nat.ltb_lt).
    destruct (Z.ltb_spec newID m).
    + split; [done|]. right. split; [lia|]. eapply Forall_impl; [exact Hm|]. simpl. lia.
    + split; [done|]. split; [|by exists mx].
      apply list_elem_of_lookup. exists mx. by apply list_lookup_insert_eq.
  - split; [done|]. left. by apply scan_None in E.
Qed.

Lemma consume_rejects_stored_witness :
  Buf.Consume 7 [0; 7; 0] = (Ok false, [0; 7; 0])
  /\ match Buf.Consume 7 [0; 7; 0] with
     | (Ok true, buf') => (7 ∉ [0; 7; 0]) /\ (7 ∈ buf') /\
         exists i, (i < length [0; 7; 0])%nat /\ buf' = <[i := 7]> [0; 7; 0]
     | (Ok false, buf') => buf' = [0; 7; 0] /\
         ((7 ∈ [0; 7; 0]) \/ (7 < 0 /\ Forall (fun id => 7 < id) [0; 7; 0]))
     | _ => False
     end.
Proof. split; [reflexivity|]. by apply (consume_rejects_stored 7 [0; 7; 0]). Defined.

(** The buffer does not store the last [N] ids: with the positive ids that
    servers send, only its first slot is ever written, so an id is accepted
    again as soon as any other id has been received, whatever [N] is. *)
Theorem consume_replay_accepted (N : nat) (a b : Z) :
  (0 < N)%nat -> 0 < a -> 0 < b -> a <> b ->
  (let! r1 := Buf.Consume a in let! r2 := Buf.Consume b in let! r3 := Buf.Consume a in
   ret (r1, r2, r3)) (Buf.NewMessageIDBuf N)
  = (Ok (true, true, true), a :: replicate (pred N) 0).
Proof.
  intros HN Ha Hb Hab. destruct N as [|N]; [lia|]. simpl.
  assert (Forall (fun id => 0 <= id) (replicate N 0)) as Hz by (apply Forall_replicate; lia).
  assert (forall x, 0 < x -> x ∉ replicate N 0) as Hin.
  { intros x Hx Hx'. apply elem_of_replicate in Hx'. lia. }
  unfold Buf.NewMessageIDBuf. cbn [replicate].
  erewrite bind_ok by (apply Consume_nonneg; [lia|constructor; [lia|done]|
    apply not_elem_of_cons; split; [lia|by apply Hin]|done]). cbn [insert list_insert].
  erewrite bind_ok by (apply Consume_nonneg; [lia|constructor; [lia|done]|
    apply not_elem_of_cons; split; [lia|by apply Hin]|done]). cbn [insert list_insert].
  erewrite bind_ok by (apply Consume_nonneg; [lia|constructor; [lia|done]|
    apply not_elem_of_cons; split; [lia|by apply Hin]|done]). done.
Qed.

Lemma consume_replay_accepted_witness :
  (let! r1 := Buf.Consume 5 in let! r2 := Buf.Consume 9 in let! r3 := Buf.Consume 5 in
   ret (r1, r2, r3)) (Buf.NewMessageIDBuf 100)
  = (Ok (true, true, true), 5 :: replicate 99 0).
Proof. apply (consume_replay_accepted 100 5 9); lia. Defined.
