(* ===== verification/Proto.v ===== *)
(** * proto: MTProto message primitives

    Model of src/proto: the message container (container.go), rpc_result
    (rpc_result.go), the plaintext message (unencrypted_message.go) and the
    gzip-packed object (gzip.go).  The gzip library is a parameter of the last
    one.  Decoding into a receiver that already holds messages appends to it, as
    [MessageContainer.Decode] does. *)
From S2P Require Import Prelude Bin.

(** ** container.go *)

Definition MessageContainerTypeID : Z := 0x73f1f8dc.
Definition maxMessageBytes : Z := 1024 * 1024.

Record Message : Type := mkMessage {
  msg_ID : Z; msg_SeqNo : Z; msg_Bytes : Z; msg_Body : list byte }.
#[export] Instance Message_eq_dec : EqDecision Message.
Proof. solve_decision. Defined.

Module Message.
Definition Encode (m : Message) : GoM Buffer unit :=
  if (msg_Bytes m <? 0) || (msg_Bytes m >? maxMessageBytes)
  then fail (Errorf "message length is invalid")
  else
    modify (PutLong (msg_ID m)) ;;!
    modify (PutInt (msg_SeqNo m)) ;;!
    modify (PutInt (msg_Bytes m)) ;;!
    modify (Put (msg_Body m)).

Definition Decode : GoM Buffer Message :=
  let! id := Long in
  let! seqNo := Int in
  let! bytes := Int in
  if (bytes <? 0) || (bytes >? maxMessageBytes)
  then fail (Errorf "message length is too big")
  else
    let! body := ConsumeN bytes in
    ret (mkMessage id seqNo bytes body).
End Message.

Module MessageContainer.
Fixpoint encode_messages (ms : list Message) : GoM Buffer unit :=
  match ms with
  | [] => ret tt
  | m :: ms => Message.Encode m ;;! encode_messages ms
  end.

Definition Encode (ms : list Message) : GoM Buffer unit :=
  modify (PutID MessageContainerTypeID) ;;!
  modify (PutInt (zlen ms)) ;;!
  encode_messages ms.

(** [n] iterations of the decoding loop, appending to the receiver [ms]. *)
Fixpoint decode_messages (n : nat) (ms : list Message) : GoM Buffer (list Message) :=
  match n with
  | O => ret ms
  | S n =>
      let! msg := Message.Decode in
      decode_messages n (ms ++ [msg])
  end.

Definition Decode (ms : list Message) : GoM Buffer (list Message) :=
  wrapping "consume id of message container" (ConsumeID MessageContainerTypeID) ;;!
  let! n := Int in
  decode_messages (Z.to_nat n) ms.
End MessageContainer.

(** ** rpc_result.go *)

Definition ResultTypeID : Z := 0xf35c6d01.
Record Result : Type := mkResult { RequestMessageID : Z; result_body : list byte }.

Module Result.
Definition Encode (r : Result) : GoM Buffer unit :=
  modify (PutID ResultTypeID) ;;!
  modify (PutLong (RequestMessageID r)) ;;!
  modify (Put (result_body r)).

Definition Decode : GoM Buffer Result :=
  ConsumeID ResultTypeID ;;!
  let! id := Long in
  let! b := get in
  Skip (zlen b) ;;!
  ret (mkResult id b).
End Result.

(** ** unencrypted_message.go *)

Record UnencryptedMessage : Type := mkUnencrypted {
  um_MessageID : Z; um_MessageData : list byte }.

Module UnencryptedMessage.
Definition Encode (u : UnencryptedMessage) : GoM Buffer unit :=
  modify (PutLong 0) ;;!
  modify (PutLong (um_MessageID u)) ;;!
  modify (PutInt32 (i32 (zlen (um_MessageData u)))) ;;!
  modify (Put (um_MessageData u)).

Definition Decode : GoM Buffer UnencryptedMessage :=
  let! id := Long in
  if negb (id =? 0) then fail (Errorf "unexpected auth_key_id of plaintext message")
  else
    let! msgID := Long in
    let! dataLen := Int32 in
    if dataLen <? 0 then fail (InvalidLengthError dataLen "plaintext message data")
    else
      let! b := get in
      if dataLen >? zlen b then fail (Wrap ErrUnexpectedEOF "consume payload")
      else
        let! data := wrapping "consume payload" (ConsumeN dataLen) in
        ret (mkUnencrypted msgID data).
End UnencryptedMessage.

(** ** gzip.go *)

Definition GZIPTypeID : Z := 0x3072cfa1.
Definition maxUncompressedSize : Z := 1024 * 1024 * 10.

(** The klauspost/compress/gzip library: what opening a reader on the bytes, the
    decompressed stream (the bytes it yields and the error that ends it, if it
    does not end with io.EOF) and closing the reader report, and the bytes a
    writer produces. *)
Record gzip_lib : Type := {
  gz_open : list byte -> option error;
  gz_stream : list byte -> list byte * option error;
  gz_close : list byte -> option error;
  gz_write : list byte -> list byte;
}.

(** What the code relies on: the reader inverts the writer. *)
Class GzipRoundtrip (gz : gzip_lib) : Prop := {
  gz_write_open d : gz_open gz (gz_write gz d) = None;
  gz_write_stream d : gz_stream gz (gz_write gz d) = (d, None);
  gz_write_close d : gz_close gz (gz_write gz d) = None;
}.

Module GZIP.
Definition Encode (gz : gzip_lib) (data : list byte) : GoM Buffer unit :=
  modify (PutID GZIPTypeID) ;;!
  modify (PutBytes (gz_write gz data)).

(** The deferred close: its error is appended to the function's result. *)
Definition deferred_close {A} (closeErr : option error) (r : outcome A) : outcome A :=
  match closeErr, r with
  | None, r => r
  | Some ce, Ok _ => Err (Wrap ce "close")
  | Some ce, Err e => Err (MultiErr e (Wrap ce "close"))
  | Some _, Panic => Panic
  end.

(** io.ReadAll(io.LimitReader(r, maxUncompressedSize)): a stream of at least
    the limit is cut there, and its own error is then never reached. *)
Definition read_all_limited (stream : list byte * option error) : list byte * option error :=
  let '(data, err) := stream in
  if zlen data >=? maxUncompressedSize then (take (Z.to_nat maxUncompressedSize) data, None)
  else (data, err).

Definition decompress (gz : gzip_lib) (buf : list byte) : outcome (list byte) :=
  match gz_open gz buf with
  | Some e => Err (Wrap e "gzip error")
  | None =>
      deferred_close (gz_close gz buf)
        (let '(data, err) := read_all_limited (gz_stream gz buf) in
         match err with
         | Some e => Err (Wrap e "decompress")
         | None =>
             if zlen data >=? maxUncompressedSize
             then Err (Wrap (DecompressionBombErr maxUncompressedSize (zlen data)) "decompress")
             else
               match gz_close gz buf with
               | Some e => Err (Wrap e "checksum")
               | None => Ok data
               end
         end)
  end.

Definition Decode (gz : gzip_lib) : GoM Buffer (list byte) :=
  ConsumeID GZIPTypeID ;;!
  let! buf := Bytes in
  fun b => (decompress gz buf, b).
End GZIP.

(** ** Messages and containers *)

Definition message_bytes (m : Message) : list byte :=
  le_split 8 (u64 (msg_ID m)) ++ le_split 4 (u32 (i32 (msg_SeqNo m))) ++
  le_split 4 (u32 (i32 (msg_Bytes m))) ++ msg_Body m.

(** A message whose fields have their Go types and whose declared length is the
    length of its body. *)
Definition message_ok (m : Message) : Prop :=
  int64 (msg_ID m) /\ int32 (msg_SeqNo m) /\
  msg_Bytes m = zlen (msg_Body m) /\ msg_Bytes m <= maxMessageBytes.
#[export] Instance message_ok_dec m : Decision (message_ok m).
Proof. unfold message_ok. apply _. Defined.

Lemma Message_Encode_app m b :
  0 <= msg_Bytes m <= maxMessageBytes ->
  Message.Encode m b = (Ok tt, b ++ message_bytes m).
Proof.
  intros Hm. unfold Message.Encode, message_bytes.
  replace (_ || _) with false by lia. by run_puts.
Qed.

Lemma parses_Message m : message_ok m -> parses Message.Decode (message_bytes m) m.
Proof.
  destruct m as [id seq n body]. intros (Hid & Hseq & Hn & Hmax). simpl in *.
  pose proof (zlen_nonneg body). unfold maxMessageBytes in *.
  unfold message_bytes, Message.Decode; simpl.
  rewrite !swrap_id by (unfold is_signed in *; lia).
  eapply parses_bind; [by apply parses_Long|].
  eapply parses_bind; [by apply parses_Int|].
  eapply parses_bind; [apply parses_Int; unfold is_signed; lia|].
  replace (_ || _) with false by (unfold maxMessageBytes; lia).
  apply (parses_bind_ret _ (mkMessage id seq n)). by apply parses_ConsumeN.
Qed.

Lemma safe_Message : safe Message.Decode.
Proof.
  unfold Message.Decode. do 3 (apply safe_bind; [eauto with bin|intros ?]).
  destruct (_ || _) eqn:E; [eauto with bin|]. bool_to_prop.
  apply safe_bind; [apply safe_ConsumeN; lia|]. eauto with bin.
Qed.
#[export] Hint Resolve safe_Message : bin.

#[export] Instance message_object : Object Message := {
  Encode := Message.Encode; Decode := Message.Decode; valid := message_ok }.
#[export] Instance message_lawful : LawfulObject Message.
Proof.
  split; [|apply safe_Message]. intros m b Hm. exists (message_bytes m).
  split; [|by apply parses_Message]. apply Message_Encode_app.
  destruct Hm as (_ & _ & -> & ?). pose proof (zlen_nonneg (msg_Body m)). lia.
Qed.

Lemma encode_messages_app ms b :
  Forall message_ok ms ->
  MessageContainer.encode_messages ms b = (Ok tt, b ++ concat (map message_bytes ms)).
Proof.
  intros H. revert b. induction H as [|m ms Hm Hms IH]; intros b; simpl.
  - by rewrite app_nil_r.
  - erewrite bind_ok.
    + rewrite IH. by rewrite app_assoc.
    + apply Message_Encode_app. destruct Hm as (_ & _ & -> & ?).
      pose proof (zlen_nonneg (msg_Body m)). lia.
Qed.

Lemma parses_messages ms acc :
  Forall message_ok ms ->
  parses (MessageContainer.decode_messages (length ms) acc)
    (concat (map message_bytes ms)) (acc ++ ms).
Proof.
  intros H. revert acc. induction H as [|m ms Hm Hms IH]; intros acc; simpl.
  - rewrite app_nil_r. apply parses_ret.
  - eapply parses_bind; [by apply parses_Message|].
    replace (acc ++ m :: ms) with ((acc ++ [m]) ++ ms) by (by rewrite <- app_assoc). apply IH.
Qed.

Lemma safe_messages n acc : safe (MessageContainer.decode_messages n acc).
Proof. revert acc. induction n; intros acc; simpl; solve_safe. Qed.
#[export] Hint Resolve safe_messages : bin.

(** A decoded message is well formed and its encoding is what was consumed. *)
Lemma Message_Decode_inv b m b' :
  Message.Decode b = (Ok m, b') -> message_ok m /\ b = message_bytes m ++ b'.
Proof.
  unfold Message.Decode. intros H. inv_read.
  destruct (_ || _) eqn:E; [discriminate H|]. inv_read. bool_to_prop.
  unfold message_ok, message_bytes. simpl. split; [split_and!; try done; lia|].
  rewrite !swrap_id by done. by rewrite <- !app_assoc.
Qed.

Lemma decode_messages_inv n acc b ms b' :
  MessageContainer.decode_messages n acc b = (Ok ms, b') ->
  exists new, ms = acc ++ new /\ length new = n /\ Forall message_ok new
    /\ b = concat (map message_bytes new) ++ b'.
Proof.
  revert acc b. induction n as [|n IH]; intros acc b H; simpl in H.
  - inv_read. exists []. by rewrite app_nil_r.
  - apply bind_inv_ok in H as (m & b1 & H1 & H). apply Message_Decode_inv in H1 as [Hm ->].
    apply IH in H as (new & -> & Hl & Hf & ->). exists (m :: new).
    rewrite <- !app_assoc. simpl. rewrite <- !app_assoc. split_and!; auto.
Qed.

Lemma message_bytes_length m : message_ok m -> zlen (message_bytes m) = 16 + msg_Bytes m.
Proof. intros (_ & _ & -> & _). unfold message_bytes. autorewrite with zlen. lia. Qed.

Lemma messages_length ms :
  Forall message_ok ms -> 16 * zlen ms <= zlen (concat (map message_bytes ms)).
Proof.
  induction 1 as [|m ms Hm Hms IH]; simpl; [done|]. autorewrite with zlen.
  rewrite message_bytes_length by done. destruct Hm as (_ & _ & -> & _).
  pose proof (zlen_nonneg (msg_Body m)). lia.
Qed.

Definition container_bytes (ms : list Message) : list byte :=
  le_split 4 MessageContainerTypeID ++ le_split 4 (u32 (i32 (zlen ms))) ++
  concat (map message_bytes ms).

Lemma MessageContainer_Encode_app ms b :
  Forall message_ok ms -> MessageContainer.Encode ms b = (Ok tt, b ++ container_bytes ms).
Proof.
  intros H. unfold MessageContainer.Encode. run_puts. rewrite encode_messages_app by done.
  unfold container_bytes. by rewrite <- !app_assoc.
Qed.

Lemma parses_MessageContainer ms acc :
  Forall message_ok ms -> zlen ms < 2 ^ 31 ->
  parses (MessageContainer.Decode acc) (container_bytes ms) (acc ++ ms).
Proof.
  intros H Hl. pose proof (zlen_nonneg ms). unfold MessageContainer.Decode, container_bytes.
  rewrite swrap_id by (unfold is_signed; lia).
  eapply parses_bind; [by apply parses_wrapping, parses_ConsumeID|].
  eapply parses_bind; [apply parses_Int; unfold is_signed; lia|].
  unfold zlen. rewrite Nat2Z.id. by apply parses_messages.
Qed.

Lemma safe_MessageContainer acc : safe (MessageContainer.Decode acc).
Proof. unfold MessageContainer.Decode. solve_safe. Qed.
#[export] Hint Resolve safe_MessageContainer : bin.

(** ** rpc_result and plaintext messages *)

Definition result_ok (r : Result) : Prop := int64 (RequestMessageID r).
Definition result_bytes (r : Result) : list byte :=
  le_split 4 ResultTypeID ++ le_split 8 (u64 (RequestMessageID r)) ++ result_body r.

Lemma Result_Decode_bytes r : result_ok r -> Result.Decode (result_bytes r) = (Ok r, []).
Proof.
  destruct r as [id body]. intros Hid. unfold Result.Decode, result_bytes. simpl.
  erewrite bind_ok by (by apply parses_ConsumeID).
  erewrite bind_ok by (by apply parses_Long).
  unfold bind, get, Skip, ret. pose proof (zlen_nonneg body).
  replace (_ || _) with false by lia. f_equal.
  unfold zlen. rewrite Nat2Z.id. by apply drop_ge.
Qed.

Lemma safe_Skip_rest : safe (let! b := get in Skip (zlen b)).
Proof.
  intros b. unfold bind, get, Skip. pose proof (zlen_nonneg b).
  replace (_ || _) with false by lia. eexists _, _. split; [reflexivity|].
  split; [done|]. exists (take (Z.to_nat (zlen b)) b). by rewrite take_drop.
Qed.

Definition unencrypted_ok (u : UnencryptedMessage) : Prop :=
  int64 (um_MessageID u) /\ zlen (um_MessageData u) < 2 ^ 31.
Definition unencrypted_bytes (u : UnencryptedMessage) : list byte :=
  le_split 8 (u64 0) ++ le_split 8 (u64 (um_MessageID u)) ++
  le_split 4 (u32 (i32 (zlen (um_MessageData u)))) ++ um_MessageData u.

Lemma parses_UnencryptedMessage u :
  unencrypted_ok u -> parses UnencryptedMessage.Decode (unencrypted_bytes u) u.
Proof.
  destruct u as [id data]. intros [Hid Hl]. simpl in *. pose proof (zlen_nonneg data).
  unfold UnencryptedMessage.Decode, unencrypted_bytes. simpl.
  rewrite swrap_id by (unfold is_signed; lia).
  eapply parses_bind; [by apply parses_Long|]. simpl.
  eapply parses_bind; [by apply parses_Long|].
  eapply parses_bind; [apply parses_Int32; unfold is_signed; lia|].
  replace (zlen data <? 0) with false by lia.
  intros rest. unfold bind at 1, get.
  replace (_ >? _) with false by (autorewrite with zlen; pose proof (zlen_nonneg rest); lia).
  erewrite bind_ok; [done|]. by apply parses_wrapping, parses_ConsumeN.
Qed.

Lemma safe_UnencryptedMessage : safe UnencryptedMessage.Decode.
Proof.
  unfold UnencryptedMessage.Decode.
  apply safe_bind; [eauto with bin|intros id]. apply safe_if; [eauto with bin|].
  apply safe_bind; [eauto with bin|intros mid]. apply safe_bind; [eauto with bin|intros n].
  destruct (Z.ltb_spec n 0); [eauto with bin|]. apply safe_bind.
  - intros b. eexists _, _. split; [reflexivity|]. by split.
  - intros b. apply safe_if; [eauto with bin|].
    apply safe_bind; [by apply safe_wrapping, safe_ConsumeN|]. eauto with bin.
Qed.

#[export] Instance unencrypted_object : Object UnencryptedMessage := {
  Encode := UnencryptedMessage.Encode; Decode := UnencryptedMessage.Decode;
  valid := unencrypted_ok }.
#[export] Instance unencrypted_lawful : LawfulObject UnencryptedMessage.
Proof.
  split; [|apply safe_UnencryptedMessage]. intros u b Hu. exists (unencrypted_bytes u).
  split; [|by apply parses_UnencryptedMessage].
  unfold Encode; simpl. unfold UnencryptedMessage.Encode, unencrypted_bytes. by run_puts.
Qed.

(** ** Correctness *)

(** A container of well-formed messages is encoded without error, and
    decoding the bytes into any receiver appends exactly these messages and
    leaves what follows the container. *)
Theorem container_roundtrip (ms acc : list Message) (b rest : Buffer) :
  Forall message_ok ms -> zlen ms < 2 ^ 31 ->
  exists bs, MessageContainer.Encode ms b = (Ok tt, b ++ bs)
    /\ MessageContainer.Decode acc (bs ++ rest) = (Ok (acc ++ ms), rest).
Proof.
  intros H Hl. exists (container_bytes ms). split; [by apply MessageContainer_Encode_app|].
  by apply parses_MessageContainer.
Qed.

Lemma container_roundtrip_witness :
  exists bs,
    MessageContainer.Encode [mkMessage 5 1 2 [Byte.x61; Byte.x62]; mkMessage (-3) 2 0 []] [] =
      (Ok tt, [] ++ bs)
    /\ MessageContainer.Decode [] (bs ++ [Byte.xff]) =
       (Ok ([] ++ [mkMessage 5 1 2 [Byte.x61; Byte.x62]; mkMessage (-3) 2 0 []]), [Byte.xff]).
Proof.
  apply (container_roundtrip [mkMessage 5 1 2 [Byte.x61; Byte.x62]; mkMessage (-3) 2 0 []]).
  - apply (bool_decide_unpack _). vm_compute. exact I.
  - reflexivity.
Defined.

(** Whatever bytes a peer sends, decoding a container neither panics nor
    reads past them; on success the messages it adds are well formed (declared
    length equal to the body's, at most 1 MiB), re-encode to exactly the bytes
    consumed, and are at most one per 16 bytes of input. *)
Theorem container_decode_bounded (acc : list Message) (b : Buffer) :
  match MessageContainer.Decode acc b with
  | (Ok ms, b') =>
      exists new n, ms = acc ++ new /\ Forall message_ok new
        /\ b = le_split 4 MessageContainerTypeID ++ le_split 4 (u32 n) ++
               concat (map message_bytes new) ++ b'
        /\ zlen new = Z.max 0 n /\ 16 * zlen new <= zlen b
  | (Err _, b') => b' `suffix_of` b
  | (Panic, _) => False
  end.
Proof.
  destruct (safe_MessageContainer acc b) as (r & b' & E & Hr & Hs). rewrite E.
  destruct r as [ms|e|]; [|done|done].
  unfold MessageContainer.Decode, wrapping in E.
  apply bind_inv_ok in E as (u & b1 & H1 & E).
  destruct (ConsumeID MessageContainerTypeID b) as [[]?] eqn:Hid; simplify_eq.
  inv_read. apply decode_messages_inv in E as (new & -> & Hl & Hf & ->).
  exists new, v. split_and!; try done.
  - unfold zlen. lia.
  - pose proof (messages_length new Hf). autorewrite with zlen. pose proof (zlen_nonneg b'). lia.
Qed.

(** What Encode appends, and that Decode reads it back. *)
Definition gzip_bytes (gz : gzip_lib) (data : list byte) : list byte :=
  le_split 4 GZIPTypeID ++ bytes_frame (gz_write gz data).

Lemma GZIP_Encode_app gz data b : GZIP.Encode gz data b = (Ok tt, b ++ gzip_bytes gz data).
Proof. unfold GZIP.Encode, gzip_bytes. run_puts. rewrite encodeBytes_frame. by rewrite <- app_assoc. Qed.

Lemma GZIP_Decode_bytes gz data rest :
  GzipRoundtrip gz -> zlen data < maxUncompressedSize ->
  zlen (gz_write gz data) <= maxLongStringLength ->
  GZIP.Decode gz (gzip_bytes gz data ++ rest) = (Ok data, rest).
Proof.
  intros Hgz Hd Hc. unfold GZIP.Decode, gzip_bytes. rewrite <- app_assoc.
  erewrite bind_ok by (by apply parses_ConsumeID). erewrite bind_ok by (by apply parses_Bytes).
  unfold GZIP.decompress. rewrite gz_write_open, gz_write_close, gz_write_stream.
  unfold GZIP.read_all_limited. rewrite Z.geb_leb.
  replace (maxUncompressedSize <=? zlen data) with false by lia.
  rewrite Z.geb_leb. by replace (maxUncompressedSize <=? zlen data) with false by lia.
Qed.

(** Packing data with gzip and unpacking it gives the data back, for any
    gzip library whose reader inverts its writer, as long as the data is below
    the 10 MiB limit and its compressed form fits a TL byte string. *)
Theorem gzip_roundtrip (gz : gzip_lib) (data : list byte) (b rest : Buffer) :
  GzipRoundtrip gz -> zlen data < maxUncompressedSize ->
  zlen (gz_write gz data) <= maxLongStringLength ->
  exists bs, GZIP.Encode gz data b = (Ok tt, b ++ bs)
    /\ GZIP.Decode gz (bs ++ rest) = (Ok data, rest).
Proof.
  intros Hgz Hd Hc. exists (gzip_bytes gz data). split; [apply GZIP_Encode_app|by apply GZIP_Decode_bytes].
Qed.

(** A gzip library that stores data uncompressed. *)
Definition stored_gzip : gzip_lib := {|
  gz_open _ := None; gz_stream d := (d, None); gz_close _ := None; gz_write d := d |}.
Lemma stored_gzip_roundtrip : GzipRoundtrip stored_gzip.
Proof. by split. Qed.

Lemma gzip_roundtrip_witness :
  exists bs, GZIP.Encode stored_gzip [Byte.x01; Byte.x02] [] = (Ok tt, [] ++ bs)
    /\ GZIP.Decode stored_gzip (bs ++ [Byte.x07]) = (Ok [Byte.x01; Byte.x02], [Byte.x07]).
Proof.
  apply (gzip_roundtrip stored_gzip [Byte.x01; Byte.x02] [] [Byte.x07]).
  - apply stored_gzip_roundtrip.
  - reflexivity.
  - vm_compute. discriminate.
Defined.

(** For any gzip library, unpacking never yields 10 MiB or more: a longer
    stream is reported as a decompression bomb, whatever ends the stream. *)
Theorem gzip_bomb_rejected (gz : gzip_lib) (buf : list byte) :
  gz_open gz buf = None ->
  maxUncompressedSize <= zlen (fst (gz_stream gz buf)) ->
  exists e, GZIP.decompress gz buf = Err e /\
    (e = Wrap (DecompressionBombErr maxUncompressedSize maxUncompressedSize) "decompress"
     \/ exists ce, e = MultiErr (Wrap (DecompressionBombErr maxUncompressedSize
                                 maxUncompressedSize) "decompress") (Wrap ce "close")).
Proof.
  intros Ho Hs. unfold GZIP.decompress, GZIP.read_all_limited. rewrite Ho.
  destruct (gz_stream gz buf) as [data err]. simpl in Hs. rewrite Z.geb_leb.
  replace (maxUncompressedSize <=? zlen data) with true by lia.
  assert (zlen (take (Z.to_nat maxUncompressedSize) data) = maxUncompressedSize) as Hl.
  { apply zlen_take. unfold maxUncompressedSize in *. lia. }
  rewrite Hl, Z.geb_leb, Z.leb_refl.
  destruct (gz_close gz buf) as [ce|]; simpl; eexists; (split; [reflexivity|]); eauto.
Qed.

Lemma gzip_bomb_rejected_witness :
  exists e, GZIP.decompress
      {| gz_open _ := None; gz_stream _ := (zeros (2 ^ 24), None); gz_close _ := None;
         gz_write d := d |} [] = Err e /\
    (e = Wrap (DecompressionBombErr maxUncompressedSize maxUncompressedSize) "decompress"
     \/ exists ce, e = MultiErr (Wrap (DecompressionBombErr maxUncompressedSize
                                 maxUncompressedSize) "decompress") (Wrap ce "close")).
Proof.
  apply (gzip_bomb_rejected {| gz_open _ := None; gz_stream _ := (zeros (2 ^ 24), None);
    gz_close _ := None; gz_write d := d |} []); [reflexivity|].
  change (maxUncompressedSize <= zlen (zeros (2 ^ 24))).
  rewrite zlen_zeros by lia. unfold maxUncompressedSize. lia.
Defined.

(** Rpc_result and plaintext messages survive encoding and decoding;
    rpc_result takes the whole rest of its buffer as the result body. *)
Theorem rpc_result_and_plaintext_roundtrip (r : Result) (u : UnencryptedMessage) (rest : Buffer) :
  result_ok r -> unencrypted_ok u ->
  (exists bs, Result.Encode r [] = (Ok tt, bs) /\ Result.Decode bs = (Ok r, []))
  /\ (exists bs, UnencryptedMessage.Encode u [] = (Ok tt, bs)
        /\ UnencryptedMessage.Decode (bs ++ rest) = (Ok u, rest)).
Proof.
  intros Hr Hu. split.
  - exists (result_bytes r). split; [|by apply Result_Decode_bytes].
    unfold Result.Encode, result_bytes. by run_puts.
  - exists (unencrypted_bytes u). split; [|by apply parses_UnencryptedMessage].
    unfold UnencryptedMessage.Encode, unencrypted_bytes. by run_puts.
Qed.

Lemma rpc_result_and_plaintext_roundtrip_witness :
  (exists bs, Result.Encode (mkResult 77 [Byte.x01]) [] = (Ok tt, bs)
     /\ Result.Decode bs = (Ok (mkResult 77 [Byte.x01]), []))
  /\ (exists bs, UnencryptedMessage.Encode (mkUnencrypted 9 [Byte.x02]) [] = (Ok tt, bs)
        /\ UnencryptedMessage.Decode (bs ++ [Byte.x03]) = (Ok (mkUnencrypted 9 [Byte.x02]), [Byte.x03])).
Proof.
  apply (rpc_result_and_plaintext_roundtrip (mkResult 77 [Byte.x01])
    (mkUnencrypted 9 [Byte.x02]) [Byte.x03]).
  - by vm_compute.
  - by vm_compute.
Defined.
