(* ===== verification/Tgerr.v ===== *)
(** * tgerr: errors of remote calls

    Model of src/tgerr error.go and flood_wait.go: an RPC error splits its message
    at underscores into a type and a numeric argument (FLOOD_WAIT_3), and the
    helpers look for such an error in a chain of wrapped errors.  A message is
    its bytes; a rune that is not a digit has only bytes that are not digits, so
    that the test of the source on runes is a test on bytes. *)
From S2P Require Import Prelude.

(** ** strings.Split, strings.Join, strconv.Atoi *)

Definition underscore : byte := Byte.x5f.

Fixpoint Split (s : list byte) : list (list byte) :=
  match s with
  | [] => [[]]
  | c :: s =>
      if bool_decide (c = underscore) then [] :: Split s
      else match Split s with
           | [] => [[c]]
           | part :: parts => (c :: part) :: parts
           end
  end.

Fixpoint Join (parts : list (list byte)) : list byte :=
  match parts with
  | [] => []
  | [part] => part
  | part :: parts => part ++ underscore :: Join parts
  end.

(** ascii.IsDigit *)
Definition IsDigit (c : byte) : bool := (48 <=? byte.unsigned c) && (byte.unsigned c <=? 57).

Definition decimal (s : list byte) : Z :=
  fold_left (fun n c => 10 * n + (byte.unsigned c - 48)) s 0.

(** strconv.Atoi of a string of digits: an error for no digits and for a number
    that is not an int. *)
Definition Atoi (s : list byte) : option Z :=
  if zlen s =? 0 then None
  else if decimal s <? 2 ^ 63 then Some (decimal s) else None.

(** ** error.go *)

Record Error : Type := mkError { Code : Z; Message : list byte; Type_ : list byte; Argument : Z }.

(** The loop over the parts: the argument, and the other parts unless Atoi
    failed and the function returned early. *)
Fixpoint extract_loop (parts : list (list byte)) (argument : Z) (nonDigit : list (list byte))
    : Z * option (list (list byte)) :=
  match parts with
  | [] => (argument, Some nonDigit)
  | part :: parts =>
      if forallb IsDigit part then
        match Atoi part with
        | None => (argument, None)
        | Some n => extract_loop parts n nonDigit
        end
      else extract_loop parts argument (nonDigit ++ [part])
  end.

Definition extractArgument (e : Error) : Error :=
  if zlen (Message e) =? 0 then e
  else
    let e := mkError (Code e) (Message e) (Message e) (Argument e) in
    let parts := Split (Message e) in
    if zlen parts <? 2 then e
    else
      match extract_loop parts (Argument e) [] with
      | (n, None) => mkError (Code e) (Message e) (Type_ e) n
      | (n, Some nonDigit) => mkError (Code e) (Message e) (Join nonDigit) n
      end.

Definition New (code : Z) (msg : list byte) : Error := extractArgument (mkError code msg [] 0).

Definition IsType (e : Error) (t : list byte) : bool := bool_decide (Type_ e = t).
Definition IsCode_ (e : Error) (code : Z) : bool := Code e =? code.
Definition IsOneOf (e : Error) (tt : list (list byte)) : bool := existsb (IsType e) tt.
Definition IsCodeOneOf (e : Error) (codes : list Z) : bool := existsb (IsCode_ e) codes.

(** errors.As with a *tgerr.Error target. *)
Fixpoint As (err : error) : option Error :=
  match err with
  | RPCError code msg => Some (New code msg)
  | Wrap e _ | ServerExchangeError _ e => As e
  | MultiErr e1 e2 => match As e1 with Some e => Some e | None => As e2 end
  | _ => None
  end.

Definition AsType (err : error) (t : list byte) : option Error :=
  match As err with
  | Some rpcErr => if bool_decide (Type_ rpcErr = t) then Some rpcErr else None
  | None => None
  end.

Definition IsOneOfTypes (err : error) (tt : list (list byte)) : bool :=   (* Is *)
  match As err with Some rpcErr => IsOneOf rpcErr tt | None => false end.

Definition IsCode (err : error) (code : list Z) : bool :=
  match As err with Some rpcErr => IsCodeOneOf rpcErr code | None => false end.

(** ** flood_wait.go *)

(** The bytes of a string literal. *)
Definition bytes_of_string (s : string) : list byte := String.list_byte_of_string s.

Definition ErrPremiumFloodWait : list byte := bytes_of_string "FLOOD_PREMIUM_WAIT".
Definition ErrFloodWait : list byte := bytes_of_string "FLOOD_WAIT".
Definition FloodWaitErrors : list (list byte) := [ErrFloodWait; ErrPremiumFloodWait].

Definition Second : Z := 10 ^ 9.

(** The loop over the error types; a time.Duration is an int64 of nanoseconds. *)
Fixpoint flood_loop (err : error) (ts : list (list byte)) : option Z :=
  match ts with
  | [] => None
  | t :: ts =>
      match AsType err t with
      | Some rpcErr => Some (i64 (Second * Argument rpcErr))
      | None => flood_loop err ts
      end
  end.

Definition AsFloodWait (err : error) : option Z := flood_loop err FloodWaitErrors.

(** FloodWait: the timer runs [d] and a second; [done] tells whether the
    context ended first.  The duration slept is returned with the results. *)
Definition FloodWait (err : error) (done : option error) : bool * error * option Z :=
  match AsFloodWait err with
  | Some d =>
      match done with
      | None => (true, err, Some (i64 (d + 1 * Second)))
      | Some ctxErr => (false, ctxErr, None)
      end
  | None => (false, err, None)
  end.

(** ** Lemmas *)

Definition plain (part : list byte) : Prop := underscore ∉ part.

(** A part that is not a number. *)
Definition word (part : list byte) : Prop := plain part /\ forallb IsDigit part = false.

Lemma Split_plain part : plain part -> Split part = [part].
Proof.
  intros Hp. induction part as [|c part IH]; [done|]. simpl.
  apply not_elem_of_cons in Hp as [Hc Hp]. rewrite bool_decide_eq_false_2 by done.
  by rewrite (IH Hp).
Qed.

Lemma Split_app part s : plain part -> Split (part ++ underscore :: s) = part :: Split s.
Proof.
  intros Hp. induction part as [|c part IH]; simpl; [done|].
  apply not_elem_of_cons in Hp as [Hc Hp]. rewrite bool_decide_eq_false_2 by done.
  by rewrite (IH Hp).
Qed.

(** Splitting inverts joining. *)
Lemma Split_Join parts : parts <> [] -> Forall plain parts -> Split (Join parts) = parts.
Proof.
  induction parts as [|part [|part2 parts] IH]; intros Hne Hp; [done|..];
    apply Forall_cons in Hp as [H1 Hp].
  - by apply Split_plain.
  - change (Join (part :: part2 :: parts)) with (part ++ underscore :: Join (part2 :: parts)).
    by rewrite Split_app, IH.
Qed.

Lemma digits_plain d : forallb IsDigit d = true -> plain d.
Proof.
  intros Hd Hin. apply forallb_forall with (x := underscore) in Hd; [done|].
  by apply list_elem_of_In.
Qed.

Lemma extract_loop_words ws parts n acc :
  Forall word ws -> extract_loop (ws ++ parts) n acc = extract_loop parts n (acc ++ ws).
Proof.
  revert acc. induction ws as [|w ws IH]; intros acc Hw; simpl; [by rewrite app_nil_r|].
  apply Forall_cons in Hw as [[_ Hw] Hws]. rewrite Hw, IH by done. by rewrite <- app_assoc.
Qed.

Lemma Atoi_digits d : d <> [] -> decimal d < 2 ^ 63 -> Atoi d = Some (decimal d).
Proof.
  intros Hd Hlt. unfold Atoi. destruct d as [|c d]; [done|].
  destruct (zlen (c :: d) =? 0) eqn:E; [bool_to_prop; zlen_lia|].
  by apply Z.ltb_lt in Hlt as ->.
Qed.

Lemma extractArgument_parts code parts :
  (2 <= length parts)%nat -> Forall plain parts ->
  New code (Join parts) =
    match extract_loop parts 0 [] with
    | (n, None) => mkError code (Join parts) (Join parts) n
    | (n, Some nonDigit) => mkError code (Join parts) (Join nonDigit) n
    end.
Proof.
  intros Hlen Hp. unfold New, extractArgument. simpl.
  destruct parts as [|p1 [|p2 parts]]; [simpl in Hlen; lia..|].
  rewrite Split_Join by done.
  destruct (zlen (Join (p1 :: p2 :: parts)) =? 0) eqn:E0.
  { bool_to_prop. change (Join (p1 :: p2 :: parts)) with (p1 ++ underscore :: Join (p2 :: parts)) in E0.
    pose proof (zlen_nonneg (Join (p2 :: parts))). zlen_lia. }
  destruct (zlen (p1 :: p2 :: parts) <? 2) eqn:E2; [bool_to_prop; zlen_lia|]. done.
Qed.

(** ** Errors of remote calls *)

(** A message made of words with one number anywhere between them is split
    into the words, joined by underscores, as the type and the number as the
    argument; in particular FLOOD_WAIT_<n> asks to wait n seconds. *)
Theorem rpc_error_argument (code : Z) (ws1 ws2 : list (list byte)) (d : list byte) :
  ws1 ++ ws2 <> [] -> Forall word ws1 -> Forall word ws2 ->
  d <> [] -> forallb IsDigit d = true -> decimal d < 2 ^ 63 ->
  let msg := Join (ws1 ++ [d] ++ ws2) in
  New code msg = mkError code msg (Join (ws1 ++ ws2)) (decimal d) /\
  (Join (ws1 ++ ws2) = ErrFloodWait -> decimal d < 9 * 10 ^ 9 ->
   AsFloodWait (RPCError code msg) = Some (Second * decimal d)).
Proof.
  intros Hne H1 H2 Hd Hdig Hlt msg.
  assert (New code msg = mkError code msg (Join (ws1 ++ ws2)) (decimal d)) as Hnew.
  { unfold msg. rewrite extractArgument_parts.
    - rewrite extract_loop_words by done. simpl.
      rewrite Hdig, Atoi_digits, <- (app_nil_r ws2), extract_loop_words by done.
      simpl. by rewrite !app_nil_r.
    - rewrite !length_app. simpl. destruct ws1, ws2; simpl in *; [done|lia..].
    - apply Forall_app. split; [|apply Forall_app; split].
      + eapply Forall_impl; [exact H1|]. by intros ? [].
      + by apply Forall_singleton, digits_plain.
      + eapply Forall_impl; [exact H2|]. by intros ? []. }
  split; [done|]. intros Ht Hs.
  unfold AsFloodWait, FloodWaitErrors. cbn -[ErrFloodWait ErrPremiumFloodWait Second].
  unfold AsType. cbn [As]. rewrite Hnew. cbn [Type_ Argument]. rewrite Ht, bool_decide_eq_true_2 by done.
  f_equal. apply swrap_id; [lia|].
  assert (0 <= decimal d) as Hnn.
  { unfold decimal. assert (forall n, 0 <= n -> 0 <= fold_left
      (fun n c => 10 * n + (byte.unsigned c - 48)) d n) as Hf; [|by apply Hf].
    clear -Hdig. induction d as [|c d IH]; intros n Hn; simpl; [done|].
    simpl in Hdig. unfold IsDigit in Hdig. bool_to_prop. apply IH; [done|lia]. }
  unfold is_signed, Second. lia.
Qed.

Lemma rpc_error_argument_witness :
  let msg := Join ([bytes_of_string "FLOOD"; bytes_of_string "WAIT"] ++ [bytes_of_string "35"] ++ []) in
  msg = bytes_of_string "FLOOD_WAIT_35" /\
  New 420 msg = mkError 420 msg ErrFloodWait 35 /\
  (ErrFloodWait = ErrFloodWait -> 35 < 9 * 10 ^ 9 ->
   AsFloodWait (RPCError 420 msg) = Some (Second * 35)).
Proof.
  split; [reflexivity|].
  apply (rpc_error_argument 420 [bytes_of_string "FLOOD"; bytes_of_string "WAIT"] []
    (bytes_of_string "35")); try done.
  apply Forall_cons. split; [|apply Forall_singleton];
    (split; [unfold plain; apply (bool_decide_unpack _); vm_compute; exact I|reflexivity]).
Defined.

(** A part with no digits at all: the early return that the source takes for
    unreachable leaves the whole message as the type. *)
Example empty_part_unsplit :
  New 420 (bytes_of_string "FLOOD_WAIT__35")
  = mkError 420 (bytes_of_string "FLOOD_WAIT__35") (bytes_of_string "FLOOD_WAIT__35") 0.
Proof. reflexivity. Qed.
