(* ===== verification/Schema.v ===== *)
(** * mt: messages of the key exchange

    Model of the generated messages of src/mt that the key exchange sends: req_pq,
    req_pq_multi, resPQ, the three p_q_inner_data, req_DH_params,
    server_DH_params, server_DH_inner_data, client_DH_inner_data,
    set_client_DH_params and its answers, with the decoders of the classes.  A
    message is a module with its record, its Encode and its Decode; each is
    registered as an [Object] with its laws, so that the flows only use
    [encode_bytes].  An int128 or int256 is its bytes.  The nil checks of the
    receivers do not apply to values. *)
From S2P Require Import Prelude Bin.

(** An error of a field, with the constructor and the field it came from. *)
Definition field {A} (f : string) (m : GoM Buffer A) : GoM Buffer A := wrapping f m.

(** [for idx := 0; idx < n; idx++ { ...; l = append(l, value) }] *)
Fixpoint decode_n {A} (n : nat) (m : GoM Buffer A) (l : list A) : GoM Buffer (list A) :=
  match n with
  | O => ret l
  | S n => let! value := m in decode_n n m (l ++ [value])
  end.

(** [for _, v := range vs { b.Put(v) }] *)
Fixpoint put_all {A} (put : A -> Buffer -> Buffer) (vs : list A) : GoM Buffer unit :=
  match vs with
  | [] => ret tt
  | v :: vs => modify (put v) ;;! put_all put vs
  end.

(** ** Messages *)

Module ReqPq.
Definition TypeID : Z := 0x60469778.
Record t : Type := mk { Nonce : list byte }.
Definition Encode (r : t) : GoM Buffer unit :=
  modify (PutID TypeID) ;;! modify (PutInt128 (Nonce r)).
Definition Decode : GoM Buffer t :=
  field "req_pq" (ConsumeID TypeID) ;;!
  let! nonce := field "nonce" Int128 in
  ret (mk nonce).
Definition valid (r : t) : Prop := zlen (Nonce r) = 16.
End ReqPq.

Module ReqPqMulti.
Definition TypeID : Z := 0xbe7e8ef1.
Record t : Type := mk { Nonce : list byte }.
Definition Encode (r : t) : GoM Buffer unit :=
  modify (PutID TypeID) ;;! modify (PutInt128 (Nonce r)).
Definition Decode : GoM Buffer t :=
  field "req_pq_multi" (ConsumeID TypeID) ;;!
  let! nonce := field "nonce" Int128 in
  ret (mk nonce).
Definition valid (r : t) : Prop := zlen (Nonce r) = 16.
End ReqPqMulti.

Module ResPQ.
Definition TypeID : Z := 0x05162463.
Record t : Type := mk {
  Nonce : list byte; ServerNonce : list byte; Pq : list byte; ServerPublicKeyFingerprints : list Z }.
Definition Encode (r : t) : GoM Buffer unit :=
  modify (PutID TypeID) ;;!
  modify (PutInt128 (Nonce r)) ;;!
  modify (PutInt128 (ServerNonce r)) ;;!
  modify (PutBytes (Pq r)) ;;!
  modify (PutVectorHeader (zlen (ServerPublicKeyFingerprints r))) ;;!
  put_all PutLong (ServerPublicKeyFingerprints r).
Definition Decode : GoM Buffer t :=
  field "resPQ" (ConsumeID TypeID) ;;!
  let! nonce := field "nonce" Int128 in
  let! serverNonce := field "server_nonce" Int128 in
  let! pq := field "pq" Bytes in
  let! headerLen := field "server_public_key_fingerprints" VectorHeader in
  let! fps := decode_n (Z.to_nat headerLen) (field "server_public_key_fingerprints" Long) [] in
  ret (mk nonce serverNonce pq fps).
Definition valid (r : t) : Prop :=
  zlen (Nonce r) = 16 /\ zlen (ServerNonce r) = 16 /\ zlen (Pq r) <= maxLongStringLength /\
  Forall (fun v => int64 v) (ServerPublicKeyFingerprints r) /\
  zlen (ServerPublicKeyFingerprints r) < 2 ^ 31.
End ResPQ.

Module PQInnerData.
Definition TypeID : Z := 0x83c95aec.
Record t : Type := mk {
  Pq : list byte; P : list byte; Q : list byte;
  Nonce : list byte; ServerNonce : list byte; NewNonce : list byte }.
Definition EncodeBare (p : t) : GoM Buffer unit :=
  modify (PutBytes (Pq p)) ;;!
  modify (PutBytes (P p)) ;;!
  modify (PutBytes (Q p)) ;;!
  modify (PutInt128 (Nonce p)) ;;!
  modify (PutInt128 (ServerNonce p)) ;;!
  modify (PutInt256 (NewNonce p)).
Definition Encode (p : t) : GoM Buffer unit :=
  modify (PutID TypeID) ;;! EncodeBare p.
Definition DecodeBare : GoM Buffer t :=
  let! pq := field "pq" Bytes in
  let! p := field "p" Bytes in
  let! q := field "q" Bytes in
  let! nonce := field "nonce" Int128 in
  let! serverNonce := field "server_nonce" Int128 in
  let! newNonce := field "new_nonce" Int256 in
  ret (mk pq p q nonce serverNonce newNonce).
Definition Decode : GoM Buffer t :=
  field "p_q_inner_data" (ConsumeID TypeID) ;;! DecodeBare.
Definition valid (p : t) : Prop :=
  zlen (Pq p) <= maxLongStringLength /\ zlen (P p) <= maxLongStringLength /\
  zlen (Q p) <= maxLongStringLength /\
  zlen (Nonce p) = 16 /\ zlen (ServerNonce p) = 16 /\ zlen (NewNonce p) = 32.
End PQInnerData.

(** The first six fields of the variants are the ones of p_q_inner_data. *)
Module PQInnerDataDC.
Definition TypeID : Z := 0xa9f55f95.
Record t : Type := mk { Inner : PQInnerData.t; DC : Z }.
Definition Encode (p : t) : GoM Buffer unit :=
  modify (PutID TypeID) ;;! PQInnerData.EncodeBare (Inner p) ;;! modify (PutInt (DC p)).
Definition Decode : GoM Buffer t :=
  field "p_q_inner_data_dc" (ConsumeID TypeID) ;;!
  let! inner := PQInnerData.DecodeBare in
  let! dc := field "dc" Int in
  ret (mk inner dc).
Definition valid (p : t) : Prop := PQInnerData.valid (Inner p) /\ int32 (DC p).
End PQInnerDataDC.

Module PQInnerDataTempDC.
Definition TypeID : Z := 0x56fddf88.
Record t : Type := mk { Inner : PQInnerData.t; DC : Z; ExpiresIn : Z }.
Definition Encode (p : t) : GoM Buffer unit :=
  modify (PutID TypeID) ;;! PQInnerData.EncodeBare (Inner p) ;;!
  modify (PutInt (DC p)) ;;! modify (PutInt (ExpiresIn p)).
Definition Decode : GoM Buffer t :=
  field "p_q_inner_data_temp_dc" (ConsumeID TypeID) ;;!
  let! inner := PQInnerData.DecodeBare in
  let! dc := field "dc" Int in
  let! expires := field "expires_in" Int in
  ret (mk inner dc expires).
Definition valid (p : t) : Prop :=
  PQInnerData.valid (Inner p) /\ int32 (DC p) /\ int32 (ExpiresIn p).
End PQInnerDataTempDC.

Module ReqDHParams.
Definition TypeID : Z := 0xd712e4be.
Record t : Type := mk {
  Nonce : list byte; ServerNonce : list byte; P : list byte; Q : list byte;
  PublicKeyFingerprint : Z; EncryptedData : list byte }.
Definition Encode (r : t) : GoM Buffer unit :=
  modify (PutID TypeID) ;;!
  modify (PutInt128 (Nonce r)) ;;!
  modify (PutInt128 (ServerNonce r)) ;;!
  modify (PutBytes (P r)) ;;!
  modify (PutBytes (Q r)) ;;!
  modify (PutLong (PublicKeyFingerprint r)) ;;!
  modify (PutBytes (EncryptedData r)).
Definition Decode : GoM Buffer t :=
  field "req_DH_params" (ConsumeID TypeID) ;;!
  let! nonce := field "nonce" Int128 in
  let! serverNonce := field "server_nonce" Int128 in
  let! p := field "p" Bytes in
  let! q := field "q" Bytes in
  let! fp := field "public_key_fingerprint" Long in
  let! data := field "encrypted_data" Bytes in
  ret (mk nonce serverNonce p q fp data).
Definition valid (r : t) : Prop :=
  zlen (Nonce r) = 16 /\ zlen (ServerNonce r) = 16 /\ zlen (P r) <= maxLongStringLength /\
  zlen (Q r) <= maxLongStringLength /\ int64 (PublicKeyFingerprint r) /\
  zlen (EncryptedData r) <= maxLongStringLength.
End ReqDHParams.

Module ServerDHParamsFail.
Definition TypeID : Z := 0x79cb045d.
Record t : Type := mk { Nonce : list byte; ServerNonce : list byte; NewNonceHash : list byte }.
Definition Encode (s : t) : GoM Buffer unit :=
  modify (PutID TypeID) ;;!
  modify (PutInt128 (Nonce s)) ;;!
  modify (PutInt128 (ServerNonce s)) ;;!
  modify (PutInt128 (NewNonceHash s)).
Definition Decode : GoM Buffer t :=
  field "server_DH_params_fail" (ConsumeID TypeID) ;;!
  let! nonce := field "nonce" Int128 in
  let! serverNonce := field "server_nonce" Int128 in
  let! hash := field "new_nonce_hash" Int128 in
  ret (mk nonce serverNonce hash).
Definition valid (s : t) : Prop :=
  zlen (Nonce s) = 16 /\ zlen (ServerNonce s) = 16 /\ zlen (NewNonceHash s) = 16.
End ServerDHParamsFail.

Module ServerDHParamsOk.
Definition TypeID : Z := 0xd0e8075c.
Record t : Type := mk { Nonce : list byte; ServerNonce : list byte; EncryptedAnswer : list byte }.
Definition Encode (s : t) : GoM Buffer unit :=
  modify (PutID TypeID) ;;!
  modify (PutInt128 (Nonce s)) ;;!
  modify (PutInt128 (ServerNonce s)) ;;!
  modify (PutBytes (EncryptedAnswer s)).
Definition Decode : GoM Buffer t :=
  field "server_DH_params_ok" (ConsumeID TypeID) ;;!
  let! nonce := field "nonce" Int128 in
  let! serverNonce := field "server_nonce" Int128 in
  let! answer := field "encrypted_answer" Bytes in
  ret (mk nonce serverNonce answer).
Definition valid (s : t) : Prop :=
  zlen (Nonce s) = 16 /\ zlen (ServerNonce s) = 16 /\ zlen (EncryptedAnswer s) <= maxLongStringLength.
End ServerDHParamsOk.

Module ServerDHInnerData.
Definition TypeID : Z := 0xb5890dba.
Record t : Type := mk {
  Nonce : list byte; ServerNonce : list byte; G : Z; DhPrime : list byte; GA : list byte;
  ServerTime : Z }.
Definition Encode (s : t) : GoM Buffer unit :=
  modify (PutID TypeID) ;;!
  modify (PutInt128 (Nonce s)) ;;!
  modify (PutInt128 (ServerNonce s)) ;;!
  modify (PutInt (G s)) ;;!
  modify (PutBytes (DhPrime s)) ;;!
  modify (PutBytes (GA s)) ;;!
  modify (PutInt (ServerTime s)).
Definition Decode : GoM Buffer t :=
  field "server_DH_inner_data" (ConsumeID TypeID) ;;!
  let! nonce := field "nonce" Int128 in
  let! serverNonce := field "server_nonce" Int128 in
  let! g := field "g" Int in
  let! dhPrime := field "dh_prime" Bytes in
  let! ga := field "g_a" Bytes in
  let! time := field "server_time" Int in
  ret (mk nonce serverNonce g dhPrime ga time).
Definition valid (s : t) : Prop :=
  zlen (Nonce s) = 16 /\ zlen (ServerNonce s) = 16 /\ int32 (G s) /\
  zlen (DhPrime s) <= maxLongStringLength /\ zlen (GA s) <= maxLongStringLength /\ int32 (ServerTime s).
End ServerDHInnerData.

Module ClientDHInnerData.
Definition TypeID : Z := 0x6643b654.
Record t : Type := mk { Nonce : list byte; ServerNonce : list byte; RetryID : Z; GB : list byte }.
Definition Encode (c : t) : GoM Buffer unit :=
  modify (PutID TypeID) ;;!
  modify (PutInt128 (Nonce c)) ;;!
  modify (PutInt128 (ServerNonce c)) ;;!
  modify (PutLong (RetryID c)) ;;!
  modify (PutBytes (GB c)).
Definition Decode : GoM Buffer t :=
  field "client_DH_inner_data" (ConsumeID TypeID) ;;!
  let! nonce := field "nonce" Int128 in
  let! serverNonce := field "server_nonce" Int128 in
  let! retry := field "retry_id" Long in
  let! gb := field "g_b" Bytes in
  ret (mk nonce serverNonce retry gb).
Definition valid (c : t) : Prop :=
  zlen (Nonce c) = 16 /\ zlen (ServerNonce c) = 16 /\ int64 (RetryID c) /\
  zlen (GB c) <= maxLongStringLength.
End ClientDHInnerData.

Module SetClientDHParams.
Definition TypeID : Z := 0xf5045f1f.
Record t : Type := mk { Nonce : list byte; ServerNonce : list byte; EncryptedData : list byte }.
Definition Encode (s : t) : GoM Buffer unit :=
  modify (PutID TypeID) ;;!
  modify (PutInt128 (Nonce s)) ;;!
  modify (PutInt128 (ServerNonce s)) ;;!
  modify (PutBytes (EncryptedData s)).
Definition Decode : GoM Buffer t :=
  field "set_client_DH_params" (ConsumeID TypeID) ;;!
  let! nonce := field "nonce" Int128 in
  let! serverNonce := field "server_nonce" Int128 in
  let! data := field "encrypted_data" Bytes in
  ret (mk nonce serverNonce data).
Definition valid (s : t) : Prop :=
  zlen (Nonce s) = 16 /\ zlen (ServerNonce s) = 16 /\ zlen (EncryptedData s) <= maxLongStringLength.
End SetClientDHParams.

(** The three answers to set_client_DH_params have the same fields. *)
Module DhGen.
Definition OkTypeID : Z := 0x3bcbf734.
Definition RetryTypeID : Z := 0x46dc1fb9.
Definition FailTypeID : Z := 0xa69dae02.
Record t : Type := mk { Nonce : list byte; ServerNonce : list byte; NewNonceHash : list byte }.
Definition Encode (id : Z) (d : t) : GoM Buffer unit :=
  modify (PutID id) ;;!
  modify (PutInt128 (Nonce d)) ;;!
  modify (PutInt128 (ServerNonce d)) ;;!
  modify (PutInt128 (NewNonceHash d)).
Definition Decode (id : Z) : GoM Buffer t :=
  field "dh_gen" (ConsumeID id) ;;!
  let! nonce := field "nonce" Int128 in
  let! serverNonce := field "server_nonce" Int128 in
  let! hash := field "new_nonce_hash" Int128 in
  ret (mk nonce serverNonce hash).
Definition valid (d : t) : Prop :=
  zlen (Nonce d) = 16 /\ zlen (ServerNonce d) = 16 /\ zlen (NewNonceHash d) = 16.
End DhGen.

(** ** Classes *)

Inductive PQInnerDataClass : Type :=
| PQ_Inner (p : PQInnerData.t)
| PQ_DC (p : PQInnerDataDC.t)
| PQ_TempDC (p : PQInnerDataTempDC.t).

(** The getters of the interface: the common fields. *)
Definition common (d : PQInnerDataClass) : PQInnerData.t :=
  match d with
  | PQ_Inner p => p
  | PQ_DC p => PQInnerDataDC.Inner p
  | PQ_TempDC p => PQInnerDataTempDC.Inner p
  end.

Definition DecodePQInnerData : GoM Buffer PQInnerDataClass :=
  let! id := PeekID in
  if id =? PQInnerData.TypeID then
    wrapping "PQInnerDataClass" (let! v := PQInnerData.Decode in ret (PQ_Inner v))
  else if id =? PQInnerDataDC.TypeID then
    wrapping "PQInnerDataClass" (let! v := PQInnerDataDC.Decode in ret (PQ_DC v))
  else if id =? PQInnerDataTempDC.TypeID then
    wrapping "PQInnerDataClass" (let! v := PQInnerDataTempDC.Decode in ret (PQ_TempDC v))
  else fail (Wrap (UnexpectedIDErr id) "PQInnerDataClass").

Inductive ServerDHParamsClass : Type :=
| DHParamsFail (s : ServerDHParamsFail.t)
| DHParamsOk (s : ServerDHParamsOk.t).

Definition DecodeServerDHParams : GoM Buffer ServerDHParamsClass :=
  let! id := PeekID in
  if id =? ServerDHParamsFail.TypeID then
    wrapping "ServerDHParamsClass" (let! v := ServerDHParamsFail.Decode in ret (DHParamsFail v))
  else if id =? ServerDHParamsOk.TypeID then
    wrapping "ServerDHParamsClass" (let! v := ServerDHParamsOk.Decode in ret (DHParamsOk v))
  else fail (Wrap (UnexpectedIDErr id) "ServerDHParamsClass").

Inductive SetClientDHParamsAnswerClass : Type :=
| DhGenOk (d : DhGen.t) | DhGenRetry (d : DhGen.t) | DhGenFail (d : DhGen.t).

Definition DecodeSetClientDHParamsAnswer : GoM Buffer SetClientDHParamsAnswerClass :=
  let! id := PeekID in
  if id =? DhGen.OkTypeID then
    wrapping "SetClientDHParamsAnswerClass" (let! v := DhGen.Decode id in ret (DhGenOk v))
  else if id =? DhGen.RetryTypeID then
    wrapping "SetClientDHParamsAnswerClass" (let! v := DhGen.Decode id in ret (DhGenRetry v))
  else if id =? DhGen.FailTypeID then
    wrapping "SetClientDHParamsAnswerClass" (let! v := DhGen.Decode id in ret (DhGenFail v))
  else fail (Wrap (UnexpectedIDErr id) "SetClientDHParamsAnswerClass").

(** ** Laws *)

Section Parsing.
Context {A B : Type}.

Lemma parses_bind_last (m : GoM Buffer A) (k : A -> GoM Buffer B) bs a b :
  parses m bs a -> parses (k a) [] b -> parses (bind m k) bs b.
Proof. intros Hm Hk. rewrite <- (app_nil_r bs). by eapply parses_bind. Qed.

Lemma parses_decode_n (m : GoM Buffer A) (bytes : A -> list byte) (vs acc : list A) :
  Forall (fun v => parses m (bytes v) v) vs ->
  parses (decode_n (length vs) m acc) (concat (map bytes vs)) (acc ++ vs).
Proof.
  intros H. revert acc. induction H as [|v vs Hv _ IH]; intros acc; simpl.
  - rewrite app_nil_r. apply parses_ret.
  - eapply parses_bind; [exact Hv|]. specialize (IH (acc ++ [v])). by rewrite <- app_assoc in IH.
Qed.

Lemma safe_decode_n n (m : GoM Buffer A) l : safe m -> safe (decode_n n m l).
Proof. intros Hm. revert l. induction n as [|n IH]; intros l; simpl; solve_safe. Qed.
End Parsing.
#[export] Hint Resolve safe_decode_n : bin.

Lemma parses_Int_put v : int32 v -> parses Int (le_split 4 (u32 (i32 v))) v.
Proof. intros Hv. rewrite swrap_id by done. by apply parses_Int. Qed.
#[export] Hint Resolve parses_Int_put : bin.

Lemma PutVectorHeader_app n b : PutVectorHeader n b = b ++ PutVectorHeader n [].
Proof. unfold PutVectorHeader, PutInt32, PutID, PutUint32. by rewrite <- app_assoc. Qed.

Lemma put_all_longs vs b :
  put_all PutLong vs b = (Ok tt, b ++ concat (map (fun v => le_split 8 (u64 v)) vs)).
Proof.
  revert b. induction vs as [|v vs IH]; intros b; simpl; [by rewrite app_nil_r|].
  unfold bind, modify. rewrite IH. unfold PutLong, PutUint64. by rewrite <- app_assoc.
Qed.

(** Parses a message field by field. *)
Ltac solve_field := solve [try apply parses_wrapping; first [solve [eauto 2 with bin] | by apply parses_ConsumeID]].
Ltac solve_parses :=
  repeat first
    [ apply parses_ret
    | eapply parses_bind; [solve_field|]
    | eapply parses_bind_last; [solve_field|] ].

(** Encodes a message and parses the result. *)
Ltac solve_message :=
  split;
  [ let a := fresh "a" in
    intros a b Hv; destruct a; simpl in Hv; destruct_and? Hv; eexists;
    unfold Encode, Decode; simpl;
    split; [run_puts; rewrite ?encodeBytes_frame; rewrite <- ?app_assoc; reflexivity|solve_parses]
  | unfold Decode; simpl ].

#[export] Instance ReqPq_object : Object ReqPq.t :=
  {| Encode := ReqPq.Encode; Decode := ReqPq.Decode; valid := ReqPq.valid |}.
#[export] Instance ReqPq_lawful : LawfulObject ReqPq.t.
Proof. unfold ReqPq_object, ReqPq.valid, ReqPq.Encode, ReqPq.Decode, field. solve_message. solve_safe. Qed.

#[export] Instance ReqPqMulti_object : Object ReqPqMulti.t :=
  {| Encode := ReqPqMulti.Encode; Decode := ReqPqMulti.Decode; valid := ReqPqMulti.valid |}.
#[export] Instance ReqPqMulti_lawful : LawfulObject ReqPqMulti.t.
Proof.
  unfold ReqPqMulti_object, ReqPqMulti.valid, ReqPqMulti.Encode, ReqPqMulti.Decode, field.
  solve_message. solve_safe.
Qed.

Definition bare_bytes (p : PQInnerData.t) : list byte :=
  bytes_frame (PQInnerData.Pq p) ++ bytes_frame (PQInnerData.P p) ++ bytes_frame (PQInnerData.Q p) ++
  PQInnerData.Nonce p ++ PQInnerData.ServerNonce p ++ PQInnerData.NewNonce p.

Lemma PQInnerData_EncodeBare p b : PQInnerData.EncodeBare p b = (Ok tt, b ++ bare_bytes p).
Proof.
  unfold PQInnerData.EncodeBare, bare_bytes. run_puts. rewrite !encodeBytes_frame. by rewrite <- !app_assoc.
Qed.

Lemma parses_PQInnerData p :
  PQInnerData.valid p -> parses PQInnerData.DecodeBare (bare_bytes p) p.
Proof.
  destruct p. unfold PQInnerData.valid, bare_bytes, PQInnerData.DecodeBare, field. simpl.
  intros (? & ? & ? & ? & ? & ?). solve_parses.
Qed.

Lemma safe_PQInnerData : safe PQInnerData.DecodeBare.
Proof. unfold PQInnerData.DecodeBare, field. solve_safe. Qed.
#[export] Hint Resolve parses_PQInnerData safe_PQInnerData : bin.

(** The three variants: an id, the common fields, and more integers. *)
Ltac solve_inner :=
  split; [|unfold Decode; simpl; solve_safe];
  intros a b Hv; destruct a; simpl in Hv; destruct_and? Hv; unfold Encode, Decode; simpl; eexists;
  split; [unfold bind, modify; rewrite ?PQInnerData_EncodeBare; run_puts; reflexivity|solve_parses].

#[export] Instance PQInnerData_object : Object PQInnerData.t :=
  {| Encode := PQInnerData.Encode; Decode := PQInnerData.Decode; valid := PQInnerData.valid |}.
#[export] Instance PQInnerData_lawful : LawfulObject PQInnerData.t.
Proof.
  split; [|unfold Decode; simpl; unfold PQInnerData.Decode, field; solve_safe].
  intros p b Hp. exists (le_split 4 PQInnerData.TypeID ++ bare_bytes p). unfold Encode, Decode; simpl. split.
  - unfold PQInnerData.Encode, bind, modify. rewrite PQInnerData_EncodeBare.
    unfold PutID, PutUint32. by rewrite <- app_assoc.
  - unfold PQInnerData.Decode, field. eapply parses_bind; [solve_field|]. by apply parses_PQInnerData.
Qed.

#[export] Instance PQInnerDataDC_object : Object PQInnerDataDC.t :=
  {| Encode := PQInnerDataDC.Encode; Decode := PQInnerDataDC.Decode; valid := PQInnerDataDC.valid |}.
#[export] Instance PQInnerDataDC_lawful : LawfulObject PQInnerDataDC.t.
Proof.
  unfold PQInnerDataDC_object, PQInnerDataDC.valid, PQInnerDataDC.Encode, PQInnerDataDC.Decode, field.
  solve_inner.
Qed.

#[export] Instance PQInnerDataTempDC_object : Object PQInnerDataTempDC.t :=
  {| Encode := PQInnerDataTempDC.Encode; Decode := PQInnerDataTempDC.Decode;
     valid := PQInnerDataTempDC.valid |}.
#[export] Instance PQInnerDataTempDC_lawful : LawfulObject PQInnerDataTempDC.t.
Proof.
  unfold PQInnerDataTempDC_object, PQInnerDataTempDC.valid, PQInnerDataTempDC.Encode,
    PQInnerDataTempDC.Decode, field.
  solve_inner.
Qed.

#[export] Instance ResPQ_object : Object ResPQ.t :=
  {| Encode := ResPQ.Encode; Decode := ResPQ.Decode; valid := ResPQ.valid |}.
#[export] Instance ResPQ_lawful : LawfulObject ResPQ.t.
Proof.
  split; [|unfold Decode; simpl; unfold ResPQ.Decode, field; solve_safe; apply safe_decode_n; solve_safe].
  intros [nonce sn pq fps] b (Hn & Hs & Hp & Hf & Hl). unfold Encode, Decode; simpl in *. eexists. split.
  - unfold ResPQ.Encode. run_puts. simpl. rewrite put_all_longs, PutVectorHeader_app, encodeBytes_frame.
    rewrite <- !app_assoc. reflexivity.
  - unfold ResPQ.Decode, field. pose proof (zlen_nonneg fps).
    do 4 (eapply parses_bind; [solve_field|]).
    eapply parses_bind; [apply parses_wrapping, parses_VectorHeader; lia|].
    unfold zlen. rewrite Nat2Z.id. eapply parses_bind_last; [|apply parses_ret].
    apply (parses_decode_n (wrapping "server_public_key_fingerprints" Long) (fun v => le_split 8 (u64 v)) fps []).
    eapply Forall_impl; [exact Hf|]. intros v Hv. apply parses_wrapping. by apply parses_Long.
Qed.

#[export] Instance ReqDHParams_object : Object ReqDHParams.t :=
  {| Encode := ReqDHParams.Encode; Decode := ReqDHParams.Decode; valid := ReqDHParams.valid |}.
#[export] Instance ReqDHParams_lawful : LawfulObject ReqDHParams.t.
Proof.
  unfold ReqDHParams_object, ReqDHParams.valid, ReqDHParams.Encode, ReqDHParams.Decode, field.
  solve_message. solve_safe.
Qed.

#[export] Instance ServerDHParamsFail_object : Object ServerDHParamsFail.t :=
  {| Encode := ServerDHParamsFail.Encode; Decode := ServerDHParamsFail.Decode; valid := ServerDHParamsFail.valid |}.
#[export] Instance ServerDHParamsFail_lawful : LawfulObject ServerDHParamsFail.t.
Proof.
  unfold ServerDHParamsFail_object, ServerDHParamsFail.valid, ServerDHParamsFail.Encode, ServerDHParamsFail.Decode, field.
  solve_message. solve_safe.
Qed.

#[export] Instance ServerDHParamsOk_object : Object ServerDHParamsOk.t :=
  {| Encode := ServerDHParamsOk.Encode; Decode := ServerDHParamsOk.Decode; valid := ServerDHParamsOk.valid |}.
#[export] Instance ServerDHParamsOk_lawful : LawfulObject ServerDHParamsOk.t.
Proof.
  unfold ServerDHParamsOk_object, ServerDHParamsOk.valid, ServerDHParamsOk.Encode, ServerDHParamsOk.Decode, field.
  solve_message. solve_safe.
Qed.

#[export] Instance ServerDHInnerData_object : Object ServerDHInnerData.t :=
  {| Encode := ServerDHInnerData.Encode; Decode := ServerDHInnerData.Decode; valid := ServerDHInnerData.valid |}.
#[export] Instance ServerDHInnerData_lawful : LawfulObject ServerDHInnerData.t.
Proof.
  unfold ServerDHInnerData_object, ServerDHInnerData.valid, ServerDHInnerData.Encode, ServerDHInnerData.Decode, field.
  solve_message. solve_safe.
Qed.

#[export] Instance ClientDHInnerData_object : Object ClientDHInnerData.t :=
  {| Encode := ClientDHInnerData.Encode; Decode := ClientDHInnerData.Decode; valid := ClientDHInnerData.valid |}.
#[export] Instance ClientDHInnerData_lawful : LawfulObject ClientDHInnerData.t.
Proof.
  unfold ClientDHInnerData_object, ClientDHInnerData.valid, ClientDHInnerData.Encode, ClientDHInnerData.Decode, field.
  solve_message. solve_safe.
Qed.

#[export] Instance SetClientDHParams_object : Object SetClientDHParams.t :=
  {| Encode := SetClientDHParams.Encode; Decode := SetClientDHParams.Decode; valid := SetClientDHParams.valid |}.
#[export] Instance SetClientDHParams_lawful : LawfulObject SetClientDHParams.t.
Proof.
  unfold SetClientDHParams_object, SetClientDHParams.valid, SetClientDHParams.Encode, SetClientDHParams.Decode, field.
  solve_message. solve_safe.
Qed.

(** *** The answers to set_client_DH_params *)

Definition dh_gen_bytes (id : Z) (d : DhGen.t) : list byte :=
  le_split 4 id ++ DhGen.Nonce d ++ DhGen.ServerNonce d ++ DhGen.NewNonceHash d.

Lemma DhGen_Encode id d b : DhGen.Encode id d b = (Ok tt, b ++ dh_gen_bytes id d).
Proof. unfold DhGen.Encode, dh_gen_bytes. by run_puts. Qed.

Lemma parses_DhGen id d : uint32 id -> DhGen.valid d -> parses (DhGen.Decode id) (dh_gen_bytes id d) d.
Proof.
  destruct d as [n s h]. intros Hid (Hn & Hs & Hh). unfold DhGen.Decode, dh_gen_bytes, field. simpl in *.
  solve_parses.
Qed.

(** *** Encoded messages *)

(** What Encode writes to an empty buffer. *)
Definition bytes_of {A} `{!Object A} (a : A) : list byte := snd (Encode a []).

Lemma encode_bytes {A} `{!Object A, !LawfulObject A} (a : A) :
  valid a -> Encode a [] = (Ok tt, bytes_of a) /\ parses Decode (bytes_of a) a.
Proof.
  intros Ha. destruct (encode_decode a [] Ha) as (bs & He & Hp). unfold bytes_of. by rewrite He.
Qed.

(** The id that a class decoder peeks at. *)
Lemma parses_class {A} (k : Z -> GoM Buffer A) id rest a :
  uint32 id -> parses (k id) (le_split 4 id ++ rest) a ->
  parses (let! id := PeekID in k id) (le_split 4 id ++ rest) a.
Proof.
  intros Hid Hk tl. rewrite <- app_assoc. erewrite bind_ok by (by apply PeekID_app).
  specialize (Hk tl). by rewrite <- app_assoc in Hk.
Qed.

Lemma parses_class_ok {A B} msg (m : GoM Buffer A) (f : A -> B) bs a :
  parses m bs a -> parses (wrapping msg (let! v := m in ret (f v))) bs (f a).
Proof. intros Hm. by apply parses_wrapping, parses_bind_ret. Qed.

(** A message whose Encode starts with its id. *)
Lemma parses_PQ_DC (p : PQInnerDataDC.t) :
  valid p -> parses DecodePQInnerData (bytes_of p) (PQ_DC p).
Proof.
  intros Hp. destruct (encode_bytes p Hp) as [He Hd].
  assert (bytes_of p = le_split 4 PQInnerDataDC.TypeID ++
    bare_bytes (PQInnerDataDC.Inner p) ++ le_split 4 (u32 (i32 (PQInnerDataDC.DC p)))) as E.
  { unfold bytes_of. change (Encode p []) with (PQInnerDataDC.Encode p []). unfold PQInnerDataDC.Encode, bind, modify.
    rewrite PQInnerData_EncodeBare. by run_puts. }
  rewrite E in *. apply parses_class; [done|]. by apply (parses_class_ok _ _ PQ_DC).
Qed.

Lemma parses_PQ_TempDC (p : PQInnerDataTempDC.t) :
  valid p -> parses DecodePQInnerData (bytes_of p) (PQ_TempDC p).
Proof.
  intros Hp. destruct (encode_bytes p Hp) as [He Hd].
  assert (bytes_of p = le_split 4 PQInnerDataTempDC.TypeID ++
    bare_bytes (PQInnerDataTempDC.Inner p) ++ le_split 4 (u32 (i32 (PQInnerDataTempDC.DC p))) ++
    le_split 4 (u32 (i32 (PQInnerDataTempDC.ExpiresIn p)))) as E.
  { unfold bytes_of. change (Encode p []) with (PQInnerDataTempDC.Encode p []). unfold PQInnerDataTempDC.Encode, bind, modify.
    rewrite PQInnerData_EncodeBare. by run_puts. }
  rewrite E in *. apply parses_class; [done|]. by apply (parses_class_ok _ _ PQ_TempDC).
Qed.

Lemma parses_DHParamsOk (s : ServerDHParamsOk.t) :
  valid s -> parses DecodeServerDHParams (bytes_of s) (DHParamsOk s).
Proof.
  intros Hs. destruct (encode_bytes s Hs) as [He Hd].
  assert (bytes_of s = le_split 4 ServerDHParamsOk.TypeID ++ ServerDHParamsOk.Nonce s ++
    ServerDHParamsOk.ServerNonce s ++ bytes_frame (ServerDHParamsOk.EncryptedAnswer s)) as E.
  { unfold bytes_of, Encode; simpl. unfold ServerDHParamsOk.Encode. run_puts.
    rewrite encodeBytes_frame. by rewrite <- !app_assoc. }
  rewrite E in *. apply parses_class; [done|]. by apply (parses_class_ok _ _ DHParamsOk).
Qed.

Lemma parses_DhGenOk (d : DhGen.t) :
  DhGen.valid d -> parses DecodeSetClientDHParamsAnswer (dh_gen_bytes DhGen.OkTypeID d) (DhGenOk d).
Proof.
  intros Hd. pose proof (parses_DhGen DhGen.OkTypeID d ltac:(done) Hd) as Hp. unfold dh_gen_bytes in *.
  apply parses_class; [done|]. by apply (parses_class_ok _ _ DhGenOk).
Qed.

(** *** Lengths *)

Lemma zlen_bytes_frame_le v : zlen (bytes_frame v) <= zlen v + 8.
Proof.
  rewrite zlen_bytes_frame. pose proof (zlen_nonneg v).
  assert (0 <= zlen (bytes_header (zlen v)) <= 4) as Hh by (rewrite zlen_bytes_header; case_bool; lia).
  destruct (nearestPaddedValueLength_spec (zlen (bytes_header (zlen v)) + zlen v)) as [_ ?]; lia.
Qed.

(** Bounds the length of an encoded message by the ones of its fields. *)
Ltac message_length :=
  unfold bytes_of, Encode; simpl;
  unfold ReqPqMulti.Encode, ResPQ.Encode, ReqDHParams.Encode, ServerDHParamsOk.Encode, SetClientDHParams.Encode,
    ClientDHInnerData.Encode, ServerDHInnerData.Encode;
  run_puts; simpl; rewrite ?put_all_longs, ?PutVectorHeader_app, ?encodeBytes_frame; simpl;
  autorewrite with zlen;
  repeat match goal with
    | |- context [zlen (bytes_frame ?v)] =>
        lazymatch goal with
        | _ : zlen (bytes_frame v) <= _ |- _ => fail
        | _ => pose proof (zlen_bytes_frame_le v)
        end
    end; try lia.

Lemma zlen_ReqPqMulti m : zlen (bytes_of m) <= 4 + zlen (ReqPqMulti.Nonce m).
Proof. message_length. Qed.

Lemma zlen_ReqDHParams m :
  zlen (bytes_of m) <= 36 + zlen (ReqDHParams.Nonce m) + zlen (ReqDHParams.ServerNonce m) +
    zlen (ReqDHParams.P m) + zlen (ReqDHParams.Q m) + zlen (ReqDHParams.EncryptedData m).
Proof. message_length. Qed.

Lemma zlen_ServerDHParamsOk m :
  zlen (bytes_of m) <= 12 + zlen (ServerDHParamsOk.Nonce m) + zlen (ServerDHParamsOk.ServerNonce m) +
    zlen (ServerDHParamsOk.EncryptedAnswer m).
Proof. message_length. Qed.

Lemma zlen_SetClientDHParams m :
  zlen (bytes_of m) <= 12 + zlen (SetClientDHParams.Nonce m) + zlen (SetClientDHParams.ServerNonce m) +
    zlen (SetClientDHParams.EncryptedData m).
Proof. message_length. Qed.

Lemma zlen_ClientDHInnerData m :
  zlen (bytes_of m) <= 20 + zlen (ClientDHInnerData.Nonce m) + zlen (ClientDHInnerData.ServerNonce m) +
    zlen (ClientDHInnerData.GB m).
Proof. message_length. Qed.

Lemma zlen_ServerDHInnerData m :
  zlen (bytes_of m) <= 28 + zlen (ServerDHInnerData.Nonce m) + zlen (ServerDHInnerData.ServerNonce m) +
    zlen (ServerDHInnerData.DhPrime m) + zlen (ServerDHInnerData.GA m).
Proof. message_length. Qed.

Lemma zlen_ResPQ m :
  zlen (bytes_of m) <= 20 + zlen (ResPQ.Nonce m) + zlen (ResPQ.ServerNonce m) + zlen (ResPQ.Pq m) +
    8 * zlen (ResPQ.ServerPublicKeyFingerprints m).
Proof.
  assert (forall vs, zlen (concat (map (fun v => le_split 8 (u64 v)) vs)) = 8 * zlen vs) as Hc.
  { induction vs as [|v vs IH]; [done|]. simpl. autorewrite with zlen. lia. }
  change (bytes_of m) with (snd (ResPQ.Encode m [])). unfold ResPQ.Encode. run_puts.
  rewrite put_all_longs, PutVectorHeader_app, encodeBytes_frame. cbn [snd].
  pose proof (zlen_bytes_frame_le (ResPQ.Pq m)). rewrite !zlen_app, Hc.
  unfold PutVectorHeader, PutInt32, PutID, PutUint32. autorewrite with zlen. lia.
Qed.
