(* ===== verification/Fileid.v ===== *)
(** * fileid: Bot API file identifiers

    Model of src/fileid (rle.go, encode.go, decode.go, file_id.go, type.go,
    photo_size_source.go, photo_size_source_type.go, from.go, into.go) and of the
    peer identifiers of src/constant/tdlib_ids.go that they use.  A file identifier
    is serialized with src/bin, its runs of zeros are shortened, and the result is
    written in base64.  A string is its bytes; the decoders start from the zero
    value and their results are the ones of a decoding without error. *)
From S2P Require Import Prelude Bin Schema.

(** ** base64.RawURLEncoding of the standard library *)

Definition alphabet : list byte :=
  String.list_byte_of_string "ABCDEFGHIJKLMNOPQRSTUVWXYZabcdefghijklmnopqrstuvwxyz0123456789-_".

Definition sextet (v : Z) : byte := default Byte.x00 (alphabet !! Z.to_nat v).

(** EncodeToString: groups of three bytes, and a shorter last one without padding. *)
Fixpoint base64Encode (s : list byte) : list byte :=
  match s with
  | [] => []
  | [a] =>
      let v := byte.unsigned a * 2 ^ 16 in
      [sextet (v / 2 ^ 18); sextet (v / 2 ^ 12 mod 64)]
  | [a; b] =>
      let v := byte.unsigned a * 2 ^ 16 + byte.unsigned b * 2 ^ 8 in
      [sextet (v / 2 ^ 18); sextet (v / 2 ^ 12 mod 64); sextet (v / 2 ^ 6 mod 64)]
  | a :: b :: c :: s =>
      let v := byte.unsigned a * 2 ^ 16 + byte.unsigned b * 2 ^ 8 + byte.unsigned c in
      [sextet (v / 2 ^ 18); sextet (v / 2 ^ 12 mod 64); sextet (v / 2 ^ 6 mod 64); sextet (v mod 64)] ++ base64Encode s
  end.

Fixpoint index_of (c : byte) (l : list byte) (i : Z) : option Z :=
  match l with
  | [] => None
  | x :: l => if Byte.eqb c x then Some i else index_of c l (i + 1)
  end.

(** DecodeString skips line ends and does not look at the bits that the last group leaves over. *)
Fixpoint sextets (s : list byte) : option (list Z) :=
  match s with
  | [] => Some []
  | c :: s =>
      if Byte.eqb c Byte.x0a || Byte.eqb c Byte.x0d then sextets s
      else match index_of c alphabet 0, sextets s with
           | Some v, Some l => Some (v :: l)
           | _, _ => None
           end
  end.

Fixpoint quanta (l : list Z) : option (list byte) :=
  match l with
  | [] => Some []
  | [_] => None
  | [a; b] => Some [byte.of_Z ((a * 2 ^ 18 + b * 2 ^ 12) / 2 ^ 16)]
  | [a; b; c] =>
      let v := a * 2 ^ 18 + b * 2 ^ 12 + c * 2 ^ 6 in
      Some [byte.of_Z (v / 2 ^ 16); byte.of_Z (v / 2 ^ 8)]
  | a :: b :: c :: d :: l =>
      let v := a * 2 ^ 18 + b * 2 ^ 12 + c * 2 ^ 6 + d in
      match quanta l with
      | Some s => Some ([byte.of_Z (v / 2 ^ 16); byte.of_Z (v / 2 ^ 8); byte.of_Z v] ++ s)
      | None => None
      end
  end.

Definition base64Decode (s : list byte) : outcome (list byte) :=
  match sextets s with
  | Some l => match quanta l with Some b => Ok b | None => Err (Errorf "illegal base64 data") end
  | None => Err (Errorf "illegal base64 data")
  end.

(** ** rle.go *)

(** The loop of rleEncode; the counter is a byte. *)
Fixpoint rleEncode_loop (s : list byte) (count : Z) (r : list byte) : list byte :=
  match s with
  | [] => if count >? 0 then r ++ [Byte.x00; byte.of_Z count] else r
  | cur :: s =>
      if Byte.eqb cur Byte.x00 then rleEncode_loop s ((count + 1) mod 256) r
      else
        let r := if count >? 0 then r ++ [Byte.x00; byte.of_Z count] else r in
        rleEncode_loop s 0 (r ++ [cur])
  end.
Definition rleEncode (s : list byte) : list byte := rleEncode_loop s 0 [].

(** [last] is nil or one byte. *)
Fixpoint rleDecode_loop (s last r : list byte) : list byte :=
  match s with
  | [] => r ++ last
  | cur :: s =>
      if bool_decide (last = [Byte.x00])
      then rleDecode_loop s [] (r ++ mjoin (replicate (Z.to_nat (byte.unsigned cur)) last))
      else rleDecode_loop s [cur] (r ++ last)
  end.
Definition rleDecode (s : list byte) : list byte := rleDecode_loop s [] [].

(** ** constant/tdlib_ids.go *)

Module TDLibPeerID.
Definition MaxTDLibChatID : Z := 999999999999.
Definition ZeroTDLibChannelID : Z := -1000000000000.
Definition MaxTDLibUserID : Z := 2 ^ 40 - 1.
Definition MinMTProtoMonoforumID : Z := 1002147483649.
Definition MaxMTProtoMonoforumID : Z := 3000000000000.
Definition MinBotAPIMonoforumID : Z := -4000000000000.
Definition MaxBotAPIMonoforumID : Z := -2002147483649.
Definition MaxTDLibChannelID : Z := 1000000000000 - 2 ^ 31.

Definition User (p : Z) : Z := p.
Definition Chat (p : Z) : Z := i64 (- p).
Definition Channel (p : Z) : Z := i64 (ZeroTDLibChannelID - p).

Definition IsUser (id : Z) : bool := (id >? 0) && (id <=? MaxTDLibUserID).
Definition IsChat (id : Z) : bool := (id <? 0) && (id >=? - MaxTDLibChatID).
Definition IsMonoforum (id : Z) : bool := (id >=? MinBotAPIMonoforumID) && (id <=? MaxBotAPIMonoforumID).
Definition IsChannel (id : Z) : bool :=
  if id >=? 0 then false
  else if (id =? ZeroTDLibChannelID) || IsChat id then false
  else if (id >=? -1997852516352) && (id <=? -1000000000001) then true
  else (id >=? MinBotAPIMonoforumID) && (id <=? MaxBotAPIMonoforumID).

Definition ToPlain (id : Z) : Z :=
  if IsUser id then id
  else if IsChat id then i64 (- id)
  else if IsChannel id then i64 (- (id - ZeroTDLibChannelID))
  else 0.
End TDLibPeerID.

(** ** type.go, photo_size_source_type.go *)

Definition Thumbnail : Z := 0.
Definition ProfilePhoto : Z := 1.
Definition Photo : Z := 2.
Definition Voice : Z := 3.
Definition Video : Z := 4.
Definition Document : Z := 5.
Definition Encrypted : Z := 6.
Definition Temp : Z := 7.
Definition Sticker : Z := 8.
Definition Audio : Z := 9.
Definition Animation : Z := 10.
Definition EncryptedThumbnail : Z := 11.
Definition Wallpaper : Z := 12.
Definition VideoNote : Z := 13.
Definition SecureRaw : Z := 14.
Definition Secure : Z := 15.
Definition Background : Z := 16.
Definition DocumentAsFile : Z := 17.
Definition lastType : Z := 18.

Definition PhotoSizeSourceLegacy : Z := 0.
Definition PhotoSizeSourceThumbnail : Z := 1.
Definition PhotoSizeSourceDialogPhotoSmall : Z := 2.
Definition PhotoSizeSourceDialogPhotoBig : Z := 3.
Definition PhotoSizeSourceStickerSetThumbnail : Z := 4.
Definition PhotoSizeSourceFullLegacy : Z := 5.
Definition PhotoSizeSourceDialogPhotoSmallLegacy : Z := 6.
Definition PhotoSizeSourceDialogPhotoBigLegacy : Z := 7.
Definition PhotoSizeSourceStickerSetThumbnailLegacy : Z := 8.
Definition PhotoSizeSourceStickerSetThumbnailVersion : Z := 9.
Definition lastPhotoSizeSourceType : Z := 10.

(** ** photo_size_source.go *)

(** PhotoSize is never read or written by the package. *)
Record PhotoSizeSource : Type := mkSource {
  ps_Type : Z; VolumeID : Z; LocalID : Z; Secret : Z; PhotoSize : list byte;
  FileType : Z; ThumbnailType : Z; DialogID : Z; DialogAccessHash : Z;
  StickerSetID : Z; StickerSetAccessHash : Z; StickerVersion : Z }.
#[export] Instance PhotoSizeSource_eq_dec : EqDecision PhotoSizeSource.
Proof. solve_decision. Defined.

Definition zero_source : PhotoSizeSource := mkSource 0 0 0 0 [] 0 0 0 0 0 0 0.

Definition readLocalIDVolumeID : GoM Buffer (Z * Z) :=
  let! volume := wrapping "read volume_id" Long in
  let! local := wrapping "read local_id" Int in
  ret (volume, local).

Definition readDialog : GoM Buffer (Z * Z) :=
  let! id := wrapping "read dialog_id" Long in
  let! hash := wrapping "read dialog_access_hash" Long in
  ret (id, hash).

Definition readStickerSet : GoM Buffer (Z * Z) :=
  let! id := wrapping "read sticker_set_id" Long in
  let! hash := wrapping "read sticker_set_access_hash" Long in
  ret (id, hash).

Definition latestSubVersion : Z := 34.

(** The switch of decode; [v] and [l] are the volume and the local id read so far. *)
Definition decode_body (t v l : Z) : GoM Buffer PhotoSizeSource :=
  if t =? PhotoSizeSourceLegacy then
    let! secret := wrapping "read secret" Long in
    ret (mkSource t v l secret [] 0 0 0 0 0 0 0)
  else if t =? PhotoSizeSourceThumbnail then
    let! ft := wrapping "read file_type" Uint32 in
    let! thumb := wrapping "read thumbnail_type" Int32 in
    ret (mkSource t v l 0 [] ft thumb 0 0 0 0 0)
  else if (t =? PhotoSizeSourceDialogPhotoBig) || (t =? PhotoSizeSourceDialogPhotoSmall) then
    let! d := wrapping "read dialog" readDialog in
    ret (mkSource t v l 0 [] 0 0 (fst d) (snd d) 0 0 0)
  else if t =? PhotoSizeSourceStickerSetThumbnail then
    let! s := wrapping "read sticker_set" readStickerSet in
    ret (mkSource t v l 0 [] 0 0 0 0 (fst s) (snd s) 0)
  else if t =? PhotoSizeSourceFullLegacy then
    let! volume := wrapping "read volume_id" Long in
    let! secret := wrapping "read secret" Long in
    let! local := wrapping "read local_id" Int in
    ret (mkSource t volume local secret [] 0 0 0 0 0 0 0)
  else if (t =? PhotoSizeSourceDialogPhotoBigLegacy) || (t =? PhotoSizeSourceDialogPhotoSmallLegacy) then
    let! d := wrapping "read dialog" readDialog in
    let! p := wrapping "read legacy photo" readLocalIDVolumeID in
    ret (mkSource t (fst p) (snd p) 0 [] 0 0 (fst d) (snd d) 0 0 0)
  else if t =? PhotoSizeSourceStickerSetThumbnailLegacy then
    let! s := wrapping "read sticker_set" readStickerSet in
    let! p := wrapping "read legacy photo" readLocalIDVolumeID in
    ret (mkSource t (fst p) (snd p) 0 [] 0 0 0 0 (fst s) (snd s) 0)
  else if t =? PhotoSizeSourceStickerSetThumbnailVersion then
    let! s := wrapping "read sticker_set" readStickerSet in
    let! version := wrapping "read sticker_version" Int32 in
    ret (mkSource t v l 0 [] 0 0 0 0 (fst s) (snd s) version)
  else ret (mkSource t v l 0 [] 0 0 0 0 0 0 0).

Definition set_LocalID (l : Z) (p : PhotoSizeSource) : PhotoSizeSource :=
  mkSource (ps_Type p) (VolumeID p) l (Secret p) (PhotoSize p) (FileType p) (ThumbnailType p) (DialogID p)
    (DialogAccessHash p) (StickerSetID p) (StickerSetAccessHash p) (StickerVersion p).

Definition decode_typed (subVersion volume : Z) : GoM Buffer PhotoSizeSource :=
  let! t := (if subVersion >=? 4 then wrapping "read photo_size_type" Int else ret 0) in
  if (t <? 0) || (t >=? lastPhotoSizeSourceType) then fail (Errorf "unknown photo size source type")
  else
    let! p := decode_body t volume 0 in
    if (subVersion <? 32) && (subVersion >=? 22) then
      let! local := wrapping "read local_id" Int in
      ret (set_LocalID local p)
    else ret p.

Definition decode (subVersion : Z) : GoM Buffer PhotoSizeSource :=
  if subVersion <? 32 then
    let! volume := wrapping "read volume_id" Long in
    if subVersion <? 22 then
      let! secret := wrapping "read secret" Long in
      let! local := wrapping "read local_id" Int in
      ret (mkSource 0 volume local secret [] 0 0 0 0 0 0 0)
    else decode_typed subVersion volume
  else decode_typed subVersion 0.

Definition writeLocalIDVolumeID (p : PhotoSizeSource) (b : Buffer) : Buffer :=
  PutInt (LocalID p) (PutLong (VolumeID p) b).
Definition writeDialog (p : PhotoSizeSource) (b : Buffer) : Buffer :=
  PutLong (DialogAccessHash p) (PutLong (DialogID p) b).
Definition writeStickerSet (p : PhotoSizeSource) (b : Buffer) : Buffer :=
  PutLong (StickerSetAccessHash p) (PutLong (StickerSetID p) b).

Definition encode (p : PhotoSizeSource) (b : Buffer) : Buffer :=
  let t := ps_Type p in
  let b := PutInt t b in
  if t =? PhotoSizeSourceLegacy then PutLong (Secret p) b
  else if t =? PhotoSizeSourceThumbnail then PutInt32 (ThumbnailType p) (PutUint32 (u32 (FileType p)) b)
  else if (t =? PhotoSizeSourceDialogPhotoBig) || (t =? PhotoSizeSourceDialogPhotoSmall) then writeDialog p b
  else if t =? PhotoSizeSourceStickerSetThumbnail then writeStickerSet p b
  else if t =? PhotoSizeSourceFullLegacy then PutInt (LocalID p) (PutLong (Secret p) (PutLong (VolumeID p) b))
  else if (t =? PhotoSizeSourceDialogPhotoBigLegacy) || (t =? PhotoSizeSourceDialogPhotoSmallLegacy) then
    writeLocalIDVolumeID p (writeDialog p b)
  else if t =? PhotoSizeSourceStickerSetThumbnailLegacy then writeLocalIDVolumeID p (writeStickerSet p b)
  else if t =? PhotoSizeSourceStickerSetThumbnailVersion then PutInt32 (StickerVersion p) (writeStickerSet p b)
  else b.

(** ** file_id.go *)

Record FileID : Type := mkFileID {
  f_Type : Z; DC : Z; f_ID : Z; AccessHash : Z; FileReference : list byte; URL : list byte;
  f_PhotoSizeSource : PhotoSizeSource }.
#[export] Instance FileID_eq_dec : EqDecision FileID.
Proof. solve_decision. Defined.

Definition webLocationFlag : Z := 2 ^ 24.
Definition fileReferenceFlag : Z := 2 ^ 25.

(** [case Thumbnail, Photo, ProfilePhoto] *)
Definition has_source (t : Z) : bool := (t =? Thumbnail) || (t =? Photo) || (t =? ProfilePhoto).

(** What follows the read of the sub-version, the last byte of the buffer. *)
Definition decodeLatest_body (subVersion : Z) : GoM Buffer FileID :=
  let! typeID := wrapping "read type_id" Uint32 in
  let hasWebLocation := negb (Z.land typeID webLocationFlag =? 0) in
  let hasReference := negb (Z.land typeID fileReferenceFlag =? 0) in
  let typeID := Z.ldiff (Z.ldiff typeID webLocationFlag) fileReferenceFlag in
  if typeID >=? lastType then fail (Errorf "unknown type")
  else
    let! dc := wrapping "read dc_id" Uint32 in
    let! reference := (if hasReference then wrapping "read file_reference" Bytes else ret []) in
    if hasWebLocation then
      let! url := wrapping "read url" String in
      ret (mkFileID typeID dc 0 0 reference url zero_source)
    else
      let! id := wrapping "read id" Long in
      let! accessHash := wrapping "read access_hash" Long in
      let! source :=
        (if has_source typeID then wrapping "decode photo_size" (decode subVersion) else ret zero_source) in
      ret (mkFileID typeID dc id accessHash reference [] source).

Definition decodeLatestFileID : GoM Buffer FileID := fun b =>
  match last b with
  | None => (Err ErrUnexpectedEOF, b)
  | Some sub => decodeLatest_body (byte.unsigned sub) b
  end.

Definition encodeLatestFileID (f : FileID) (b : Buffer) : Buffer :=
  let hasWebLocation := negb (bool_decide (URL f = [])) in
  let hasReference := negb (zlen (FileReference f) =? 0) in
  let typeID := f_Type f in
  let typeID := if hasWebLocation then Z.lor typeID webLocationFlag else typeID in
  let typeID := if hasReference then Z.lor typeID fileReferenceFlag else typeID in
  let b := PutUint32 (u32 typeID) b in
  let b := PutUint32 (u32 (DC f)) b in
  let b := if hasReference then PutBytes (FileReference f) b else b in
  if hasWebLocation then PutString (URL f) b
  else
    let b := PutLong (f_ID f) b in
    let b := PutLong (AccessHash f) b in
    let b := if has_source (f_Type f) then encode (f_PhotoSizeSource f) b else b in
    b ++ [byte.of_Z latestSubVersion].

(** ** decode.go, encode.go *)

Definition persistentIDVersionOld : Z := 2.
Definition persistentIDVersionMap : Z := 3.
Definition persistentIDVersion : Z := 4.

Definition DecodeFileID (s : list byte) : outcome FileID :=
  if bool_decide (s = []) then Err (Errorf "input is empty")
  else
    match base64Decode s with
    | Err e => Err (Wrap e "base64")
    | Panic => Panic
    | Ok data =>
        let data := rleDecode data in
        if zlen data <? 2 then Err (Errorf "RLE-decoded data is too small")
        else
          match last data with
          | None => Panic
          | Some version =>
              let version := byte.unsigned version in
              if (version =? persistentIDVersionOld) || (version =? persistentIDVersionMap)
              then Err (Errorf "version is unsupported now")
              else if version =? persistentIDVersion
              then fst (decodeLatestFileID (take (Z.to_nat (zlen data - 1)) data))
              else Err (Errorf "unknown file_id version")
          end
    end.

(** EncodeFileID never returns an error. *)
Definition EncodeFileID (id : FileID) : list byte :=
  let buf := encodeLatestFileID id [] in
  let buf := buf ++ [byte.of_Z persistentIDVersion] in
  base64Encode (rleEncode buf).

(** ** from.go *)

(** The fields of the objects of src/tg that the package reads. *)
Inductive DocumentAttribute : Type :=
| AttributeAnimated | AttributeSticker | AttributeVideo (RoundMessage : bool) | AttributeAudio (IsVoice : bool)
| AttributeOther.
Record tgDocument : Type := mkDocument {
  doc_DCID : Z; doc_ID : Z; doc_AccessHash : Z; doc_FileReference : list byte; Attributes : list DocumentAttribute }.
Record tgPhoto : Type := mkPhoto { ph_DCID : Z; ph_ID : Z; ph_AccessHash : Z; ph_FileReference : list byte }.
Record ChatPhoto : Type := mkChatPhoto { GetDCID : Z; GetPhotoID : Z }.

Definition attribute_type (t : Z) (attr : DocumentAttribute) : Z :=
  match attr with
  | AttributeAnimated => Animation
  | AttributeSticker => Sticker
  | AttributeVideo round => if round then VideoNote else Video
  | AttributeAudio voice => if voice then Voice else Audio
  | AttributeOther => t
  end.

Definition FromDocument (doc : tgDocument) : FileID :=
  mkFileID (fold_left attribute_type (Attributes doc) DocumentAsFile) (doc_DCID doc) (doc_ID doc) (doc_AccessHash doc)
    (doc_FileReference doc) [] zero_source.

Definition FromPhoto (photo : tgPhoto) (thumbType : Z) : FileID :=
  mkFileID Photo (ph_DCID photo) (ph_ID photo) (ph_AccessHash photo) (ph_FileReference photo) []
    (mkSource PhotoSizeSourceThumbnail 0 0 0 [] Photo thumbType 0 0 0 0 0).

Definition FromChatPhoto (id accessHash : Z) (photo : ChatPhoto) (big : bool) : FileID :=
  mkFileID ProfilePhoto (GetDCID photo) (GetPhotoID photo) 0 [] []
    (mkSource (if big then PhotoSizeSourceDialogPhotoBig else PhotoSizeSourceDialogPhotoSmall)
       0 0 0 [] 0 0 id accessHash 0 0 0).

(** ** into.go *)

Inductive InputPeer : Type :=
| InputPeerUser (UserID hash : Z) | InputPeerChat (ChatID : Z) | InputPeerChannel (ChannelID hash : Z) | InputPeerEmpty.

(** The rune of a thumbnail is the string of its code point. *)
Inductive InputFileLocation : Type :=
| InputPhotoFileLocation (ID hash : Z) (ref : list byte) (ThumbSize : Z)
| InputPeerPhotoFileLocation (Big : bool) (Peer : InputPeer) (PhotoID : Z)
| InputPhotoLegacyFileLocation (ID hash : Z) (ref : list byte) (volume local secret : Z)
| InputPeerPhotoFileLocationLegacy (Big : bool) (Peer : InputPeer) (volume local : Z)
| InputStickerSetThumbLegacy (set hash volume local : Z)
| InputStickerSetThumb (set hash version : Z)
| InputEncryptedFileLocation (ID hash : Z)
| InputSecureFileLocation (ID hash : Z)
| InputDocumentFileLocation (ID hash : Z) (ref : list byte).

Definition dialogPeer (p : PhotoSizeSource) : InputPeer :=
  let id := DialogID p in
  if TDLibPeerID.IsUser id then InputPeerUser (TDLibPeerID.ToPlain id) (DialogAccessHash p)
  else if TDLibPeerID.IsChat id then InputPeerChat (TDLibPeerID.ToPlain id)
  else if TDLibPeerID.IsChannel id then InputPeerChannel (TDLibPeerID.ToPlain id) (DialogAccessHash p)
  else InputPeerEmpty.

(** tg.InputWebFileLocation: the address and the access hash. *)
Definition AsInputWebFileLocation (f : FileID) : option (list byte * Z) :=
  if bool_decide (URL f = []) then None else Some (URL f, AccessHash f).

Definition asPhotoLocation (f : FileID) : option InputFileLocation :=
  let src := f_PhotoSizeSource f in
  let t := ps_Type src in
  if t =? PhotoSizeSourceLegacy then None
  else if t =? PhotoSizeSourceThumbnail then
    if (FileType src =? Photo) || (FileType src =? Thumbnail)
    then Some (InputPhotoFileLocation (f_ID f) (AccessHash f) (FileReference f) (ThumbnailType src))
    else None
  else if (t =? PhotoSizeSourceDialogPhotoSmall) || (t =? PhotoSizeSourceDialogPhotoBig) then
    Some (InputPeerPhotoFileLocation (t =? PhotoSizeSourceDialogPhotoBig) (dialogPeer src) (f_ID f))
  else if t =? PhotoSizeSourceStickerSetThumbnail then None
  else if t =? PhotoSizeSourceFullLegacy then
    Some (InputPhotoLegacyFileLocation (f_ID f) (AccessHash f) (FileReference f) (VolumeID src) (LocalID src) (Secret src))
  else if (t =? PhotoSizeSourceDialogPhotoSmallLegacy) || (t =? PhotoSizeSourceDialogPhotoBigLegacy) then
    Some (InputPeerPhotoFileLocationLegacy (t =? PhotoSizeSourceDialogPhotoBigLegacy) (dialogPeer src)
            (VolumeID src) (LocalID src))
  else if t =? PhotoSizeSourceStickerSetThumbnailLegacy then
    Some (InputStickerSetThumbLegacy (StickerSetID src) (StickerSetAccessHash src) (VolumeID src) (LocalID src))
  else if t =? PhotoSizeSourceStickerSetThumbnailVersion then
    Some (InputStickerSetThumb (StickerSetID src) (StickerSetAccessHash src) (StickerVersion src))
  else None.

Definition AsInputFileLocation (f : FileID) : option InputFileLocation :=
  let t := f_Type f in
  if (t =? Thumbnail) || (t =? ProfilePhoto) || (t =? Photo) then asPhotoLocation f
  else if t =? Encrypted then Some (InputEncryptedFileLocation (f_ID f) (AccessHash f))
  else if (t =? SecureRaw) || (t =? Secure) then Some (InputSecureFileLocation (f_ID f) (AccessHash f))
  else if (t =? Video) || (t =? Voice) || (t =? Document) || (t =? Sticker) || (t =? Audio) || (t =? Animation) ||
          (t =? VideoNote) || (t =? Background) || (t =? DocumentAsFile) then
    Some (InputDocumentFileLocation (f_ID f) (AccessHash f) (FileReference f))
  else None.

(** ** Base64 *)

Lemma index_sextet v : 0 <= v < 64 -> index_of (sextet v) alphabet 0 = Some v.
Proof.
  intros Hv. assert (Forall (fun n => index_of (sextet (Z.of_nat n)) alphabet 0 = Some (Z.of_nat n)) (seq 0 64)) as H
    by (apply (bool_decide_unpack _); vm_compute; exact I).
  rewrite Forall_forall in H. rewrite <- (Z2Nat.id v) by lia. apply H, elem_of_seq. lia.
Qed.

Lemma sextet_plain v : 0 <= v < 64 -> Byte.eqb (sextet v) Byte.x0a || Byte.eqb (sextet v) Byte.x0d = false.
Proof.
  intros Hv. assert (Forall (fun n => Byte.eqb (sextet (Z.of_nat n)) Byte.x0a || Byte.eqb (sextet (Z.of_nat n)) Byte.x0d = false)
    (seq 0 64)) as H by (apply (bool_decide_unpack _); vm_compute; exact I).
  rewrite Forall_forall in H. rewrite <- (Z2Nat.id v) by lia. apply H, elem_of_seq. lia.
Qed.

Lemma sextets_cons v s : 0 <= v < 64 -> sextets (sextet v :: s) = option_map (cons v) (sextets s).
Proof.
  intros Hv. cbn [sextets]. rewrite sextet_plain, index_sextet by done. by destruct (sextets s).
Qed.

Lemma byte_of_mod v a : v mod 256 = byte.unsigned a -> byte.of_Z v = a.
Proof.
  intros Ha. apply byte.unsigned_inj. rewrite byte.unsigned_of_Z. unfold byte.wrap. exact Ha.
Qed.

Lemma unsigned_range (a : byte) : 0 <= byte.unsigned a < 256.
Proof. pose proof (byte.unsigned_range a). lia. Qed.

(** Linear arithmetic with divisions by constants. *)
Ltac lia_div := Z.div_mod_to_equations; lia.

(** What is encoded, is decoded; the length of the input decides the shape of the last group. *)
Lemma base64_roundtrip s : base64Decode (base64Encode s) = Ok s.
Proof.
  unfold base64Decode.
  assert (exists l, sextets (base64Encode s) = Some l /\ quanta l = Some s) as (l & -> & ->); [|done].
  remember (length s) as n eqn:En. revert s En. induction (lt_wf n) as [n _ IH]. intros s ->.
  destruct s as [|a [|b [|c s]]].
  - by exists [].
  - pose proof (unsigned_range a). cbn [base64Encode]. eexists. rewrite !sextets_cons by lia_div. split; [reflexivity|].
    cbn [quanta]. do 2 f_equal. apply byte_of_mod. lia_div.
  - pose proof (unsigned_range a). pose proof (unsigned_range b). cbn [base64Encode]. eexists.
    rewrite !sextets_cons by lia_div. split; [reflexivity|]. cbn [quanta]. do 2 f_equal; [|f_equal]; apply byte_of_mod; lia_div.
  - pose proof (unsigned_range a). pose proof (unsigned_range b). pose proof (unsigned_range c).
    destruct (IH (length s) ltac:(simpl; lia) s eq_refl) as (l & H1' & H2').
    cbn [base64Encode app]. rewrite !sextets_cons by lia_div. rewrite H1'. eexists. split; [reflexivity|].
    cbn [option_map quanta]. rewrite H2'. cbn [app]. do 2 f_equal; [|f_equal; [|f_equal]]; apply byte_of_mod; lia_div.
Qed.

(** ** Runs of zeros *)

(** What is left of a byte string, of which [run] zeros have been read: every run
    of zeros is counted modulo 256. *)
Fixpoint collapse (s : list byte) (run : nat) : list byte :=
  match s with
  | [] => replicate (run mod 256) Byte.x00
  | c :: s =>
      if Byte.eqb c Byte.x00 then collapse s (S run)
      else replicate (run mod 256) Byte.x00 ++ c :: collapse s 0
  end.

(** Every run of zeros is shorter than 256. *)
Fixpoint runs_fit (s : list byte) (run : nat) : bool :=
  match s with
  | [] => (run <? 256)%nat
  | c :: s => if Byte.eqb c Byte.x00 then runs_fit s (S run) else (run <? 256)%nat && runs_fit s 0
  end.

Lemma rleEncode_app s count r : rleEncode_loop s count r = r ++ rleEncode_loop s count [].
Proof.
  revert count r. induction s as [|c s IH]; intros count r; cbn [rleEncode_loop].
  - destruct (count >? 0); [done|by rewrite app_nil_r].
  - destruct (Byte.eqb c Byte.x00); [apply IH|].
    rewrite IH. symmetry. rewrite IH. destruct (count >? 0); by rewrite <- ?app_assoc.
Qed.

Lemma rleDecode_app s last r : rleDecode_loop s last r = r ++ rleDecode_loop s last [].
Proof.
  revert last r. induction s as [|c s IH]; intros last r; cbn [rleDecode_loop]; [done|].
  case_bool_decide; rewrite IH; symmetry; rewrite IH; by rewrite <- !app_assoc.
Qed.

Lemma join_replicate {A} (x : A) k : mjoin (replicate k [x]) = replicate k x.
Proof. induction k as [|k IH]; [done|]. simpl. f_equal. exact IH. Qed.

(** The decoder on the two kinds of groups that the encoder writes. *)
Lemma rleDecode_run n s : rleDecode_loop (Byte.x00 :: byte.of_Z n :: s) [] [] =
  replicate (Z.to_nat (byte.wrap n)) Byte.x00 ++ rleDecode_loop s [] [].
Proof.
  cbn [rleDecode_loop]. rewrite bool_decide_eq_false_2 by done. rewrite bool_decide_eq_true_2 by done.
  rewrite byte.unsigned_of_Z, rleDecode_app. by rewrite join_replicate.
Qed.

Lemma rleDecode_byte c s : c <> Byte.x00 -> rleDecode_loop (c :: s) [] [] = c :: rleDecode_loop s [] [].
Proof.
  intros Hc. cbn [rleDecode_loop]. rewrite bool_decide_eq_false_2 by done. cbn [app].
  destruct s as [|x s]; [done|]. cbn [rleDecode_loop]. rewrite !bool_decide_eq_false_2 by congruence.
  cbn [app]. by rewrite rleDecode_app.
Qed.

(** The group that stands for a run of [n] zeros. *)
Definition run_group (n : nat) : list byte :=
  if Z.of_nat n mod 256 >? 0 then [Byte.x00; byte.of_Z (Z.of_nat n mod 256)] else [].

Lemma rleDecode_group n r :
  rleDecode_loop (run_group n ++ r) [] [] = replicate (n mod 256) Byte.x00 ++ rleDecode_loop r [] [].
Proof.
  unfold run_group. rewrite <- (Nat2Z.id (n mod 256)), Nat2Z.inj_mod. change (Z.of_nat 256) with 256.
  pose proof (Z.mod_pos_bound (Z.of_nat n) 256 ltac:(lia)).
  rewrite Z.gtb_ltb. destruct (Z.ltb_spec 0 (Z.of_nat n mod 256)).
  - cbn [app]. rewrite rleDecode_run. unfold byte.wrap. by rewrite (Z.mod_small (_ mod 256)).
  - by replace (Z.of_nat n mod 256) with 0 by lia.
Qed.

Lemma rle_collapse_loop s n :
  rleDecode_loop (rleEncode_loop s (Z.of_nat n mod 256) []) [] [] = collapse s n.
Proof.
  revert n. induction s as [|c s IH]; intros n; cbn [rleEncode_loop collapse].
  - pose proof (rleDecode_group n []) as H. rewrite !app_nil_r in H. by unfold run_group in H; destruct (_ >? 0).
  - destruct (Byte.eqb c Byte.x00) eqn:Ec.
    + rewrite <- (IH (S n)). rewrite Zplus_mod_idemp_l. by rewrite Nat2Z.inj_succ.
    + apply Byte.eqb_false in Ec. rewrite rleEncode_app, <- app_assoc.
      pose proof (rleDecode_group n ([c] ++ rleEncode_loop s 0 [])) as H. unfold run_group in H.
      cbn [app] in H. rewrite rleDecode_byte in H by done. rewrite <- (IH 0%nat). by destruct (_ >? 0).
Qed.

Lemma collapse_fits s n : runs_fit s n = true -> collapse s n = replicate n Byte.x00 ++ s.
Proof.
  revert n. induction s as [|c s IH]; intros n; cbn [runs_fit collapse]; intros H.
  - apply Nat.ltb_lt in H. by rewrite Nat.mod_small, app_nil_r by done.
  - destruct (Byte.eqb c Byte.x00) eqn:Ec.
    + apply Byte.byte_dec_bl in Ec as ->. rewrite IH by done. rewrite replicate_S_end. by rewrite <- app_assoc.
    + apply andb_prop in H as [Hn Hs]. apply Nat.ltb_lt in Hn. rewrite Nat.mod_small by done. by rewrite (IH 0%nat Hs).
Qed.

Lemma collapse_length s n : (length (collapse s n) <= n + length s)%nat /\
  (runs_fit s n = false -> (length (collapse s n) < n + length s)%nat).
Proof.
  revert n. induction s as [|c s IH]; intros n; cbn [runs_fit collapse length];
    pose proof (Nat.Div0.mod_le n 256) as Hle; pose proof (Nat.mod_upper_bound n 256 ltac:(lia)) as Hub.
  - rewrite length_replicate. split; [lia|]. intros Hf. apply Nat.ltb_ge in Hf. lia.
  - destruct (Byte.eqb c Byte.x00).
    + destruct (IH (S n)) as [H1 H2]. split; [lia|]. intros Hf. specialize (H2 Hf). lia.
    + rewrite length_app, length_replicate. cbn [length]. destruct (IH 0%nat) as [H1 H2].
      split; [lia|]. intros Hf. apply andb_false_iff in Hf as [Hf|Hf]; [apply Nat.ltb_ge in Hf; lia|specialize (H2 Hf); lia].
Qed.

(** Shortening the runs of zeros is undone by the decoder exactly when every run is
    shorter than 256 bytes: the counter of the encoder is a byte, and a longer run
    comes back with its length modulo 256. *)
Theorem rle_roundtrip (s : list byte) :
  rleDecode (rleEncode s) = collapse s 0 /\ (rleDecode (rleEncode s) = s <-> runs_fit s 0 = true).
Proof.
  assert (rleDecode (rleEncode s) = collapse s 0) as E by apply (rle_collapse_loop s 0).
  split; [exact E|]. rewrite E. split; [|apply (collapse_fits s 0)].
  intros Hs. destruct (runs_fit s 0) eqn:Ef; [done|]. destruct (collapse_length s 0) as [_ Hl]. specialize (Hl Ef).
  rewrite Hs in Hl. lia.
Qed.

(** ** Round trip of a file identifier *)

(** The fields have the width that is written. *)
Definition source_ok (p : PhotoSizeSource) : Prop :=
  0 <= ps_Type p < lastPhotoSizeSourceType /\ int64 (VolumeID p) /\ int32 (LocalID p) /\ int64 (Secret p) /\
  uint32 (FileType p) /\ int32 (ThumbnailType p) /\ int64 (DialogID p) /\ int64 (DialogAccessHash p) /\
  int64 (StickerSetID p) /\ int64 (StickerSetAccessHash p) /\ int32 (StickerVersion p).

(** What the identifier keeps of a source: the fields that its type uses. *)
Definition stored_source (p : PhotoSizeSource) : PhotoSizeSource :=
  let t := ps_Type p in
  if t =? PhotoSizeSourceLegacy then mkSource t 0 0 (Secret p) [] 0 0 0 0 0 0 0
  else if t =? PhotoSizeSourceThumbnail then mkSource t 0 0 0 [] (FileType p) (ThumbnailType p) 0 0 0 0 0
  else if (t =? PhotoSizeSourceDialogPhotoBig) || (t =? PhotoSizeSourceDialogPhotoSmall) then
    mkSource t 0 0 0 [] 0 0 (DialogID p) (DialogAccessHash p) 0 0 0
  else if t =? PhotoSizeSourceStickerSetThumbnail then
    mkSource t 0 0 0 [] 0 0 0 0 (StickerSetID p) (StickerSetAccessHash p) 0
  else if t =? PhotoSizeSourceFullLegacy then mkSource t (VolumeID p) (LocalID p) (Secret p) [] 0 0 0 0 0 0 0
  else if (t =? PhotoSizeSourceDialogPhotoBigLegacy) || (t =? PhotoSizeSourceDialogPhotoSmallLegacy) then
    mkSource t (VolumeID p) (LocalID p) 0 [] 0 0 (DialogID p) (DialogAccessHash p) 0 0 0
  else if t =? PhotoSizeSourceStickerSetThumbnailLegacy then
    mkSource t (VolumeID p) (LocalID p) 0 [] 0 0 0 0 (StickerSetID p) (StickerSetAccessHash p) 0
  else mkSource t 0 0 0 [] 0 0 0 0 (StickerSetID p) (StickerSetAccessHash p) (StickerVersion p).

Lemma parses_pair {A B} (m : GoM Buffer A) (k : GoM Buffer B) bs bs' a b s1 s2 :
  parses m bs a -> parses k bs' b ->
  parses (let! x := wrapping s1 m in let! y := wrapping s2 k in ret (x, y)) (bs ++ bs') (a, b).
Proof.
  intros Hm Hk. eapply parses_bind; [by apply parses_wrapping|].
  eapply parses_bind_ret. by apply parses_wrapping.
Qed.

Lemma parses_Int_i32 v : int32 v -> parses Int (le_split 4 (u32 (i32 v))) v.
Proof. intros Hv. rewrite swrap_id by done. by apply parses_Int. Qed.

Lemma parses_Uint32_u32 v : uint32 v -> parses Uint32 (le_split 4 (u32 v)) v.
Proof. intros Hv. rewrite uwrap_id by done. by apply parses_Uint32. Qed.
#[local] Hint Resolve parses_Int_i32 parses_Uint32_u32 : bin.

Lemma decode_latest t bs src : 0 <= t < lastPhotoSizeSourceType -> parses (decode_body t 0 0) bs src ->
  parses (decode latestSubVersion) (le_split 4 (u32 (i32 t)) ++ bs) src.
Proof.
  unfold lastPhotoSizeSourceType. intros Ht Hb. unfold decode, decode_typed, lastPhotoSizeSourceType.
  change (latestSubVersion <? 32) with false. change (latestSubVersion >=? 4) with true. cbv iota.
  eapply parses_bind; [apply parses_wrapping, parses_Int_i32; unfold is_signed; lia|].
  replace ((t <? 0) || (t >=? 10)) with false by lia. cbn [andb].
  eapply (parses_bind_ret _ id). exact Hb.
Qed.

Lemma parses_readLocalIDVolumeID v l : int64 v -> int32 l ->
  parses readLocalIDVolumeID (le_split 8 (u64 v) ++ le_split 4 (u32 (i32 l))) (v, l).
Proof. intros. apply parses_pair; [by apply parses_Long|by apply parses_Int_i32]. Qed.
Lemma parses_readDialog d h : int64 d -> int64 h -> parses readDialog (le_split 8 (u64 d) ++ le_split 8 (u64 h)) (d, h).
Proof. intros. by apply parses_pair; apply parses_Long. Qed.
Lemma parses_readStickerSet d h : int64 d -> int64 h -> parses readStickerSet (le_split 8 (u64 d) ++ le_split 8 (u64 h)) (d, h).
Proof. intros. by apply parses_pair; apply parses_Long. Qed.
#[local] Hint Resolve parses_readLocalIDVolumeID parses_readDialog parses_readStickerSet : bin.

(** A field of two parts. *)
Lemma parses_bind_two {A B} (m : GoM Buffer A) (k : A -> GoM Buffer B) bs1 bs2 bs3 a b :
  parses m (bs1 ++ bs2) a -> parses (k a) bs3 b -> parses (bind m k) (bs1 ++ bs2 ++ bs3) b.
Proof. intros Hm Hk. rewrite app_assoc. by eapply parses_bind. Qed.

Ltac solve_source :=
  repeat first
    [ apply parses_ret
    | eapply parses_bind_two; [solve_field|]
    | eapply parses_bind; [solve_field|]
    | eapply parses_bind_last; [solve_field|] ].

Lemma source_roundtrip p b : source_ok p ->
  exists bs, encode p b = b ++ bs /\ parses (decode latestSubVersion) bs (stored_source p).
Proof.
  intros (Ht & Hv & Hl & Hs & Hf & Hth & Hd & Hda & Hss & Hsh & Hsv).
  destruct p as [t volume local secret size ftype thumb dialog dhash set shash version]. simpl in *.
  assert (t = 0 \/ t = 1 \/ t = 2 \/ t = 3 \/ t = 4 \/ t = 5 \/ t = 6 \/ t = 7 \/ t = 8 \/ t = 9) as Hcases
    by (unfold lastPhotoSizeSourceType in Ht; lia).
  unfold encode, stored_source, writeDialog, writeStickerSet, writeLocalIDVolumeID.
  unfold PutLong, PutInt, PutInt32, PutUint64, PutUint32. cbn [ps_Type].
  destruct_or! Hcases; subst t;
    (eexists; split; [cbn; rewrite <- ?app_assoc; reflexivity|]; apply decode_latest; [exact Ht|]; unfold decode_body; simpl; solve_source).
Qed.

Definition file_ok (f : FileID) : Prop :=
  0 <= f_Type f < lastType /\ uint32 (DC f) /\ int64 (f_ID f) /\ int64 (AccessHash f) /\
  zlen (FileReference f) <= maxLongStringLength /\ zlen (URL f) <= maxLongStringLength /\
  source_ok (f_PhotoSizeSource f).

(** What the identifier keeps of a file: of a file on the web only the address. *)
Definition stored (f : FileID) : FileID :=
  if bool_decide (URL f = [])
  then mkFileID (f_Type f) (DC f) (f_ID f) (AccessHash f) (FileReference f) []
         (if has_source (f_Type f) then stored_source (f_PhotoSizeSource f) else zero_source)
  else mkFileID (f_Type f) (DC f) 0 0 (FileReference f) (URL f) zero_source.

(** The type with its two flags, and back. *)
Definition flagged (t : Z) (web ref : bool) : Z :=
  let t := if web then Z.lor t webLocationFlag else t in
  if ref then Z.lor t fileReferenceFlag else t.

Lemma flagged_spec t web ref : 0 <= t < lastType ->
  uint32 (flagged t web ref) /\
  negb (Z.land (flagged t web ref) webLocationFlag =? 0) = web /\
  negb (Z.land (flagged t web ref) fileReferenceFlag =? 0) = ref /\
  Z.ldiff (Z.ldiff (flagged t web ref) webLocationFlag) fileReferenceFlag = t.
Proof.
  intros Ht. unfold lastType in Ht.
  assert (Forall (fun n => u32 (flagged (Z.of_nat n) web ref) = flagged (Z.of_nat n) web ref /\
    negb (Z.land (flagged (Z.of_nat n) web ref) webLocationFlag =? 0) = web /\
    negb (Z.land (flagged (Z.of_nat n) web ref) fileReferenceFlag =? 0) = ref /\
    Z.ldiff (Z.ldiff (flagged (Z.of_nat n) web ref) webLocationFlag) fileReferenceFlag = Z.of_nat n) (seq 0 18)) as H
    by (destruct web, ref; apply (bool_decide_unpack _); vm_compute; exact I).
  rewrite Forall_forall in H. specialize (H (Z.to_nat t)). rewrite Z2Nat.id in H by lia.
  destruct H as (Hu & H); [apply elem_of_seq; lia|]. split; [rewrite <- Hu; by apply uwrap_range|exact H].
Qed.

(** The bytes of a file after its type and its data center: the reference, and what the
    decoder reads after it. *)
Definition reference_bytes (f : FileID) : list byte :=
  if negb (zlen (FileReference f) =? 0) then bytes_frame (FileReference f) else [].
Definition source_bytes (f : FileID) : list byte :=
  if has_source (f_Type f) then encode (f_PhotoSizeSource f) [] else [].

Lemma encode_app p b : encode p b = b ++ encode p [].
Proof.
  unfold encode, writeLocalIDVolumeID, writeDialog, writeStickerSet, PutLong, PutInt, PutInt32, PutUint64, PutUint32.
  repeat case_match; rewrite <- ?app_assoc; reflexivity.
Qed.

Lemma encodeLatest_bytes f :
  encodeLatestFileID f [] =
  (le_split 4 (u32 (flagged (f_Type f) (negb (bool_decide (URL f = []))) (negb (zlen (FileReference f) =? 0)))) ++
   le_split 4 (u32 (DC f)) ++ reference_bytes f) ++
  (if negb (bool_decide (URL f = [])) then bytes_frame (URL f)
   else (le_split 8 (u64 (f_ID f)) ++ le_split 8 (u64 (AccessHash f)) ++ source_bytes f) ++ [byte.of_Z latestSubVersion]).
Proof.
  unfold encodeLatestFileID, flagged, reference_bytes, source_bytes, PutBytes, PutString, PutLong, PutUint64, PutUint32.
  rewrite !encodeBytes_frame.
  destruct (negb (bool_decide _)), (negb (zlen (FileReference f) =? 0)), (has_source (f_Type f));
    rewrite ?(encode_app _ (_ ++ _)) by done; cbn [app]; by rewrite <- ?app_assoc, ?app_nil_r.
Qed.

(** The body reads what was written, whatever sub-version a web file is read with. *)
Lemma decodeLatest_parses f sub : file_ok f -> (URL f = [] -> sub = latestSubVersion) ->
  parses (decodeLatest_body sub)
    ((le_split 4 (u32 (flagged (f_Type f) (negb (bool_decide (URL f = []))) (negb (zlen (FileReference f) =? 0)))) ++
      le_split 4 (u32 (DC f)) ++ reference_bytes f) ++
     (if negb (bool_decide (URL f = [])) then bytes_frame (URL f)
      else le_split 8 (u64 (f_ID f)) ++ le_split 8 (u64 (AccessHash f)) ++ source_bytes f)) (stored f).
Proof.
  intros (Ht & Hdc & Hid & Hah & Href & Hurl & Hsrc) Hsub.
  destruct (flagged_spec (f_Type f) (negb (bool_decide (URL f = []))) (negb (zlen (FileReference f) =? 0)) Ht)
    as (Hu & Hw & Hr & Hd).
  unfold decodeLatest_body. rewrite <- !app_assoc.
  eapply parses_bind; [by apply parses_wrapping, parses_Uint32_u32|]. cbv zeta beta. rewrite Hw, Hr, Hd.
  rewrite Z.geb_leb. replace (lastType <=? f_Type f) with false by (unfold lastType in *; lia).
  eapply parses_bind; [by apply parses_wrapping, parses_Uint32_u32|].
  eapply (parses_bind _ _ _ _ (FileReference f)).
  { unfold reference_bytes. destruct (zlen (FileReference f) =? 0) eqn:E; cbn [negb].
    - apply Z.eqb_eq in E. rewrite (nil_length_inv (FileReference f)) by (unfold zlen in E; lia). apply parses_ret.
    - by apply parses_wrapping, parses_Bytes. }
  unfold stored. destruct (bool_decide (URL f = [])) eqn:Eu; cbn [negb].
  - apply bool_decide_eq_true in Eu. rewrite (Hsub Eu).
    eapply parses_bind; [by apply parses_wrapping, parses_Long|].
    eapply parses_bind; [by apply parses_wrapping, parses_Long|].
    eapply (parses_bind_ret _ (fun s => mkFileID _ _ _ _ _ [] s)). unfold source_bytes.
    destruct (has_source (f_Type f)); [|apply parses_ret]. apply parses_wrapping.
    by destruct (source_roundtrip (f_PhotoSizeSource f) [] Hsrc) as (bs & -> & Hb).
  - eapply (parses_bind_ret _ (fun u => mkFileID _ _ _ _ _ u _)). by apply parses_wrapping, parses_String.
Qed.

Lemma decodeLatest_encoded f : file_ok f ->
  exists rest, decodeLatestFileID (encodeLatestFileID f []) = (Ok (stored f), rest).
Proof.
  intros Hf. rewrite encodeLatest_bytes. unfold decodeLatestFileID.
  destruct (bool_decide (URL f = [])) eqn:Eu; cbn [negb].
  - rewrite app_assoc, last_snoc. exists [byte.of_Z latestSubVersion].
    pose proof (decodeLatest_parses f latestSubVersion Hf ltac:(done)) as H. rewrite Eu in H. exact (H _).
  - apply bool_decide_eq_false in Eu as Hu.
    destruct (last _) as [sub|] eqn:El.
    + exists []. pose proof (decodeLatest_parses f (byte.unsigned sub) Hf ltac:(done)) as H. rewrite Eu in H. by apply parses_nil.
    + exfalso. apply last_None in El. apply app_nil in El as [El _]. apply app_nil in El as [El _].
      apply (f_equal length) in El. by rewrite length_le_split in El.
Qed.

(** A short string has no long run of zeros. *)
Lemma runs_fit_short s n : (n + length s < 256)%nat -> runs_fit s n = true.
Proof.
  revert n. induction s as [|c s IH]; intros n; cbn [runs_fit length]; intros Hl; [apply Nat.ltb_lt; lia|].
  destruct (Byte.eqb c Byte.x00); [apply IH; lia|]. rewrite andb_true_iff, Nat.ltb_lt. split; [lia|apply IH; lia].
Qed.

Lemma base64_nonempty s : s <> [] -> base64Encode s <> [].
Proof. by destruct s as [|a [|b [|c s]]]. Qed.

Lemma rle_fits s : runs_fit s 0 = true -> rleDecode (rleEncode s) = s.
Proof. intros Hf. rewrite (rle_collapse_loop s 0 : rleDecode (rleEncode s) = _). by apply (collapse_fits s 0). Qed.

Lemma decode_encoded f : file_ok f -> runs_fit (encodeLatestFileID f [] ++ [byte.of_Z persistentIDVersion]) 0 = true ->
  DecodeFileID (EncodeFileID f) = Ok (stored f).
Proof.
  intros Hf Hr. unfold DecodeFileID, EncodeFileID. pose proof (rle_fits _ Hr) as Hrle.
  set (s := encodeLatestFileID f []) in *.
  assert (s <> []) as Hs.
  { intros E. destruct (decodeLatest_encoded f Hf) as (rest & Hd). fold s in Hd. by rewrite E in Hd. }
  rewrite bool_decide_eq_false_2.
  2: { apply base64_nonempty. intros E. rewrite E in Hrle. cbn in Hrle. by destruct s. }
  rewrite base64_roundtrip, Hrle. unfold zlen. rewrite length_app, last_snoc. cbn [length].
  assert (length s <> 0%nat) as H by (intros E; by apply nil_length_inv in E).
  rewrite (proj2 (Z.ltb_ge (Z.of_nat (length s + 1)) 2)) by (revert H; generalize (length s); lia).
  change (byte.unsigned (byte.of_Z persistentIDVersion)) with 4. cbv [persistentIDVersionOld persistentIDVersionMap persistentIDVersion].
  cbn [Z.eqb Pos.eqb orb]. rewrite Nat2Z.inj_add, Z.add_simpl_r, Nat2Z.id, take_app_length.
  destruct (decodeLatest_encoded f Hf) as (rest & Hd). fold s in Hd. by rewrite Hd.
Qed.

(** Every field that a location reads is stored. *)
Lemma location_stored f : URL f = [] -> 0 <= ps_Type (f_PhotoSizeSource f) < lastPhotoSizeSourceType ->
  AsInputFileLocation (stored f) = AsInputFileLocation f.
Proof.
  intros Hu Ht. unfold stored. rewrite bool_decide_eq_true_2 by done.
  destruct f as [t dc id hash ref url p]. unfold AsInputFileLocation, has_source. cbn in *.
  destruct ((t =? Thumbnail) || (t =? ProfilePhoto) || (t =? Photo)) eqn:E; [|by destruct (_ || _)].
  replace ((t =? Thumbnail) || (t =? Photo) || (t =? ProfilePhoto)) with true by (rewrite <- E, <- !orb_assoc; f_equal; apply orb_comm).
  destruct p as [pt volume local secret size ftype thumb dialog dhash set shash version]. cbn in *.
  assert (pt = 0 \/ pt = 1 \/ pt = 2 \/ pt = 3 \/ pt = 4 \/ pt = 5 \/ pt = 6 \/ pt = 7 \/ pt = 8 \/ pt = 9) as Hcases
    by (unfold lastPhotoSizeSourceType in Ht; lia).
  destruct_or! Hcases; subst pt; reflexivity.
Qed.

(** C22: for a file identifier whose fields have their widths and whose written bytes
    have no run of 256 or more zeros ([runs_fit], which holds for every identifier of
    fewer than 256 bytes), decoding the text that is written gives [stored f]: the type,
    the data center, the reference and the address are those of [f].  For a file
    without an address (not on the web) the identifier, the access hash and the
    location that the file is downloaded from are those of [f] too.  For a file on the
    web the location has the address of [f] and the access hash zero, whatever the
    access hash of [f]. *)
Theorem fileid_roundtrip (f : FileID) : file_ok f ->
  runs_fit (encodeLatestFileID f [] ++ [byte.of_Z persistentIDVersion]) 0 = true ->
  DecodeFileID (EncodeFileID f) = Ok (stored f) /\
  f_Type (stored f) = f_Type f /\ DC (stored f) = DC f /\ FileReference (stored f) = FileReference f /\
  URL (stored f) = URL f /\
  (URL f = [] -> f_ID (stored f) = f_ID f /\ AccessHash (stored f) = AccessHash f /\
     AsInputFileLocation (stored f) = AsInputFileLocation f) /\
  (URL f <> [] -> AsInputWebFileLocation (stored f) = Some (URL f, 0)).
Proof.
  intros Hf Hr. split; [by apply decode_encoded|].
  repeat (split; [by unfold stored; case_bool_decide|]). split.
  - intros Hu. do 2 (split; [by unfold stored; rewrite bool_decide_eq_true_2|]).
    apply location_stored; [done|apply Hf].
  - intros Hu. unfold AsInputWebFileLocation, stored. by rewrite !(bool_decide_eq_false_2 (URL f = [])) by done.
Qed.

(** ** Peers of dialogs *)

(** The ranges that the identifiers of the network have. *)
Definition user_id (p : Z) : Prop := 0 < p <= TDLibPeerID.MaxTDLibUserID.
Definition chat_id (p : Z) : Prop := 0 < p <= TDLibPeerID.MaxTDLibChatID.
Definition channel_id (p : Z) : Prop :=
  0 < p <= TDLibPeerID.MaxTDLibChannelID \/ TDLibPeerID.MinMTProtoMonoforumID <= p <= TDLibPeerID.MaxMTProtoMonoforumID.

(** The three kinds, in one number. *)
Definition peer_number (p : InputPeer) : Z :=
  match p with
  | InputPeerUser id _ => TDLibPeerID.User id
  | InputPeerChat id => TDLibPeerID.Chat id
  | InputPeerChannel id _ => TDLibPeerID.Channel id
  | InputPeerEmpty => 0
  end.
Definition peer_hash (p : InputPeer) : Z :=
  match p with InputPeerUser _ h => h | InputPeerChannel _ h => h | _ => 0 end.
Definition peer_ok (p : InputPeer) : Prop :=
  match p with
  | InputPeerUser id _ => user_id id
  | InputPeerChat id => chat_id id
  | InputPeerChannel id _ => channel_id id
  | InputPeerEmpty => False
  end.

Ltac peer_ranges := unfold user_id, chat_id, channel_id, TDLibPeerID.MaxTDLibUserID, TDLibPeerID.MaxTDLibChatID,
  TDLibPeerID.MaxTDLibChannelID, TDLibPeerID.MinMTProtoMonoforumID, TDLibPeerID.MaxMTProtoMonoforumID,
  TDLibPeerID.MinBotAPIMonoforumID, TDLibPeerID.MaxBotAPIMonoforumID, TDLibPeerID.ZeroTDLibChannelID in *.

Lemma peer_number_range p : peer_ok p -> int64 (peer_number p).
Proof.
  destruct p; cbn; try done; unfold TDLibPeerID.User, TDLibPeerID.Chat, TDLibPeerID.Channel; peer_ranges; intros;
    [unfold is_signed; lia|apply swrap_range; lia..].
Qed.

(** Which of the three tests a number passes. *)
Lemma number_user id : user_id id -> TDLibPeerID.IsUser id = true.
Proof. unfold TDLibPeerID.IsUser. peer_ranges. lia. Qed.

Lemma number_chat id : chat_id id ->
  TDLibPeerID.Chat id = - id /\ TDLibPeerID.IsUser (- id) = false /\ TDLibPeerID.IsChat (- id) = true.
Proof.
  unfold TDLibPeerID.Chat, TDLibPeerID.IsUser, TDLibPeerID.IsChat. peer_ranges. intros.
  rewrite swrap_id by (unfold is_signed; lia). lia.
Qed.

Lemma number_channel id : channel_id id ->
  let n := TDLibPeerID.ZeroTDLibChannelID - id in
  TDLibPeerID.Channel id = n /\ TDLibPeerID.IsUser n = false /\ TDLibPeerID.IsChat n = false /\
  TDLibPeerID.IsChannel n = true.
Proof.
  unfold TDLibPeerID.Channel, TDLibPeerID.IsChannel. peer_ranges. intros Hid. cbv zeta.
  assert (TDLibPeerID.IsChat (-1000000000000 - id) = false) as Hc by (unfold TDLibPeerID.IsChat; peer_ranges; lia).
  rewrite swrap_id by (unfold is_signed; lia). rewrite Hc, orb_false_r.
  split_and!; [done|unfold TDLibPeerID.IsUser; peer_ranges; lia|done|].
  replace (_ >=? 0) with false by lia. replace (_ =? -1000000000000) with false by lia.
  destruct (_ && _) eqn:E; [done|]. lia.
Qed.

Lemma dialogPeer_number p src : peer_ok p -> DialogID src = peer_number p -> DialogAccessHash src = peer_hash p ->
  dialogPeer src = p.
Proof.
  intros Hp Hd Hh. unfold dialogPeer, TDLibPeerID.ToPlain. rewrite Hd, Hh. clear Hd Hh.
  destruct p as [id h|id|id h|]; cbn [peer_number peer_hash peer_ok] in *; [| | |done].
  - unfold TDLibPeerID.User. by rewrite number_user.
  - destruct (number_chat id Hp) as (-> & -> & ->). by rewrite Z.opp_involutive, swrap_id by (peer_ranges; unfold is_signed; lia).
  - destruct (number_channel id Hp) as (-> & -> & -> & ->). f_equal. rewrite swrap_id by (peer_ranges; unfold is_signed; lia). lia.
Qed.

Lemma chat_photo_length id hash photo big :
  length (encodeLatestFileID (FromChatPhoto id hash photo big) []) = 45%nat.
Proof. rewrite encodeLatest_bytes. by destruct big. Qed.

(** A photo of a user, a chat, a channel or a monoforum: the identifier made from it
    is read back as a location that names the same peer, photo and size. *)
Theorem chat_photo_location (p : InputPeer) (photo : ChatPhoto) (big : bool) :
  peer_ok p -> int64 (peer_hash p) -> uint32 (GetDCID photo) -> int64 (GetPhotoID photo) ->
  exists f, DecodeFileID (EncodeFileID (FromChatPhoto (peer_number p) (peer_hash p) photo big)) = Ok f /\
    DC f = GetDCID photo /\ AsInputFileLocation f = Some (InputPeerPhotoFileLocation big p (GetPhotoID photo)).
Proof.
  intros Hp Hh Hdc Hid. set (f := FromChatPhoto _ _ _ _).
  assert (file_ok f) as Hf.
  { pose proof (peer_number_range p Hp). unfold file_ok, source_ok. cbn. unfold lastType, lastPhotoSizeSourceType.
    repeat split; first [assumption | by destruct big | cbn; lia | apply Hdc | apply Hid | apply Hh | apply H]. }
  exists (stored f). split; [|split].
  - apply decode_encoded; [done|]. apply runs_fit_short. rewrite length_app. unfold f. rewrite chat_photo_length. cbn. lia.
  - done.
  - rewrite location_stored; [|done|by destruct big].
    destruct big; cbn -[dialogPeer peer_number peer_hash]; by rewrite (dialogPeer_number p).
Qed.

Lemma chat_photo_location_witness :
  exists f, DecodeFileID (EncodeFileID (FromChatPhoto (-1001234567890) 77 (mkChatPhoto 2 5550001) true)) = Ok f /\
    DC f = 2 /\ AsInputFileLocation f = Some (InputPeerPhotoFileLocation true (InputPeerChannel 1234567890 77) 5550001).
Proof.
  apply (chat_photo_location (InputPeerChannel 1234567890 77) (mkChatPhoto 2 5550001) true);
    [left; vm_compute; split; [reflexivity|discriminate]|vm_compute; split; [discriminate|reflexivity]..].
Defined.

(** ** Arbitrary input *)

Lemma safe_decode_body t v l : safe (decode_body t v l).
Proof. unfold decode_body, readDialog, readStickerSet, readLocalIDVolumeID. solve_safe. Qed.
#[local] Hint Resolve safe_decode_body : bin.

Lemma safe_decode sub : safe (decode sub).
Proof. unfold decode, decode_typed. solve_safe. Qed.
#[local] Hint Resolve safe_decode : bin.

(** A safe part of a decoder whose later parts establish the postcondition. *)
Lemma safe_post {A B} (m : GoM Buffer A) (k : A -> GoM Buffer B) b Q :
  safe m -> (forall a b', post (k a) b' Q (fun _ _ => True)) -> post (bind m k) b Q (fun _ _ => True).
Proof.
  intros Hm Hk. apply post_bind. destruct (Hm b) as (r & b' & E & Hr & _). unfold post at 1. rewrite E.
  destruct r; [apply Hk|done|done].
Qed.

Lemma decodeLatest_type sub b :
  post (decodeLatest_body sub) b (fun f _ => f_Type f < lastType) (fun _ _ => True).
Proof.
  unfold decodeLatest_body. apply safe_post; [solve_safe|]. intros w b1. cbv zeta.
  destruct (_ >=? lastType) eqn:E; [done|]. rewrite Z.geb_leb in E. apply Z.leb_gt in E.
  apply safe_post; [solve_safe|]. intros dc b2. apply safe_post; [solve_safe|]. intros reference b3.
  destruct (negb _).
  - apply safe_post; [solve_safe|]. intros url b4. exact E.
  - do 3 (apply safe_post; [solve_safe|]; intros ? ?). exact E.
Qed.

(** A user of the package hands over any text as a file identifier: it is decoded to a
    file of a known type or refused with an error, and never ends the program. *)
Theorem decode_any_text (s : list byte) :
  (exists f, DecodeFileID s = Ok f /\ f_Type f < lastType) \/ (exists e, DecodeFileID s = Err e).
Proof.
  unfold DecodeFileID. case_bool_decide; [by right; eexists|].
  unfold base64Decode. destruct (sextets s) as [l|]; [|by right; eexists].
  destruct (quanta l) as [d|]; [|by right; eexists].
  destruct (zlen (rleDecode d) <? 2) eqn:E; [by right; eexists|].
  destruct (last (rleDecode d)) as [v|] eqn:El; [|apply last_None in El; by rewrite El in E].
  destruct (_ || _); [by right; eexists|]. destruct (_ =? _); [|by right; eexists].
  unfold decodeLatestFileID. destruct (last (take _ _)) as [sub|]; [|by right; eexists].
  pose proof (decodeLatest_type (byte.unsigned sub) (take (Z.to_nat (zlen (rleDecode d) - 1)) (rleDecode d))) as H'.
  unfold post in H'. destruct (decodeLatest_body _ _) as [[f|e|] b']; [by left; exists f|by right; eexists|done].
Qed.

(** ** What an identifier does not keep *)

(** A file on the web is downloaded with its address and its access hash, and the
    identifier holds only the address: the location that is read back has hash zero. *)
Theorem web_hash_lost (f : FileID) : file_ok f -> URL f <> [] ->
  runs_fit (encodeLatestFileID f [] ++ [byte.of_Z persistentIDVersion]) 0 = true ->
  exists g, DecodeFileID (EncodeFileID f) = Ok g /\
    AsInputWebFileLocation f = Some (URL f, AccessHash f) /\ AsInputWebFileLocation g = Some (URL f, 0).
Proof.
  intros Hf Hu Hr. exists (stored f). split; [by apply decode_encoded|].
  unfold AsInputWebFileLocation, stored. by rewrite !(bool_decide_eq_false_2 (URL f = [])) by done.
Qed.

Section Sample.

(** A document whose reference is 300 bytes, and a file on the web. *)
Definition sample_document (ref : list byte) : FileID :=
  mkFileID Document 2 12345 67890 ref [] zero_source.
Definition sample_web : FileID :=
  mkFileID Document 2 0 4242 [] (String.list_byte_of_string "https://a.b/c") zero_source.

Ltac solve_file_ok := vm_compute; repeat split; first [reflexivity | discriminate].

Lemma fileid_roundtrip_witness :
  let f := sample_document (replicate 300 Byte.x07) in
  DecodeFileID (EncodeFileID f) = Ok (stored f) /\ f_Type (stored f) = f_Type f /\ DC (stored f) = DC f /\
  FileReference (stored f) = FileReference f /\ URL (stored f) = URL f /\
  (URL f = [] -> f_ID (stored f) = f_ID f /\ AccessHash (stored f) = AccessHash f /\
     AsInputFileLocation (stored f) = AsInputFileLocation f) /\
  (URL f <> [] -> AsInputWebFileLocation (stored f) = Some (URL f, 0)).
Proof. apply (fileid_roundtrip (sample_document (replicate 300 Byte.x07))); [solve_file_ok|vm_compute; reflexivity]. Defined.

Lemma web_hash_lost_witness :
  exists g, DecodeFileID (EncodeFileID sample_web) = Ok g /\
    AsInputWebFileLocation sample_web = Some (URL sample_web, 4242) /\ AsInputWebFileLocation g = Some (URL sample_web, 0).
Proof. apply (web_hash_lost sample_web); [solve_file_ok|discriminate|vm_compute; reflexivity]. Defined.

(** The bound on the runs of zeros is not vacuous: a well-formed document whose
    reference has 256 zeros is written as an identifier that is refused. *)
Example long_run_refused :
  file_ok (sample_document (replicate 256 Byte.x00)) /\
  DecodeFileID (EncodeFileID (sample_document (replicate 256 Byte.x00))) <> Ok (sample_document (replicate 256 Byte.x00)).
Proof. split; [solve_file_ok|vm_compute; discriminate]. Qed.
End Sample.
