(* ===== verification/Codec.v ===== *)
(** * proto/codec and transport: framing of messages on a byte stream

    Model of src/proto/codec (the abridged, intermediate, padded intermediate and
    full transports) and of the codec detection and the connection of
    src/transport.  A connection's incoming side is a [Stream]: the bytes the
    peer sends, then the error that ends them; its outgoing side is a [Sink]
    (file Io).
    Go's interface Codec is the class [Codec]; [LawfulCodec] is what a
    connection relies on, each transport is an instance, and the connection's
    theorem is proved against the interface. *)
From S2P Require Import Prelude Io Bin.

(** A byte slice with its capacity. *)
Record bslice : Type := mkSlice { s_data : list byte; s_cap : Z }.

(** ** errors.go *)

Definition MaxMessageSize : Z := Z.shiftl 1 24.

Definition checkMessageLength (length : Z) : option error :=
  if (length <=? 0) || (length >? MaxMessageSize) then Some (invalidMsgLenErr length) else None.

Definition checkOutgoingMessage (b : Buffer) : option error := checkMessageLength (Len b).

Definition checkAlign (b : Buffer) (n : Z) : option error :=
  if negb (Z.rem (Len b) n =? 0) then Some (alignedPayloadExpectedErr n) else None.

(** [if err := check; err != nil { return err }] *)
Definition guard {S} (check : option error) : GoM S unit :=
  match check with Some e => fail e | None => ret tt end.

(** hash/crc32 ChecksumIEEE: the reflected polynomial, bit by bit. *)
Module Crc32.
Definition IEEE : Z := 0xedb88320.
Definition shift (c : Z) : Z :=
  Z.lxor (Z.shiftr c 1) (if Z.odd c then IEEE else 0).
Definition update_byte (c : Z) (b : byte) : Z :=
  Nat.iter 8 shift (Z.lxor c (byte.unsigned b)).
Definition ChecksumIEEE (bs : list byte) : Z :=
  Z.lxor (fold_left update_byte bs 0xffffffff) 0xffffffff.
End Crc32.

(** ** codec.go *)

Definition inboundReadChunkSize : Z := Z.shiftl 32 10.

(** The readers' state: the connection and the caller's buffer. *)
Abbreviation rstate := (Stream * bslice)%type.

(** [if _, err := io.ReadFull(r, x[:n]); err != nil { return err }] for a local
    array. *)
Definition read_array (n : Z) : GoM rstate (list byte) := fun '(r, b) =>
  match ReadFull n r with
  | (got, None, r') => (Ok got, (r', b))
  | (_, Some e, r') => (Err e, (r', b))
  end.

(** The loop of appendPayload: [remaining] bytes are still to be read.  Each
    iteration reads at least one byte, so [remaining] iterations are enough. *)
Fixpoint append_loop (fuel : nat) (target remaining : Z) : GoM rstate unit := fun '(r, b) =>
  match fuel with
  | O => (Ok tt, (r, b))
  | S fuel =>
      if remaining >? 0 then
        let chunk := if remaining >? inboundReadChunkSize then inboundReadChunkSize else remaining in
        let start := zlen (s_data b) in
        let stop := start + chunk in
        let cap :=
          if s_cap b <? stop then
            let nextCap := s_cap b * 2 in
            let nextCap := if nextCap <? stop then stop else nextCap in
            if nextCap >? target then target else nextCap
          else s_cap b in
        match ReadFull chunk r with
        | (got, err, r') =>
            let b' := mkSlice (s_data b ++ got) cap in
            match err with
            | Some e => (Err e, (r', b'))
            | None => append_loop fuel target (remaining - chunk) (r', b')
            end
        end
      else (Ok tt, (r, b))
  end.

Definition appendPayload (n : Z) : GoM rstate unit := fun '(r, b) =>
  if n <? 0 then (Err (invalidMsgLenErr n), (r, b))
  else append_loop (Z.to_nat n) (zlen (s_data b) + n) n (r, b).

Definition readPayload (n : Z) : GoM rstate unit :=
  modify (fun '(r, b) => (r, mkSlice [] (s_cap b))) ;;!
  appendPayload n.

(** The capacity that the Go runtime gives to a slice of the given capacity that
    [append] makes longer than it: the new length fits. *)
Class GrowSlice : Type := growslice : Z -> Z -> Z.
Class GrowSliceFits `{!GrowSlice} : Prop := growslice_fits old n : n <= growslice old n.

Section Codecs.
Context `{!GrowSlice}.

Definition slice_ResetN (n : Z) (b : bslice) : bslice :=
  mkSlice (zeros n) (if n <=? s_cap b then s_cap b else growslice (s_cap b) n).

(** A short read leaves the zero bytes of ResetN after what was received. *)
Definition readLen : GoM rstate Z := fun '(r, b) =>
  let b := slice_ResetN Word b in
  match ReadFull Word r with
  | (got, err, r') =>
      let b' := mkSlice (got ++ drop (length got) (s_data b)) (s_cap b) in
      match err with
      | Some e => (Err (Wrap e "read length"), (r', b'))
      | None =>
          let n := le_combine got in
          match checkMessageLength n with
          | Some e => (Err e, (r', b'))
          | None => (Ok n, (r', b'))
          end
      end
  end.

(** errors.go: a four byte message is the server's error code; reading it
    advances the slice. *)
Definition checkProtocolError : GoM rstate unit := fun '(r, b) =>
  if negb (zlen (s_data b) =? Word) then (Ok tt, (r, b))
  else match Int32 (s_data b) with
       | (Ok code, rest) =>
           (Err (ProtocolErr (i32 (- code))), (r, mkSlice rest (s_cap b - Word)))
       | (Err e, rest) => (Err e, (r, b))
       | (Panic, rest) => (Panic, (r, b))
       end.

(** ** abridged.go *)

Definition AbridgedClientStart : list byte := [Byte.xef].

Definition writeAbridged (b : Buffer) : GoM Sink unit :=
  let encodeLength := Z.shiftr (Len b) 2 in
  let inner :=
    if encodeLength <? 127 then Put [byte.of_Z encodeLength] []
    else Put (take 4 (byte.of_Z 0x7f :: le_split 4 (u32 encodeLength))) [] in
  SinkWrite inner ;;!
  SinkWrite (Raw b).

Definition readAbridgedLength : GoM rstate Z :=
  let! first := read_array 1 in
  let words := Z.land (le_combine first) 0x7f in
  if words =? 0 then fail (invalidMsgLenErr 0)
  else if words <? 0x7f then
    let n := words * Word in
    guard (checkMessageLength n) ;;!
    ret n
  else
    let! extended := read_array 3 in
    let words := le_combine extended in
    let n := words * Word in
    if words <? 0x7f then fail (invalidMsgLenErr n)
    else
      guard (checkMessageLength n) ;;!
      ret n.

Definition readAbridged : GoM rstate unit :=
  let! n := readAbridgedLength in
  wrapping "read payload" (readPayload n).

(** ** intermediate.go *)

Definition IntermediateClientStart : list byte := [Byte.xee; Byte.xee; Byte.xee; Byte.xee].

Definition writeIntermediate (b : Buffer) : GoM Sink unit :=
  SinkWrite (PutInt (Len b) []) ;;!
  SinkWrite b.

Definition readIntermediate (padding : bool) : GoM rstate unit :=
  let! n := readLen in
  wrapping "read payload" (readPayload n) ;;!
  if padding then
    let paddingLength := Z.rem n 4 in
    modify (fun '(r, b) => (r, mkSlice (take (Z.to_nat (n - paddingLength)) (s_data b)) (s_cap b)))
  else ret tt.

(** ** padded_intermediate.go *)

Definition PaddedIntermediateClientStart : list byte :=
  [Byte.xdd; Byte.xdd; Byte.xdd; Byte.xdd].

(** Four random bytes are read behind the payload; the number of them that is
    sent is taken from the byte at [length-1], the last one of the payload. *)
Definition writePaddedIntermediate (b : Buffer) : GoM (Stream * Sink) unit := fun '(rand, w) =>
  let length := Len b in
  match ReadFull 4 rand with
  | (_, Some e, rand') => (Err e, (rand', w))
  | (noise, None, rand') =>
      match b !! Z.to_nat (length - 1) with
      | None => (Panic, (rand', w))
      | Some last =>
          let n := Z.rem (byte.unsigned last) 4 in
          let '(r, w') := writeIntermediate (b ++ take (Z.to_nat n) noise) w in
          (r, (rand', w'))
      end
  end.

Definition readPaddedIntermediate : GoM rstate unit :=
  readIntermediate true ;;!
  modify (fun '(r, b) =>
    let padding := Z.rem (zlen (s_data b)) 4 in
    (r, mkSlice (take (Z.to_nat (zlen (s_data b) - padding)) (s_data b)) (s_cap b))).

(** ** full.go *)

Record Full : Type := mkFull { wSeqNo : Z; rSeqNo : Z }.

Definition writeFull (seqNo : Z) (b : Buffer) : GoM Sink unit :=
  let write := PutInt (4 + 4 + Len b + 4) [] in
  let write := PutInt seqNo write in
  let write := Put (Raw b) write in
  let crc := Crc32.ChecksumIEEE (Raw write) in
  let write := PutUint32 crc write in
  SinkWrite (Raw write).

(** The checks of readFull on the frame [frame] of [n] bytes it has read. *)
Definition checkFull (seqNo n : Z) (frame : list byte) : GoM Buffer unit :=
  let! serverSeqNo := Int in
  if negb (serverSeqNo =? seqNo) then fail errSeqNoMismatch
  else
    Skip (n - 3 * Word) ;;!
    let! crc := Uint32 in
    let clientCRC := Crc32.ChecksumIEEE (slice 0 (n - Word) frame) in
    if negb (crc =? clientCRC) then fail errCRCMismatch else ret tt.

Definition readFull (seqNo : Z) : GoM rstate unit :=
  let! n := wrapping "len" readLen in
  if n <? 3 * Word then fail (Wrap (invalidMsgLenErr n) "len")
  else
    wrapping "read seqno, buffer and crc" (appendPayload (n - Word)) ;;!
    fun '(r, b) =>
      match checkFull seqNo n (s_data b) (slice Word n (s_data b)) with
      | (Ok _, _) => (Ok tt, (r, mkSlice (slice (2 * Word) (n - Word) (s_data b)) (s_cap b)))
      | (Err e, _) => (Err e, (r, b))
      | (Panic, _) => (Panic, (r, b))
      end.

(** ** The codecs *)

(** Go's interface Codec.  [Write] leaves the caller's buffer as it was. *)
Class Codec (C : Type) : Type := {
  WriteHeader : C -> GoM Sink unit;
  ReadHeader : C -> GoM Stream unit;
  Write : Buffer -> GoM (C * Sink) unit;
  Read : GoM (C * rstate) unit;
}.

(** The bodies of the WriteHeader and ReadHeader methods that send and expect
    the tag [start]. *)
Definition write_header (start : list byte) (msg : string) : GoM Sink unit :=
  wrapping msg (SinkWrite start).

Definition read_header (start : list byte) (msg : string) : GoM Stream unit := fun r =>
  match ReadFull (zlen start) r with
  | (_, Some e, r') => (Err (Wrap e msg), r')
  | (got, None, r') =>
      if decide (got = start) then (Ok tt, r') else (Err ErrProtocolHeaderMismatch, r')
  end.

(** Runs a step on the second component of the state. *)
Definition on_snd {S T A} (m : GoM T A) : GoM (S * T) A := fun '(s, t) =>
  let '(r, t') := m t in (r, (s, t')).

(** abridged.go: the methods of Abridged. *)
Inductive Abridged : Type := mkAbridged.
Definition Abridged_Write (b : Buffer) : GoM (Abridged * Sink) unit :=
  guard (checkOutgoingMessage b) ;;!
  guard (checkAlign b 4) ;;!
  wrapping "write abridged" (on_snd (writeAbridged b)).
Definition Abridged_Read : GoM (Abridged * rstate) unit :=
  wrapping "read abridged" (on_snd readAbridged) ;;!
  on_snd checkProtocolError.
#[export] Instance abridged_codec : Codec Abridged := {
  WriteHeader _ := write_header AbridgedClientStart "write abridged header";
  ReadHeader _ := read_header AbridgedClientStart "read abridged header";
  Write := Abridged_Write; Read := Abridged_Read }.

(** intermediate.go: the methods of Intermediate. *)
Inductive Intermediate : Type := mkIntermediate.
Definition Intermediate_Write (b : Buffer) : GoM (Intermediate * Sink) unit :=
  guard (checkOutgoingMessage b) ;;!
  guard (checkAlign b 4) ;;!
  wrapping "write intermediate" (on_snd (writeIntermediate b)).
Definition Intermediate_Read : GoM (Intermediate * rstate) unit :=
  wrapping "read intermediate" (on_snd (readIntermediate false)) ;;!
  on_snd checkProtocolError.
#[export] Instance intermediate_codec : Codec Intermediate := {
  WriteHeader _ := write_header IntermediateClientStart "write intermediate header";
  ReadHeader _ := read_header IntermediateClientStart "read intermediate header";
  Write := Intermediate_Write; Read := Intermediate_Read }.

(** padded_intermediate.go: the methods of PaddedIntermediate; its state is
    what crypto.DefaultRand will still deliver. *)
Record PaddedIntermediate : Type := mkPadded { DefaultRand : Stream }.
Definition PaddedIntermediate_Write (b : Buffer) : GoM (PaddedIntermediate * Sink) unit :=
  guard (checkOutgoingMessage b) ;;!
  guard (checkAlign b 4) ;;!
  wrapping "write padded intermediate" (fun '(c, w) =>
    let '(r, (rand, w')) := writePaddedIntermediate b (DefaultRand c, w) in
    (r, (mkPadded rand, w'))).
Definition PaddedIntermediate_Read : GoM (PaddedIntermediate * rstate) unit :=
  wrapping "read padded intermediate" (on_snd readPaddedIntermediate) ;;!
  on_snd checkProtocolError.
#[export] Instance padded_codec : Codec PaddedIntermediate := {
  WriteHeader _ :=
    write_header PaddedIntermediateClientStart "write padded intermediate header";
  ReadHeader _ :=
    read_header PaddedIntermediateClientStart "read padded intermediate header";
  Write := PaddedIntermediate_Write; Read := PaddedIntermediate_Read }.

(** full.go: the methods of Full.  [atomic.AddInt64(&i.wSeqNo, 1)-1] is the
    value before the increment; the counter wraps. *)
Definition Full_Write (b : Buffer) : GoM (Full * Sink) unit :=
  guard (checkOutgoingMessage b) ;;!
  fun '(c, w) =>
    wrapping "write full" (on_snd (writeFull (wSeqNo c) b))
      (mkFull (i64 (wSeqNo c + 1)) (rSeqNo c), w).
Definition Full_Read : GoM (Full * rstate) unit :=
  (fun '(c, s) =>
     wrapping "read full" (on_snd (readFull (rSeqNo c)))
       (mkFull (wSeqNo c) (i64 (rSeqNo c + 1)), s)) ;;!
  on_snd checkProtocolError.
#[export] Instance full_codec : Codec Full := {
  WriteHeader _ := ret tt; ReadHeader _ := ret tt;
  Write := Full_Write; Read := Full_Read }.

(** no_header.go *)
Record NoHeader (C : Type) : Type := mkNoHeader { inner_codec : C }.
Definition on_inner {C S A} (m : GoM (C * S) A) : GoM (NoHeader C * S) A := fun '(c, s) =>
  let '(r, (c', s')) := m (inner_codec C c, s) in (r, (mkNoHeader C c', s')).
#[export] Instance no_header_codec {C} `{Codec C} : Codec (NoHeader C) := {
  WriteHeader _ := ret tt; ReadHeader _ := ret tt;
  Write b := on_inner (Write b); Read := on_inner Read }.
End Codecs.
Arguments mkNoHeader {C} _.
Arguments inner_codec {C} _.

(** ** transport/detect_codec.go *)

Inductive detected : Type := DAbridged | DIntermediate | DPaddedIntermediate | DFull.

(** io.MultiReader of the four bytes and the connection: the bytes again in
    front of what follows. *)
Definition detectCodec (c : Stream) : outcome (detected * Stream) :=
  match ReadFull 1 c with
  | (_, Some e, _) => Err (Wrap e "read first byte")
  | (first, None, c) =>
      if decide (first = AbridgedClientStart) then Ok (DAbridged, c)
      else
        match ReadFull 3 c with
        | (_, Some e, _) => Err (Wrap e "read header")
        | (others, None, c) =>
            let buf := first ++ others in
            if decide (buf = IntermediateClientStart) then Ok (DIntermediate, c)
            else if decide (buf = PaddedIntermediateClientStart) then Ok (DPaddedIntermediate, c)
            else Ok (DFull, mkStream (buf ++ incoming c) (ending c))
        end
  end.

(** ** transport/connection.go *)

(** net.Conn: both directions and the write and read deadlines;
    [deadline_err] is what setting a deadline reports. *)
Record NetConn : Type := mkConn {
  c_in : Stream; c_out : Sink;
  c_rdl : option Z; c_wdl : option Z; deadline_err : option error }.

Section Connection.
Context {C : Type} `{Codec C}.

Record connection : Type := mkConnection { conn : NetConn; codec : C }.

Definition set_wdl (d : option Z) : GoM connection unit := fun c =>
  match deadline_err (conn c) with
  | Some e => (Err e, c)
  | None => (Ok tt, mkConnection
      (mkConn (c_in (conn c)) (c_out (conn c)) (c_rdl (conn c)) d None) (codec c))
  end.
Definition set_rdl (d : option Z) : GoM connection unit := fun c =>
  match deadline_err (conn c) with
  | Some e => (Err e, c)
  | None => (Ok tt, mkConnection
      (mkConn (c_in (conn c)) (c_out (conn c)) d (c_wdl (conn c)) None) (codec c))
  end.

Definition Send (deadline : option Z) (b : Buffer) : GoM connection unit :=
  wrapping "reset write deadline" (set_wdl None) ;;!
  match deadline with
  | Some d => wrapping "set write deadline" (set_wdl (Some d))
  | None => ret tt
  end ;;!
  wrapping "write" (fun c =>
    let '(r, (k, w)) := Write b (codec c, c_out (conn c)) in
    (r, mkConnection (mkConn (c_in (conn c)) w (c_rdl (conn c)) (c_wdl (conn c))
                             (deadline_err (conn c))) k)).

Definition Recv (deadline : option Z) : GoM (connection * bslice) unit :=
  wrapping "reset read deadline" (fun '(c, b) => let '(r, c') := set_rdl None c in (r, (c', b))) ;;!
  match deadline with
  | Some d => wrapping "set read deadline"
                (fun '(c, b) => let '(r, c') := set_rdl (Some d) c in (r, (c', b)))
  | None => ret tt
  end ;;!
  wrapping "read" (fun '(c, b) =>
    let '(r, (k, (i, b'))) := Read (codec c, (c_in (conn c), b)) in
    (r, (mkConnection (mkConn i (c_out (conn c)) (c_rdl (conn c)) (c_wdl (conn c))
                              (deadline_err (conn c))) k, b'))).
End Connection.
Arguments connection C : clear implicits.

(** ** Reading a payload *)

Lemma inboundReadChunkSize_val : inboundReadChunkSize = 32768.
Proof. reflexivity. Qed.

Lemma append_loop_spec fuel target remaining r b res r' b' :
  append_loop fuel target remaining (r, b) = (res, (r', b')) ->
  0 <= remaining <= Z.of_nat fuel -> target = zlen (s_data b) + remaining ->
  exists got,
    s_data b' = s_data b ++ got /\ incoming r = got ++ incoming r' /\ ending r' = ending r /\
    s_cap b' <= Z.max (s_cap b) (Z.min target (2 * (zlen (s_data b') + inboundReadChunkSize))) /\
    (zlen (s_data b) <= s_cap b -> zlen (s_data b') <= s_cap b') /\
    match res with
    | Ok _ => zlen got = remaining
    | Err e => zlen got < remaining /\ incoming r' = [] /\ (e = ending r \/ e = ErrUnexpectedEOF)
    | Panic => False
    end.
Proof.
  revert remaining r b. induction fuel as [|fuel IH]; intros remaining r b; simpl.
  { intros [= <- <- <-] ? ?. exists []. rewrite app_nil_r, zlen_nil. repeat split; lia. }
  destruct (remaining >? 0) eqn:Er; bool_to_prop; cycle 1.
  { intros [= <- <- <-] ? ?. exists []. rewrite app_nil_r, zlen_nil. repeat split; lia. }
  set (chunk := if remaining >? inboundReadChunkSize then _ else _).
  assert (0 < chunk <= remaining /\ chunk <= inboundReadChunkSize) as Hc.
  { subst chunk. pose proof inboundReadChunkSize_val. case_bool; bool_to_prop; lia. }
  clearbody chunk. set (cap := if s_cap b <? _ then _ else _).
  pose proof (zlen_nonneg (s_data b)) as Hd.
  destruct (ReadFull chunk r) as [[got err] r1] eqn:ER.
  destruct (ReadFull_spec chunk r got err r1 ltac:(lia) ER) as (Hin & Hend & Herr).
  intros Hrun Hrem Htgt.
  assert (s_cap b <= cap /\ cap <= Z.max (s_cap b)
      (Z.min target (2 * (zlen (s_data b) + inboundReadChunkSize)))
      /\ (zlen (s_data b) <= s_cap b -> zlen (s_data b) + chunk <= cap)) as (Hc1 & Hc2 & Hc3).
  { subst cap. destruct (s_cap b * 2 <? _) eqn:?; case_bool; bool_to_prop; lia. }
  clearbody cap. pose proof (zlen_nonneg got).
  destruct err as [e|].
  - injection Hrun as <- <- <-. exists got. simpl. rewrite zlen_app. destruct Herr as (?&?&?).
    repeat split; try done; lia.
  - destruct (IH _ _ _ Hrun) as (got' & -> & Hin' & Hend' & Hcap & Hlen & Hres);
      [lia|simpl; rewrite zlen_app; lia|].
    simpl in *. rewrite !zlen_app in *. pose proof (zlen_nonneg got').
    exists (got ++ got'). rewrite <- !app_assoc, Hin, Hin', zlen_app.
    split; [done|]. split; [done|]. split; [congruence|].
    split; [lia|]. split; [lia|].
    destruct res as [a|e|]; [lia| |done].
    destruct Hres as (?&?&?). split; [lia|]. split; [done|]. by rewrite Hend in *.
Qed.

Lemma appendPayload_spec n r b res r' b' :
  0 <= n -> appendPayload n (r, b) = (res, (r', b')) ->
  exists got,
    s_data b' = s_data b ++ got /\ incoming r = got ++ incoming r' /\ ending r' = ending r /\
    s_cap b' <= Z.max (s_cap b) (Z.min (zlen (s_data b) + n)
                                  (2 * (zlen (s_data b') + inboundReadChunkSize))) /\
    (zlen (s_data b) <= s_cap b -> zlen (s_data b') <= s_cap b') /\
    match res with
    | Ok _ => zlen got = n
    | Err e => zlen got < n /\ incoming r' = [] /\ (e = ending r \/ e = ErrUnexpectedEOF)
    | Panic => False
    end.
Proof.
  intros Hn. unfold appendPayload. replace (n <? 0) with false by lia. intros H.
  eapply append_loop_spec; [done|lia|done].
Qed.

(** A stream that holds the payload delivers it. *)
Lemma appendPayload_ok n p rest e b :
  n = zlen p ->
  exists cap, appendPayload n (mkStream (p ++ rest) e, b) =
              (Ok tt, (mkStream rest e, mkSlice (s_data b ++ p) cap)).
Proof.
  intros ->. destruct (appendPayload _ _) as [res [[i' e'] [d' c']]] eqn:E.
  apply appendPayload_spec in E; [|apply zlen_nonneg].
  destruct E as (got & Hd & Hin & He & _ & _ & Hres). simpl in *. subst.
  destruct res as [[]|err|]; [| |done].
  - apply app_inj_1 in Hin as [<- <-]; [by eexists|]. unfold zlen in Hres. lia.
  - destruct Hres as (Hlt & -> & _). apply (f_equal zlen) in Hin. rewrite !zlen_app, zlen_nil in Hin.
    pose proof (zlen_nonneg rest). lia.
Qed.

Lemma readPayload_ok n p rest e b :
  n = zlen p ->
  exists cap, readPayload n (mkStream (p ++ rest) e, b) =
              (Ok tt, (mkStream rest e, mkSlice p cap)).
Proof.
  intros Hn. unfold readPayload. erewrite bind_ok by done.
  by apply (appendPayload_ok n p rest e (mkSlice [] (s_cap b))).
Qed.

(** ** What a connection relies on *)

(** What becomes of a payload: Write returns the error [e] and sends nothing, or
    sends a frame, which Read delivers as the payload or refuses with [e]. *)
Inductive fate : Type := Refused (e : error) | Carried | ReadAs (e : error).

(** [fate_of p]: what becomes of the payload [p]; [in_step n cw cr]: the next
    [n] messages written in state [cw] are the ones state [cr] expects. *)
Class CodecSpec (C : Type) : Type := {
  tag : list byte;
  fate_of : list byte -> fate;
  in_step : nat -> C -> C -> Prop;
}.

Class LawfulCodec (C : Type) `{Codec C, CodecSpec C} : Prop := {
  header_roundtrip cw cr s rest e :
    WriteHeader cw (mkSink s None) = (Ok tt, mkSink (s ++ tag) None) /\
    ReadHeader cr (mkStream (tag ++ rest) e) = (Ok tt, mkStream rest e);
  write_refused cw w p e :
    fate_of (C := C) p = Refused e -> Write p (cw, w) = (Err e, (cw, w));
  frame_read n cw cr p :
    in_step (S n) cw cr -> (forall e, fate_of (C := C) p <> Refused e) ->
    exists fr cw' cr', in_step n cw' cr' /\
      (forall s, Write p (cw, mkSink s None) = (Ok tt, (cw', mkSink (s ++ fr) None))) /\
      match fate_of (C := C) p with
      | Carried => forall rest e b, exists cap,
          Read (cr, (mkStream (fr ++ rest) e, b)) =
          (Ok tt, (cr', (mkStream rest e, mkSlice p cap)))
      | ReadAs err => forall rest e b, exists st,
          Read (cr, (mkStream (fr ++ rest) e, b)) = (Err err, (cr', st))
      | Refused _ => False
      end;
}.

(** The payloads that arrive. *)
Definition fits {C} `{CodecSpec C} (p : list byte) : Prop := fate_of (C := C) p = Carried.

Lemma frame_roundtrip {C} `{LawfulCodec C} n cw cr p :
  in_step (S n) cw cr -> fits (C := C) p ->
  exists fr cw' cr', in_step n cw' cr' /\
    (forall s, Write p (cw, mkSink s None) = (Ok tt, (cw', mkSink (s ++ fr) None))) /\
    (forall rest e b, exists cap,
      Read (cr, (mkStream (fr ++ rest) e, b)) =
      (Ok tt, (cr', (mkStream rest e, mkSlice p cap)))).
Proof.
  unfold fits. intros Hs Hp. destruct (frame_read n cw cr p Hs) as (fr & cw' & cr' & Hs' & HW & HR);
    [by rewrite Hp|]. rewrite Hp in HR. eauto 7.
Qed.

Lemma take_3_le_split z : take 3 (le_split 4 z) = le_split 3 z.
Proof. with_strategy 0 [le_split] unfold le_split. reflexivity. Qed.

Lemma checkMessageLength_ok n : 0 < n <= MaxMessageSize -> checkMessageLength n = None.
Proof. intros. unfold checkMessageLength. case_bool; [|done]. apply orb_true_iff in E. lia. Qed.

Lemma checkMessageLength_spec n :
  match checkMessageLength n with
  | None => 0 < n <= MaxMessageSize
  | Some e => e = invalidMsgLenErr n /\ (n <= 0 \/ MaxMessageSize < n)
  end.
Proof. unfold checkMessageLength. case_bool; bool_to_prop; [split; [done|lia]|lia]. Qed.

Lemma MaxMessageSize_val : MaxMessageSize = 2 ^ 24.
Proof. reflexivity. Qed.

Lemma checkAlign_ok b : zlen b mod 4 = 0 -> checkAlign b 4 = None.
Proof.
  intros H. unfold checkAlign, Len. rewrite Z.rem_mod_nonneg by (pose proof (zlen_nonneg b); lia).
  by rewrite H.
Qed.

Lemma PutInt_small n : 0 <= n < 2 ^ 31 -> PutInt n [] = le_split 4 n.
Proof.
  intros. unfold PutInt, PutInt32, PutUint32. rewrite swrap_id, uwrap_id by
    (unfold is_signed, is_unsigned; lia). done.
Qed.

Lemma checkProtocolError_ok r b : zlen (s_data b) <> 4 -> checkProtocolError (r, b) = (Ok tt, (r, b)).
Proof. intros. unfold checkProtocolError, Word. by replace (zlen (s_data b) =? 4) with false by lia. Qed.

(** The code of a four byte message. *)
Definition protocol_code (p : list byte) : error := ProtocolErr (i32 (- i32 (le_combine p))).

Lemma checkProtocolError_code r p cap : zlen p = 4 ->
  exists b', checkProtocolError (r, mkSlice p cap) = (Err (protocol_code p), (r, b')).
Proof.
  intros Hp. unfold checkProtocolError, Word. simpl s_data. rewrite Hp.
  assert (length p = 4%nat) as Hl by (unfold zlen in Hp; lia).
  assert (p = le_split 4 (le_combine p)) as Hs by (by rewrite split_le_combine').
  assert (uint32 (le_combine p)) as Hu.
  { unfold is_unsigned. pose proof (le_combine_bound p) as Hb. rewrite Hl in Hb. simpl in Hb. lia. }
  assert (Int32 p = (Ok (i32 (le_combine p)), [])) as ->.
  { unfold Int32. erewrite bind_ok; [done|]. rewrite Hs at 1. by apply (parses_nil Uint32), parses_Uint32. }
  by eexists.
Qed.

Lemma read_array_ok n bs rest e b :
  n = zlen bs -> read_array n (mkStream (bs ++ rest) e, b) = (Ok bs, (mkStream rest e, b)).
Proof. intros H. unfold read_array. by rewrite ReadFull_app. Qed.

Lemma header_ok start wmsg rmsg s rest e :
  write_header start wmsg (mkSink s None) = (Ok tt, mkSink (s ++ start) None) /\
  read_header start rmsg (mkStream (start ++ rest) e) = (Ok tt, mkStream rest e).
Proof.
  split; [done|]. unfold read_header. rewrite ReadFull_app by done. by rewrite decide_True.
Qed.

Section FrameProofs.
Context `{!GrowSlice}.

Lemma readLen_ok n rest e b :
  0 < n <= MaxMessageSize ->
  exists cap, readLen (mkStream (le_split 4 n ++ rest) e, b) =
              (Ok n, (mkStream rest e, mkSlice (le_split 4 n) cap)).
Proof.
  intros Hn. pose proof MaxMessageSize_val. unfold readLen.
  rewrite ReadFull_app by (by rewrite zlen_le_split). simpl s_data.
  rewrite le_combine_split_unsigned by (unfold is_unsigned; simpl; lia).
  rewrite checkMessageLength_ok by done. rewrite length_le_split.
  rewrite (drop_ge (zeros _)) by done. rewrite app_nil_r. by eexists.
Qed.

Lemma readLen_long n rest e b :
  MaxMessageSize < n < 2 ^ 32 ->
  exists st, readLen (mkStream (le_split 4 n ++ rest) e, b) = (Err (invalidMsgLenErr n), st).
Proof.
  intros Hn. pose proof MaxMessageSize_val. unfold readLen.
  rewrite ReadFull_app by (by rewrite zlen_le_split). simpl s_data.
  rewrite le_combine_split_unsigned by (unfold is_unsigned; simpl; lia).
  pose proof (checkMessageLength_spec n) as HC.
  destruct (checkMessageLength n) as [e'|]; [destruct HC as [-> _]; by eexists|lia].
Qed.

Lemma readIntermediate_ok n p rest e b :
  n = zlen p -> 0 < n <= MaxMessageSize ->
  exists cap, readIntermediate false (mkStream (le_split 4 n ++ p ++ rest) e, b) =
              (Ok tt, (mkStream rest e, mkSlice p cap)).
Proof.
  intros Hn Hr. destruct (readLen_ok n (p ++ rest) e b Hr) as [c1 E1].
  destruct (readPayload_ok n p rest e (mkSlice (le_split 4 n) c1) Hn) as [c2 E2].
  exists c2. unfold readIntermediate. erewrite bind_ok by exact E1.
  erewrite bind_ok; [|unfold wrapping; rewrite E2; done]. done.
Qed.

Lemma readIntermediate_padded_ok n p pad rest e b :
  n = zlen p + zlen pad -> zlen p mod 4 = 0 -> zlen pad < 4 -> 0 < n <= MaxMessageSize ->
  exists cap, readIntermediate true (mkStream (le_split 4 n ++ p ++ pad ++ rest) e, b) =
              (Ok tt, (mkStream rest e, mkSlice p cap)).
Proof.
  intros Hn Ha Hp Hr. rewrite (app_assoc p).
  destruct (readLen_ok n ((p ++ pad) ++ rest) e b Hr) as [c1 E1].
  destruct (readPayload_ok n (p ++ pad) rest e (mkSlice (le_split 4 n) c1)) as [c2 E2].
  { by rewrite zlen_app. }
  exists c2. unfold readIntermediate. erewrite bind_ok by exact E1.
  erewrite bind_ok; [|unfold wrapping; rewrite E2; done]. unfold modify. cbn [s_data s_cap].
  rewrite take_zlen_app; [done|].
  pose proof (zlen_nonneg p). pose proof (zlen_nonneg pad).
  rewrite Z.rem_mod_nonneg by lia. rewrite Hn, Z.add_mod, Ha by lia.
  rewrite (Z.mod_small (zlen pad)), Z.mod_small by (rewrite ?Z.mod_small; lia). lia.
Qed.

Lemma readAbridgedLength_ok n rest e b :
  0 < n <= MaxMessageSize -> n mod 4 = 0 ->
  readAbridgedLength
    (mkStream ((if Z.shiftr n 2 <? 127 then Put [byte.of_Z (Z.shiftr n 2)] []
                else Put (take 4 (byte.of_Z 0x7f :: le_split 4 (u32 (Z.shiftr n 2)))) []) ++ rest) e, b)
  = (Ok n, (mkStream rest e, b)).
Proof.
  intros Hn Ha. pose proof MaxMessageSize_val. rewrite Z.shiftr_div_pow2 by lia.
  change (2 ^ 2) with 4. assert (n = n / 4 * 4) as Hw by (pose proof (Z.div_mod n 4); lia).
  set (w := n / 4) in *. unfold readAbridgedLength, Put. rewrite !app_nil_l.
  destruct (Z.ltb_spec w 127).
  - erewrite bind_ok by (by apply read_array_ok).
    rewrite le_combine_1, byte.unsigned_of_Z. unfold byte.wrap.
    change 0x7f with (Z.ones 7). rewrite Z.land_ones, (Z.mod_small w), (Z.mod_small w) by lia.
    replace (w =? 0) with false by lia. change (Z.ones 7) with 127.
    replace (w <? 127) with true by lia. unfold Word.
    rewrite checkMessageLength_ok by lia. unfold guard. rewrite bind_ret_l. by rewrite <- Hw.
  - rewrite uwrap_id by (unfold is_unsigned; lia).
    change (take 4 (?x :: ?l)) with (x :: take 3 l). rewrite take_3_le_split.
    change ((?x :: ?l) ++ rest) with ([x] ++ l ++ rest).
    erewrite bind_ok by (by apply read_array_ok).
    rewrite le_combine_1.
    change (Z.land (byte.unsigned (byte.of_Z 127)) 127) with 127.
    change (127 =? 0) with false. change (127 <? 127) with false. cbv iota beta.
    erewrite bind_ok by (apply read_array_ok; by rewrite zlen_le_split_3).
    rewrite le_combine_split_unsigned by (unfold is_unsigned; simpl; lia).
    replace (w <? 127) with false by lia. unfold Word.
    rewrite checkMessageLength_ok by lia. unfold guard. rewrite bind_ret_l. by rewrite <- Hw.
Qed.
End FrameProofs.

(** ** The checksum of the full transport *)

Lemma fold_left_cons {A B} (f : A -> B -> A) x l a :
  fold_left f (x :: l) a = fold_left f l (f a x).
Proof. reflexivity. Qed.

Section Crc.
Import Crc32.

Lemma lxor_uint32 a b : uint32 a -> uint32 b -> uint32 (Z.lxor a b).
Proof.
  unfold is_unsigned. intros [Ha1 Ha2] [Hb1 Hb2].
  assert (0 <= Z.lxor a b) as H0 by (apply Z.lxor_nonneg; lia).
  split; [done|]. apply Z.bounded_iff_bits_nonneg; [lia|done|]. intros l Hl.
  rewrite Z.lxor_spec.
  rewrite (proj1 (Z.bounded_iff_bits_nonneg 32 a ltac:(lia) Ha1) Ha2 l Hl).
  by rewrite (proj1 (Z.bounded_iff_bits_nonneg 32 b ltac:(lia) Hb1) Hb2 l Hl).
Qed.

Lemma lxor_cancel_r a b c : Z.lxor a c = Z.lxor b c -> a = b.
Proof.
  intros H. apply (f_equal (fun z => Z.lxor z c)) in H.
  by rewrite !Z.lxor_assoc, Z.lxor_nilpotent, !Z.lxor_0_r in H.
Qed.

Lemma shiftr_1_uint32 c : uint32 c -> 0 <= Z.shiftr c 1 < 2 ^ 31.
Proof.
  unfold is_unsigned. intros. rewrite Z.shiftr_div_pow2 by lia.
  split; [apply Z.div_pos; lia|]. apply Z.div_lt_upper_bound; lia.
Qed.

Lemma shift_uint32 c : uint32 c -> uint32 (shift c).
Proof.
  intros Hc. apply lxor_uint32.
  - pose proof (shiftr_1_uint32 c Hc). unfold is_unsigned. lia.
  - unfold is_unsigned, IEEE. destruct (Z.odd c); lia.
Qed.

(** The polynomial's top bit makes the bit shifted out visible. *)
Lemma shift_bit_31 c : uint32 c -> Z.testbit (shift c) 31 = Z.odd c.
Proof.
  intros Hc. unfold shift. rewrite Z.lxor_spec. pose proof (shiftr_1_uint32 c Hc).
  rewrite (proj1 (Z.bounded_iff_bits_nonneg 31 (Z.shiftr c 1) ltac:(lia) ltac:(lia)) ltac:(lia) 31)
    by lia.
  by destruct (Z.odd c).
Qed.

Lemma shift_inj c d : uint32 c -> uint32 d -> shift c = shift d -> c = d.
Proof.
  intros Hc Hd H. assert (Z.odd c = Z.odd d) as Ho
    by (rewrite <- !shift_bit_31 by done; by rewrite H).
  unfold shift in H. rewrite Ho in H. apply lxor_cancel_r in H.
  rewrite <- !Z.div2_spec in H. rewrite (Z.div2_odd c), (Z.div2_odd d). by rewrite H, Ho.
Qed.

Lemma byte_uint32 (b : byte) : uint32 (byte.unsigned b).
Proof. pose proof (byte.unsigned_range b). unfold is_unsigned. lia. Qed.

Lemma iter_shift n c d :
  uint32 c -> uint32 d ->
  uint32 (Nat.iter n shift c) /\ (Nat.iter n shift c = Nat.iter n shift d -> c = d).
Proof.
  intros Hc Hd. induction n as [|n IH] in c, d, Hc, Hd |- *; [done|]. rewrite !Nat.iter_succ_r.
  destruct (IH (shift c) (shift d)) as [IH1 IH2]; try by apply shift_uint32.
  split; [done|]. intros H. by apply shift_inj, IH2.
Qed.

Lemma update_byte_eq c b : update_byte c b = Nat.iter 8 shift (Z.lxor c (byte.unsigned b)).
Proof. reflexivity. Qed.
#[local] Opaque update_byte Nat.iter Z.lxor fold_left.

Lemma update_byte_uint32 c b : uint32 c -> uint32 (update_byte c b).
Proof.
  intros Hc. rewrite update_byte_eq.
  eapply (iter_shift 8); apply lxor_uint32; eauto using byte_uint32.
Qed.

Lemma update_byte_inj_l c d b : uint32 c -> uint32 d -> update_byte c b = update_byte d b -> c = d.
Proof.
  rewrite !update_byte_eq. intros Hc Hd H. apply (lxor_cancel_r _ _ (byte.unsigned b)).
  eapply (iter_shift 8); [..|exact H]; apply lxor_uint32; eauto using byte_uint32.
Qed.

Lemma update_byte_inj_r c b1 b2 : uint32 c -> update_byte c b1 = update_byte c b2 -> b1 = b2.
Proof.
  rewrite !update_byte_eq. intros Hc H. apply byte.unsigned_inj. apply (lxor_cancel_r _ _ c).
  rewrite !(Z.lxor_comm _ c).
  eapply (iter_shift 8); [..|exact H]; apply lxor_uint32; eauto using byte_uint32.
Qed.

Lemma fold_update_cons b bs c :
  fold_left update_byte (b :: bs) c = fold_left update_byte bs (update_byte c b).
Proof. apply fold_left_cons. Qed.

Lemma fold_update_uint32 bs c : uint32 c -> uint32 (fold_left update_byte bs c).
Proof.
  revert c. induction bs as [|b bs IH]; intros c Hc; [done|].
  rewrite fold_update_cons. by apply IH, update_byte_uint32.
Qed.

Lemma fold_update_inj bs c d :
  uint32 c -> uint32 d -> fold_left update_byte bs c = fold_left update_byte bs d -> c = d.
Proof.
  revert c d. induction bs as [|b bs IH]; intros c d Hc Hd H; [done|].
  rewrite !fold_update_cons in H.
  apply IH in H; [|by apply update_byte_uint32..]. by apply update_byte_inj_l in H.
Qed.

Lemma ChecksumIEEE_uint32 bs : uint32 (ChecksumIEEE bs).
Proof. apply lxor_uint32; [apply fold_update_uint32|]; unfold is_unsigned; lia. Qed.

(** Two byte strings that differ in one byte have different checksums. *)
Lemma ChecksumIEEE_one_byte pre x y post :
  ChecksumIEEE (pre ++ x :: post) = ChecksumIEEE (pre ++ y :: post) -> x = y.
Proof.
  unfold ChecksumIEEE. intros H. apply lxor_cancel_r in H.
  rewrite !fold_left_app, !fold_update_cons in H.
  assert (uint32 (fold_left update_byte pre 0xffffffff)) as Hp
    by (apply fold_update_uint32; unfold is_unsigned; lia).
  apply fold_update_inj in H; [|by apply update_byte_uint32..].
  by apply update_byte_inj_r in H.
Qed.
End Crc.
#[global] Opaque Crc32.ChecksumIEEE.

(** The bytes of a full frame in front of its checksum. *)
Definition full_body (sq : Z) (p : list byte) : list byte :=
  le_split 4 (zlen p + 12) ++ le_split 4 sq ++ p.

Lemma zlen_full_body sq p : zlen (full_body sq p) = zlen p + 8.
Proof. unfold full_body. autorewrite with zlen. lia. Qed.

Lemma writeFull_ok seqNo p s :
  zlen p + 12 < 2 ^ 31 ->
  writeFull seqNo p (mkSink s None) =
  (Ok tt, mkSink (s ++ full_body (u32 seqNo) p ++
                  le_split 4 (Crc32.ChecksumIEEE (full_body (u32 seqNo) p))) None).
Proof.
  intros Hp. unfold writeFull, Raw, Len. pose proof (zlen_nonneg p).
  rewrite PutInt_small by lia.
  replace (4 + 4 + zlen p + 4) with (zlen p + 12) by lia.
  unfold PutInt, PutInt32, PutUint32, Put. rewrite uwrap_swrap by lia.
  rewrite SinkWrite_ok. unfold full_body. by rewrite <- !app_assoc.
Qed.

(** What the checks of readFull decide on a well-delimited frame. *)
Lemma checkFull_run seqNo sq p crc n :
  uint32 sq -> uint32 crc -> n = zlen p + 12 ->
  fst (checkFull seqNo n (full_body sq p ++ le_split 4 crc)
         (slice Word n (full_body sq p ++ le_split 4 crc))) =
  if negb (i32 sq =? seqNo) then Err errSeqNoMismatch
  else if negb (crc =? Crc32.ChecksumIEEE (full_body sq p)) then Err errCRCMismatch
  else Ok tt.
Proof.
  intros Hsq Hcrc ->. pose proof (zlen_nonneg p). unfold checkFull, Word.
  replace (slice 4 _ _) with (le_split 4 sq ++ p ++ le_split 4 crc); cycle 1.
  { unfold slice, full_body. rewrite <- !app_assoc.
    rewrite drop_zlen_app by (by rewrite zlen_le_split_4).
    rewrite take_ge; [done|]. unfold zlen in *. rewrite !length_app, !length_le_split. lia. }
  erewrite bind_ok; cycle 1.
  { unfold Int, Int32. erewrite bind_ok; [|erewrite bind_ok by (by apply parses_Uint32); done]. done. }
  destruct (negb (i32 sq =? seqNo)); [done|].
  assert (Skip (zlen p + 12 - 3 * 4) (p ++ le_split 4 crc) = (Ok tt, le_split 4 crc)) as HS.
  { unfold Skip. replace ((_ <? 0) || _) with false by zlen_lia.
    by rewrite drop_zlen_app by lia. }
  erewrite bind_ok by exact HS.
  erewrite bind_ok by (apply (parses_nil Uint32), parses_Uint32; done).
  replace (slice 0 _ _) with (full_body sq p); [by destruct (negb _)|].
  unfold slice. rewrite drop_0, take_zlen_app; [done|]. rewrite zlen_full_body. lia.
Qed.

Section FullProofs.
Context `{!GrowSlice}.

Lemma readFull_run seqNo sq p crc rest e b :
  uint32 sq -> uint32 crc -> zlen p + 12 <= MaxMessageSize ->
  let frame := full_body sq p ++ le_split 4 crc in
  exists cap, readFull seqNo (mkStream (frame ++ rest) e, b) =
    if negb (i32 sq =? seqNo)
    then (Err errSeqNoMismatch, (mkStream rest e, mkSlice frame cap))
    else if negb (crc =? Crc32.ChecksumIEEE (full_body sq p))
    then (Err errCRCMismatch, (mkStream rest e, mkSlice frame cap))
    else (Ok tt, (mkStream rest e, mkSlice p cap)).
Proof.
  intros Hsq Hcrc Hn frame. pose proof (zlen_nonneg p).
  set (tl := le_split 4 sq ++ p ++ le_split 4 crc).
  assert (frame = le_split 4 (zlen p + 12) ++ tl) as Hf
    by (subst frame tl; unfold full_body; by rewrite <- !app_assoc).
  assert (zlen p + 12 - Word = zlen tl) as Ht
    by (subst tl; unfold Word; autorewrite with zlen; lia).
  destruct (readLen_ok (zlen p + 12) (tl ++ rest) e b) as [c1 E1]; [lia|].
  destruct (appendPayload_ok (zlen p + 12 - Word) tl rest e
              (mkSlice (le_split 4 (zlen p + 12)) c1) Ht) as [c2 E2].
  exists c2. unfold readFull. rewrite Hf, <- app_assoc.
  erewrite bind_ok by (unfold wrapping; rewrite E1; done).
  replace (_ <? 3 * Word) with false by (unfold Word; lia).
  erewrite bind_ok by (unfold wrapping; rewrite E2; done).
  cbn [s_data s_cap]. rewrite <- Hf.
  pose proof (checkFull_run seqNo sq p crc (zlen p + 12) Hsq Hcrc eq_refl) as HC.
  fold frame in HC.
  destruct (checkFull _ _ _ _) as [res st]. simpl in HC. subst res.
  destruct (negb (i32 sq =? seqNo)); [done|]. destruct (negb _); [done|].
  do 3 f_equal. subst frame. unfold slice, full_body, Word.
  rewrite (app_assoc (le_split 4 (zlen p + 12))), <- app_assoc.
  rewrite drop_zlen_app by (by autorewrite with zlen).
  rewrite take_zlen_app; [done|lia].
Qed.
End FullProofs.

(** ** The four transports implement the interface *)

(** What becomes of a payload whose frame announces [extra] bytes more than the
    payload has, [wrap] being how the reader reports a length out of range:
    Write checks the payload's length (and alignment), the reader the announced
    length, and a message of four bytes is an error code of the server. *)
Definition wire_fate (aligned : bool) (extra : Z) (wrap : error -> error) (p : list byte) : fate :=
  let n := zlen p in
  if negb ((0 <? n) && (n <=? MaxMessageSize)) then Refused (invalidMsgLenErr n)
  else if aligned && negb (n mod 4 =? 0) then Refused (alignedPayloadExpectedErr 4)
  else if MaxMessageSize <? n + extra then ReadAs (wrap (invalidMsgLenErr (n + extra)))
  else if n =? 4 then ReadAs (protocol_code p)
  else Carried.

#[export] Instance abridged_spec : CodecSpec Abridged := {
  tag := AbridgedClientStart; fate_of := wire_fate true 0 id; in_step _ _ _ := True }.
#[export] Instance intermediate_spec : CodecSpec Intermediate := {
  tag := IntermediateClientStart; fate_of := wire_fate true 0 id; in_step _ _ _ := True }.
(** The padding counts; each message takes four random bytes. *)
Definition pad_len (p : list byte) : Z := byte.unsigned (List.last p Byte.x00) mod 4.
#[export] Instance padded_spec : CodecSpec PaddedIntermediate := {
  tag := PaddedIntermediateClientStart;
  fate_of p := wire_fate true (pad_len p) (fun e => Wrap e "read padded intermediate") p;
  in_step n cw _ := 4 * Z.of_nat n <= zlen (incoming (DefaultRand cw)) }.
(** The length counts twelve bytes of envelope; the sequence number has 32 bits
    on the wire. *)
#[export] Instance full_spec : CodecSpec Full := {
  tag := [];
  fate_of := wire_fate false 12 (fun e => Wrap (Wrap e "len") "read full");
  in_step n cw cr := wSeqNo cw = rSeqNo cr /\ 0 <= wSeqNo cw /\ wSeqNo cw + Z.of_nat n <= 2 ^ 31 }.

Section Instances.
Context `{!GrowSlice}.

Lemma wire_fate_spec aligned extra wrap p :
  match wire_fate aligned extra wrap p with
  | Refused e => checkOutgoingMessage p = Some e \/
      checkOutgoingMessage p = None /\ aligned = true /\ checkAlign p 4 = Some e
  | f => 0 < zlen p <= MaxMessageSize /\ (aligned = true -> zlen p mod 4 = 0) /\
      match f with
      | ReadAs e => MaxMessageSize < zlen p + extra /\ e = wrap (invalidMsgLenErr (zlen p + extra)) \/
          zlen p + extra <= MaxMessageSize /\ zlen p = 4 /\ e = protocol_code p
      | _ => zlen p + extra <= MaxMessageSize /\ zlen p <> 4
      end
  end.
Proof.
  unfold wire_fate, checkOutgoingMessage, Len. pose proof (checkMessageLength_spec (zlen p)) as HC.
  destruct (negb _) eqn:EL; bool_to_prop.
  { left. destruct (checkMessageLength _) as [e|]; [by destruct HC as [-> _]|lia]. }
  assert (checkMessageLength (zlen p) = None) as HN by (by apply checkMessageLength_ok).
  destruct aligned; simpl.
  - unfold checkAlign, Len. rewrite Z.rem_mod_nonneg by lia.
    destruct (zlen p mod 4 =? 0) eqn:EA; simpl; [|by right].
    case_bool; bool_to_prop; (split; [lia|]); (split; [intros _; lia|]); auto with lia.
  - case_bool; bool_to_prop; (split; [lia|]); (split; [done|]); auto with lia.
Qed.

(** The two guards of the aligned codecs. *)
Lemma guards_refuse {S} extra wrap p (k : GoM S unit) s e :
  wire_fate true extra wrap p = Refused e ->
  (guard (checkOutgoingMessage p) ;;! guard (checkAlign p 4) ;;! k) s = (Err e, s).
Proof.
  intros HF. pose proof (wire_fate_spec true extra wrap p) as HS. rewrite HF in HS.
  destruct HS as [->|(-> & _ & ->)]; done.
Qed.

Lemma guards_ok p : 0 < zlen p <= MaxMessageSize -> zlen p mod 4 = 0 ->
  checkOutgoingMessage p = None /\ checkAlign p 4 = None.
Proof. intros Hl Ha. split; [by apply checkMessageLength_ok|by apply checkAlign_ok]. Qed.

(** A codec that reads back the payload as it was sent and then looks for an
    error code. *)
Lemma read_checked {C} (c c' : C) (m : GoM (C * rstate) unit) s rest e p cap :
  m (c, s) = (Ok tt, (c', (mkStream rest e, mkSlice p cap))) ->
  (zlen p <> 4 -> (m ;;! on_snd checkProtocolError) (c, s) =
                  (Ok tt, (c', (mkStream rest e, mkSlice p cap)))) /\
  (zlen p = 4 -> exists st, (m ;;! on_snd checkProtocolError) (c, s) = (Err (protocol_code p), (c', st))).
Proof.
  intros Hm. split; intros Hp; erewrite bind_ok by exact Hm; unfold on_snd.
  - by rewrite checkProtocolError_ok.
  - destruct (checkProtocolError_code (mkStream rest e) p cap Hp) as [b' ->]. by eexists.
Qed.

(** What is left of [frame_read] for a codec whose reader gets the payload back
    when the announced length is in range. *)
Lemma fate_read {C} (c c' : C) aligned extra wrap p fr (m : GoM (C * rstate) unit) :
  0 <= extra -> (forall e, wire_fate aligned extra wrap p <> Refused e) ->
  (forall rest e b, zlen p + extra <= MaxMessageSize -> exists cap,
    m (c, (mkStream (fr ++ rest) e, b)) = (Ok tt, (c', (mkStream rest e, mkSlice p cap)))) ->
  (forall rest e b, MaxMessageSize < zlen p + extra -> exists st,
    m (c, (mkStream (fr ++ rest) e, b)) = (Err (wrap (invalidMsgLenErr (zlen p + extra))), (c', st))) ->
  match wire_fate aligned extra wrap p with
  | Carried => forall rest e b, exists cap,
      (m ;;! on_snd checkProtocolError) (c, (mkStream (fr ++ rest) e, b)) =
      (Ok tt, (c', (mkStream rest e, mkSlice p cap)))
  | ReadAs err => forall rest e b, exists st,
      (m ;;! on_snd checkProtocolError) (c, (mkStream (fr ++ rest) e, b)) = (Err err, (c', st))
  | Refused _ => False
  end.
Proof.
  intros Hx Hr Hok Hlong. pose proof (wire_fate_spec aligned extra wrap p) as HF.
  destruct (wire_fate aligned extra wrap p) as [e'| |err]; [by destruct (Hr e')| |].
  - destruct HF as (_ & _ & Hmax & H4). intros rest e b. destruct (Hok rest e b Hmax) as [cap E].
    exists cap. by apply read_checked.
  - destruct HF as (_ & _ & [[Hmax ->]|(Hmax & H4 & ->)]); intros rest e b.
    + destruct (Hlong rest e b Hmax) as [st E]. exists st. by erewrite bind_err by exact E.
    + destruct (Hok rest e b Hmax) as [cap E]. by apply (proj2 (read_checked _ _ _ _ _ _ _ _ E)).
Qed.

(** What Write does not refuse. *)
Lemma not_refused aligned extra wrap p :
  (forall e, wire_fate aligned extra wrap p <> Refused e) ->
  0 < zlen p <= MaxMessageSize /\ (aligned = true -> zlen p mod 4 = 0).
Proof.
  intros Hr. pose proof (wire_fate_spec aligned extra wrap p) as HF.
  destruct (wire_fate aligned extra wrap p) as [e'| |err]; [by destruct (Hr e')|tauto|tauto].
Qed.

#[export] Instance abridged_lawful : LawfulCodec Abridged.
Proof.
  split; [intros; apply header_ok|intros cw w p e HF; exact (guards_refuse 0 id p _ _ e HF)|].
  intros n [] [] p _ Hr. destruct (not_refused _ _ _ _ Hr) as [Hl Ha]. specialize (Ha eq_refl).
  destruct (guards_ok p Hl Ha) as [HO HA].
  eexists (_ ++ p), mkAbridged, mkAbridged. split; [done|]. split.
  - intros s. simpl. unfold Abridged_Write. rewrite HO, HA. unfold guard. rewrite !bind_ret_l.
    unfold wrapping, on_snd, writeAbridged. erewrite bind_ok by done.
    rewrite SinkWrite_ok. unfold Raw, Len. by rewrite <- app_assoc.
  - apply fate_read; [lia|done| |lia]. intros rest e b _. rewrite <- app_assoc.
    destruct (readPayload_ok (zlen p) p rest e b eq_refl) as [cap E]. exists cap.
    unfold wrapping at 1, on_snd, readAbridged.
    erewrite bind_ok by (apply readAbridgedLength_ok; [lia|done]).
    unfold wrapping. rewrite E. done.
Qed.

#[export] Instance intermediate_lawful : LawfulCodec Intermediate.
Proof.
  split; [intros; apply header_ok|intros cw w p e HF; exact (guards_refuse 0 id p _ _ e HF)|].
  intros n [] [] p _ Hr. destruct (not_refused _ _ _ _ Hr) as [Hl Ha]. specialize (Ha eq_refl).
  destruct (guards_ok p Hl Ha) as [HO HA]. pose proof MaxMessageSize_val.
  exists (le_split 4 (zlen p) ++ p), mkIntermediate, mkIntermediate. split; [done|]. split.
  - intros s. simpl. unfold Intermediate_Write. rewrite HO, HA. unfold guard. rewrite !bind_ret_l.
    unfold wrapping, on_snd, writeIntermediate, Len. rewrite PutInt_small by lia.
    erewrite bind_ok by done. by rewrite SinkWrite_ok, <- app_assoc.
  - apply fate_read; [lia|done| |lia]. intros rest e b _. rewrite <- app_assoc.
    destruct (readIntermediate_ok (zlen p) p rest e b) as [cap E]; [done|lia|]. exists cap.
    unfold wrapping, on_snd. by rewrite E.
Qed.

Lemma pad_len_range p : 0 <= pad_len p < 4.
Proof. apply Z.mod_pos_bound. lia. Qed.

(** The padding is a prefix of the four random bytes. *)
Lemma writePadded_ok p noise more re s :
  zlen noise = 4 -> 0 < zlen p <= MaxMessageSize ->
  writePaddedIntermediate p (mkStream (noise ++ more) re, mkSink s None) =
  (Ok tt, (mkStream more re,
           mkSink (s ++ le_split 4 (zlen p + pad_len p) ++ p ++ take (Z.to_nat (pad_len p)) noise) None)).
Proof.
  intros Hnoise Hl. pose proof MaxMessageSize_val. pose proof (pad_len_range p) as Hk.
  unfold writePaddedIntermediate, Len. rewrite ReadFull_app by done.
  assert (exists p0 x, p = p0 ++ [x]) as (p0 & x & ->).
  { destruct (exists_last (l := p)) as (p0 & x & ->); [|eauto]. intros ->. unfold zlen in Hl. simpl in Hl. lia. }
  rewrite lookup_app_r; cycle 1.
  { rewrite zlen_app, zlen_cons, zlen_nil. unfold zlen. lia. }
  replace (_ - length p0)%nat with 0%nat by (rewrite zlen_app, zlen_cons, zlen_nil; unfold zlen; lia).
  cbn [lookup list_lookup]. pose proof (byte.unsigned_range x).
  rewrite Z.rem_mod_nonneg by lia. unfold pad_len in *. rewrite List.last_last in *.
  set (k := byte.unsigned x mod 4) in *.
  assert (zlen (take (Z.to_nat k) noise) = k) as Hpad by (apply zlen_take; lia).
  unfold writeIntermediate, Len. rewrite PutInt_small by (rewrite (zlen_app (p0 ++ [x])); lia).
  erewrite bind_ok by done. rewrite SinkWrite_ok, (zlen_app (p0 ++ [x])), Hpad, <- app_assoc. done.
Qed.

#[export] Instance padded_lawful : LawfulCodec PaddedIntermediate.
Proof.
  split; [intros; apply header_ok|intros cw w p e HF; exact (guards_refuse _ _ p _ _ e HF)|].
  intros n [[rnd re]] cr p Hrand Hr. simpl in Hrand.
  destruct (not_refused _ _ _ _ Hr) as [Hl Ha]. specialize (Ha eq_refl).
  destruct (guards_ok p Hl Ha) as [HO HA]. pose proof MaxMessageSize_val.
  pose proof (pad_len_range p) as Hk. set (pad := take (Z.to_nat (pad_len p)) (take 4 rnd)).
  rewrite <- (take_drop 4 rnd) in Hrand |- *.
  assert (4 <= zlen rnd) as Hr4 by (rewrite take_drop in Hrand; lia).
  assert (zlen (take 4 rnd) = 4) as H4 by (apply (zlen_take 4); lia).
  rewrite zlen_app, H4 in Hrand.
  assert (zlen pad = pad_len p) as Hpad by (apply zlen_take; lia).
  exists (le_split 4 (zlen p + pad_len p) ++ p ++ pad), (mkPadded (mkStream (drop 4 rnd) re)), cr.
  split; [simpl; lia|]. split.
  - intros s. simpl. unfold PaddedIntermediate_Write. rewrite HO, HA. unfold guard.
    rewrite !bind_ret_l. unfold wrapping, DefaultRand. by rewrite writePadded_ok.
  - apply fate_read; [lia|done| |]; intros rest e b Hmax; rewrite <- !app_assoc.
    + destruct (readIntermediate_padded_ok (zlen p + pad_len p) p pad rest e b) as [cap E];
        [lia|done|lia|lia|]. exists cap.
      unfold wrapping, on_snd, readPaddedIntermediate. erewrite bind_ok by exact E.
      unfold modify. cbn [s_data s_cap].
      rewrite Z.rem_mod_nonneg, Ha, Z.sub_0_r by lia. unfold zlen. rewrite Nat2Z.id.
      by rewrite take_ge by lia.
    + destruct (readLen_long (zlen p + pad_len p) (p ++ pad ++ rest) e b) as [st E]; [lia|]. exists st.
      unfold wrapping, on_snd, readPaddedIntermediate, readIntermediate.
      by rewrite (bind_err _ _ _ _ _ (bind_err _ _ _ _ _ E)).
Qed.

#[export] Instance full_lawful : LawfulCodec Full.
Proof.
  split; [intros; simpl; unfold ret; by rewrite app_nil_r| |].
  { intros cw w p e HF. pose proof (wire_fate_spec false 12 (fun e => Wrap (Wrap e "len") "read full") p) as HS.
    simpl in HF. rewrite HF in HS. destruct HS as [HS|(_ & ? & _)]; [|done]. simpl. unfold Full_Write.
    by rewrite HS. }
  intros n [w rr] [w' r] p (Heq & H0 & Hn) Hr. simpl in *. subst r.
  destruct (not_refused _ _ _ _ Hr) as [Hl _]. pose proof MaxMessageSize_val.
  assert (i64 (w + 1) = w + 1) as Hw by (apply swrap_id; unfold is_signed; lia).
  set (crc := Crc32.ChecksumIEEE (full_body (u32 w) p)).
  exists (full_body (u32 w) p ++ le_split 4 crc), (mkFull (w + 1) rr), (mkFull w' (w + 1)).
  split; [simpl; lia|]. split.
  - intros s. unfold Full_Write. unfold checkOutgoingMessage, Len.
    rewrite checkMessageLength_ok by lia. unfold guard. rewrite bind_ret_l. simpl.
    rewrite Hw. unfold wrapping, on_snd. by rewrite writeFull_ok by lia.
  - apply fate_read; [lia|done| |]; intros rest e b Hmax; simpl; rewrite Hw.
    + destruct (readFull_run w (u32 w) p crc rest e b) as [cap E];
        [by apply uwrap_range|apply ChecksumIEEE_uint32|done|].
      rewrite swrap_uwrap_id in E by (try unfold is_signed; lia).
      unfold crc in *. rewrite !Z.eqb_refl in E. simpl in E. exists cap. unfold wrapping, on_snd. by rewrite E.
    + destruct (readLen_long (zlen p + 12) (le_split 4 (u32 w) ++ p ++ le_split 4 crc ++ rest) e b)
        as [st E]; [lia|]. exists st.
      unfold full_body. rewrite <- !app_assoc. unfold wrapping at 1, on_snd, readFull.
      erewrite bind_err; [done|]. unfold wrapping. by rewrite E.
Qed.

#[export] Instance no_header_spec {C} `{CodecSpec C} : CodecSpec (NoHeader C) := {
  tag := []; fate_of := fate_of (C := C);
  in_step n cw cr := in_step n (inner_codec cw) (inner_codec cr) }.

#[export] Instance no_header_lawful {C} `{LawfulCodec C} : LawfulCodec (NoHeader C).
Proof.
  split; [intros; simpl; unfold ret; by rewrite app_nil_r| |].
  { intros [cw] w p e HF. simpl. unfold on_inner. simpl. by rewrite (write_refused cw w p e HF). }
  intros n [cw] [cr] p Hs Hr. simpl in Hs, Hr.
  destruct (frame_read n cw cr p Hs Hr) as (fr & cw' & cr' & Hs' & HW & HR).
  exists fr, (mkNoHeader cw'), (mkNoHeader cr'). split; [done|]. split.
  - intros s. simpl. unfold on_inner. simpl. by rewrite HW.
  - simpl. destruct (fate_of p) as [| |err]; [done| |]; intros rest e b; destruct (HR rest e b) as [st E]; exists st;
      unfold on_inner; simpl; by rewrite E.
Qed.
End Instances.

(** ** A connection over a lawful codec *)

Section ConnectionProofs.
Context {C : Type} `{LawfulCodec C}.

(** Sends every message with its context's deadline; receives one message per
    deadline into the same buffer. *)
Fixpoint send_all (ms : list (option Z * list byte)) : GoM (connection C) unit :=
  match ms with
  | [] => ret tt
  | (d, p) :: ms => Send d p ;;! send_all ms
  end.

Fixpoint recv_all (ds : list (option Z)) : GoM (connection C * bslice) (list (list byte)) :=
  match ds with
  | [] => ret []
  | d :: ds =>
      Recv d ;;!
      let! st := get in
      let! ps := recv_all ds in
      ret (s_data (snd st) :: ps)
  end.

Lemma Send_ok d p k k' i s r w fr :
  Write p (k, mkSink s None) = (Ok tt, (k', mkSink (s ++ fr) None)) ->
  exists w', Send d p (mkConnection (mkConn i (mkSink s None) r w None) k) =
             (Ok tt, mkConnection (mkConn i (mkSink (s ++ fr) None) r w' None) k').
Proof.
  intros HW. unfold Send. erewrite bind_ok by done. exists d.
  destruct d; (erewrite bind_ok by done); unfold wrapping; simpl; by rewrite HW.
Qed.

Lemma Recv_ok d k k' i i' o r w b b' :
  Read (k, (i, b)) = (Ok tt, (k', (i', b'))) ->
  exists r', Recv d (mkConnection (mkConn i o r w None) k, b) =
             (Ok tt, (mkConnection (mkConn i' o r' w None) k', b')).
Proof.
  intros HR. unfold Recv. erewrite bind_ok by done. exists d.
  destruct d; (erewrite bind_ok by done); unfold wrapping; simpl; by rewrite HR.
Qed.

Lemma connection_stream ms ds cw cr :
  length ds = length ms -> in_step (length ms) cw cr ->
  Forall (fun '(_, p) => fits (C := C) p) ms ->
  exists stream cw' cr',
    (forall i s r w, exists w',
      send_all ms (mkConnection (mkConn i (mkSink s None) r w None) cw) =
      (Ok tt, mkConnection (mkConn i (mkSink (s ++ stream) None) r w' None) cw')) /\
    (forall rest e o r w b, exists r' b',
      recv_all ds (mkConnection (mkConn (mkStream (stream ++ rest) e) o r w None) cr, b) =
      (Ok (snd <$> ms), (mkConnection (mkConn (mkStream rest e) o r' w None) cr', b'))).
Proof.
  revert ds cw cr. induction ms as [|[d p] ms IH]; intros [|d' ds] cw cr Hlen Hs Hf;
    try discriminate.
  { exists [], cw, cr. split; intros; [exists w|exists r, b]; simpl; unfold ret;
      by rewrite ?app_nil_r. }
  apply Forall_cons in Hf as [Hp Hf].
  destruct (frame_roundtrip (length ms) cw cr p Hs Hp) as (fr & cw1 & cr1 & Hs1 & HW & HR).
  destruct (IH ds cw1 cr1) as (stream & cw' & cr' & IHs & IHr); [simpl in Hlen; lia|done|done|].
  exists (fr ++ stream), cw', cr'. split.
  - intros i s r w. destruct (Send_ok d p _ _ i s r w fr (HW s)) as [w1 E1].
    destruct (IHs i (s ++ fr) r w1) as [w2 E2]. exists w2.
    simpl. erewrite bind_ok by exact E1. by rewrite E2, app_assoc.
  - intros rest e o r w b. rewrite <- app_assoc. destruct (HR (stream ++ rest) e b) as [cap E].
    destruct (Recv_ok d' _ _ _ _ o r w _ _ E) as [r1 E1].
    destruct (IHr rest e o r1 w (mkSlice p cap)) as (r2 & b2 & E2). exists r2, b2.
    simpl. erewrite bind_ok by exact E1. erewrite bind_ok by done. erewrite bind_ok by exact E2. done.
Qed.
End ConnectionProofs.

(** ** Bounds of the readers *)

(** What a reader may do to its state: it does not panic, it consumes a prefix
    of the stream, and the buffer's capacity is at most what it was (or what
    the four byte length needs), or twice what was received plus two chunks. *)
Definition bounded_read `{!GrowSlice} {A} (m : GoM rstate A) : Prop :=
  forall r b, exists res r' b' got,
    m (r, b) = (res, (r', b')) /\ res <> Panic /\ incoming r = got ++ incoming r' /\
    s_cap b' <= Z.max (Z.max (s_cap b) (growslice (s_cap b) Word))
                      (2 * (zlen got + inboundReadChunkSize)).

Section Bounds.
Context `{!GrowSlice}.

Lemma readLen_spec r b res r' b' :
  readLen (r, b) = (res, (r', b')) ->
  exists got, incoming r = got ++ incoming r' /\
    s_cap b' <= Z.max (s_cap b) (growslice (s_cap b) Word) /\
    match res with
    | Ok n => 0 < n <= MaxMessageSize /\ s_data b' = got /\ zlen got = Word
    | Err _ => True
    | Panic => False
    end.
Proof.
  unfold readLen, slice_ResetN. destruct (ReadFull Word r) as [[got err] r1] eqn:ER.
  destruct (ReadFull_spec Word r got err r1 ltac:(done) ER) as (Hin & _ & Herr).
  intros Hrun. exists got.
  assert (s_cap b' <= Z.max (s_cap b) (growslice (s_cap b) Word) /\ r1 = r') as [Hcap ->].
  { destruct err; [|destruct (checkMessageLength _)]; injection Hrun as <- <- <-; simpl; 
      (split; [case_bool; lia|done]). }
  split; [done|]. split; [done|]. pose proof (checkMessageLength_spec (le_combine got)) as HC.
  destruct err as [e|]; [by injection Hrun as <- <-|].
  destruct (checkMessageLength _); injection Hrun as <- <-; [done|].
  split; [done|]. split; [|done]. simpl.
  rewrite drop_ge; [apply app_nil_r|]. unfold zeros, zlen, Word in *. rewrite length_replicate. lia.
Qed.

Lemma readPayload_spec n r b res r' b' :
  0 <= n -> readPayload n (r, b) = (res, (r', b')) ->
  incoming r = s_data b' ++ incoming r' /\
  s_cap b' <= Z.max (s_cap b) (2 * (zlen (s_data b') + inboundReadChunkSize)) /\
  match res with
  | Ok _ => zlen (s_data b') = n
  | Err _ => zlen (s_data b') < n
  | Panic => False
  end.
Proof.
  intros Hn Hrun. unfold readPayload in Hrun. erewrite bind_ok in Hrun by done.
  destruct (appendPayload_spec n r (mkSlice [] (s_cap b)) res r' b' Hn Hrun)
    as (got & -> & Hin & _ & Hcap & _ & Hres). simpl in *.
  split; [done|]. split; [lia|]. destruct res; [done| |done]. by destruct Hres.
Qed.

Lemma bounded_readIntermediate padding : bounded_read (readIntermediate padding).
Proof.
  intros r b. unfold readIntermediate, bind.
  destruct (readLen (r, b)) as [res1 [r1 b1]] eqn:E1.
  destruct (readLen_spec _ _ _ _ _ E1) as (got & Hin & Hcap & Hres).
  pose proof (zlen_nonneg got). pose proof inboundReadChunkSize_val.
  destruct res1 as [n|e|]; [|eexists _, _, _, got; split; [done|]; split; [done|]; split; [done|lia]|done].
  destruct Hres as (Hn & _ & _). unfold wrapping.
  destruct (readPayload n (r1, b1)) as [res2 [r2 b2]] eqn:E2.
  destruct (readPayload_spec n _ _ _ _ _ ltac:(lia) E2) as (Hin2 & Hcap2 & Hres2).
  rewrite Hin2, app_assoc in Hin.
  assert (s_cap b2 <= Z.max (Z.max (s_cap b) (growslice (s_cap b) Word))
            (2 * (zlen (got ++ s_data b2) + inboundReadChunkSize))) by (rewrite zlen_app; lia).
  destruct res2 as [[]|e|]; [destruct padding| |done]; eexists _, _, _, (got ++ s_data b2);
    (split; [done|]); by split.
Qed.

Lemma checkFull_no_panic seqNo n frame inner :
  3 * Word <= n -> zlen inner = n - Word -> fst (checkFull seqNo n frame inner) <> Panic.
Proof.
  unfold Word. intros Hn Hi. unfold checkFull. destruct (safe_Int inner) as (res & b1 & E1 & HP & _).
  unfold bind at 1. rewrite E1. destruct res as [sq|e|]; [|done|done].
  apply Int_inv in E1 as [_ ->]. case_bool; [done|].
  unfold bind at 1, Skip. rewrite zlen_app, zlen_le_split_4 in Hi.
  replace ((_ <? 0) || _) with false by (unfold Word; lia).
  set (b2 := drop _ b1). destruct (safe_Uint32 b2) as (res & b3 & E3 & HP3 & _).
  unfold bind. rewrite E3. destruct res; [|done|done]. by case_bool.
Qed.

Lemma bounded_readFull seqNo : bounded_read (readFull seqNo).
Proof.
  intros r b. unfold readFull, bind, wrapping.
  destruct (readLen (r, b)) as [res1 [r1 b1]] eqn:E1.
  destruct (readLen_spec _ _ _ _ _ E1) as (got & Hin & Hcap & Hres).
  pose proof (zlen_nonneg got). pose proof inboundReadChunkSize_val.
  destruct res1 as [n|e|]; [|eexists _, _, _, got; split; [done|]; split; [done|]; split; [done|lia]|done].
  destruct Hres as (Hn & Hd & Hg). unfold Word in Hg.
  destruct (n <? 3 * Word) eqn:En; bool_to_prop.
  { eexists _, _, _, got. split; [done|]. split; [done|]. split; [done|lia]. }
  destruct (appendPayload (n - Word) (r1, b1)) as [res2 [r2 b2]] eqn:E2.
  destruct (appendPayload_spec (n - Word) r1 b1 res2 r2 b2) as (got2 & Hd2 & Hin2 & _ & Hcap2 & _ & Hres2);
    [unfold Word in *; lia|done|].
  rewrite Hin2, app_assoc in Hin. rewrite Hd in Hd2.
  assert (s_cap b2 <= Z.max (Z.max (s_cap b) (growslice (s_cap b) Word))
            (2 * (zlen (got ++ got2) + inboundReadChunkSize))) by (rewrite Hd2 in Hcap2; lia).
  destruct res2 as [[]|e|]; [|by eexists _, _, _, (got ++ got2)|done].
  assert (zlen (slice Word n (s_data b2)) = n - Word) as Hi.
  { unfold slice, Word in *. rewrite Hd2, drop_zlen_app by done. rewrite zlen_take; lia. }
  pose proof (checkFull_no_panic seqNo n (s_data b2) _ En Hi) as HP.
  destruct (checkFull _ _ _ _) as [[[]|e|] inner]; [| |done]; by eexists _, _, _, (got ++ got2).
Qed.
End Bounds.

Section AbridgedBounds.
Context `{!GrowSlice}.

Lemma read_array_spec n r b res r' b' :
  0 <= n -> read_array n (r, b) = (res, (r', b')) ->
  b' = b /\ res <> Panic /\ exists got, incoming r = got ++ incoming r'.
Proof.
  intros Hn. unfold read_array. destruct (ReadFull n r) as [[got err] r1] eqn:ER.
  destruct (ReadFull_spec n r got err r1 Hn ER) as (Hin & _ & _).
  destruct err; intros [= <- <- <-]; eauto.
Qed.

Lemma guard_cases {S} (check : option error) (s : S) :
  guard check s = (Ok tt, s) /\ check = None \/ exists e, guard check s = (Err e, s) /\ check = Some e.
Proof. destruct check; [right|left]; eauto. Qed.

Lemma readAbridgedLength_spec r b res r' b' :
  readAbridgedLength (r, b) = (res, (r', b')) ->
  b' = b /\ res <> Panic /\ (exists got, incoming r = got ++ incoming r') /\
  match res with Ok n => 0 < n <= MaxMessageSize | _ => True end.
Proof.
  unfold readAbridgedLength. unfold bind at 1.
  destruct (read_array 1 (r, b)) as [res1 [r1 b1]] eqn:E1.
  destruct (read_array_spec 1 _ _ _ _ _ ltac:(lia) E1) as (-> & HP1 & got1 & Hin1).
  destruct res1 as [first|e|]; [|intros [= <- <- <-]; eauto|done].
  set (w := Z.land _ _). destruct (w =? 0); [intros [= <- <- <-]; eauto|].
  destruct (w <? 0x7f).
  { pose proof (checkMessageLength_spec (w * Word)) as HC. unfold bind.
    destruct (guard_cases (checkMessageLength (w * Word)) (r1, b)) as [[-> Hc]|(e & -> & _)];
      intros [= <- <- <-]; rewrite ?Hc in HC; eauto. }
  unfold bind at 1. destruct (read_array 3 (r1, b)) as [res2 [r2 b2]] eqn:E2.
  destruct (read_array_spec 3 _ _ _ _ _ ltac:(lia) E2) as (-> & HP2 & got2 & Hin2).
  rewrite Hin2, app_assoc in Hin1.
  destruct res2 as [ext|e|]; [|intros [= <- <- <-]; eauto|done].
  set (w2 := le_combine ext). destruct (w2 <? 0x7f); [intros [= <- <- <-]; eauto|].
  pose proof (checkMessageLength_spec (w2 * Word)) as HC. unfold bind.
  destruct (guard_cases (checkMessageLength (w2 * Word)) (r2, b)) as [[-> Hc]|(e & -> & _)];
    intros [= <- <- <-]; rewrite ?Hc in HC; eauto.
Qed.

Lemma bounded_readAbridged : bounded_read readAbridged.
Proof.
  intros r b. unfold readAbridged, bind, wrapping.
  destruct (readAbridgedLength (r, b)) as [res1 [r1 b1]] eqn:E1.
  destruct (readAbridgedLength_spec _ _ _ _ _ E1) as (-> & HP & (got & Hin) & Hres).
  pose proof (zlen_nonneg got). pose proof inboundReadChunkSize_val.
  destruct res1 as [n|e|]; [|eexists _, _, _, got; split; [done|]; split; [done|]; split; [done|lia]|done].
  destruct (readPayload n (r1, b)) as [res2 [r2 b2]] eqn:E2.
  destruct (readPayload_spec n _ _ _ _ _ ltac:(lia) E2) as (Hin2 & Hcap2 & Hres2).
  rewrite Hin2, app_assoc in Hin.
  assert (s_cap b2 <= Z.max (Z.max (s_cap b) (growslice (s_cap b) Word))
            (2 * (zlen (got ++ s_data b2) + inboundReadChunkSize))) by (rewrite zlen_app; lia).
  destruct res2 as [[]|e|]; [| |done]; by eexists _, _, _, (got ++ s_data b2).
Qed.
End AbridgedBounds.

(** The first byte of a word-aligned length is not the abridged tag. *)
Lemma le_split_4_head n : n mod 4 = 0 -> exists b0 bs,
  le_split 4 n = b0 :: bs /\ zlen bs = 3 /\ b0 <> Byte.xef.
Proof.
  intros Hn. pose proof (zlen_le_split_4 n) as Hl.
  pose proof (hd_error_le_split 4 n ltac:(done)) as Hh.
  destruct (le_split 4 n) as [|b0 bs]; [by rewrite zlen_nil in Hl|].
  rewrite zlen_cons in Hl. exists b0, bs. split; [done|]. split; [lia|]. intros ->.
  injection Hh as Hh. apply (f_equal byte.unsigned) in Hh. rewrite byte.unsigned_of_Z in Hh.
  unfold byte.wrap in Hh. change (byte.unsigned Byte.xef) with 239 in Hh.
  pose proof (Z.div_mod n (2 ^ 8)). pose proof (Z.div_mod n 4). lia.
Qed.

(** ** Correctness of the transports *)

(** C6: what becomes of every payload on each transport, for a reader in step
    with the writer ([in_step]: for the padded transport the random source has
    four bytes per message, for the full one the sequence numbers agree and stay
    below 2^31).  The header written is the header the reader expects.  Write
    refuses exactly the payloads [fate_of] refuses (empty, longer than
    MaxMessageSize, for all but the full transport not aligned to four bytes),
    with that error and sending nothing.  Every other payload is sent as one
    frame.  A frame whose announced length (with the padding, with the twelve
    bytes of the full envelope) exceeds MaxMessageSize is refused by the reader
    with the length error, a payload of four bytes is read as the protocol error
    it encodes, and every other payload is read back byte for byte, leaving what
    follows in the stream.  Wrapping a codec in [NoHeader] keeps all this. *)
Theorem transports_lawful `{!GrowSlice} :
  LawfulCodec Abridged /\ LawfulCodec Intermediate /\ LawfulCodec PaddedIntermediate /\
  LawfulCodec Full /\
  (forall C `{LawfulCodec C}, LawfulCodec (NoHeader C)).
Proof. split_and!; intros; apply _. Qed.

(** Over any lawful codec, the messages sent on one end of a connection are
    received on the other end in order and unchanged, whatever the deadlines
    and the buffers. *)
Theorem connection_roundtrip {C} `{LawfulCodec C} ms ds cw cr i r w rest e o r2 w2 b :
  length ds = length ms -> in_step (length ms) cw cr ->
  Forall (fun '(_, p) => fits (C := C) p) ms ->
  exists stream c',
    send_all ms (mkConnection (mkConn i (mkSink [] None) r w None) cw) = (Ok tt, c') /\
    c_out (conn c') = mkSink stream None /\
    exists c'' b',
      recv_all ds (mkConnection (mkConn (mkStream (stream ++ rest) e) o r2 w2 None) cr, b) =
      (Ok (snd <$> ms), (c'', b')) /\
      c_in (conn c'') = mkStream rest e.
Proof.
  intros Hl Hs Hf. destruct (connection_stream ms ds cw cr Hl Hs Hf) as (stream & cw' & cr' & HS & HR).
  destruct (HS i [] r w) as [w' Es]. destruct (HR rest e o r2 w2 b) as (r' & b' & Er).
  eexists stream, _. split; [exact Es|]. split; [done|]. eexists _, b'. by split; [exact Er|].
Qed.

(** A runtime that grows a slice to exactly what is asked for. *)
#[local] Instance growslice_exact : GrowSlice := Z.max.

Lemma connection_roundtrip_witness :
  exists stream c',
    send_all [(None, zeros 8); (Some 7, zeros 5)]
      (mkConnection (mkConn (mkStream [] EOF) (mkSink [] None) None None None) (mkFull 0 0)) =
      (Ok tt, c') /\
    c_out (conn c') = mkSink stream None /\
    exists c'' b',
      recv_all [None; None]
        (mkConnection (mkConn (mkStream (stream ++ []) EOF) (mkSink [] None) None None None)
           (mkFull 0 0), mkSlice [] 0) =
      (Ok [zeros 8; zeros 5], (c'', b')) /\
      c_in (conn c'') = mkStream [] EOF.
Proof.
  apply (connection_roundtrip [(None, zeros 8); (Some 7, zeros 5)] [None; None]).
  - reflexivity.
  - simpl. lia.
  - repeat constructor.
Defined.

(** The full transport rejects a frame in which one byte of the payload was
    changed, and a frame whose sequence number is not the expected one. *)
Theorem full_detects_corruption `{!GrowSlice} (seqNo sq : Z) (pre post : list byte) (x y : byte)
    (rest : list byte) (e : error) (b : bslice) :
  int32 seqNo -> uint32 sq -> zlen (pre ++ x :: post) + 12 <= MaxMessageSize ->
  let crc := Crc32.ChecksumIEEE (full_body (u32 seqNo) (pre ++ x :: post)) in
  (x <> y -> exists st,
    readFull seqNo (mkStream (full_body (u32 seqNo) (pre ++ y :: post) ++ le_split 4 crc ++ rest) e, b)
    = (Err errCRCMismatch, st)) /\
  (i32 sq <> seqNo -> forall crc', uint32 crc' -> exists st,
    readFull seqNo (mkStream (full_body sq (pre ++ x :: post) ++ le_split 4 crc' ++ rest) e, b)
    = (Err errSeqNoMismatch, st)).
Proof.
  intros Hs Hq Hmax crc. split.
  - intros Hxy. rewrite app_assoc.
    destruct (readFull_run seqNo (u32 seqNo) (pre ++ y :: post) crc rest e b) as [cap ->];
      [by apply uwrap_range|apply ChecksumIEEE_uint32|by rewrite zlen_app, zlen_cons in *|].
    rewrite swrap_uwrap_id, Z.eqb_refl by done. simpl.
    destruct (Z.eqb_spec crc (Crc32.ChecksumIEEE (full_body (u32 seqNo) (pre ++ y :: post)))) as [Heq|];
      [|by eexists].
    exfalso. apply Hxy. subst crc. unfold full_body in Heq.
    rewrite !zlen_app, !zlen_cons, !(app_assoc _ pre), !(app_assoc (le_split 4 _)) in Heq.
    by apply ChecksumIEEE_one_byte in Heq.
  - intros Hne crc' Hcrc. rewrite app_assoc.
    destruct (readFull_run seqNo sq (pre ++ x :: post) crc' rest e b) as [cap ->]; try done.
    replace (i32 sq =? seqNo) with false by lia. by eexists.
Qed.

Lemma full_detects_corruption_witness :
  let crc := Crc32.ChecksumIEEE (full_body (u32 3) ([Byte.x01] ++ Byte.x02 :: [Byte.x03])) in
  exists st, readFull 3 (mkStream (full_body (u32 3) ([Byte.x01] ++ Byte.x07 :: [Byte.x03]) ++
                               le_split 4 crc ++ []) EOF, mkSlice [] 0)
             = (Err errCRCMismatch, st).
Proof.
  refine (proj1 (full_detects_corruption 3 4 [Byte.x01] [Byte.x03] Byte.x02 Byte.x07 [] EOF
           (mkSlice [] 0) _ _ _) _);
    [unfold is_signed; lia|unfold is_unsigned; lia|vm_compute; congruence|discriminate].
Defined.

(** C27: whatever a peer sends, the frame readers do not panic and the buffer's
    capacity stays within twice the bytes actually received (plus two read
    chunks), not the declared length. *)
Theorem readers_bounded `{!GrowSlice} (seqNo : Z) (padding : bool) :
  bounded_read readAbridged /\ bounded_read (readIntermediate padding) /\
  bounded_read (readFull seqNo).
Proof.
  split; [apply bounded_readAbridged|]. split; [apply bounded_readIntermediate|apply bounded_readFull].
Qed.

(** The server recognises the transport: after each protocol tag it reads
    with that codec what follows the tag, and a connection that starts with a
    word-aligned full frame is read as the full transport from its first byte. *)
Theorem detect_codec_correct (rest : list byte) (e : error) :
  detectCodec (mkStream (AbridgedClientStart ++ rest) e) = Ok (DAbridged, mkStream rest e) /\
  detectCodec (mkStream (IntermediateClientStart ++ rest) e) = Ok (DIntermediate, mkStream rest e) /\
  detectCodec (mkStream (PaddedIntermediateClientStart ++ rest) e) =
    Ok (DPaddedIntermediate, mkStream rest e) /\
  (forall sq p, zlen p mod 4 = 0 -> zlen p + 12 <= MaxMessageSize ->
    detectCodec (mkStream (full_body sq p ++ rest) e) =
    Ok (DFull, mkStream (full_body sq p ++ rest) e)).
Proof.
  split; [|split; [|split]].
  - unfold detectCodec. by rewrite ReadFull_app.
  - unfold detectCodec. rewrite (ReadFull_app 1 [Byte.xee] ([Byte.xee; Byte.xee; Byte.xee] ++ rest)) by done.
    rewrite decide_False by done. by rewrite ReadFull_app.
  - unfold detectCodec. rewrite (ReadFull_app 1 [Byte.xdd] ([Byte.xdd; Byte.xdd; Byte.xdd] ++ rest)) by done.
    rewrite decide_False by done. by rewrite ReadFull_app.
  - intros sq p Ha Hmax. pose proof MaxMessageSize_val. pose proof (zlen_nonneg p).
    unfold full_body. set (tl := le_split 4 sq ++ p).
    destruct (le_split_4_head (zlen p + 12)) as (b0 & bs & E & Hl & Hb).
    { rewrite Z.add_mod, Ha by lia. done. }
    assert (le_combine (le_split 4 (zlen p + 12)) = zlen p + 12) as Hc
      by (apply le_combine_split_unsigned; unfold is_unsigned; simpl; lia).
    rewrite E in *. unfold detectCodec. rewrite <- app_assoc.
    rewrite (ReadFull_app 1 [b0] (bs ++ tl ++ rest)) by done.
    rewrite decide_False by (unfold AbridgedClientStart; congruence).
    rewrite ReadFull_app by lia. simpl app.
    assert (le_combine IntermediateClientStart = 0xeeeeeeee) as HI by (by vm_compute).
    assert (le_combine PaddedIntermediateClientStart = 0xdddddddd) as HD by (by vm_compute).
    rewrite !decide_False; [done|intros Hd; rewrite Hd in Hc; lia..].
Qed.
