(* ===== verification/Tg.v ===== *)
(** * Messages and updates of the schema, and their pure helpers

    The classes of src/tg that the update manager tells apart, with the
    constructors and fields it reads, the classifier of src/tg
    (tl_updates_classifier_gen.go), and the helpers of src/telegram/updates that
    only compute: validation and conversion (utils.go, conv_shorts.go), the order
    inside of a container (sort_pts.go) and the users a message refers to
    (message_peer.go, short_peer.go).  Fields that the code only passes on are
    kept as their encoding ([opaque]); an optional field is an [option], its flag
    and value at once. *)
From S2P Require Import Prelude.

Abbreviation opaque := (list byte).

(** ** Peers and messages *)

Inductive PeerClass : Type :=
| PeerUser (UserID : Z)
| PeerChat (ChatID : Z)
| PeerChannel (ChannelID : Z).

Record MessageFwdHeader : Type := mkFwd {
  fwd_FromID : option PeerClass;
  fwd_SavedFromPeer : option PeerClass;
  fwd_rest : opaque;
}.

Inductive MessageEntityClass : Type :=
| MessageEntityMentionName (UserID : Z) (rest : opaque)
| OtherEntity (rest : opaque).

Record Message : Type := mkMessage {
  m_ID : Z;
  m_PeerID : PeerClass;
  m_Message : opaque;
  m_Date : Z;
  m_Out : bool;
  m_Mentioned : bool;
  m_MediaUnread : bool;
  m_Silent : bool;
  m_FromScheduled : bool;
  m_FromID : option PeerClass;
  m_FwdFrom : option MessageFwdHeader;
  m_ViaBotID : option Z;
  m_ReplyTo : option opaque;
  m_Entities : option (list MessageEntityClass);
  m_Media : option opaque;
  m_TTLPeriod : option Z;
  m_rest : opaque;
}.

Inductive MessageClass : Type :=
| MessageEmpty (ID : Z) (PeerID : option PeerClass)
| AMessage (m : Message)
| MessageService (PeerID : PeerClass) (rest : opaque).

(** ** Updates *)

(** The updates with a position, and the others. *)
Inductive UpdateClass : Type :=
| UpdatePtsChanged
(* common pts *)
| UpdateNewMessage (Message : MessageClass) (Pts PtsCount : Z)
| UpdateEditMessage (Message : MessageClass) (Pts PtsCount : Z)
| UpdateDeleteMessages (Pts PtsCount : Z) (rest : opaque)
| UpdateReadHistoryInbox (Pts PtsCount : Z) (rest : opaque)
| UpdateReadHistoryOutbox (Pts PtsCount : Z) (rest : opaque)
| UpdateWebPage (Pts PtsCount : Z) (rest : opaque)
| UpdateReadMessagesContents (Pts PtsCount : Z) (rest : opaque)
| UpdateFolderPeers (Pts PtsCount : Z) (rest : opaque)
| UpdatePinnedMessages (Pts PtsCount : Z) (rest : opaque)
(* qts *)
| UpdateNewEncryptedMessage (Message : opaque) (Qts : Z)
| UpdateMessagePollVote (Qts : Z) (rest : opaque)
| UpdateChatParticipant (Qts : Z) (rest : opaque)
| UpdateChannelParticipant (Qts : Z) (rest : opaque)
| UpdateBotStopped (Qts : Z) (rest : opaque)
| UpdateBotChatInviteRequester (Qts : Z) (rest : opaque)
| UpdateBotChatBoost (Qts : Z) (rest : opaque)
| UpdateBotMessageReaction (Qts : Z) (rest : opaque)
| UpdateBotMessageReactions (Qts : Z) (rest : opaque)
| UpdateBotBusinessConnect (Qts : Z) (rest : opaque)
| UpdateBotNewBusinessMessage (Qts : Z) (rest : opaque)
| UpdateBotEditBusinessMessage (Qts : Z) (rest : opaque)
| UpdateBotDeleteBusinessMessage (Qts : Z) (rest : opaque)
| UpdateBotPurchasedPaidMedia (Qts : Z) (rest : opaque)
| UpdateManagedBot (Qts : Z) (rest : opaque)
| UpdateBotGuestChatQuery (Qts : Z) (rest : opaque)
| UpdateBotStarsSubscription (Qts : Z) (rest : opaque)
(* channel pts *)
| UpdateChannelTooLong (ChannelID : Z) (Pts : option Z)
| UpdateNewChannelMessage (Message : MessageClass) (Pts PtsCount : Z)
| UpdateReadChannelInbox (ChannelID Pts : Z) (rest : opaque)
| UpdateDeleteChannelMessages (ChannelID Pts PtsCount : Z) (rest : opaque)
| UpdateEditChannelMessage (Message : MessageClass) (Pts PtsCount : Z)
| UpdateChannelWebPage (ChannelID Pts PtsCount : Z) (rest : opaque)
| UpdatePinnedChannelMessages (ChannelID Pts PtsCount : Z) (rest : opaque)
(* without a position *)
| OtherUpdate (rest : opaque).

(** *** tl_updates_classifier_gen.go *)

Definition IsPtsUpdate (u : UpdateClass) : option (Z * Z) :=
  match u with
  | UpdateNewMessage _ Pts PtsCount
  | UpdateDeleteMessages Pts PtsCount _
  | UpdateReadHistoryInbox Pts PtsCount _
  | UpdateReadHistoryOutbox Pts PtsCount _
  | UpdateWebPage Pts PtsCount _
  | UpdateReadMessagesContents Pts PtsCount _
  | UpdateEditMessage _ Pts PtsCount
  | UpdateFolderPeers Pts PtsCount _
  | UpdatePinnedMessages Pts PtsCount _ => Some (Pts, PtsCount)
  | _ => None
  end.

Definition IsQtsUpdate (u : UpdateClass) : option Z :=
  match u with
  | UpdateNewEncryptedMessage _ Qts
  | UpdateMessagePollVote Qts _
  | UpdateChatParticipant Qts _
  | UpdateChannelParticipant Qts _
  | UpdateBotStopped Qts _
  | UpdateBotChatInviteRequester Qts _
  | UpdateBotChatBoost Qts _
  | UpdateBotMessageReaction Qts _
  | UpdateBotMessageReactions Qts _
  | UpdateBotBusinessConnect Qts _
  | UpdateBotNewBusinessMessage Qts _
  | UpdateBotEditBusinessMessage Qts _
  | UpdateBotDeleteBusinessMessage Qts _
  | UpdateBotPurchasedPaidMedia Qts _
  | UpdateManagedBot Qts _
  | UpdateBotGuestChatQuery Qts _
  | UpdateBotStarsSubscription Qts _ => Some Qts
  | _ => None
  end.

Definition channel_of (peer : PeerClass) : Z * option error :=
  match peer with
  | PeerChannel ChannelID => (ChannelID, None)
  | _ => (0, Some (Errorf "unexpected peer type"))
  end.

Definition extractChannelID (msg : MessageClass) : Z * option error :=
  match msg with
  | MessageEmpty _ None => (0, Some (Errorf "MessageEmpty have no peerID field"))
  | MessageEmpty _ (Some peer) => channel_of peer
  | AMessage m => channel_of (m_PeerID m)
  | MessageService peer _ => channel_of peer
  end.

(** The channel, pts, pts count and error of a channel update. *)
Definition IsChannelPtsUpdate (u : UpdateClass) : option (Z * Z * Z * option error) :=
  match u with
  | UpdateChannelTooLong ChannelID Pts => Some (ChannelID, default 0 Pts, 0, None)
  | UpdateNewChannelMessage msg Pts PtsCount =>
      let '(channelID, err) := extractChannelID msg in Some (channelID, Pts, PtsCount, err)
  | UpdateReadChannelInbox ChannelID Pts _ => Some (ChannelID, Pts, 0, None)
  | UpdateDeleteChannelMessages ChannelID Pts PtsCount _ => Some (ChannelID, Pts, PtsCount, None)
  | UpdateEditChannelMessage msg Pts PtsCount =>
      let '(channelID, err) := extractChannelID msg in Some (channelID, Pts, PtsCount, err)
  | UpdateChannelWebPage ChannelID Pts PtsCount _ => Some (ChannelID, Pts, PtsCount, None)
  | UpdatePinnedChannelMessages ChannelID Pts PtsCount _ => Some (ChannelID, Pts, PtsCount, None)
  | _ => None
  end.

(** ** Users and chats *)

Inductive UserClass : Type :=
| UserEmpty (ID : Z)
| AUser (ID : Z) (Min : bool) (AccessHash : option Z) (rest : opaque).

Inductive ChatClass : Type :=
| OtherChat (ID : Z) (rest : opaque)           (* chatEmpty, chat, chatForbidden *)
| Channel (ID : Z) (Min : bool) (AccessHash : option Z) (rest : opaque)
| ChannelForbidden (ID AccessHash : Z) (rest : opaque).

Definition user_GetID (u : UserClass) : Z := match u with UserEmpty ID | AUser ID _ _ _ => ID end.
Definition chat_GetID (c : ChatClass) : Z :=
  match c with OtherChat ID _ | Channel ID _ _ _ | ChannelForbidden ID _ _ => ID end.

(** ** Containers of updates *)

Record UpdatesCombined : Type := mkCombined {
  uc_Updates : list UpdateClass;
  uc_Users : list UserClass;
  uc_Chats : list ChatClass;
  uc_Date : Z;
  uc_SeqStart : Z;
  uc_Seq : Z;
}.

(** What a handler is given: tg.Updates without date and sequence number. *)
Record Updates : Type := mkUpdates {
  up_Updates : list UpdateClass;
  up_Users : list UserClass;
  up_Chats : list ChatClass;
}.

(** The optional fields of the two kinds of short messages. *)
Record ShortOptional : Type := mkOptional {
  o_FwdFrom : option MessageFwdHeader;
  o_ViaBotID : option Z;
  o_ReplyTo : option opaque;
  o_Entities : option (list MessageEntityClass);
  o_TTLPeriod : option Z;
}.

Record UpdateShortMessage : Type := mkShortMessage {
  sm_Out : bool; sm_Mentioned : bool; sm_MediaUnread : bool; sm_Silent : bool;
  sm_ID : Z; sm_UserID : Z; sm_Message : opaque;
  sm_Pts : Z; sm_PtsCount : Z; sm_Date : Z;
  sm_opt : ShortOptional;
}.

Record UpdateShortChatMessage : Type := mkShortChatMessage {
  scm_Out : bool; scm_Mentioned : bool; scm_MediaUnread : bool; scm_Silent : bool;
  scm_ID : Z; scm_FromID : Z; scm_ChatID : Z; scm_Message : opaque;
  scm_Pts : Z; scm_PtsCount : Z; scm_Date : Z;
  scm_opt : ShortOptional;
}.

Record UpdateShortSentMessage : Type := mkShortSentMessage {
  ssm_ID : Z; ssm_Pts : Z; ssm_PtsCount : Z; ssm_Date : Z; ssm_rest : opaque;
}.

Record UpdateShort : Type := mkShort { us_Update : UpdateClass; us_Date : Z }.

Inductive UpdatesClass : Type :=
| UpdatesTooLong
| AnUpdateShortMessage (u : UpdateShortMessage)
| AnUpdateShortChatMessage (u : UpdateShortChatMessage)
| AnUpdateShort (u : UpdateShort)
| AnUpdatesCombined (u : UpdatesCombined)
| AnUpdates (u : Updates) (Date Seq : Z)
| AnUpdateShortSentMessage (u : UpdateShortSentMessage).

(** ** Differences *)

Record UpdatesState : Type := mkUpdatesState { r_Pts : Z; r_Qts : Z; r_Date : Z; r_Seq : Z }.

Record Difference : Type := mkDifference {
  d_NewMessages : list MessageClass;
  d_NewEncryptedMessages : list opaque;
  d_OtherUpdates : list UpdateClass;
  d_Chats : list ChatClass;
  d_Users : list UserClass;
  d_State : UpdatesState;           (* State or IntermediateState *)
}.

Inductive UpdatesDifferenceClass : Type :=
| UpdatesDifferenceEmpty (Date Seq : Z)
| UpdatesDifference (d : Difference)
| UpdatesDifferenceSlice (d : Difference)
| UpdatesDifferenceTooLong (Pts : Z).

(** ** utils.go *)

Definition validatePts (pts ptsCount : Z) : option error :=
  if pts <? 0 then Some (Errorf "invalid pts value")
  else if ptsCount <? 0 then Some (Errorf "invalid ptsCount value")
  else None.

Definition validateQts (qts : Z) : option error :=
  if qts <? 0 then Some (Errorf "invalid qts value") else None.

Definition validateSeq (seq seqStart : Z) : option error :=
  if seq <? 0 then Some (Errorf "invalid seq value")
  else if seqStart <? 0 then Some (Errorf "invalid seqStart value")
  else None.

(** A dialog, by its kind: a tg.Dialog with its pts field, or a folder. *)
Inductive DialogClass : Type := Dialog (Pts : option Z) | DialogFolder.

Definition getDialogPts (dialog : DialogClass) : Z + error :=
  match dialog with
  | DialogFolder => inr (Errorf "unexpected dialog type")
  | Dialog None => inr (Errorf "dialog has no pts field")
  | Dialog (Some pts) => inl pts
  end.

Definition msgsToUpdates (msgs : list MessageClass) (channel : bool) : list UpdateClass :=
  map (fun msg => if channel then UpdateNewChannelMessage msg (-1) (-1)
                  else UpdateNewMessage msg (-1) (-1)) msgs.

Definition encryptedMsgsToUpdates (msgs : list opaque) : list UpdateClass :=
  map (fun msg => UpdateNewEncryptedMessage msg (-1)) msgs.

(** ** sort_pts.go *)

Record compare_ : Type := mkCompare { typ : Z; channelID : Z; ptsDiff : Z }.
Definition other : Z := 0.
Definition commonPts : Z := 1.
Definition commonQts : Z := 2.
Definition channelPts : Z := 3.

Definition getType (u : UpdateClass) : compare_ :=
  match IsPtsUpdate u with
  | Some (pts, ptsCount) => mkCompare commonPts 0 (pts - ptsCount)
  | None =>
      match IsChannelPtsUpdate u with
      | Some (channelID, pts, ptsCount, _) => mkCompare channelPts channelID (pts - ptsCount)
      | None =>
          match IsQtsUpdate u with
          | Some qts => mkCompare commonQts 0 qts
          | None => mkCompare other 0 0
          end
      end
  end.

Definition Less (p_i p_j : UpdateClass) : bool :=
  let a := getType p_i in
  let b := getType p_j in
  if typ a <? typ b then true
  else if typ a >? typ b then false
  else if typ a =? other then false
  else if (typ a =? commonPts) || (typ a =? commonQts) then ptsDiff a <? ptsDiff b
  else if typ a =? channelPts then
    if channelID a <? channelID b then true
    else if channelID a >? channelID b then false
    else ptsDiff a <? ptsDiff b
  else false.

(** sort.Stable: a stable sort by [less]. *)
Section Stable.
Context {A : Type} (less : A -> A -> bool).
Fixpoint stable_insert (x : A) (l : list A) : list A :=
  match l with
  | [] => [x]
  | y :: l' => if less y x then y :: stable_insert x l' else x :: l
  end.
Definition Stable (l : list A) : list A := foldr stable_insert [] l.
End Stable.

Definition sortUpdatesByPts (u : list UpdateClass) : list UpdateClass := Stable Less u.

(** ** conv_shorts.go *)

(** The assertions of convertOptional on a short message: the interface it asks
    for returns a MessageReplyHeader, the generated GetReplyTo returns a
    MessageReplyHeaderClass, so that this assertion does not hold; short messages
    have no GetMedia. *)
Definition convertOptional (msg : Message) (i : ShortOptional) : Message :=
  mkMessage (m_ID msg) (m_PeerID msg) (m_Message msg) (m_Date msg) (m_Out msg) (m_Mentioned msg)
    (m_MediaUnread msg) (m_Silent msg) (m_FromScheduled msg) (m_FromID msg)
    (match o_FwdFrom i with Some v => Some v | None => m_FwdFrom msg end)
    (match o_ViaBotID i with Some v => Some v | None => m_ViaBotID msg end)
    (m_ReplyTo msg)
    (match o_Entities i with Some v => Some v | None => m_Entities msg end)
    (m_Media msg)
    (match o_TTLPeriod i with Some v => Some v | None => m_TTLPeriod msg end)
    (m_rest msg).

Definition convertShortMessage (selfID : Z) (u : UpdateShortMessage) : UpdateShort :=
  let msg := mkMessage (sm_ID u) (PeerUser (sm_UserID u)) (sm_Message u) (sm_Date u)
    (sm_Out u) (sm_Mentioned u) (sm_MediaUnread u) (sm_Silent u) false
    (Some (if negb (sm_Out u) then PeerUser (sm_UserID u) else PeerUser selfID))
    None None None None None None [] in
  mkShort (UpdateNewMessage (AMessage (convertOptional msg (sm_opt u))) (sm_Pts u) (sm_PtsCount u))
    (sm_Date u).

Definition convertShortChatMessage (u : UpdateShortChatMessage) : UpdateShort :=
  let msg := mkMessage (scm_ID u) (PeerChat (scm_ChatID u)) (scm_Message u) (scm_Date u)
    (scm_Out u) (scm_Mentioned u) (scm_MediaUnread u) (scm_Silent u) false
    (Some (PeerUser (scm_FromID u))) None None None None None None [] in
  mkShort (UpdateNewMessage (AMessage (convertOptional msg (scm_opt u))) (scm_Pts u) (scm_PtsCount u))
    (scm_Date u).

Definition convertShortSentMessage (u : UpdateShortSentMessage) : UpdateShort :=
  mkShort (UpdateNewMessage (MessageEmpty (ssm_ID u) None) (ssm_Pts u) (ssm_PtsCount u)) (ssm_Date u).

(** ** message_peer.go, short_peer.go *)

(** The closures [add] and [addPeer]: what one call appends. *)
Definition add (selfID id : Z) : list Z := if negb (id =? 0) && negb (id =? selfID) then [id] else [].
Definition addPeer (selfID : Z) (p : PeerClass) : list Z :=
  match p with PeerUser UserID => add selfID UserID | _ => [] end.
Definition addOpt (selfID : Z) (p : option PeerClass) : list Z :=
  match p with Some p => addPeer selfID p | None => [] end.

(** The forward header, the inline bot and the mentions, in both functions. *)
Definition optionalUserIDs (selfID : Z) (fwd : option MessageFwdHeader) (via : option Z)
    (ents : option (list MessageEntityClass)) : list Z :=
  match fwd with
  | Some fwd => addOpt selfID (fwd_FromID fwd) ++ addOpt selfID (fwd_SavedFromPeer fwd)
  | None => []
  end
  ++ match via with Some via => add selfID via | None => [] end
  ++ match ents with
     | Some ents => flat_map (fun e => match e with
                       | MessageEntityMentionName UserID _ => add selfID UserID
                       | OtherEntity _ => []
                       end) ents
     | None => []
     end.

Definition messageUserIDs (selfID : Z) (msg : Message) : list Z :=
  addPeer selfID (m_PeerID msg) ++ addOpt selfID (m_FromID msg)
  ++ optionalUserIDs selfID (m_FwdFrom msg) (m_ViaBotID msg) (m_Entities msg).

Definition referencedUserIDs (selfID primary : Z) (opt : ShortOptional) : list Z :=
  add selfID primary ++ optionalUserIDs selfID (o_FwdFrom opt) (o_ViaBotID opt) (o_Entities opt).

(** The message that messageUpdatesPeersKnown looks at in an update. *)
Definition message_of (u : UpdateClass) : option Message :=
  match u with
  | UpdateNewMessage (AMessage m) _ _ | UpdateEditMessage (AMessage m) _ _ => Some m
  | _ => None
  end.

(** ** Stable sorting *)

Section StableFacts.
Context {A : Type} (less : A -> A -> bool).
(** A strict weak order, which sort.Interface asks for. *)
Context (less_irrefl : forall x, less x x = false)
        (less_asym : forall x y, less x y = true -> less y x = false)
        (less_negtrans : forall x y z, less x y = false -> less y z = false -> less x z = false).

Definition equivalent (x y : A) : bool := negb (less x y) && negb (less y x).

Lemma stable_insert_perm x l : stable_insert less x l ≡ₚ x :: l.
Proof.
  induction l as [|y l IH]; simpl; [done|]. case_bool; [|done].
  rewrite IH. apply Permutation_swap.
Qed.

Lemma Stable_perm l : Stable less l ≡ₚ l.
Proof. induction l as [|x l IH]; simpl; [done|]. rewrite stable_insert_perm. by constructor. Qed.

Lemma Stable_sorted l : StronglySorted (fun x y => less y x = false) (Stable less l).
Proof.
  induction l as [|x l IH]; simpl; [constructor|].
  induction IH as [|y k Hk IH Hy]; simpl; [by repeat constructor|].
  destruct (less y x) eqn:E.
  - constructor; [done|]. rewrite stable_insert_perm. constructor; [by apply less_asym|done].
  - constructor; [by constructor|]. constructor; [done|].
    eapply Forall_impl; [exact Hy|]. intros z Hz. by apply (less_negtrans z y x).
Qed.

Lemma stable_insert_filter a x l :
  List.filter (equivalent a) (stable_insert less x l) = List.filter (equivalent a) (x :: l).
Proof.
  induction l as [|y l IH]; [done|]. simpl. destruct (less y x) eqn:E; [|done].
  simpl. rewrite IH. simpl.
  destruct (equivalent a y) eqn:Ey, (equivalent a x) eqn:Ex; try done.
  unfold equivalent in *. bool_to_prop.
  assert (less y x = false) by (by apply (less_negtrans y a x)). congruence.
Qed.

(** Equivalent elements keep their order. *)
Lemma Stable_filter a l : List.filter (equivalent a) (Stable less l) = List.filter (equivalent a) l.
Proof.
  induction l as [|x l IH]; [done|]. change (Stable less (x :: l)) with (stable_insert less x (Stable less l)).
  rewrite stable_insert_filter. simpl. by rewrite IH.
Qed.
End StableFacts.

(** The lexicographic order that Less implements. *)
Definition key_lt (a b : compare_) : Prop :=
  typ a < typ b \/ typ a = typ b /\
    (channelID a < channelID b \/ channelID a = channelID b /\ ptsDiff a < ptsDiff b).

Lemma getType_range u :
  0 <= typ (getType u) <= 3 /\ (typ (getType u) <> 3 -> channelID (getType u) = 0) /\
  (typ (getType u) = 0 -> ptsDiff (getType u) = 0).
Proof.
  unfold getType. destruct (IsPtsUpdate u) as [[pts n]|]; [simpl; unfold commonPts; lia|].
  destruct (IsChannelPtsUpdate u) as [[[[c pts] n] e]|]; [simpl; unfold channelPts; lia|].
  destruct (IsQtsUpdate u); simpl; unfold commonQts, other; lia.
Qed.

Lemma Less_spec u v : Less u v = true <-> key_lt (getType u) (getType v).
Proof.
  pose proof (getType_range u). pose proof (getType_range v). unfold Less, key_lt.
  set (a := getType u) in *. set (b := getType v) in *.
  destruct a as [ta ca da], b as [tb cb db]; simpl in *. unfold other, commonPts, commonQts, channelPts.
  case_bool; bool_to_prop; (split; [intros; try done|intros; try done]); try lia.
Qed.

Lemma Less_false u v : Less u v = false <-> ~ key_lt (getType u) (getType v).
Proof. rewrite <- Less_spec. destruct (Less u v); intuition congruence. Qed.

Lemma Less_irrefl u : Less u u = false.
Proof. rewrite Less_false. unfold key_lt. lia. Qed.
Lemma Less_asym u v : Less u v = true -> Less v u = false.
Proof. rewrite Less_false, Less_spec. unfold key_lt. lia. Qed.
Lemma Less_negtrans u v w : Less u v = false -> Less v w = false -> Less u w = false.
Proof. rewrite !Less_false. unfold key_lt. lia. Qed.

Lemma equivalent_key u v : equivalent Less u v = true <-> getType u = getType v.
Proof.
  unfold equivalent. rewrite andb_true_iff, !negb_true_iff, !Less_false. unfold key_lt.
  destruct (getType u), (getType v); simpl. split; [|by intros [= -> -> ->]; lia].
  intros. f_equal; lia.
Qed.

Lemma sortUpdatesByPts_perm l : sortUpdatesByPts l ≡ₚ l.
Proof. apply Stable_perm. Qed.

(** ** The order inside of a container *)

#[global] Instance compare_eq_dec : EqDecision compare_.
Proof. solve_decision. Defined.

(** A container is processed in a rearrangement of its updates: first the
    ones without a position, then common pts, qts and channel updates by channel,
    each by the position they start at, and updates with equal keys in the order
    the server sent them. *)
Theorem updates_sorted_stably (l : list UpdateClass) (k : compare_) :
  sortUpdatesByPts l ≡ₚ l /\
  StronglySorted (fun u v => ~ key_lt (getType v) (getType u)) (sortUpdatesByPts l) /\
  filter (fun u => getType u = k) (sortUpdatesByPts l) = filter (fun u => getType u = k) l.
Proof.
  split; [apply Stable_perm|]. split.
  - pose proof (Stable_sorted Less Less_asym Less_negtrans l) as Hs.
    unfold sortUpdatesByPts. induction Hs as [|u k' Hk IH Hu]; constructor; [done|].
    eapply Forall_impl; [exact Hu|]. intros v. by rewrite Less_false.
  - destruct (decide (Exists (fun u => getType u = k) l)) as [Hex|Hno].
    + apply Exists_exists in Hex as (a & _ & <-).
      pose proof (Stable_filter Less Less_negtrans a l) as Hf.
      assert (forall l, filter (fun u => getType u = getType a) l = List.filter (equivalent Less a) l) as Hfl.
      { clear. intros l. induction l as [|x l IH]; [done|]. simpl. rewrite filter_cons, IH.
        destruct (equivalent Less a x) eqn:E.
        - apply equivalent_key in E. by rewrite decide_True.
        - rewrite decide_False; [done|]. intros Heq. symmetry in Heq. apply equivalent_key in Heq. congruence. }
      by rewrite !Hfl.
    + apply not_Exists_Forall in Hno; [|intros ?; apply _].
      assert (forall l, Forall (fun u => getType u <> k) l -> filter (fun u => getType u = k) l = []) as Hnil.
      { clear. induction 1 as [|u l Hu _ IH]; [done|]. by rewrite filter_cons, decide_False. }
      rewrite !Hnil; [done|done|]. by rewrite sortUpdatesByPts_perm.
Qed.

Example updates_sorted_example :
  sortUpdatesByPts [UpdateDeleteChannelMessages 7 12 2 []; UpdateBotStopped 4 []; UpdateDeleteMessages 9 1 [];
                    OtherUpdate []; UpdateDeleteMessages 8 3 []; UpdatePtsChanged; UpdateChannelWebPage 5 30 1 []]
  = [OtherUpdate []; UpdatePtsChanged; UpdateDeleteMessages 8 3 []; UpdateDeleteMessages 9 1 [];
     UpdateBotStopped 4 []; UpdateChannelWebPage 5 30 1 []; UpdateDeleteChannelMessages 7 12 2 []].
Proof. reflexivity. Qed.

(** ** Short messages *)

Lemma convertOptional_ids selfID msg opt :
  m_FwdFrom msg = None -> m_ViaBotID msg = None -> m_Entities msg = None ->
  messageUserIDs selfID (convertOptional msg opt) =
    addPeer selfID (m_PeerID msg) ++ addOpt selfID (m_FromID msg)
    ++ optionalUserIDs selfID (o_FwdFrom opt) (o_ViaBotID opt) (o_Entities opt).
Proof.
  intros Hf Hv He. unfold messageUserIDs, convertOptional. simpl. rewrite Hf, Hv, He.
  by destruct (o_FwdFrom opt), (o_ViaBotID opt), (o_Entities opt).
Qed.

Lemma add_self selfID : add selfID selfID = [].
Proof. unfold add. by rewrite Z.eqb_refl, andb_false_r. Qed.

(** The users whose access hashes are checked before a short message is
    converted are exactly the users that are checked again in the converted
    message, for private messages in both directions and for group messages. *)
Theorem short_message_peers_agree (selfID id : Z) (u : UpdateShortMessage) (c : UpdateShortChatMessage) :
  (exists m, message_of (us_Update (convertShortMessage selfID u)) = Some m /\
     (id ∈ messageUserIDs selfID m <-> id ∈ referencedUserIDs selfID (sm_UserID u) (sm_opt u))) /\
  (exists m, message_of (us_Update (convertShortChatMessage c)) = Some m /\
     messageUserIDs selfID m = referencedUserIDs selfID (scm_FromID c) (scm_opt c)).
Proof.
  split; eexists; (split; [reflexivity|]); rewrite convertOptional_ids by done; simpl.
  - unfold referencedUserIDs. rewrite !elem_of_app.
    destruct (sm_Out u); simpl; rewrite ?add_self, ?elem_of_nil; tauto.
  - done.
Qed.

(** A short message keeps its text, date, direction, forward header, inline
    bot, entities and lifetime when it is converted, but the reply header of a
    short message is always lost. *)
Theorem short_message_reply_lost (selfID : Z) (u : UpdateShortMessage) (c : UpdateShortChatMessage) :
  (exists m, us_Update (convertShortMessage selfID u) = UpdateNewMessage (AMessage m) (sm_Pts u) (sm_PtsCount u) /\
     (m_ID m, m_Message m, m_Date m, m_Out m) = (sm_ID u, sm_Message u, sm_Date u, sm_Out u) /\
     (m_FwdFrom m, m_ViaBotID m, m_Entities m, m_TTLPeriod m) =
       (o_FwdFrom (sm_opt u), o_ViaBotID (sm_opt u), o_Entities (sm_opt u), o_TTLPeriod (sm_opt u)) /\
     m_FromID m = Some (PeerUser (if sm_Out u then selfID else sm_UserID u)) /\
     m_ReplyTo m = None) /\
  (exists m, message_of (us_Update (convertShortChatMessage c)) = Some m /\
     m_FromID m = Some (PeerUser (scm_FromID c)) /\ m_ReplyTo m = None).
Proof.
  split; eexists; (split; [reflexivity|]); simpl; [|by split].
  unfold convertOptional. simpl. destruct u as [[] ? ? ? ? ? ? ? ? ? [[] [] ? [] []]]; done.
Qed.
