(* ===== verification/Storage.v ===== *)
(** * telegram/updates: storage of states and access hashes

    Model of src/telegram/updates storage.go (the interfaces StateStorage,
    ChannelAccessHasher and UserAccessHasher), storage_mem.go (their
    implementations in memory) and of the code that feeds and reads access hashes
    (access_hash_feeder.go, min_backfill.go, short_peer.go, message_peer.go).
    The interfaces are the classes [StateStorage] and [AccessHasher]; what their
    documentation promises is in [LawfulStorage] and [LawfulHasher]. *)
From S2P Require Import Prelude Tg.

(** ** storage.go *)

Record State : Type := mkState { Pts : Z; Qts : Z; Date : Z; Seq : Z }.

Definition fromRemote (remote : UpdatesState) : State :=
  mkState (r_Pts remote) (r_Qts remote) (r_Date remote) (r_Seq remote).

(** A value or not found, or an error. *)
Abbreviation lookup_result A := (option A + error)%type.

Class StateStorage (S : Type) := {
  GetState : S -> Z -> lookup_result State;
  SetState : Z -> State -> S -> option error * S;
  SetPts : Z -> Z -> S -> option error * S;
  SetQts : Z -> Z -> S -> option error * S;
  SetDate : Z -> Z -> S -> option error * S;
  SetSeq : Z -> Z -> S -> option error * S;
  SetDateSeq : Z -> Z -> Z -> S -> option error * S;
  GetChannelPts : S -> Z -> Z -> lookup_result Z;
  SetChannelPts : Z -> Z -> Z -> S -> option error * S;
  ChannelsOf : S -> Z -> list (Z * Z) + error;         (* what ForEachChannels iterates over *)
}.

Class AccessHasher (H : Type) := {
  GetAccessHash : H -> Z -> Z -> lookup_result Z;
  SetAccessHash : Z -> Z -> Z -> H -> option error * H;
}.

(** The contract of StateStorage: a setter of one field changes this field of
    an existing state, and fails when there is none. *)
Definition sets_field {S} `{!StateStorage S} (set : S -> option error * S) (userID : Z)
    (f : State -> State) : Prop :=
  forall s,
    match GetState s userID with
    | inl (Some st) =>
        fst (set s) = None /\ GetState (snd (set s)) userID = inl (Some (f st))
    | inl None => fst (set s) <> None /\ GetState (snd (set s)) userID = inl None
    | inr _ => True
    end.

Definition with_Pts (pts : Z) (st : State) : State := mkState pts (Qts st) (Date st) (Seq st).
Definition with_Qts (qts : Z) (st : State) : State := mkState (Pts st) qts (Date st) (Seq st).
Definition with_Date (date : Z) (st : State) : State := mkState (Pts st) (Qts st) date (Seq st).
Definition with_Seq (seq : Z) (st : State) : State := mkState (Pts st) (Qts st) (Date st) seq.

Class LawfulStorage (S : Type) `{!StateStorage S} : Prop := {
  SetState_law u st s : fst (SetState u st s) = None /\ GetState (snd (SetState u st s)) u = inl (Some st);
  SetPts_law u pts : sets_field (SetPts u pts) u (with_Pts pts);
  SetQts_law u qts : sets_field (SetQts u qts) u (with_Qts qts);
  SetDate_law u date : sets_field (SetDate u date) u (with_Date date);
  SetSeq_law u seq : sets_field (SetSeq u seq) u (with_Seq seq);
  SetDateSeq_law u date seq :
    sets_field (SetDateSeq u date seq) u (fun st => with_Date date (with_Seq seq st));
  SetChannelPts_law u c pts s :
    GetState (snd (SetChannelPts u c pts s)) u = GetState s u /\
    (fst (SetChannelPts u c pts s) = None ->
     GetChannelPts (snd (SetChannelPts u c pts s)) u c = inl (Some pts));
  (* an account whose channel positions are accepted stays one *)
  SetChannelPts_again u c pts s c' pts' :
    fst (SetChannelPts u c pts s) = None ->
    fst (SetChannelPts u c' pts' (snd (SetChannelPts u c pts s))) = None;
}.

Class LawfulHasher (H : Type) `{!AccessHasher H} : Prop := {
  SetAccessHash_law u c hash h c' :
    fst (SetAccessHash u c hash h) = None /\
    GetAccessHash (snd (SetAccessHash u c hash h)) u c' =
      if c' =? c then inl (Some hash) else GetAccessHash h u c';
}.

(** ** storage_mem.go *)

Module memStorage.
Record t : Type := mk { states : gmap Z State; channels : gmap Z (gmap Z Z) }.

Definition newMemStorage : t := mk ∅ ∅.

Definition GetState (s : t) (userID : Z) : lookup_result State := inl (states s !! userID).

Definition SetState (userID : Z) (state : State) (s : t) : option error * t :=
  (None, mk (<[userID := state]> (states s)) (<[userID := ∅]> (channels s))).

(** The shape of the setters: the state is looked up, changed and put back. *)
Definition set_field (f : State -> State) (userID : Z) (s : t) : option error * t :=
  match states s !! userID with
  | None => (Some (Errorf "internalState not found"), s)
  | Some state => (None, mk (<[userID := f state]> (states s)) (channels s))
  end.

Definition SetPts (userID pts : Z) : t -> option error * t := set_field (with_Pts pts) userID.
Definition SetQts (userID qts : Z) : t -> option error * t := set_field (with_Qts qts) userID.
Definition SetDate (userID date : Z) : t -> option error * t := set_field (with_Date date) userID.
Definition SetSeq (userID seq : Z) : t -> option error * t := set_field (with_Seq seq) userID.
Definition SetDateSeq (userID date seq : Z) : t -> option error * t :=
  set_field (fun state => with_Date date (with_Seq seq state)) userID.

Definition SetChannelPts (userID channelID pts : Z) (s : t) : option error * t :=
  match channels s !! userID with
  | None => (Some (Errorf "user internalState does not exist"), s)
  | Some chs => (None, mk (states s) (<[userID := <[channelID := pts]> chs]> (channels s)))
  end.

Definition GetChannelPts (s : t) (userID channelID : Z) : lookup_result Z :=
  match channels s !! userID with
  | None => inl None
  | Some chs => inl (chs !! channelID)
  end.

Definition ForEachChannels (s : t) (userID : Z) : list (Z * Z) + error :=
  match channels s !! userID with
  | None => inr (Errorf "channels map does not exist")
  | Some cmap => inl (map_to_list cmap)
  end.
End memStorage.

#[global] Instance mem_storage : StateStorage memStorage.t := {
  GetState := memStorage.GetState;
  SetState := memStorage.SetState;
  SetPts := memStorage.SetPts;
  SetQts := memStorage.SetQts;
  SetDate := memStorage.SetDate;
  SetSeq := memStorage.SetSeq;
  SetDateSeq := memStorage.SetDateSeq;
  GetChannelPts := memStorage.GetChannelPts;
  SetChannelPts := memStorage.SetChannelPts;
  ChannelsOf := memStorage.ForEachChannels;
}.

(** memAccessHasher and memUserAccessHasher: the same code for two interfaces. *)
Module memAccessHasher.
Abbreviation t := (gmap Z (gmap Z Z)).
Definition newMemAccessHasher : t := ∅.

Definition GetChannelAccessHash (m : t) (userID channelID : Z) : lookup_result Z :=
  match m !! userID with
  | None => inl None
  | Some userHashes => inl (userHashes !! channelID)
  end.

Definition SetChannelAccessHash (userID channelID accessHash : Z) (m : t) : option error * t :=
  let userHashes := default ∅ (m !! userID) in
  (None, <[userID := <[channelID := accessHash]> userHashes]> m).
End memAccessHasher.

#[global] Instance mem_hasher : AccessHasher (gmap Z (gmap Z Z)) := {
  GetAccessHash := memAccessHasher.GetChannelAccessHash;
  SetAccessHash := memAccessHasher.SetChannelAccessHash;
}.

#[global] Instance mem_storage_lawful : LawfulStorage memStorage.t.
Proof.
  assert (forall u f, sets_field (memStorage.set_field f u) u f) as Hset.
  { intros u f s. simpl. unfold memStorage.GetState, memStorage.set_field.
    destruct (memStorage.states s !! u) eqn:E; simpl; [by rewrite lookup_insert_eq|by rewrite E]. }
  split; intros; try apply Hset.
  - simpl. unfold memStorage.GetState. simpl. by rewrite lookup_insert_eq.
  - simpl. unfold memStorage.SetChannelPts. destruct (memStorage.channels s !! u) eqn:E; simpl; [|done].
    split; [done|]. intros _. unfold memStorage.GetChannelPts. simpl. by rewrite !lookup_insert_eq.
  - revert H. simpl. unfold memStorage.SetChannelPts.
    destruct (memStorage.channels s !! u) eqn:E; simpl; [|done]. by rewrite lookup_insert_eq.
Qed.

#[global] Instance mem_hasher_lawful : LawfulHasher (gmap Z (gmap Z Z)).
Proof.
  split. intros u c hash h c'. split; [done|]. simpl.
  unfold memAccessHasher.GetChannelAccessHash. rewrite lookup_insert_eq.
  destruct (c' =? c) eqn:E; bool_to_prop.
  - subst. by rewrite lookup_insert_eq.
  - rewrite lookup_insert_ne by done. by destruct (h !! u).
Qed.

(** ** access_hash_feeder.go *)

Section Hashers.
Context {H : Type} `{!AccessHasher H} (selfID : Z).

(** One chat of saveChannelHashes; [tracked] tells whether the channel has a
    worker.  An error of the hasher is logged. *)
Definition saveChannelHash (tracked : Z -> bool) (h : H) (c : ChatClass) : H :=
  match c with
  | Channel ID Min AccessHash _ =>
      if Min then h
      else match AccessHash with
           | Some hash => if tracked ID then h else snd (SetAccessHash selfID ID hash h)
           | None => h
           end
  | ChannelForbidden ID AccessHash _ =>
      if tracked ID then h else snd (SetAccessHash selfID ID AccessHash h)
  | OtherChat _ _ => h
  end.

Definition saveChannelHashes (tracked : Z -> bool) (chats : list ChatClass) (h : H) : H :=
  fold_left (saveChannelHash tracked) chats h.

Definition known (h : H) (id : Z) : bool :=
  match GetAccessHash h selfID id with inl (Some _) => true | _ => false end.

(** One user of saveUserHashes. *)
Definition saveUserHash (h : H) (u : UserClass) : H :=
  match u with
  | UserEmpty _ => h
  | AUser ID Min AccessHash _ =>
      if Min || (default 0 AccessHash =? 0) then h
      else if known h ID then h
      else snd (SetAccessHash selfID ID (default 0 AccessHash) h)
  end.

Definition saveUserHashes (users : list UserClass) (h : H) : H := fold_left saveUserHash users h.

(** The loop of restoreAccessHash over the chats of the difference. *)
Fixpoint find_access_hash (channelID : Z) (chats : list ChatClass) : option Z :=
  match chats with
  | [] => None
  | Channel ID Min AccessHash _ :: chats =>
      if Min then find_access_hash channelID chats
      else if negb (ID =? channelID) then find_access_hash channelID chats
      else match AccessHash with
           | Some hash => Some hash
           | None => find_access_hash channelID chats
           end
  | ChannelForbidden ID AccessHash _ :: chats =>
      if negb (ID =? channelID) then find_access_hash channelID chats else Some AccessHash
  | OtherChat _ _ :: chats => find_access_hash channelID chats
  end.

(** ** short_peer.go, message_peer.go *)

Definition userPeersKnown (h : H) (ids : list Z) : bool :=
  forallb (fun id => (id =? selfID) || known h id) ids.

Definition shortMessagePeersKnown (h : H) (u : UpdateShortMessage) : bool :=
  userPeersKnown h (referencedUserIDs selfID (sm_UserID u) (sm_opt u)).

Definition shortChatMessagePeersKnown (h : H) (u : UpdateShortChatMessage) : bool :=
  userPeersKnown h (referencedUserIDs selfID (scm_FromID u) (scm_opt u)).

Definition messageUpdatesPeersKnown (h : H) (updates : list UpdateClass) : bool :=
  forallb (fun u => match message_of u with
                    | Some m => userPeersKnown h (messageUserIDs selfID m)
                    | None => true
                    end) updates.

(** ** min_backfill.go *)

(** The access hash of a min entity is replaced by the known one. *)
Definition backfillMinChat (h : H) (c : ChatClass) : ChatClass :=
  match c with
  | Channel ID true _ rest =>
      match GetAccessHash h selfID ID with
      | inl (Some hash) => Channel ID true (Some hash) rest
      | _ => c
      end
  | _ => c
  end.
Definition backfillMinChats (h : H) (chats : list ChatClass) : list ChatClass := map (backfillMinChat h) chats.

Definition backfillMinUser (h : H) (u : UserClass) : UserClass :=
  match u with
  | AUser ID true _ rest =>
      match GetAccessHash h selfID ID with
      | inl (Some hash) => AUser ID true (Some hash) rest
      | _ => u
      end
  | _ => u
  end.
Definition backfillMinUsers (h : H) (users : list UserClass) : list UserClass := map (backfillMinUser h) users.

(** *** Lemmas *)

(** A user that saveUserHashes records. *)
Definition full_user (id : Z) (u : UserClass) : Prop :=
  exists hash rest, u = AUser id false (Some hash) rest /\ hash <> 0.

Context `{!LawfulHasher H}.

Lemma SetAccessHash_get u c hash (h : H) c' :
  GetAccessHash (snd (SetAccessHash u c hash h)) u c' =
    if c' =? c then inl (Some hash) else GetAccessHash h u c'.
Proof. apply SetAccessHash_law. Qed.

Lemma known_set id hash h id' :
  known (snd (SetAccessHash selfID id hash h)) id' = (id' =? id) || known h id'.
Proof. unfold known. rewrite SetAccessHash_get. by destruct (id' =? id). Qed.

Lemma saveUserHash_known h u id :
  known (saveUserHash h u) id = true <-> known h id = true \/ full_user id u.
Proof.
  unfold full_user. destruct u as [|ID Min hash rest]; simpl; [naive_solver|].
  destruct Min; simpl; [naive_solver|]. destruct hash as [hash|]; simpl; [|naive_solver].
  destruct (hash =? 0) eqn:E; bool_to_prop; [naive_solver|].
  destruct (known h ID) eqn:EK; [naive_solver|].
  rewrite known_set, orb_true_iff, Z.eqb_eq. naive_solver.
Qed.

Lemma saveUserHashes_known users h id :
  known (saveUserHashes users h) id = true <-> known h id = true \/ Exists (full_user id) users.
Proof.
  revert h. induction users as [|u users IH]; intros h; simpl.
  { rewrite Exists_nil. tauto. }
  unfold saveUserHashes in *. simpl. rewrite IH, saveUserHash_known, Exists_cons. tauto.
Qed.

Lemma userPeersKnown_spec h ids :
  userPeersKnown h ids = true <-> forall id, id ∈ ids -> id = selfID \/ known h id = true.
Proof.
  unfold userPeersKnown. rewrite forallb_forall. setoid_rewrite list_elem_of_In.
  setoid_rewrite orb_true_iff. setoid_rewrite Z.eqb_eq. done.
Qed.

Lemma userPeersKnown_incl h ids1 ids2 :
  (forall id, id ∈ ids1 -> id ∈ ids2) -> userPeersKnown h ids2 = true -> userPeersKnown h ids1 = true.
Proof. rewrite !userPeersKnown_spec. auto. Qed.
End Hashers.

(** ** Which users are known *)

(** After the users of a container were recorded, a message is taken for
    resolvable exactly when every user it refers to, apart from the account
    itself, was known before or came with a full access hash in the container;
    min users and zero hashes never count. *)
Theorem users_known_exactly {H : Type} `{!AccessHasher H, !LawfulHasher H} (selfID : Z)
    (users : list UserClass) (h : H) (ids : list Z) :
  userPeersKnown selfID (saveUserHashes selfID users h) ids = true <->
  forall id, id ∈ ids ->
    id = selfID \/ known selfID h id = true \/
    exists hash rest, AUser id false (Some hash) rest ∈ users /\ hash <> 0.
Proof.
  rewrite userPeersKnown_spec. split; intros Hk id Hid; specialize (Hk id Hid);
    rewrite saveUserHashes_known, Exists_exists in *; unfold full_user in *; naive_solver.
Qed.

Lemma users_known_exactly_witness :
  userPeersKnown 1 (saveUserHashes 1 [AUser 5 true (Some 9) []; AUser 6 false (Some 8) []]
    memAccessHasher.newMemAccessHasher) [1; 6] = true.
Proof.
  apply (proj2 (users_known_exactly 1 [AUser 5 true (Some 9) []; AUser 6 false (Some 8) []]
    memAccessHasher.newMemAccessHasher [1; 6])).
  intros id. rewrite !elem_of_cons, elem_of_nil. intros [->|[->|[]]]; [by left|]. right. right.
  exists 8, []. split; [right; left|done].
Defined.

(** What a handler is given differs from what arrived only in the access
    hashes of min channels and min users whose full hash is known; each of these
    gets exactly the known hash and stays marked as min. *)
Theorem backfill_only_min {H : Type} `{!AccessHasher H} (selfID : Z) (h : H)
    (chats : list ChatClass) (users : list UserClass) (i : nat) :
  backfillMinChats selfID h chats !! i =
    (fun c => match c with
     | Channel ID true old rest =>
         Channel ID true (match GetAccessHash h selfID ID with inl (Some hash) => Some hash | _ => old end) rest
     | c => c
     end) <$> chats !! i /\
  map chat_GetID (backfillMinChats selfID h chats) = map chat_GetID chats /\
  map user_GetID (backfillMinUsers selfID h users) = map user_GetID users /\
  (forall ID Min old rest, AUser ID Min old rest ∈ backfillMinUsers selfID h users ->
     exists old', AUser ID Min old' rest ∈ users /\
       (old' = old \/ Min = true /\ GetAccessHash h selfID ID = inl old /\ old <> None)).
Proof.
  split_and!.
  - unfold backfillMinChats. rewrite list_lookup_fmap. destruct (chats !! i) as [[| ID [] old rest |]|]; simpl; try done.
    by destruct (GetAccessHash h selfID ID) as [[]|].
  - unfold backfillMinChats. rewrite map_map. apply map_ext. intros [| ID [] old rest |]; simpl; try done.
    by destruct (GetAccessHash h selfID ID) as [[]|].
  - unfold backfillMinUsers. rewrite map_map. apply map_ext. intros [|ID [] old rest]; simpl; try done.
    by destruct (GetAccessHash h selfID ID) as [[]|].
  - intros ID Min old rest Hin. apply list_elem_of_fmap in Hin as (u & Hu & Hin).
    destruct u as [|ID' [] old' rest']; simpl in Hu.
    + done.
    + destruct (GetAccessHash h selfID ID') as [[hash|]|] eqn:E; simplify_eq;
        (eexists; split; [exact Hin|]); [by right|by left..].
    + simplify_eq. eauto.
Qed.

(** Saving the state of an account with the storage in memory forgets the
    positions of all its channels, although the setters of single fields keep
    them. *)
Theorem mem_storage_forgets_channels (userID channelID pts : Z) (st : State) (s : memStorage.t) :
  fst (SetChannelPts userID channelID pts s) = None ->
  let s' := snd (SetChannelPts userID channelID pts s) in
  GetChannelPts s' userID channelID = inl (Some pts) /\
  GetChannelPts (snd (SetPts userID 5 s')) userID channelID = inl (Some pts) /\
  GetChannelPts (snd (SetState userID st s')) userID channelID = inl None /\
  ChannelsOf (snd (SetState userID st s')) userID = inl [].
Proof.
  intros Hset s'. subst s'. destruct (SetChannelPts_law userID channelID pts s) as [_ Hget].
  specialize (Hget Hset). split_and!; [done|..].
  - rewrite <- Hget. simpl. unfold memStorage.GetChannelPts, memStorage.SetPts, memStorage.set_field.
    by destruct (memStorage.states _ !! userID).
  - simpl. unfold memStorage.GetChannelPts. simpl. by rewrite lookup_insert_eq.
  - simpl. unfold memStorage.ForEachChannels. simpl. by rewrite lookup_insert_eq.
Qed.

Lemma mem_storage_forgets_channels_witness :
  let s0 := snd (SetState 1 (mkState 1 2 3 4) memStorage.newMemStorage) in
  let s' := snd (SetChannelPts 1 7 100 s0) in
  GetChannelPts s' 1 7 = inl (Some 100) /\
  GetChannelPts (snd (SetPts 1 5 s')) 1 7 = inl (Some 100) /\
  GetChannelPts (snd (SetState 1 (mkState 9 2 3 4) s')) 1 7 = inl None /\
  ChannelsOf (snd (SetState 1 (mkState 9 2 3 4) s')) 1 = inl [].
Proof.
  intros s0. apply (mem_storage_forgets_channels 1 7 100 (mkState 9 2 3 4) s0). reflexivity.
Defined.
