(* ===== verification/Sequence.v ===== *)
(** * telegram/updates: ordering of updates

    Model of the sequence box of src/telegram/updates: the gap check
    (gap_check.go), the buffer of gaps (gap_buffer.go), updates and their
    entities (update.go) and the box that applies updates in order
    (sequence_box.go).  Positions are Go ints that come from 32-bit TL
    integers, so that their sums do not overflow.  The box is generic in the
    values it orders and in its [apply] callback, which acts on the world [W]
    and may re-enter the box.  The main theorem says that a server history
    delivered in any order, with duplicates, is applied exactly once and in
    order. *)
From S2P Require Import Prelude.

(** ** gap_check.go *)

Inductive gapCheckResult : Type := gapApply | gapIgnore | gapRefetch.

Definition checkGap (localState remoteState count : Z) : gapCheckResult :=
  if remoteState =? 0 then gapApply
  else if localState + count =? remoteState then gapApply
  else if localState + count >? remoteState then gapIgnore
  else gapRefetch.

(** ** update.go *)

Record entities (User Chat : Type) : Type := mkEntities { Users : list User; Chats : list Chat }.
Arguments mkEntities {User Chat}.
Arguments Users {User Chat}.
Arguments Chats {User Chat}.

Section Entities.
Context {User Chat : Type} (user_GetID : User -> Z) (chat_GetID : Chat -> Z).

(** One of the two loops of Merge: a candidate is appended unless its ID is
    already present, counting the ones appended before it. *)
Definition merge_list {T} (id : T -> Z) (exist from : list T) : list T :=
  fold_left (fun acc candidate =>
    if existsb (fun e => id e =? id candidate) acc then acc else acc ++ [candidate]) from exist.

Definition Merge (e from : entities User Chat) : entities User Chat :=
  mkEntities (merge_list user_GetID (Users e) (Users from))
             (merge_list chat_GetID (Chats e) (Chats from)).
End Entities.

Record update (V User Chat : Type) : Type := mkUpdate {
  Value : V; State : Z; Count : Z; Entities : entities User Chat }.
Arguments mkUpdate {V User Chat}.
Arguments Value {V User Chat}.
Arguments State {V User Chat}.
Arguments Count {V User Chat}.
Arguments Entities {V User Chat}.

Definition start {V U C} (u : update V U C) : Z := State u - Count u.
Definition stop {V U C} (u : update V U C) : Z := State u.   (* end() *)

(** ** gap_buffer.go *)

Record gap : Type := mkGap { from : Z; to : Z }.
Abbreviation gapBuffer := (list gap).

Definition Has (b : gapBuffer) : bool := zlen b >? 0.
Definition Clear (b : gapBuffer) : gapBuffer := [].

(** Enable panics on a buffer that has gaps. *)
Definition Enable (from to : Z) (b : gapBuffer) : option gapBuffer :=
  if zlen b >? 0 then None else Some (b ++ [mkGap from to]).

(** The loop over [b.gaps]: [before] are the gaps already looked at.  The parts
    of the gap around the update are appended, then the gap is cut out. *)
Fixpoint consume_loop (before rest : list gap) (from_ to_ : Z) : bool * gapBuffer :=
  match rest with
  | [] => (false, before)
  | g :: rest =>
      if (from g <=? from_) && (to g >=? to_) then
        (true, before ++ rest
               ++ (if from g <? from_ then [mkGap (from g) from_] else [])
               ++ (if to g >? to_ then [mkGap to_ (to g)] else []))
      else consume_loop (before ++ [g]) rest from_ to_
  end.

Definition Consume {V U C} (b : gapBuffer) (u : update V U C) : bool * gapBuffer :=
  consume_loop [] b (start u) (stop u).

(** ** sequence_box.go *)

Record sequenceBox (V U C : Type) : Type := mkBox {
  state : Z;
  gaps : gapBuffer;
  gapTimeout : bool;            (* whether the timer is running *)
  pending : list (update V U C);
}.
Arguments mkBox {V U C}.
Arguments state {V U C}.
Arguments gaps {V U C}.
Arguments gapTimeout {V U C}.
Arguments pending {V U C}.

Definition newSequenceBox {V U C} (InitialState : Z) : sequenceBox V U C :=
  mkBox InitialState [] false [].

(** sort.SliceStable by [start]. *)
Fixpoint insert_by_start {V U C} (u : update V U C) (l : list (update V U C)) :=
  match l with
  | [] => [u]
  | v :: l' => if start u <=? start v then u :: l else v :: insert_by_start u l'
  end.
Definition sort_by_start {V U C} (l : list (update V U C)) : list (update V U C) :=
  foldr insert_by_start [] l.

(** The labelled loop of applyPending from index [i]: the cursor, the state
    and the accepted updates. *)
Fixpoint pending_loop {V U C} (i : nat) (l : list (update V U C))
    (cursor : nat) (st : Z) (accepted : list (update V U C))
    : nat * Z * list (update V U C) :=
  match l with
  | [] => (cursor, st, accepted)
  | u :: l =>
      match checkGap st (State u) (Count u) with
      | gapApply => pending_loop (S i) l (S i) (State u) (accepted ++ [u])
      | gapIgnore => pending_loop (S i) l (S i) st accepted
      | gapRefetch => (cursor, st, accepted)
      end
  end.

Section Box.
Context {V User Chat W : Type}.
Abbreviation update := (update V User Chat).
Abbreviation box := (sequenceBox V User Chat).
(** The callback given to newSequenceBox. *)
Context (apply : Z -> list update -> GoM (W * box) unit).

Definition with_box (f : box -> box) : GoM (W * box) unit := modify (fun '(w, s) => (w, f s)).
Definition setState (st : Z) : GoM (W * box) unit :=
  with_box (fun s => mkBox st (gaps s) (gapTimeout s) (pending s)).
Definition SetState (st : Z) : GoM (W * box) unit := setState st.
Definition set_gaps (g : gapBuffer) : GoM (W * box) unit :=
  with_box (fun s => mkBox (state s) g (gapTimeout s) (pending s)).
Definition set_pending (p : list update) : GoM (W * box) unit :=
  with_box (fun s => mkBox (state s) (gaps s) (gapTimeout s) p).
Definition set_timer (b : bool) : GoM (W * box) unit :=
  with_box (fun s => mkBox (state s) (gaps s) b (pending s)).
Definition get_box : GoM (W * box) box := fun ws => (Ok (snd ws), ws).

Definition applyPending : GoM (W * box) unit :=
  let! s := get_box in
  let sorted := sort_by_start (pending s) in
  let '(cursor, st, accepted) := pending_loop 0 sorted 0 (state s) [] in
  set_pending (drop cursor sorted) ;;!
  if zlen accepted =? 0 then ret tt
  else
    apply st accepted ;;!
    setState st.

(** [for _, u := range s.pending { _ = s.gaps.Consume(u) }] *)
Definition consume_all (us : list update) (g : gapBuffer) : gapBuffer :=
  fold_left (fun g u => snd (Consume g u)) us g.

Definition Handle (u : update) : GoM (W * box) unit :=
  let! s := get_box in
  match checkGap (state s) (State u) (Count u) with
  | gapIgnore => ret tt
  | verdict =>
      if Has (gaps s) then
        set_pending (pending s ++ [u]) ;;!
        let '(accepted, g) := Consume (gaps s) u in
        set_gaps g ;;!
        if negb accepted then ret tt
        else if negb (Has g) then set_timer false ;;! applyPending
        else ret tt
      else
        match verdict with
        | gapApply =>
            if zlen (pending s) >? 0 then
              set_pending (pending s ++ [u]) ;;!
              applyPending
            else
              apply (State u) [u] ;;!
              setState (State u)
        | gapRefetch =>
            set_pending (pending s ++ [u]) ;;!
            match Enable (state s) (start u) (gaps s) with
            | None => fun ws => (Panic, ws)
            | Some g =>
                let g := consume_all (pending s ++ [u]) g in
                set_gaps g ;;!
                if negb (Has g) then applyPending
                else set_timer true
            end
        | gapIgnore => fun ws => (Panic, ws)
        end
  end.
End Box.

(** ** The gap check and the gap buffer *)

Lemma checkGap_spec {V U C} (s : Z) (u : update V U C) :
  State u <> 0 ->
  match checkGap s (State u) (Count u) with
  | gapApply => start u = s
  | gapIgnore => start u < s
  | gapRefetch => s < start u
  end.
Proof. intros H. unfold checkGap, start. case_bool; bool_to_prop; lia. Qed.

(** Whether the position [x] lies in [a, b). *)
Definition inside (a b x : Z) : Prop := a <= x < b.
#[export] Instance inside_dec a b x : Decision (inside a b x).
Proof. unfold inside. apply _. Defined.

Definition indicator (P : Prop) `{Decision P} : Z := if decide P then 1 else 0.

(** How many gaps of the buffer contain the position [x]. *)
Definition gap_count (b : gapBuffer) (x : Z) : Z :=
  foldr (fun g n => indicator (inside (from g) (to g) x) + n) 0 b.

Lemma gap_count_app b1 b2 x : gap_count (b1 ++ b2) x = gap_count b1 x + gap_count b2 x.
Proof. induction b1 as [|g b1 IH]; simpl; lia. Qed.

Lemma indicator_cases (P : Prop) `{Decision P} :
  P /\ indicator P = 1 \/ ~ P /\ indicator P = 0.
Proof. unfold indicator. destruct (decide P); auto. Qed.

Lemma gap_count_nonneg b x : 0 <= gap_count b x.
Proof.
  induction b as [|g b IH]; simpl; [lia|].
  destruct (indicator_cases (inside (from g) (to g) x)) as [[_ ->]|[_ ->]]; lia.
Qed.

Lemma gap_count_pos b x : 0 < gap_count b x <-> exists g, (g ∈ b) /\ inside (from g) (to g) x.
Proof.
  induction b as [|g b IH]; simpl.
  - split; [lia|]. intros (? & H & _). by apply not_elem_of_nil in H.
  - pose proof (gap_count_nonneg b x).
    destruct (indicator_cases (inside (from g) (to g) x)) as [[Hi ->]|[Hi ->]].
    + split; [|lia]. intros _. exists g. by split; [left|].
    + rewrite Z.add_0_l, IH. split; intros (g' & Hg & Hx).
      * exists g'. by split; [right|].
      * apply elem_of_cons in Hg as [->|Hg]; [done|]. by exists g'.
Qed.

Lemma consume_loop_spec before rest a b ok g' :
  consume_loop before rest a b = (ok, g') ->
  if ok then exists g l1 l2,
    rest = l1 ++ g :: l2 /\ from g <= a /\ b <= to g /\
    g' = before ++ l1 ++ l2 ++ (if from g <? a then [mkGap (from g) a] else [])
                            ++ (if to g >? b then [mkGap b (to g)] else [])
  else g' = before ++ rest /\ Forall (fun g => ~ (from g <= a /\ b <= to g)) rest.
Proof.
  revert before. induction rest as [|g rest IH]; intros before; simpl.
  { intros [= <- <-]. by rewrite app_nil_r. }
  destruct ((from g <=? a) && (to g >=? b)) eqn:E.
  - intros [= <- <-]. bool_to_prop. exists g, [], rest. split_and!; [done|lia|lia|done].
  - intros H. apply IH in H. destruct ok.
    + destruct H as (g1 & l1 & l2 & -> & ? & ? & ->).
      exists g1, (g :: l1), l2. split_and!; try done. by rewrite <- !app_assoc.
    + destruct H as [-> H]. rewrite <- app_assoc. split; [done|]. constructor; [|done].
      apply andb_false_iff in E. lia.
Qed.

(** The point count of the pieces that are left of a gap. *)
Lemma gap_pieces g a b x :
  from g <= a -> a <= b -> b <= to g ->
  gap_count ((if from g <? a then [mkGap (from g) a] else [])
             ++ (if to g >? b then [mkGap b (to g)] else [])) x
  = indicator (inside (from g) (to g) x) - indicator (inside a b x).
Proof.
  intros. rewrite gap_count_app. unfold indicator, inside.
  case_bool; bool_to_prop; simpl; unfold indicator, inside; simpl; repeat case_decide; lia.
Qed.

Lemma Consume_count {V U C} b (u : update V U C) ok b' x :
  0 <= Count u -> Consume b u = (ok, b') ->
  gap_count b' x = gap_count b x - (if ok then indicator (inside (start u) (stop u) x) else 0).
Proof.
  intros Hc H. apply consume_loop_spec in H. destruct ok.
  - destruct H as (g & l1 & l2 & -> & H1 & H2 & ->).
    rewrite app_nil_l, !(gap_count_app l1), (gap_count_app l2), gap_pieces
      by (unfold start, stop in *; lia). simpl. lia.
  - destruct H as [-> _]. rewrite app_nil_l. lia.
Qed.

Lemma Has_false b : Has b = false <-> b = [].
Proof. unfold Has. destruct b; [done|]. rewrite zlen_cons. pose proof (zlen_nonneg b). split; [lia|done]. Qed.

(** ** Sorting *)

Section Sorting.
Context {V U C : Type}.
Abbreviation update := (update V U C).
Definition start_le (u v : update) : Prop := start u <= start v.

Lemma insert_perm (u : update) l : insert_by_start u l ≡ₚ u :: l.
Proof.
  induction l as [|v l IH]; simpl; [done|]. case_bool; [done|].
  rewrite IH. apply Permutation_swap.
Qed.

Lemma sort_perm (l : list update) : sort_by_start l ≡ₚ l.
Proof. induction l as [|u l IH]; simpl; [done|]. rewrite insert_perm. by constructor. Qed.

Lemma insert_sorted (u : update) l :
  StronglySorted start_le l -> StronglySorted start_le (insert_by_start u l).
Proof.
  induction 1 as [|v l Hl IH Hv]; simpl; [by repeat constructor|]. case_bool; bool_to_prop.
  - constructor; [by constructor|]. constructor; [done|].
    eapply Forall_impl; [exact Hv|]. intros w. unfold start_le. lia.
  - constructor; [done|]. rewrite insert_perm. constructor; [unfold start_le; lia|done].
Qed.

Lemma sort_sorted (l : list update) : StronglySorted start_le (sort_by_start l).
Proof. induction l; simpl; [constructor|by apply insert_sorted]. Qed.
End Sorting.

(** ** Histories *)

Section Chain.
Context {V U C : Type}.
Abbreviation update := (update V U C).
Implicit Types (h : list update) (u v : update).

(** [chain s h]: the updates of [h] follow each other from position [s]. *)
Fixpoint chain (s : Z) h : Prop :=
  match h with
  | [] => True
  | u :: h => start u = s /\ 0 < Count u /\ State u <> 0 /\ chain (State u) h
  end.

(** The position after [h]. *)
Definition final (s : Z) h : Z := fold_left (fun _ u => State u) h s.

Lemma final_app s h1 h2 : final s (h1 ++ h2) = final (final s h1) h2.
Proof. apply fold_left_app. Qed.

Lemma chain_app s h1 h2 : chain s (h1 ++ h2) <-> chain s h1 /\ chain (final s h1) h2.
Proof.
  revert s. induction h1 as [|u h1 IH]; intros s; simpl; [tauto|].
  rewrite IH. unfold final. simpl. tauto.
Qed.

Lemma chain_bounds s h u :
  chain s h -> u ∈ h -> s <= start u /\ start u < stop u /\ stop u <= final s h /\ State u <> 0.
Proof.
  revert s. induction h as [|v h IH]; intros s Hc Hu; [by apply not_elem_of_nil in Hu|].
  destruct Hc as (Hs & Hc & H0 & Hch).
  assert (State v <= final (State v) h) as Hf.
  { clear -Hch. revert Hch. generalize (State v). induction h as [|w h IH]; intros s; simpl; [lia|].
    intros (? & ? & ? & H). apply IH in H. unfold start, final in *. simpl. lia. }
  unfold final in *. simpl. apply elem_of_cons in Hu as [->|Hu].
  - unfold start, stop in *. lia.
  - apply (IH _ Hch) in Hu. unfold start, stop in *. lia.
Qed.

Lemma chain_final s h : chain s h -> s <= final s h.
Proof.
  destruct h as [|u h]; [done|]. intros H.
  destruct (chain_bounds s (u :: h) u H) as (? & ? & ? & _); [left|]. lia.
Qed.

Lemma chain_disjoint s h u v :
  chain s h -> u ∈ h -> v ∈ h -> u = v \/ stop u <= start v \/ stop v <= start u.
Proof.
  revert s. induction h as [|w h IH]; intros s Hc Hu Hv; [by apply not_elem_of_nil in Hu|].
  destruct Hc as (Hs & Hcnt & _ & Hch).
  apply elem_of_cons in Hu as [->|Hu]; apply elem_of_cons in Hv as [->|Hv]; [by left|..].
  - apply (chain_bounds _ _ _ Hch) in Hv. unfold stop. lia.
  - apply (chain_bounds _ _ _ Hch) in Hu. unfold stop. lia.
  - by apply (IH _ Hch).
Qed.

(** The only update of a chain at its first position is its head. *)
Lemma chain_head s h v : chain s h -> v ∈ h -> start v = s -> exists h', h = v :: h'.
Proof.
  destruct h as [|u h]; intros Hc Hv Hs; [by apply not_elem_of_nil in Hv|].
  apply elem_of_cons in Hv as [->|Hv]; [by eexists|]. destruct Hc as (? & ? & _ & Hch).
  apply (chain_bounds _ _ _ Hch) in Hv. unfold start in *. lia.
Qed.

Lemma chain_point s h x :
  chain s h -> s <= x < final s h -> exists u, (u ∈ h) /\ inside (start u) (stop u) x.
Proof.
  revert s. induction h as [|u h IH]; intros s Hc Hx; [unfold final in Hx; simpl in Hx; lia|].
  destruct Hc as (Hs & Hcnt & _ & Hch). unfold final in Hx. simpl in Hx.
  destruct (Z.lt_ge_cases x (State u)).
  - exists u. split; [left|]. unfold inside, start, stop in *. lia.
  - destruct (IH _ Hch) as (v & Hv & Hin); [unfold final; lia|]. exists v. by split; [right|].
Qed.

(** A position inside no update of the history. *)
Definition cut h (x : Z) : Prop := forall u, u ∈ h -> x <= start u \/ stop u <= x.

Lemma chain_cuts s h v : chain s h -> v ∈ h -> cut h (start v) /\ cut h (stop v).
Proof.
  intros Hc Hv. split; intros u Hu;
    pose proof (chain_bounds _ _ _ Hc Hv); pose proof (chain_bounds _ _ _ Hc Hu);
    destruct (chain_disjoint _ _ _ _ Hc Hu Hv) as [->|?]; lia.
Qed.

Lemma chain_split_cut s h1 h2 : chain s (h1 ++ h2) -> cut (h1 ++ h2) (final s h1).
Proof.
  intros Hc u Hu. apply chain_app in Hc as [H1 H2]. apply elem_of_app in Hu as [Hu|Hu].
  - right. by apply (chain_bounds _ _ _ H1).
  - left. by apply (chain_bounds _ _ _ H2).
Qed.
End Chain.

(** The gaps of a box: exactly the positions of [lo, hi) that no update of [ps]
    covers, in pieces that start and end between updates of the history. *)
Definition gaps_are {V U C} (h : list (update V U C)) (lo hi : Z) (ps : list (update V U C))
    (g : gapBuffer) : Prop :=
  (forall x, gap_count g x =
     indicator (inside lo hi x /\ Forall (fun v => ~ inside (start v) (stop v) x) ps)) /\
  Forall (fun g => from g < to g /\ cut h (from g) /\ cut h (to g)) g.

Section Gaps.
Context {V U C : Type} (h : list (update V U C)) (s0 : Z) (Hchain : chain s0 h).

(** The pieces of a consumed gap are again well placed. *)
Lemma Consume_pieces g v ok g' :
  Forall (fun g => from g < to g /\ cut h (from g) /\ cut h (to g)) g ->
  v ∈ h -> Consume g v = (ok, g') ->
  Forall (fun g => from g < to g /\ cut h (from g) /\ cut h (to g)) g'.
Proof.
  intros Hg Hv H. destruct (chain_cuts s0 h v Hchain Hv) as [Hc1 Hc2].
  apply consume_loop_spec in H. destruct ok; [|by destruct H as [-> _]].
  destruct H as (g0 & l1 & l2 & -> & H1 & H2 & ->).
  apply Forall_app in Hg as [Hl1 Hg]. apply Forall_cons in Hg as [(? & ? & ?) Hl2].
  rewrite app_nil_l, !Forall_app. split; [done|]. split; [done|].
  split; case_bool; bool_to_prop; constructor; simpl; try done; split; done || lia.
Qed.

Lemma gaps_are_step lo hi ps g v ok g' :
  gaps_are h lo hi ps g -> v ∈ h -> Consume g v = (ok, g') ->
  gaps_are h lo hi (ps ++ [v]) g' /\ (ok = true <-> 0 < gap_count g (start v)).
Proof.
  intros [Hcnt Hg] Hv H. destruct (chain_bounds s0 h v Hchain Hv) as (_ & Hlt & _ & _).
  assert (0 <= Count v) as Hc0 by (unfold start, stop in Hlt; lia).
  pose proof (consume_loop_spec _ _ _ _ _ _ H) as Hspec.
  assert (forall x, inside (start v) (stop v) x ->
            (0 < gap_count g x <-> 0 < gap_count g (start v))) as Hall.
  { intros x Hx. unfold inside in *. rewrite !gap_count_pos.
    split; intros (g0 & Hin & Hi); exists g0; (split; [done|]); unfold inside in *;
      rewrite Forall_forall in Hg; destruct (Hg g0 Hin) as (_ & Hf & Ht);
      destruct (Hf v Hv), (Ht v Hv); lia. }
  assert (ok = true <-> 0 < gap_count g (start v)) as Hok.
  { destruct ok.
    - split; [|done]. intros _. destruct Hspec as (g0 & l1 & l2 & -> & ? & ? & _).
      apply gap_count_pos. exists g0. split; [apply elem_of_app; right; left|]. unfold inside. lia.
    - split; [done|]. intros Hp. exfalso. destruct Hspec as [_ Hno].
      apply gap_count_pos in Hp as (g0 & Hin & Hi). rewrite Forall_forall in Hno, Hg.
      apply (Hno g0 Hin). destruct (Hg g0 Hin) as (_ & _ & Ht). unfold inside in Hi.
      destruct (Ht v Hv); lia. }
  split; [|done]. split; [|by eapply Consume_pieces].
  intros x. rewrite (Consume_count g v ok g' x Hc0 H), Hcnt. specialize (Hall x). specialize (Hcnt x).
  destruct (indicator_cases (inside lo hi x /\
    Forall (fun v => ~ inside (start v) (stop v) x) ps)) as [[H1 E1]|[H1 E1]]; rewrite E1 in *;
  destruct (indicator_cases (inside lo hi x /\
    Forall (fun v => ~ inside (start v) (stop v) x) (ps ++ [v]))) as [[H2 E2]|[H2 E2]]; rewrite E2;
  rewrite Forall_app, Forall_singleton in H2;
  destruct (indicator_cases (inside (start v) (stop v) x)) as [[H3 E3]|[H3 E3]]; rewrite ?E3;
  destruct ok; try tauto; try lia.
  - exfalso. assert (0 < gap_count g x) as Hp by lia. apply (Hall H3), Hok in Hp. done.
  - exfalso. assert (true = true) as Ht by done. apply Hok, Hall in Ht; [lia|done].
Qed.

Lemma gaps_are_all lo hi ps us g :
  gaps_are h lo hi ps g -> (forall v, v ∈ us -> v ∈ h) ->
  gaps_are h lo hi (ps ++ us) (consume_all us g).
Proof.
  revert ps g. induction us as [|v us IH]; intros ps g Hg Hus; [by rewrite app_nil_r|].
  unfold consume_all. simpl. destruct (Consume g v) as [ok g'] eqn:E.
  destruct (gaps_are_step lo hi ps g v ok g' Hg) as [Hg' _]; [apply Hus; left|done|].
  change (ps ++ v :: us) with (ps ++ [v] ++ us). rewrite app_assoc. apply IH; [done|]. intros w Hw. apply Hus. by right.
Qed.
End Gaps.

(** What the box relies on in its callback: it reports no error, leaves the box
    alone, and hands the updates over. *)
Class Applier {V U C W} (apply : Z -> list (update V U C) -> GoM (W * sequenceBox V U C) unit)
    (dispatched : W -> list (update V U C)) : Prop :=
  apply_spec st us w s : exists w',
    apply st us (w, s) = (Ok tt, (w', s)) /\ dispatched w' = dispatched w ++ us.

Section History.
Context {V U C W : Type}.
Abbreviation update := (update V U C).
Abbreviation box := (sequenceBox V U C).
Context (apply : Z -> list update -> GoM (W * box) unit) (dispatched : W -> list update)
        `{!Applier apply dispatched}.
Context (h : list update) (s0 : Z) (Hchain : chain s0 h).

(** The loop accepts exactly the next updates of the history that are in the
    sorted buffer, and stops before the first one that is out of reach. *)
Lemma pending_loop_history l : forall i acc pre suf,
  h = pre ++ suf -> StronglySorted start_le l -> (forall v, v ∈ l -> v ∈ h) ->
  exists n mid suf',
    suf = mid ++ suf' /\
    pending_loop i l i (final s0 pre) acc = ((i + n)%nat, final s0 (pre ++ mid), acc ++ mid) /\
    (forall v, v ∈ drop n l -> v ∈ suf' /\ final s0 (pre ++ mid) < start v) /\
    (forall v, v ∈ l -> v ∈ pre ++ mid \/ v ∈ drop n l).
Proof.
  induction l as [|u l IH]; intros i acc pre suf Hh Hs Hl.
  { exists 0%nat, [], suf. rewrite !app_nil_r, Nat.add_0_r. simpl.
    split_and!; try done; intros v Hv; by apply not_elem_of_nil in Hv. }
  assert (Hc := Hchain). rewrite Hh in Hc. apply chain_app in Hc as [Hpre Hsuf].
  assert (u ∈ h) as Hu by (apply Hl; left). apply StronglySorted_inv in Hs as [Hs Hfirst].
  destruct (chain_bounds s0 h u Hchain Hu) as (_ & Hlt & _ & H0). simpl.
  pose proof (checkGap_spec (final s0 pre) u H0) as Hck.
  rewrite Hh, elem_of_app in Hu.
  destruct (checkGap _ _ _).
  - destruct Hu as [Hu|Hu]; [apply (chain_bounds _ _ _ Hpre) in Hu; lia|].
    destruct (chain_head _ _ _ Hsuf Hu Hck) as [suf1 ->].
    destruct (IH (S i) (acc ++ [u]) (pre ++ [u]) suf1) as (n & mid & suf' & -> & Hrun & Hrest & Hall).
    { by rewrite <- app_assoc. } { done. } { intros v Hv. apply Hl. by right. }
    rewrite final_app in Hrun at 1. unfold final at 1 in Hrun. simpl in Hrun.
    exists (S n), (u :: mid), suf'. rewrite <- !app_assoc in *. simpl in *.
    split_and!; [done| |done|].
    + rewrite Hrun. do 2 f_equal. lia.
    + intros v Hv. apply elem_of_cons in Hv as [->|Hv]; [|by apply Hall].
      left. apply elem_of_app. right. left.
  - destruct Hu as [Hu|Hu]; [|apply (chain_bounds _ _ _ Hsuf) in Hu; lia].
    destruct (IH (S i) acc pre suf Hh Hs) as (n & mid & suf' & -> & Hrun & Hrest & Hall).
    { intros v Hv. apply Hl. by right. }
    exists (S n), mid, suf'. rewrite Hrun. split_and!; [done| |done|].
    + do 2 f_equal. lia.
    + intros v Hv. apply elem_of_cons in Hv as [->|Hv]; [|by apply Hall].
      left. apply elem_of_app. by left.
  - exists 0%nat, [], suf. rewrite !app_nil_r, Nat.add_0_r. simpl.
    split_and!; [done|done| |by right].
    intros v Hv. assert (start u <= start v) as Hle.
    { apply elem_of_cons in Hv as [->|Hv]; [done|]. rewrite Forall_forall in Hfirst. by apply Hfirst. }
    split; [|lia]. apply Hl in Hv. rewrite Hh in Hv. apply elem_of_app in Hv as [Hv|Hv]; [|done].
    apply (chain_bounds _ _ _ Hpre) in Hv. lia.
Qed.

(** The invariant: a prefix of the history has been handed over, the state is
    its end, and what was delivered is in it or pending. *)
Record in_order (delivered : list update) (w : W) (s : box) : Prop := {
  io_split : exists suf, h = dispatched w ++ suf /\ (forall v, v ∈ pending s -> v ∈ suf);
  io_state : state s = final s0 (dispatched w);
  io_delivered v : v ∈ delivered -> v ∈ dispatched w \/ v ∈ pending s;
  io_no_gap : gaps s = [] -> forall v, v ∈ pending s -> state s < start v;
  io_gap : gaps s <> [] -> exists hi,
    hi <= final s0 h /\ gaps_are h (state s) hi (pending s) (gaps s) /\ gapTimeout s = true;
}.

Lemma in_order_elem delivered w s v : in_order delivered w s -> v ∈ pending s -> v ∈ h.
Proof. intros [(suf & -> & Hp) _ _ _ _] Hv. apply elem_of_app. right. by apply Hp. Qed.

Lemma applyPending_history delivered w s :
  (exists suf, h = dispatched w ++ suf /\ (forall v, v ∈ pending s -> v ∈ suf)) ->
  state s = final s0 (dispatched w) -> gaps s = [] ->
  (forall v, v ∈ delivered -> v ∈ dispatched w \/ v ∈ pending s) ->
  exists w' s', applyPending apply (w, s) = (Ok tt, (w', s')) /\ in_order delivered w' s'.
Proof.
  intros (suf & Hh & Hp) Hst Hg Hd. unfold applyPending. erewrite bind_ok by done.
  cbn [snd]. set (sorted := sort_by_start (pending s)).
  assert (forall v, v ∈ sorted <-> v ∈ pending s) as Hperm.
  { intros v. subst sorted. by rewrite sort_perm. }
  destruct (pending_loop_history sorted 0 [] (dispatched w) suf Hh (sort_sorted _))
    as (n & mid & suf' & -> & Hrun & Hrest & Hall).
  { intros v Hv. apply Hperm, Hp in Hv. rewrite Hh. apply elem_of_app. by right. }
  rewrite Hst, Hrun. simpl. erewrite bind_ok by done.
  assert (forall w', dispatched w' = dispatched w ++ mid ->
    in_order delivered w' (mkBox (final s0 (dispatched w ++ mid)) (gaps s) (gapTimeout s) (drop n sorted)))
    as Hio.
  { intros w' Hw'. split; simpl; rewrite ?Hw'.
    - exists suf'. rewrite <- app_assoc. split; [done|]. intros v Hv. by apply Hrest.
    - done.
    - intros v Hv. apply Hd in Hv as [Hv|Hv]; [left; apply elem_of_app; by left|].
      by apply Hall, Hperm.
    - intros _ v Hv. by apply Hrest.
    - done. }
  destruct mid as [|m mid].
  - eexists _, _. split; [done|]. rewrite <- (app_nil_r (dispatched w)) in Hst.
    rewrite Hst. by apply Hio; rewrite app_nil_r.
  - replace (zlen (m :: mid) =? 0) with false by (rewrite zlen_cons; pose proof (zlen_nonneg mid); lia).
    destruct (apply_spec (final s0 (dispatched w ++ m :: mid)) (m :: mid) w
                (mkBox (state s) (gaps s) (gapTimeout s) (drop n sorted))) as (w' & Ha & Hw').
    erewrite bind_ok by exact Ha. eexists _, _. split; [done|]. by apply Hio.
Qed.

Lemma in_order_init w : dispatched w = [] -> in_order [] w (newSequenceBox s0).
Proof.
  intros Hw. split; simpl; rewrite ?Hw.
  - exists h. split; [done|]. intros v Hv. by apply not_elem_of_nil in Hv.
  - done.
  - intros v Hv. by apply not_elem_of_nil in Hv.
  - intros _ v Hv. by apply not_elem_of_nil in Hv.
  - done.
Qed.

(** The first gap of an update out of reach. *)
Lemma gaps_are_enable w suf u :
  h = dispatched w ++ suf -> u ∈ h -> final s0 (dispatched w) < start u ->
  gaps_are h (final s0 (dispatched w)) (start u) [] [mkGap (final s0 (dispatched w)) (start u)].
Proof.
  intros Hh Hu Hlt. split.
  - intros x. simpl. rewrite Z.add_0_r. unfold indicator.
    pose proof (List.Forall_nil (fun v : update => ~ inside (start v) (stop v) x)).
    repeat case_decide; tauto.
  - constructor; [|done]. simpl. split; [done|]. split.
    + rewrite Hh. apply chain_split_cut. by rewrite <- Hh.
    + by apply (chain_cuts s0 h u Hchain Hu).
Qed.

(** An update of the history is either handed over already, or at or after
    the state. *)
Lemma in_order_side delivered w s u :
  in_order delivered w s -> u ∈ h ->
  (start u < state s /\ u ∈ dispatched w) \/
  (state s <= start u /\ exists suf, h = dispatched w ++ suf /\ chain (state s) suf /\ u ∈ suf /\
     (forall v, v ∈ pending s ++ [u] -> v ∈ suf)).
Proof.
  intros [(suf & Hh & Hp) Hst _ _ _] Hu.
  assert (Hc := Hchain). rewrite Hh in Hc. apply chain_app in Hc as [Hpre Hsuf]. rewrite <- Hst in Hsuf.
  rewrite Hh in Hu. apply elem_of_app in Hu as [Hu|Hu].
  - left. split; [|done]. apply (chain_bounds _ _ _ Hpre) in Hu. rewrite <- Hst in Hu. lia.
  - right. split; [apply (chain_bounds _ _ _ Hsuf) in Hu; lia|]. exists suf. split_and!; try done.
    intros v Hv. apply elem_of_app in Hv as [Hv|Hv]; [by apply Hp|].
    by apply list_elem_of_singleton in Hv as ->.
Qed.

Lemma in_order_deliver delivered w s u v :
  in_order delivered w s -> v ∈ delivered ++ [u] -> v ∈ dispatched w \/ v ∈ pending s ++ [u].
Proof.
  intros Hio Hv. rewrite elem_of_app in Hv |- *. destruct Hv as [Hv|Hv]; [|by auto].
  destruct (io_delivered _ _ _ Hio v Hv); auto.
Qed.

(** An outdated update changes nothing. *)
Lemma in_order_old delivered w s u :
  in_order delivered w s -> u ∈ dispatched w -> in_order (delivered ++ [u]) w s.
Proof.
  intros [Hs Hst Hd Hng Hg] Hu. split; try done. intros v Hv.
  apply elem_of_app in Hv as [Hv|Hv]; [by apply Hd|]. left. by apply list_elem_of_singleton in Hv as ->.
Qed.

Lemma Handle_open delivered w s u :
  in_order delivered w s -> u ∈ h -> state s <= start u -> gaps s <> [] ->
  exists w' s', Handle apply u (w, s) = (Ok tt, (w', s')) /\ in_order (delivered ++ [u]) w' s'.
Proof.
  intros Hio Hu Hle Hne. destruct (chain_bounds s0 h u Hchain Hu) as (_ & _ & _ & H0).
  destruct (in_order_side _ _ _ _ Hio Hu) as [[? _]|(_ & suf & Hh & _ & _ & Hpu)]; [lia|].
  pose proof (fun v => in_order_deliver delivered w s u v Hio) as Hdu.
  destruct (io_gap _ _ _ Hio Hne) as (hi & Hhi & Hga & Htm).
  destruct (Consume (gaps s) u) as [ok g'] eqn:EC.
  destruct (gaps_are_step h s0 Hchain _ _ _ _ _ _ _ Hga Hu EC) as [Hga' _].
  assert (Hst := io_state _ _ _ Hio).
  assert (g' <> [] -> in_order (delivered ++ [u]) w
            (mkBox (state s) g' (gapTimeout s) (pending s ++ [u]))) as Hopen.
  { intros Hg'. split; simpl; [by exists suf|done|done|done|]. intros _. by exists hi. }
  assert (ok = false -> g' = gaps s) as Hsame.
  { intros ->. by apply consume_loop_spec in EC as [-> _]. }
  unfold Handle. erewrite bind_ok by done. cbn [snd]. rewrite EC.
  assert (Has (gaps s) = true) as -> by (destruct (Has (gaps s)) eqn:E; [done|by apply Has_false in E]).
  pose proof (checkGap_spec (state s) u H0) as Hck.
  destruct (checkGap _ _ _); [|lia|];
    (erewrite bind_ok by done; erewrite bind_ok by done;
     destruct ok; simpl; [|eexists _, _; split; [done|]; apply Hopen; by rewrite Hsame];
     destruct (Has g') eqn:EH'; simpl;
     [eexists _, _; split; [done|]; apply Hopen; intros E; apply Has_false in E; congruence|];
     apply Has_false in EH' as ->; erewrite bind_ok by done;
     apply applyPending_history; simpl; eauto).
Qed.

Lemma Handle_next delivered w s u :
  in_order delivered w s -> u ∈ h -> start u = state s -> gaps s = [] -> pending s = [] ->
  exists w', apply (State u) [u] (w, s) = (Ok tt, (w', s)) /\
    in_order (delivered ++ [u]) w' (mkBox (State u) (gaps s) (gapTimeout s) (pending s)).
Proof.
  intros Hio Hu Heq Hg Hnil.
  destruct (in_order_side _ _ _ _ Hio Hu) as [[? _]|(_ & suf & Hh & Hsuf & Hus & _)]; [lia|].
  destruct (chain_head _ _ _ Hsuf Hus Heq) as [suf1 ->].
  destruct (apply_spec (State u) [u] w s) as (w' & Ha & Hw'). exists w'. split; [done|].
  split; simpl; rewrite ?Hw', ?Hnil, ?Hg.
  - exists suf1. rewrite <- app_assoc. split; [done|]. intros v Hv. by apply not_elem_of_nil in Hv.
  - by rewrite final_app.
  - intros v Hv. left. apply (in_order_deliver _ _ _ _ _ Hio) in Hv. rewrite Hnil in Hv.
    by rewrite elem_of_app.
  - intros _ v Hv. by apply not_elem_of_nil in Hv.
  - done.
Qed.

Lemma Handle_closed delivered w s u :
  in_order delivered w s -> u ∈ h -> state s <= start u -> gaps s = [] ->
  exists w' s', Handle apply u (w, s) = (Ok tt, (w', s')) /\ in_order (delivered ++ [u]) w' s'.
Proof.
  intros Hio Hu Hle Hg. destruct (chain_bounds s0 h u Hchain Hu) as (_ & Hlt & Hfin & H0).
  destruct (in_order_side _ _ _ _ Hio Hu) as [[? _]|(_ & suf & Hh & Hsuf & Hus & Hpu)]; [lia|].
  pose proof (fun v => in_order_deliver delivered w s u v Hio) as Hdu.
  assert (Hst := io_state _ _ _ Hio).
  unfold Handle. erewrite bind_ok by done. cbn [snd]. rewrite Hg.
  pose proof (checkGap_spec (state s) u H0) as Hck. destruct (checkGap _ _ _); [|lia|].
  - simpl. destruct (zlen (pending s) >? 0) eqn:Ez.
    { erewrite bind_ok by done. apply applyPending_history; simpl; eauto. }
    assert (pending s = []) as Hnil.
    { destruct (pending s); [done|]. rewrite zlen_cons in Ez. pose proof (zlen_nonneg l). lia. }
    destruct (Handle_next _ _ _ _ Hio Hu Hck Hg Hnil) as (w' & Ha & Hio').
    erewrite bind_ok by exact Ha. eauto.
  - simpl. erewrite bind_ok by done. simpl. erewrite bind_ok by done. set (g := consume_all _ _).
    assert (gaps_are h (state s) (start u) (pending s ++ [u]) g) as Hga.
    { subst g. apply (gaps_are_all h s0 Hchain _ _ []).
      - rewrite Hst. eapply gaps_are_enable; [done|done|lia].
      - intros v Hv. rewrite Hh. apply elem_of_app. right. by apply Hpu. }
    destruct (Has g) eqn:EHg; simpl.
    + eexists _, _. split; [done|]. split; simpl; [by exists suf|done|done| |].
      { intros E. apply Has_false in E. congruence. }
      intros _. exists (start u). split; [lia|]. by split.
    + apply Has_false in EHg. apply applyPending_history; simpl; eauto.
Qed.

Lemma Handle_history delivered w s u :
  in_order delivered w s -> u ∈ h ->
  exists w' s', Handle apply u (w, s) = (Ok tt, (w', s')) /\ in_order (delivered ++ [u]) w' s'.
Proof.
  intros Hio Hu. destruct (in_order_side _ _ _ _ Hio Hu) as [[Hlt Hold]|[Hle _]].
  - eexists w, s. split; [|by apply in_order_old]. unfold Handle. erewrite bind_ok by done. cbn [snd].
    pose proof (checkGap_spec (state s) u ltac:(by apply (chain_bounds s0 h u Hchain))) as Hck.
    destruct (checkGap _ _ _); [lia|done|lia].
  - destruct (decide (gaps s = [])); [by eapply Handle_closed|by eapply Handle_open].
Qed.

(** A sequence of deliveries. *)
Fixpoint handle_all (us : list update) : GoM (W * box) unit :=
  match us with
  | [] => ret tt
  | u :: us => Handle apply u ;;! handle_all us
  end.

Lemma handle_all_history us delivered w s :
  in_order delivered w s -> (forall u, u ∈ us -> u ∈ h) ->
  exists w' s', handle_all us (w, s) = (Ok tt, (w', s')) /\ in_order (delivered ++ us) w' s'.
Proof.
  revert delivered w s. induction us as [|u us IH]; intros delivered w s Hio Hus.
  { exists w, s. by rewrite app_nil_r. }
  destruct (Handle_history _ _ _ u Hio) as (w1 & s1 & E1 & Hio1); [apply Hus; left|].
  destruct (IH _ _ _ Hio1) as (w2 & s2 & E2 & Hio2); [intros v Hv; apply Hus; by right|].
  exists w2, s2. rewrite <- app_assoc in Hio2. split; [|done]. simpl. by erewrite bind_ok by exact E1.
Qed.

(** Once everything was delivered nothing is missing. *)
Lemma in_order_complete delivered w s :
  in_order delivered w s -> (forall u, u ∈ h -> u ∈ delivered) ->
  dispatched w = h /\ state s = final s0 h /\ pending s = [] /\ gaps s = [].
Proof.
  intros [(suf & Hh & Hp) Hst Hd Hng Hgap] Hall.
  assert (Hc := Hchain). rewrite Hh in Hc. apply chain_app in Hc as [Hpre Hsuf].
  assert (forall v, v ∈ suf -> v ∈ pending s) as Hsp.
  { intros v Hv. destruct (Hd v) as [Hv'|]; [..|done].
    - apply Hall. rewrite Hh. apply elem_of_app. by right.
    - apply (chain_bounds _ _ _ Hpre) in Hv'. apply (chain_bounds _ _ _ Hsuf) in Hv. lia. }
  assert (gaps s = []) as Hg.
  { destruct (decide (gaps s = [])) as [|Hne]; [done|]. exfalso.
    destruct (Hgap Hne) as (hi & Hhi & [Hcnt Hok] & _).
    destruct (gaps s) as [|g gs]; [done|]. apply Forall_cons in Hok as [(Hlt & _ & _) _].
    assert (0 < gap_count (g :: gs) (from g)) as Hpos.
    { apply gap_count_pos. exists g. split; [left|]. unfold inside. lia. }
    rewrite Hcnt in Hpos. unfold indicator in Hpos.
    destruct (decide _) as [[Hin Hno]|]; [|lia]. unfold inside in Hin.
    destruct (chain_point _ _ (from g) Hsuf) as (u & Hu & Hiu).
    { rewrite <- final_app, <- Hh. lia. }
    rewrite Forall_forall in Hno. by apply (Hno u (Hsp u Hu)). }
  destruct suf as [|u suf].
  - rewrite app_nil_r in Hh. rewrite <- Hh in *. split_and!; try done.
    destruct (pending s) as [|v l]; [done|]. exfalso. apply (not_elem_of_nil v), Hp. left.
  - exfalso. assert (u ∈ pending s) as Hu by (apply Hsp; left). apply (Hng Hg) in Hu.
    destruct Hsuf as (Hs & _). lia.
Qed.
End History.

(** ** Arbitrary deliveries *)

Section Any.
Context {V U C W : Type}.
Abbreviation update := (update V U C).
Abbreviation box := (sequenceBox V U C).
Context (apply : Z -> list update -> GoM (W * box) unit) (dispatched : W -> list update)
        `{!Applier apply dispatched}.

(** Each update starts at the position the one before it ended. *)
Fixpoint linked (s : Z) (us : list update) : Prop :=
  match us with
  | [] => True
  | u :: us => start u = s /\ linked (State u) us
  end.

Lemma linked_app s us1 us2 : linked s (us1 ++ us2) <-> linked s us1 /\ linked (final s us1) us2.
Proof.
  revert s. induction us1 as [|u us1 IH]; intros s; simpl; [tauto|].
  rewrite IH. unfold final. simpl. tauto.
Qed.

Lemma pending_loop_linked l : forall i c s acc,
  Forall (fun u => State u <> 0) l ->
  exists c' us, pending_loop i l c s acc = (c', final s us, acc ++ us) /\ linked s us.
Proof.
  induction l as [|u l IH]; intros i c s acc Hl; simpl.
  { exists c, []. by rewrite app_nil_r. }
  apply Forall_cons in Hl as [H0 Hl]. pose proof (checkGap_spec s u H0) as Hck.
  destruct (checkGap _ _ _).
  - destruct (IH (S i) (S i) (State u) (acc ++ [u]) Hl) as (c' & us & -> & Hus).
    exists c', (u :: us). rewrite <- app_assoc. by repeat split.
  - destruct (IH (S i) (S i) s acc Hl) as (c' & us & -> & Hus). by exists c', us.
  - exists c, []. by rewrite app_nil_r.
Qed.

(** The invariant for deliveries that need not come from one history. *)
Record contiguous (s0 : Z) (w : W) (s : box) : Prop := {
  ct_linked : linked s0 (dispatched w);
  ct_state : state s = final s0 (dispatched w);
  ct_pending : Forall (fun u => State u <> 0) (pending s);
  ct_timer : gaps s <> [] -> gapTimeout s = true;
}.

Lemma applyPending_contiguous s0 w s :
  contiguous s0 w s -> gaps s = [] ->
  exists w' s', applyPending apply (w, s) = (Ok tt, (w', s')) /\ contiguous s0 w' s'.
Proof.
  intros [Hl Hst Hp Ht] Hg. unfold applyPending. erewrite bind_ok by done. cbn [snd].
  assert (Forall (fun u => State u <> 0) (sort_by_start (pending s))) as Hs by (by rewrite sort_perm).
  destruct (pending_loop_linked _ 0%nat 0%nat (state s) [] Hs) as (c & us & Hrun & Hus).
  rewrite Hrun. simpl. erewrite bind_ok by done.
  assert (Hd : Forall (fun u => State u <> 0) (drop c (sort_by_start (pending s))))
    by (by apply Forall_drop).
  destruct (zlen us =? 0) eqn:Ez.
  - eexists _, _. split; [done|]. by split.
  - destruct (apply_spec (final (state s) us) us w
      (mkBox (state s) (gaps s) (gapTimeout s) (drop c (sort_by_start (pending s))))) as (w' & Ha & Hw').
    erewrite bind_ok by exact Ha. eexists _, _. split; [done|].
    split; simpl; rewrite ?Hw', ?final_app, <- ?Hst; try done.
    rewrite linked_app, <- Hst. done.
Qed.

Lemma Handle_contiguous s0 w s u :
  contiguous s0 w s -> State u <> 0 ->
  exists w' s', Handle apply u (w, s) = (Ok tt, (w', s')) /\ contiguous s0 w' s'.
Proof.
  intros Hct H0. assert (Hct' := Hct). destruct Hct' as [Hl Hst Hp Ht].
  assert (Forall (fun u => State u <> 0) (pending s ++ [u])) as Hpu
    by (apply Forall_app; by rewrite Forall_singleton).
  assert (forall b, exists w' s',
    applyPending apply (w, mkBox (state s) [] b (pending s ++ [u])) = (Ok tt, (w', s')) /\
    contiguous s0 w' s') as Hap by (intros b; by apply applyPending_contiguous).
  unfold Handle. erewrite bind_ok by done. cbn [snd].
  pose proof (checkGap_spec (state s) u H0) as Hck.
  destruct (Has (gaps s)) eqn:EH.
  - assert (gapTimeout s = true) as Htm by (apply Ht; intros E; apply Has_false in E; congruence).
    destruct (Consume (gaps s) u) as [ok g'].
    destruct (checkGap _ _ _); [|by eexists _, _|];
      (erewrite bind_ok by done; erewrite bind_ok by done; destruct ok; simpl;
       [destruct (Has g') eqn:EH'; simpl;
        [|apply Has_false in EH' as ->; erewrite bind_ok by done; apply Hap]|];
       eexists _, _; (split; [done|]); by split).
  - apply Has_false in EH. rewrite EH. destruct (checkGap _ _ _); [| by eexists _, _ |].
    + destruct (zlen (pending s) >? 0).
      { erewrite bind_ok by done. rewrite <- EH in Hap. apply Hap. }
      destruct (apply_spec (State u) [u] w s) as (w' & Ha & Hw').
      erewrite bind_ok by exact Ha. eexists _, _. split; [done|].
      split; simpl; rewrite ?Hw', ?final_app, ?EH; try done.
      rewrite linked_app, <- Hst. by repeat split.
    + erewrite bind_ok by done. simpl. erewrite bind_ok by done.
      destruct (Has (consume_all _ _)) eqn:EHg; simpl.
      * eexists _, _. split; [done|]. by split.
      * apply Has_false in EHg as ->. apply Hap.
Qed.
End Any.

(** ** Invariants through the box *)

Section Preserve.
Context {V U C W : Type}.
Abbreviation update := (update V U C).
Abbreviation box := (sequenceBox V U C).
(** An assertion [I] on the world and the box that does not depend on the gaps
    and the timer, and allows any pending updates that are [good]; the callback
    leads to [J st], from which setting the state to [st] leads back to [I]. *)
Context (apply : Z -> list update -> GoM (W * box) unit) (good : update -> Prop)
        (I : W -> box -> Prop) (J : Z -> W -> box -> Prop) (E : error -> W -> box -> Prop).
Context (I_good : forall w b, I w b -> Forall good (pending b))
        (I_frame : forall w b b', I w b -> state b' = state b -> Forall good (pending b') -> I w b')
        (J_I : forall st w b, J st w b -> I w (mkBox st (gaps b) (gapTimeout b) (pending b)))
        (apply_post : forall st us w b, us <> [] -> Forall good us -> (forall s0, final s0 us = st) -> I w b ->
           post (apply st us) (w, b) (fun _ ws => J st (fst ws) (snd ws)) (fun e ws => E e (fst ws) (snd ws))).

Abbreviation kept := (fun ws : W * box => I (fst ws) (snd ws)).
Abbreviation failed := (fun e (ws : W * box) => E e (fst ws) (snd ws)).

Lemma pending_loop_accepts (l : list update) : forall i c s acc,
  exists c' us, pending_loop i l c s acc = (c', final s us, acc ++ us) /\ (forall u, u ∈ us -> u ∈ l).
Proof.
  induction l as [|u l IH]; intros i c s acc; simpl.
  { exists c, []. by rewrite app_nil_r. }
  destruct (checkGap _ _ _).
  - destruct (IH (S i) (S i) (State u) (acc ++ [u])) as (c' & us & -> & Hus).
    exists c', (u :: us). rewrite <- app_assoc. split; [done|]. intros v Hv.
    apply elem_of_cons in Hv as [->|Hv]; [left|right; auto].
  - destruct (IH (S i) (S i) s acc) as (c' & us & -> & Hus). exists c', us.
    split; [done|]. intros v Hv. right. auto.
  - exists c, []. rewrite app_nil_r. split; [done|]. intros v Hv. by apply not_elem_of_nil in Hv.
Qed.

Lemma run_apply_post st us w b :
  us <> [] -> Forall good us -> (forall s0, final s0 us = st) -> I w b ->
  post (apply st us ;;! setState st) (w, b) (fun _ => kept) failed.
Proof.
  intros Hne Hus Hst HI. eapply post_seq; [by apply apply_post|].
  intros _ [w' b'] HJ. unfold setState, with_box. apply post_modify. simpl. by apply J_I.
Qed.

Lemma applyPending_post w b :
  I w b -> post (applyPending apply) (w, b) (fun _ => kept) failed.
Proof.
  intros HI. assert (Hg := I_good _ _ HI). unfold applyPending. apply post_bind.
  unfold get_box, post at 1. simpl.
  destruct (pending_loop_accepts (sort_by_start (pending b)) 0 0 (state b) []) as (c & us & -> & Hus).
  apply post_bind. unfold set_pending, with_box. apply post_modify. simpl.
  assert (Forall good (sort_by_start (pending b))) as Hs by (by rewrite sort_perm).
  set (b' := mkBox _ _ _ _).
  assert (I w b') as HI' by (eapply I_frame; [exact HI|done|by apply Forall_drop]).
  destruct (zlen us =? 0) eqn:Ez; [done|].
  destruct us as [|u us]; [done|].
  apply run_apply_post; [done| | |done].
  - apply Forall_forall. intros v Hv. rewrite Forall_forall in Hs. by apply Hs, Hus.
  - intros s0. done.
Qed.

(** Whatever the update, the box keeps the assertion. *)
Lemma Handle_post u w b :
  good u -> I w b -> post (Handle apply u) (w, b) (fun _ => kept) failed.
Proof.
  intros Hu HI. assert (Hg := I_good _ _ HI).
  assert (Forall good (pending b ++ [u])) as Hp by (apply Forall_app; by rewrite Forall_singleton).
  assert (forall g t, I w (mkBox (state b) g t (pending b ++ [u]))) as Hb
    by (intros; by eapply I_frame).
  unfold Handle. apply post_bind. unfold get_box, post at 1. simpl.
  destruct (checkGap _ _ _) eqn:Eck; [|done|].
  all: destruct (Has (gaps b)) eqn:EH;
    [destruct (Consume (gaps b) u) as [ok g] eqn:EC; apply post_bind, post_modify; simpl;
     apply post_bind, post_modify; simpl; destruct ok; simpl; [|apply Hb];
     destruct (Has g); simpl; [apply Hb|]; apply post_bind, post_modify; apply applyPending_post, Hb|].
  - destruct (zlen (pending b) >? 0).
    + apply post_bind, post_modify. apply applyPending_post, Hb.
    + apply run_apply_post; [done|by apply Forall_singleton|done|done].
  - apply post_bind, post_modify. simpl. unfold Enable. apply Has_false in EH. rewrite EH. simpl.
    apply post_bind, post_modify. simpl. destruct (Has _); simpl.
    + apply post_modify. simpl. apply Hb.
    + apply applyPending_post, Hb.
Qed.
End Preserve.

(** ** A box as a part of a state *)

(** [s.pts.SetState(..)] *)
Definition box_state {V U C} (st : Z) (b : sequenceBox V U C) : sequenceBox V U C :=
  mkBox st (gaps b) (gapTimeout b) (pending b).
(** [s.pts.gaps.Clear()] *)
Definition box_clear {V U C} (b : sequenceBox V U C) : sequenceBox V U C :=
  mkBox (state b) (Clear (gaps b)) (gapTimeout b) (pending b).

Section Part.
Context {V U C W : Type}.
Abbreviation update := (update V U C).
Abbreviation box := (sequenceBox V U C).
Context (getb : W -> box) (setb : box -> W -> W).

(** A method of a box that is a field of [W]: it works on the box in the state,
    and its callback sees the whole state, the box included. *)
Definition on_box (apply : Z -> list update -> GoM W unit)
    (m : (Z -> list update -> GoM (W * box) unit) -> GoM (W * box) unit) : GoM W unit :=
  fun s =>
    let apply' st us '(w, b) := let '(r, w') := apply st us (setb b w) in (r, (w', getb w')) in
    let '(r, (w, b)) := m apply' (s, getb s) in
    (r, setb b w).

(** An update that is next in an idle box is applied. *)
Lemma on_box_next (apply : Z -> list update -> GoM W unit) (u : update) (s s1 : W) :
  setb (getb s) s = s -> gaps (getb s) = [] -> pending (getb s) = [] ->
  checkGap (state (getb s)) (State u) (Count u) = gapApply -> apply (State u) [u] s = (Ok tt, s1) ->
  on_box apply (fun a => Handle a u) s = (Ok tt, setb (box_state (State u) (getb s1)) s1).
Proof.
  intros Hset Hg Hp Hck Hap. unfold on_box, Handle, bind. cbn [get_box snd]. rewrite Hck, Hg, Hp.
  simpl. by rewrite Hset, Hap.
Qed.

Context (get_set : forall b s, getb (setb b s) = b) (set_get : forall s, setb (getb s) s = s)
        (set_set : forall b b' s, setb b (setb b' s) = setb b s).
Context (good : update -> Prop) (P : W -> Prop) (J : Z -> W -> Prop) (E : error -> W -> Prop)
        (apply : Z -> list update -> GoM W unit).
Context (P_good : forall s, P s -> Forall good (pending (getb s)))
        (P_frame : forall s b, P s -> state b = state (getb s) -> Forall good (pending b) -> P (setb b s))
        (J_P : forall st s, J st s -> P (setb (box_state st (getb s)) s))
        (apply_post : forall st us s, us <> [] -> Forall good us -> (forall s0, final s0 us = st) -> P s ->
           post (apply st us) s (fun _ => J st) E).

(** A handled update keeps what the callback keeps. *)
Lemma post_on_box u s : good u -> P s -> post (on_box apply (fun a => Handle a u)) s (fun _ => P) E.
Proof.
  intros Hu HP. unfold on_box. set (apply' := fun (st : Z) (us : list update) '(w, b) => _).
  pose proof (Handle_post apply' good (fun w b => P (setb b w)) (fun st w b => J st (setb b w))
    (fun e w b => E e (setb b w))) as HH.
  assert (post (Handle apply' u) (s, getb s) (fun _ ws => P (setb (snd ws) (fst ws)))
            (fun e ws => E e (setb (snd ws) (fst ws)))) as Hpost.
  { apply HH; clear HH; [| | | |done|by rewrite set_get].
    - intros w b Hw. apply P_good in Hw. by rewrite get_set in Hw.
    - intros w b b' Hw Hst Hb. rewrite <- (set_set b' b w). apply P_frame; [done| |done]. by rewrite get_set.
    - intros st w b HJ. apply J_P in HJ. by rewrite get_set, set_set in HJ.
    - intros st us w b Hne Hus Hst Hw. subst apply'. unfold post.
      pose proof (apply_post st us (setb b w) Hne Hus Hst Hw) as Hap. unfold post in Hap.
      destruct (apply st us (setb b w)) as [[] w']; simpl; rewrite ?set_get; exact Hap. }
  unfold post in *. destruct (Handle apply' u (s, getb s)) as [[] [w b]]; done.
Qed.
End Part.

(** ** Simulation between callbacks *)

Section Simulate.
Context {V U C W1 W2 : Type}.
Abbreviation update := (update V U C).
Abbreviation box := (sequenceBox V U C).
(** Two callbacks that succeed, leave the box alone and keep their worlds
    related take the box through the same states. *)
Context (apply1 : Z -> list update -> GoM (W1 * box) unit) (apply2 : Z -> list update -> GoM (W2 * box) unit)
        (good : update -> Prop) (R : W1 -> W2 -> Prop).
Context (apply_sim : forall st us w1 w2 b, Forall good us -> R w1 w2 ->
  exists w1' w2', apply1 st us (w1, b) = (Ok tt, (w1', b)) /\ apply2 st us (w2, b) = (Ok tt, (w2', b)) /\
    R w1' w2').

Definition simulated (m1 : GoM (W1 * box) unit) (m2 : GoM (W2 * box) unit) (w1 : W1) (w2 : W2) (b : box) : Prop :=
  exists w1' w2' b', m1 (w1, b) = (Ok tt, (w1', b')) /\ m2 (w2, b) = (Ok tt, (w2', b')) /\
    R w1' w2' /\ Forall good (pending b').

Lemma simulated_step {A} (m1 : GoM (W1 * box) A) (m2 : GoM (W2 * box) A) k1 k2 a w1 w2 b b' :
  m1 (w1, b) = (Ok a, (w1, b')) -> m2 (w2, b) = (Ok a, (w2, b')) ->
  simulated (k1 a) (k2 a) w1 w2 b' -> simulated (bind m1 k1) (bind m2 k2) w1 w2 b.
Proof. unfold simulated. intros H1 H2. by rewrite (bind_ok _ _ _ _ _ H1), (bind_ok _ _ _ _ _ H2). Qed.

Lemma simulated_end m1 m2 w1 w2 b b' :
  m1 (w1, b) = (Ok tt, (w1, b')) -> m2 (w2, b) = (Ok tt, (w2, b')) ->
  Forall good (pending b') -> R w1 w2 -> simulated m1 m2 w1 w2 b.
Proof. intros H1 H2 Hb HR. by exists w1, w2, b'. Qed.

Lemma run_apply_sim st us w1 w2 b :
  Forall good us -> Forall good (pending b) -> R w1 w2 ->
  simulated (apply1 st us ;;! setState st) (apply2 st us ;;! setState st) w1 w2 b.
Proof.
  intros Hus Hb HR. destruct (apply_sim st us w1 w2 b Hus HR) as (w1' & w2' & H1 & H2 & HR').
  unfold simulated. rewrite (bind_ok _ _ _ _ _ H1), (bind_ok _ _ _ _ _ H2). by eexists _, _, _.
Qed.

Ltac sim_step := eapply simulated_step; [reflexivity|reflexivity|]; cbn [state gaps pending gapTimeout snd].
Ltac sim_end := eapply simulated_end; [reflexivity|reflexivity| |]; done.

Lemma applyPending_sim w1 w2 b :
  Forall good (pending b) -> R w1 w2 -> simulated (applyPending apply1) (applyPending apply2) w1 w2 b.
Proof.
  intros Hb HR. unfold applyPending. sim_step.
  destruct (pending_loop_accepts (sort_by_start (pending b)) 0 0 (state b) []) as (c & us & -> & Hus).
  assert (Forall good (sort_by_start (pending b))) as Hs by (by rewrite sort_perm).
  sim_step. destruct (zlen ([] ++ us) =? 0).
  - eapply simulated_end; [reflexivity|reflexivity|by apply Forall_drop|done].
  - apply run_apply_sim; [|by apply Forall_drop|done].
    apply Forall_forall. intros v Hv. rewrite Forall_forall in Hs. by apply Hs, Hus.
Qed.

Lemma Handle_sim u w1 w2 b :
  good u -> Forall good (pending b) -> R w1 w2 -> simulated (Handle apply1 u) (Handle apply2 u) w1 w2 b.
Proof.
  intros Hu Hb HR.
  assert (Forall good (pending b ++ [u])) as Hp by (apply Forall_app; by rewrite Forall_singleton).
  assert (forall g t, simulated (applyPending apply1) (applyPending apply2) w1 w2
            (mkBox (state b) g t (pending b ++ [u]))) as Hap by (intros; by apply applyPending_sim).
  unfold Handle. sim_step. destruct (checkGap _ _ _); [|sim_end|].
  all: destruct (Has (gaps b)) eqn:EH;
    [destruct (Consume (gaps b) u) as [ok g]; sim_step; sim_step; destruct ok; cbn [negb]; [|sim_end];
     destruct (Has g); cbn [negb]; [sim_end|]; sim_step; apply Hap|].
  - destruct (zlen (pending b) >? 0); [sim_step; apply Hap|].
    apply run_apply_sim; [by apply Forall_singleton|done|done].
  - sim_step. unfold Enable. apply Has_false in EH. rewrite EH. simpl zlen. cbn [Z.gtb].
    sim_step. destruct (Has _); cbn [negb]; [sim_end|apply Hap].
Qed.
End Simulate.

(** ** Correctness of the sequence box *)

(** C1: a contiguous server history, delivered in any order and with any
    duplicates, is handed to the application exactly once, completely and in
    order; the box then waits at the end of the history with nothing pending. *)
Theorem history_applied_in_order {V U C W : Type}
    (apply : Z -> list (update V U C) -> GoM (W * sequenceBox V U C) unit)
    (dispatched : W -> list (update V U C)) `{!Applier apply dispatched}
    (h deliveries : list (update V U C)) (s0 : Z) (w : W) :
  chain s0 h -> dispatched w = [] ->
  (forall u, u ∈ h -> u ∈ deliveries) -> (forall u, u ∈ deliveries -> u ∈ h) ->
  exists w' s', handle_all apply deliveries (w, newSequenceBox s0) = (Ok tt, (w', s')) /\
    dispatched w' = h /\ state s' = final s0 h /\ pending s' = [] /\ gaps s' = [].
Proof.
  intros Hc Hw Hall Hsub.
  destruct (handle_all_history apply dispatched h s0 Hc deliveries [] w (newSequenceBox s0))
    as (w' & s' & Hrun & Hio); [by apply in_order_init|done|].
  exists w', s'. split; [done|]. by eapply in_order_complete.
Qed.

(** The callback that records what it is given. *)
Definition log_apply {V U C} (st : Z) (us : list (update V U C))
  : GoM (list (update V U C) * sequenceBox V U C) unit := modify (fun '(l, s) => (l ++ us, s)).
#[export] Instance log_applier {V U C} : Applier (log_apply (V:=V) (U:=U) (C:=C)) (fun l => l).
Proof. intros st us w s. by eexists. Qed.

Lemma history_applied_in_order_witness :
  let u st n : update unit unit unit := mkUpdate tt st n (mkEntities [] []) in
  exists w' s',
    handle_all log_apply [u 7 1; u 12 2; u 6 4; u 10 3; u 2 2; u 7 1] ([], newSequenceBox 0)
      = (Ok tt, (w', s')) /\
    w' = [u 2 2; u 6 4; u 7 1; u 10 3; u 12 2] /\
    state s' = final 0 [u 2 2; u 6 4; u 7 1; u 10 3; u 12 2] /\ pending s' = [] /\ gaps s' = [].
Proof.
  intros u.
  apply (history_applied_in_order log_apply (fun l => l) [u 2 2; u 6 4; u 7 1; u 10 3; u 12 2]
    [u 7 1; u 12 2; u 6 4; u 10 3; u 2 2; u 7 1] 0 []).
  - simpl. unfold start. simpl. lia.
  - reflexivity.
  - intros v. rewrite !elem_of_cons. tauto.
  - intros v. rewrite !elem_of_cons. tauto.
Defined.

(** Whatever updates with a position are delivered, the box does not panic
    or fail, each update it applies starts where the previous one ended, its
    state is the end of the last one, and an open gap always has its timer
    running. *)
Theorem handle_applies_contiguously {V U C W : Type}
    (apply : Z -> list (update V U C) -> GoM (W * sequenceBox V U C) unit)
    (dispatched : W -> list (update V U C)) `{!Applier apply dispatched}
    (us : list (update V U C)) (s0 : Z) (w : W) :
  dispatched w = [] -> Forall (fun u => State u <> 0) us ->
  exists w' s', handle_all apply us (w, newSequenceBox s0) = (Ok tt, (w', s')) /\
    linked s0 (dispatched w') /\ state s' = final s0 (dispatched w') /\
    (gaps s' <> [] -> gapTimeout s' = true).
Proof.
  intros Hw Hus.
  assert (contiguous dispatched s0 w (newSequenceBox s0)) as Hct by (split; simpl; rewrite ?Hw; done).
  revert Hct. generalize (newSequenceBox (V:=V) (U:=U) (C:=C) s0). clear Hw. revert w.
  induction Hus as [|u us Hu Hus IH]; intros w s Hct.
  { exists w, s. destruct Hct. by split. }
  destruct (Handle_contiguous apply dispatched s0 w s u Hct Hu) as (w1 & s1 & E1 & Hct1).
  destruct (IH w1 s1 Hct1) as (w2 & s2 & E2 & H2). exists w2, s2. split; [|done].
  simpl. by erewrite bind_ok by exact E1.
Qed.

Lemma handle_applies_contiguously_witness :
  let u st n : update unit unit unit := mkUpdate tt st n (mkEntities [] []) in
  exists w' s', handle_all log_apply [u 9 2; u 4 3; u 5 (-1); u 1 1] ([], newSequenceBox 0)
                = (Ok tt, (w', s')) /\
    linked 0 w' /\ state s' = final 0 w' /\ (gaps s' <> [] -> gapTimeout s' = true).
Proof.
  intros u. apply (handle_applies_contiguously log_apply (fun l => l)
                     [u 9 2; u 4 3; u 5 (-1); u 1 1] 0 []); [done|].
  repeat constructor; simpl; lia.
Defined.

(** Consuming an update removes exactly its positions from the gaps, when
    one gap contains all of them, and changes nothing otherwise. *)
Theorem gap_consume_exact {V U C : Type} (b : gapBuffer) (u : update V U C) (x : Z) :
  0 <= Count u ->
  let '(accepted, b') := Consume b u in
  (accepted = true <-> exists g, (g ∈ b) /\ from g <= start u /\ stop u <= to g) /\
  gap_count b' x =
    gap_count b x - (if accepted then indicator (inside (start u) (stop u) x) else 0) /\
  (accepted = false -> b' = b).
Proof.
  intros Hc. destruct (Consume b u) as [ok b'] eqn:E.
  pose proof (consume_loop_spec _ _ _ _ _ _ E) as Hs.
  split_and!; [|by apply Consume_count|by intros ->; destruct Hs].
  destruct ok; [destruct Hs as (g & l1 & l2 & -> & ? & ? & _)|destruct Hs as [_ Hs]]; split; try done.
  - intros _. exists g. split; [|done]. apply elem_of_app. right. left.
  - intros (g & Hin & ?). rewrite Forall_forall in Hs. by apply Hs in Hin.
Qed.

Lemma gap_consume_exact_witness :
  let u : update unit unit unit := mkUpdate tt 7 2 (mkEntities [] []) in
  let '(accepted, b') := Consume [mkGap 1 3; mkGap 4 9] u in
  (accepted = true <-> exists g, (g ∈ [mkGap 1 3; mkGap 4 9]) /\ from g <= start u /\ stop u <= to g) /\
  gap_count b' 5 = gap_count [mkGap 1 3; mkGap 4 9] 5 -
    (if accepted then indicator (inside (start u) (stop u) 5) else 0) /\
  (accepted = false -> b' = [mkGap 1 3; mkGap 4 9]).
Proof.
  intros u. apply (gap_consume_exact [mkGap 1 3; mkGap 4 9] u 5). simpl. lia.
Defined.
