(* ===== verification/Updates.v ===== *)
(** * telegram/updates: the state of an account

    Model of src/telegram/updates state.go and state_apply.go: the internal state
    of an account with its three sequence boxes, the date, the tracked channels
    and the storage, and every handler that changes it, as functions of the state.
    The remote API, the handler of the application and the storage interfaces are
    parameters.  getDifference and handleUpdates call each other; the depth of
    their calls is the depth of the call stack, which the theorems bound. *)
From S2P Require Import Prelude Tgerr Tg Storage Sequence.

(** ** The data *)

(** update.Value: a container in the seq box, an update or the marker of a
    messages.affected* result in the pts boxes. *)
Inductive value : Type :=
| VCombined (u : UpdatesCombined)
| VAffected
| VUpdate (u : UpdateClass).

Abbreviation ents := (Sequence.entities UserClass ChatClass).
Abbreviation upd := (Sequence.update value UserClass ChatClass).
Abbreviation box := (sequenceBox value UserClass ChatClass).
Definition no_entities : ents := mkEntities [] [].

Record channelUpdate : Type := mkChannelUpdate {
  cu_update : option UpdateClass;
  cu_entities : ents;
  cu_affected : bool;
  cu_pts : Z;
  cu_ptsCount : Z;
}.

(** What internalState knows of a channel worker: how it was started, whether
    it stopped, and the updates that were pushed to it. *)
Record channelHandle : Type := mkChannelHandle {
  ch_accessHash : Z;
  ch_initialPts : Z;
  ch_done : bool;
  ch_updates : list channelUpdate;
}.

Section State.
Context {S H UH : Type} `{!StateStorage S, !AccessHasher H, !AccessHasher UH}.

Record internalState : Type := mkInternalState {
  pts : box;
  qts : box;
  seq : box;
  date : Z;
  channels : gmap Z channelHandle;
  storage : S;
  hasher : H;
  userHasher : UH;
  calls : nat;                    (* requests sent so far *)
  dispatched : list Updates;      (* what the handler was given *)
  commonTooLong : nat;            (* calls of onCommonTooLong *)
}.

Definition set_pts b s := mkInternalState b (qts s) (seq s) (date s) (channels s) (storage s)
  (hasher s) (userHasher s) (calls s) (dispatched s) (commonTooLong s).
Definition set_qts b s := mkInternalState (pts s) b (seq s) (date s) (channels s) (storage s)
  (hasher s) (userHasher s) (calls s) (dispatched s) (commonTooLong s).
Definition set_seq b s := mkInternalState (pts s) (qts s) b (date s) (channels s) (storage s)
  (hasher s) (userHasher s) (calls s) (dispatched s) (commonTooLong s).
Definition set_date d s := mkInternalState (pts s) (qts s) (seq s) d (channels s) (storage s)
  (hasher s) (userHasher s) (calls s) (dispatched s) (commonTooLong s).
Definition set_channels c s := mkInternalState (pts s) (qts s) (seq s) (date s) c (storage s)
  (hasher s) (userHasher s) (calls s) (dispatched s) (commonTooLong s).
Definition set_storage st s := mkInternalState (pts s) (qts s) (seq s) (date s) (channels s) st
  (hasher s) (userHasher s) (calls s) (dispatched s) (commonTooLong s).
Definition set_hasher h s := mkInternalState (pts s) (qts s) (seq s) (date s) (channels s) (storage s)
  h (userHasher s) (calls s) (dispatched s) (commonTooLong s).
Definition set_userHasher h s := mkInternalState (pts s) (qts s) (seq s) (date s) (channels s) (storage s)
  (hasher s) h (calls s) (dispatched s) (commonTooLong s).
Definition count_call s := mkInternalState (pts s) (qts s) (seq s) (date s) (channels s) (storage s)
  (hasher s) (userHasher s) (Datatypes.S (calls s)) (dispatched s) (commonTooLong s).
Definition log_dispatch u s := mkInternalState (pts s) (qts s) (seq s) (date s) (channels s) (storage s)
  (hasher s) (userHasher s) (calls s) (dispatched s ++ [u]) (commonTooLong s).
Definition note_tooLong s := mkInternalState (pts s) (qts s) (seq s) (date s) (channels s) (storage s)
  (hasher s) (userHasher s) (calls s) (dispatched s) (Datatypes.S (commonTooLong s)).

(** The account, the remote API (the answer to the request after [n] earlier
    ones) and the handler of the application (the error for the batch after
    [n] earlier ones). *)
Context (selfID : Z)
        (UpdatesGetDifference : nat -> Z -> Z -> Z -> UpdatesDifferenceClass + error)
        (handler : nat -> Updates -> option error).

Abbreviation M := (GoM internalState).

(** A storage call whose error is logged. *)
Definition store (f : S -> option error * S) : M unit :=
  modify (fun s => set_storage (snd (f (storage s))) s).

(** ** min_backfill.go *)

(** dispatch: the error of the handler is logged by every caller. *)
Definition dispatch (u : Updates) : M (option error) :=
  let! s := get in
  let u := mkUpdates (up_Updates u) (backfillMinUsers selfID (userHasher s) (up_Users u))
                     (backfillMinChats selfID (hasher s) (up_Chats u)) in
  modify (log_dispatch u) ;;!
  ret (handler (length (dispatched s)) u).

(** ** state_apply.go *)

(** The loops of applyPts and applyQts over the updates; a type assertion that
    fails panics. *)
Fixpoint convert_values (skip_affected : bool) (us : list upd) (converted : list UpdateClass) (e : ents)
    : option (list UpdateClass * ents) :=
  match us with
  | [] => Some (converted, e)
  | u :: us =>
      match Value u with
      | VAffected => if skip_affected then convert_values skip_affected us converted e else None
      | VUpdate v =>
          convert_values skip_affected us (converted ++ [v]) (Merge user_GetID chat_GetID e (Entities u))
      | VCombined _ => None
      end
  end.

Definition panic {A} : M A := fun s => (Panic, s).

Definition applyPts (state : Z) (updates : list upd) : M unit :=
  match convert_values true updates [] no_entities with
  | None => panic
  | Some (converted, e) =>
      (if zlen converted >? 0 then
         dispatch (mkUpdates converted (Users e) (Chats e)) ;;! ret tt
       else ret tt) ;;!
      store (SetPts selfID state)
  end.

Definition applyQts (state : Z) (updates : list upd) : M unit :=
  match convert_values false updates [] no_entities with
  | None => panic
  | Some (converted, e) =>
      dispatch (mkUpdates converted (Users e) (Chats e)) ;;!
      if state =? 0 then ret tt else store (SetQts selfID state)
  end.

Definition pts_Handle (u : upd) : M unit := on_box pts set_pts applyPts (fun apply => Handle apply u).
Definition qts_Handle (u : upd) : M unit := on_box qts set_qts applyQts (fun apply => Handle apply u).

(** ** state.go *)

Definition handlePts (pts ptsCount : Z) (u : UpdateClass) (e : ents) : M unit :=
  match validatePts pts ptsCount with
  | Some _ => ret tt
  | None => pts_Handle (mkUpdate (VUpdate u) pts ptsCount e)
  end.

Definition handleQts (qts : Z) (u : UpdateClass) (e : ents) : M unit :=
  match validateQts qts with
  | Some _ => ret tt
  | None =>
      if qts =? 0 then dispatch (mkUpdates [u] (Users e) (Chats e)) ;;! ret tt
      else qts_Handle (mkUpdate (VUpdate u) qts 1 e)
  end.

(** channelState.Push without a cancelled context: a stopped worker drops the
    update. *)
Definition Push (cu : channelUpdate) (c : channelHandle) : channelHandle :=
  if ch_done c then c
  else mkChannelHandle (ch_accessHash c) (ch_initialPts c) (ch_done c) (ch_updates c ++ [cu]).

(** A request of the difference since [date]. *)
Definition request (date : Z) : M (UpdatesDifferenceClass + error) :=
  let! s := get in
  modify count_call ;;!
  ret (UpdatesGetDifference (calls s) (state (pts s)) (state (qts s)) date).

Definition tracked (s : internalState) (channelID : Z) : bool := bool_decide (is_Some (channels s !! channelID)).

Definition restoreAccessHash (channelID date : Z) : M (option Z) :=
  let! diff := request date in
  match diff with
  | inr _ => ret None
  | inl diff =>
      let chats := match diff with
                   | UpdatesDifference d | UpdatesDifferenceSlice d => d_Chats d
                   | _ => []
                   end in
      modify (fun s => set_hasher (saveChannelHashes selfID (tracked s) chats (hasher s)) s) ;;!
      ret (find_access_hash channelID chats)
  end.

(** The start of a worker for a channel that is not tracked: its access hash,
    its position and its entry. *)
Definition channelAccessHash (channelID date_ : Z) : M (option Z) :=
  let! s := get in
  match GetAccessHash (hasher s) selfID channelID with
  | inl (Some accessHash) => ret (Some accessHash)
  | _ => restoreAccessHash channelID (if date_ =? 0 then date s - 30 else date_ - 1)
  end.

Definition startChannel (channelID accessHash pts ptsCount : Z) : M unit :=
  let! s := get in
  let stored := GetChannelPts (storage s) selfID channelID in
  let localPts := match stored with inl (Some localPts) => localPts | _ => pts - ptsCount end in
  (match stored with
   | inl (Some _) => ret tt
   | _ => store (SetChannelPts selfID channelID localPts)
   end) ;;!
  modify (fun s => set_channels (<[channelID := mkChannelHandle accessHash localPts false []]> (channels s)) s).

Definition handleChannel (channelID date pts ptsCount : Z) (cu : channelUpdate) : M unit :=
  match validatePts pts ptsCount with
  | Some _ => ret tt
  | None =>
      let! s := get in
      let push := modify (fun s => set_channels (alter (Push cu) channelID (channels s)) s) in
      if tracked s channelID then push
      else
        let! accessHash := channelAccessHash channelID date in
        match accessHash with
        | None => ret tt
        | Some accessHash => startChannel channelID accessHash pts ptsCount ;;! push
        end
  end.

Definition handleAffected (channelID pts ptsCount : Z) : M unit :=
  if pts =? 0 then ret tt
  else
    match validatePts pts ptsCount with
    | Some _ => ret tt
    | None =>
        if negb (channelID =? 0) then
          let! s := get in
          if tracked s channelID then
            modify (fun s => set_channels (alter (Push (mkChannelUpdate None no_entities true pts ptsCount))
                                                 channelID (channels s)) s)
          else ret tt
        else pts_Handle (mkUpdate VAffected pts ptsCount no_entities)
    end.

(** *** applyCombined *)

(** One update of the loop: whether it is an updatePtsChanged, and whether it
    goes to the others. *)
Definition applyOne (comb_Date : Z) (e : ents) (u : UpdateClass) : M (bool * list UpdateClass) :=
  match u with
  | UpdatePtsChanged => ret (true, [])
  | UpdateChannelTooLong ChannelID _ =>
      modify (fun s => set_channels (alter (Push (mkChannelUpdate (Some u) e false 0 0)) ChannelID (channels s)) s) ;;!
      ret (false, [])
  | _ =>
      match IsPtsUpdate u with
      | Some (pts, ptsCount) => handlePts pts ptsCount u e ;;! ret (false, [])
      | None =>
          match IsChannelPtsUpdate u with
          | Some (channelID, pts, ptsCount, err) =>
              match err with
              | Some _ => ret (false, [])
              | None =>
                  handleChannel channelID comb_Date pts ptsCount (mkChannelUpdate (Some u) e false 0 0) ;;!
                  ret (false, [])
              end
          | None =>
              match IsQtsUpdate u with
              | Some qts => handleQts qts u e ;;! ret (false, [])
              | None => ret (false, [u])
              end
          end
      end
  end.

Fixpoint applyLoop (comb_Date : Z) (e : ents) (us : list UpdateClass) (ptsChanged : bool)
    (others : list UpdateClass) : M (bool * list UpdateClass) :=
  match us with
  | [] => ret (ptsChanged, others)
  | u :: us =>
      let! (changed, other) := applyOne comb_Date e u in
      applyLoop comb_Date e us (ptsChanged || changed) (others ++ other)
  end.

(** The switch at the end of applyCombined. *)
Definition advanceDateSeq (comb : UpdatesCombined) : M unit :=
  let! s := get in
  let setDate := uc_Date comb >? date s in
  let setSeq := uc_Seq comb >? 0 in
  if setDate && setSeq then
    store (SetDateSeq selfID (uc_Date comb) (uc_Seq comb)) ;;!
    modify (fun s => set_seq (box_state (uc_Seq comb) (seq s)) (set_date (uc_Date comb) s))
  else if setDate then
    store (SetDate selfID (uc_Date comb)) ;;!
    modify (set_date (uc_Date comb))
  else if setSeq then
    store (SetSeq selfID (uc_Seq comb)) ;;!
    modify (fun s => set_seq (box_state (uc_Seq comb) (seq s)) s)
  else ret tt.

Definition applyCombined (comb : UpdatesCombined) : M bool :=
  let e := mkEntities (uc_Users comb) (uc_Chats comb) in
  let! (ptsChanged, others) := applyLoop (uc_Date comb) e (sortUpdatesByPts (uc_Updates comb)) false [] in
  (if zlen others >? 0 then
     dispatch (mkUpdates others (Users e) (Chats e)) ;;! ret tt
   else ret tt) ;;!
  advanceDateSeq comb ;;!
  ret ptsChanged.

(** *** handleUpdates, with getDifference as a parameter *)

Section Recursive.
Context (getDifference : M unit).

Fixpoint applySeq_loop (updates : list upd) (recoverState : bool) : M bool :=
  match updates with
  | [] => ret recoverState
  | u :: updates =>
      match Value u with
      | VCombined comb =>
          let! ptsChanged := applyCombined comb in
          applySeq_loop updates (recoverState || ptsChanged)
      | _ => panic
      end
  end.

Definition applySeq (state : Z) (updates : list upd) : M unit :=
  let! recoverState := applySeq_loop updates false in
  store (SetSeq selfID state) ;;!
  if recoverState then getDifference else ret tt.

Definition seq_Handle (u : upd) : M unit := on_box seq set_seq applySeq (fun apply => Handle apply u).

Definition handleSeq (u : UpdatesCombined) : M unit :=
  match validateSeq (uc_Seq u) (uc_SeqStart u) with
  | Some _ => ret tt
  | None =>
      if uc_Seq u =? 0 then
        let! ptsChanged := applyCombined u in
        if ptsChanged then getDifference else ret tt
      else
        seq_Handle (mkUpdate (VCombined u) (uc_Seq u) (uc_Seq u - uc_SeqStart u + 1) no_entities)
  end.

Definition saveHashes (chats : list ChatClass) (users : list UserClass) : M unit :=
  modify (fun s => set_hasher (saveChannelHashes selfID (tracked s) chats (hasher s)) s) ;;!
  modify (fun s => set_userHasher (saveUserHashes selfID users (userHasher s)) s).

(** The case of tg.UpdatesCombined, and of tg.Updates after its conversion. *)
Definition handleCombined (u : UpdatesCombined) : M unit :=
  saveHashes (uc_Chats u) (uc_Users u) ;;!
  let! s := get in
  if negb (messageUpdatesPeersKnown selfID (userHasher s) (uc_Updates u)) then getDifference
  else handleSeq u.

(** The case of tg.UpdateShort calls handleUpdates with this container. *)
Definition handleShort (u : UpdateShort) : M unit :=
  handleCombined (mkCombined [us_Update u] [] [] (us_Date u) 0 0).

Definition handleUpdates (u : UpdatesClass) : M unit :=
  match u with
  | AnUpdates u Date Seq =>
      handleCombined (mkCombined (up_Updates u) (up_Users u) (up_Chats u) Date Seq Seq)
  | AnUpdatesCombined u => handleCombined u
  | AnUpdateShort u => handleShort u
  | AnUpdateShortMessage u =>
      let! s := get in
      if negb (shortMessagePeersKnown selfID (userHasher s) u) then getDifference
      else handleShort (convertShortMessage selfID u)
  | AnUpdateShortChatMessage u =>
      let! s := get in
      if negb (shortChatMessagePeersKnown selfID (userHasher s) u) then getDifference
      else handleShort (convertShortChatMessage u)
  | AnUpdateShortSentMessage u => handleShort (convertShortSentMessage u)
  | UpdatesTooLong => getDifference
  end.

(** *** One round of getDifference *)

(** The local function setState. *)
Definition setRemoteState (remote : UpdatesState) : M unit :=
  store (Storage.SetState selfID (fromRemote remote)) ;;!
  modify (fun s => set_date (r_Date remote)
    (set_seq (box_state (r_Seq remote) (seq s))
      (set_qts (box_state (r_Qts remote) (qts s))
        (set_pts (box_state (r_Pts remote) (pts s)) s)))).

Definition dispatchMessages (d : Difference) : M unit :=
  if (zlen (d_NewMessages d) >? 0) || (zlen (d_NewEncryptedMessages d) >? 0) then
    dispatch (mkUpdates (msgsToUpdates (d_NewMessages d) false
                         ++ encryptedMsgsToUpdates (d_NewEncryptedMessages d))
                        (d_Users d) (d_Chats d)) ;;! ret tt
  else ret tt.

Definition recordUsers (users : list UserClass) : M unit :=
  modify (fun s => set_userHasher (saveUserHashes selfID users (userHasher s)) s).

(** An error that is logged. *)
Definition logged (m : M unit) : M unit :=
  fun s => match m s with (Err _, s') => (Ok tt, s') | r => r end.

Definition getDifference_round : M unit :=
  modify (fun s => set_seq (box_clear (seq s)) (set_qts (box_clear (qts s)) (set_pts (box_clear (pts s)) s))) ;;!
  let! s := get in
  let! diff := request (date s) in
  match diff with
  | inr err => fail (Wrap err "get difference")
  | inl (UpdatesDifference d) =>
      recordUsers (d_Users d) ;;!
      (if zlen (d_OtherUpdates d) >? 0 then
         wrapping "handle diff.OtherUpdates"
           (handleUpdates (AnUpdatesCombined (mkCombined (d_OtherUpdates d) (d_Users d) (d_Chats d) 0 0 0)))
       else ret tt) ;;!
      dispatchMessages d ;;!
      setRemoteState (d_State d)
  | inl (UpdatesDifferenceEmpty Date Seq) =>
      store (SetDateSeq selfID Date Seq) ;;!
      modify (fun s => set_seq (box_state Seq (seq s)) (set_date Date s))
  | inl (UpdatesDifferenceSlice d) =>
      recordUsers (d_Users d) ;;!
      (if zlen (d_OtherUpdates d) >? 0 then
         logged (handleUpdates (AnUpdatesCombined
           (mkCombined (d_OtherUpdates d) (d_Users d) (d_Chats d) (r_Date (d_State d)) 0 0)))
       else ret tt) ;;!
      dispatchMessages d ;;!
      setRemoteState (d_State d) ;;!
      getDifference
  | inl (UpdatesDifferenceTooLong Pts) =>
      store (SetPts selfID Pts) ;;!
      modify (fun s => note_tooLong (set_pts (box_state Pts (pts s)) s)) ;;!
      getDifference
  end.
End Recursive.

(** The depth of nested calls; the stack overflows at depth 0. *)
Fixpoint getDifference (depth : nat) : M unit :=
  match depth with
  | O => panic
  | Datatypes.S depth => getDifference_round (getDifference depth)
  end.

(** *** Run *)

(** isFatalError *)
Definition isFatalError (err : error) : bool :=
  Is err ErrKeyFingerprintNotFound
  || IsOneOfTypes err [bytes_of_string "AUTH_KEY_UNREGISTERED"; bytes_of_string "SESSION_EXPIRED"]
  || IsCode err [401].

Definition removeChannelState (channelID : Z) : M unit :=
  modify (fun s => set_channels (delete channelID (channels s)) s).

(** The cases of the select in Run. *)
Inductive event : Type :=
| EvUpdates (u : UpdatesClass)                     (* externalQueue, internalQueue *)
| EvAffected (channelID pts ptsCount : Z)
| EvTimeout                                        (* the gap timers and the idle timer *)
| EvRemoveChannel (channelID : Z)
| EvDone.                                          (* ctx.Done *)

(** One iteration: None to go on, or the result of Run. *)
Definition Run_step (depth : nat) (ev : event) : M (option error) :=
  fun s =>
    match ev with
    | EvUpdates u =>
        match handleUpdates (getDifference depth) u s with
        | (Ok _, s') => (Ok None, s')
        | (Err err, s') => (Ok (if isFatalError err then Some (Wrap err "fatal error") else None), s')
        | (Panic, s') => (Panic, s')
        end
    | EvAffected channelID pts ptsCount =>
        match handleAffected channelID pts ptsCount s with
        | (Panic, s') => (Panic, s')
        | (_, s') => (Ok None, s')
        end
    | EvTimeout =>
        match getDifference depth s with
        | (Panic, s') => (Panic, s')
        | (_, s') => (Ok None, s')
        end
    | EvRemoveChannel channelID =>
        match removeChannelState channelID s with
        | (Panic, s') => (Panic, s')
        | (_, s') => (Ok None, s')
        end
    | EvDone =>
        if (zlen (pending (pts s)) >? 0) || (zlen (pending (qts s)) >? 0) || (zlen (pending (seq s)) >? 0) then
          match getDifference depth s with
          | (Panic, s') => (Panic, s')
          | (_, s') => (Ok (Some Canceled), s')
          end
        else (Ok (Some Canceled), s)
    end.

(** The loop, until Run returns or the events are used up. *)
Fixpoint Run_loop (depth : nat) (evs : list event) : M (option error) :=
  match evs with
  | [] => ret None
  | ev :: evs =>
      let! r := Run_step depth ev in
      match r with
      | Some err => ret (Some err)
      | None => Run_loop depth evs
      end
  end.

Definition Run (depth : nat) (evs : list event) : M (option error) :=
  fun s =>
    match getDifference depth s with
    | (Panic, s') => (Panic, s')
    | (_, s') => Run_loop depth evs s'
    end.

(** newState: the boxes start at the stored state, each stored channel gets a
    worker. *)
Definition newState (st : Storage.State) (chs : gmap Z (Z * Z)) (stor : S) (h : H) (uh : UH) : internalState :=
  mkInternalState (newSequenceBox (Pts st)) (newSequenceBox (Qts st)) (newSequenceBox (Seq st)) (Date st)
    ((fun '(p, accessHash) => mkChannelHandle accessHash p false []) <$> chs)
    stor h uh 0 [] 0.
End State.
Arguments internalState : clear implicits.

(** ** Invariants *)

Section Invariant.
Context {S H UH : Type} `{!StateStorage S, !AccessHasher H, !AccessHasher UH, !LawfulStorage S}.
Context (selfID : Z)
        (UpdatesGetDifference : nat -> Z -> Z -> Z -> UpdatesDifferenceClass + error)
        (handler : nat -> Updates -> option error).
Abbreviation St := (internalState S H UH).
Abbreviation M := (GoM St).

(** *** Calls that leave boxes, date and stored state alone *)

Definition same (s s' : St) : Prop :=
  GetState (storage s') selfID = GetState (storage s) selfID /\
  pts s' = pts s /\ qts s' = qts s /\ seq s' = seq s /\ date s' = date s /\ (calls s <= calls s')%nat.

#[local] Instance same_refl : Reflexive same.
Proof. intros s. by repeat split. Qed.
#[local] Instance same_trans : Transitive same.
Proof. unfold same. intros s1 s2 s3. intuition (congruence || lia). Qed.

Lemma keeps_same_modify s0 (f : St -> St) : (forall s, same s (f s)) -> keeps (same s0) (modify f).
Proof. intros Hf. apply keeps_modify. intros s Hs. by transitivity s. Qed.

Lemma keeps_same_set_channels s0 f : keeps (same s0) (modify (fun s => set_channels (f s) s)).
Proof. apply keeps_same_modify. intros s. by repeat split. Qed.
Lemma keeps_same_set_hasher s0 f : keeps (same s0) (modify (fun s => set_hasher (f s) s)).
Proof. apply keeps_same_modify. intros s. by repeat split. Qed.
Lemma keeps_same_set_userHasher s0 f : keeps (same s0) (modify (fun s => set_userHasher (f s) s)).
Proof. apply keeps_same_modify. intros s. by repeat split. Qed.
Lemma keeps_same_count s0 : keeps (same s0) (modify count_call).
Proof. apply keeps_same_modify. intros s. repeat split; simpl; lia. Qed.
Lemma keeps_same_log s0 u : keeps (same s0) (modify (log_dispatch u)).
Proof. apply keeps_same_modify. intros s. by repeat split. Qed.
Lemma keeps_same_store_channel s0 c p : keeps (same s0) (store (SetChannelPts selfID c p)).
Proof.
  apply keeps_same_modify. intros s. unfold same. simpl.
  destruct (SetChannelPts_law selfID c p (storage s)) as [-> _]. by repeat split.
Qed.
#[local] Hint Resolve keeps_same_set_channels keeps_same_set_hasher keeps_same_set_userHasher
  keeps_same_count keeps_same_log keeps_same_store_channel : keeps.

Lemma keeps_same_dispatch s0 u : keeps (same s0) (dispatch selfID handler u).
Proof. unfold dispatch. solve_keeps. Qed.
Lemma keeps_same_request s0 d : keeps (same s0) (request UpdatesGetDifference d).
Proof. unfold request. solve_keeps. Qed.
#[local] Hint Resolve keeps_same_dispatch keeps_same_request : keeps.
Lemma keeps_same_restoreAccessHash s0 c d :
  keeps (same s0) (restoreAccessHash selfID UpdatesGetDifference c d).
Proof. unfold restoreAccessHash. solve_keeps. Qed.
#[local] Hint Resolve keeps_same_restoreAccessHash : keeps.
Lemma keeps_same_handleChannel s0 c d p n cu :
  keeps (same s0) (handleChannel selfID UpdatesGetDifference c d p n cu).
Proof. unfold handleChannel, channelAccessHash, startChannel. solve_keeps. Qed.
Lemma keeps_same_saveHashes s0 chats users : keeps (same s0) (saveHashes selfID chats users).
Proof. unfold saveHashes. solve_keeps. Qed.
Lemma keeps_same_dispatchMessages s0 d : keeps (same s0) (dispatchMessages selfID handler d).
Proof. unfold dispatchMessages. solve_keeps. Qed.

(** *** The invariant *)

(** With [track], containers with a sequence number must not announce changed
    positions; then the stored sequence number is tracked, too. *)
Context (track : bool).

Definition pts_value (u : upd) : Prop := match Value u with VCombined _ => False | _ => True end.
Definition qts_value (u : upd) : Prop := match Value u with VUpdate _ => State u <> 0 | _ => False end.
Definition comb_ok (c : UpdatesCombined) : Prop := track = true -> UpdatePtsChanged ∉ uc_Updates c.
Definition seq_value (u : upd) : Prop := match Value u with VCombined c => comb_ok c | _ => False end.

(** The stored state is at the positions [p], [q] and [sq] and at the date in
    memory; the boxes hold values of their kind; at least [k] requests were made. *)
Record InvS (k : nat) (p q sq : Z) (s : St) : Prop := {
  inv_stored : exists st, GetState (storage s) selfID = inl (Some st) /\
    Pts st = p /\ Qts st = q /\ Date st = date s /\ (track = true -> Seq st = sq);
  inv_pts : Forall pts_value (pending (pts s));
  inv_qts : Forall qts_value (pending (qts s));
  inv_seq : Forall seq_value (pending (seq s));
  inv_calls : (k <= calls s)%nat;
}.

(** Storage and memory agree. *)
Definition Inv (k : nat) (s : St) : Prop := InvS k (state (pts s)) (state (qts s)) (state (seq s)) s.

Lemma InvS_same k p q sq s s' : same s s' -> InvS k p q sq s -> InvS k p q sq s'.
Proof.
  intros (Hst & Hp & Hq & Hs & Hd & Hc) [(st & Hget & Hrest) H1 H2 H3 H4].
  split; rewrite ?Hp, ?Hq, ?Hs, ?Hd; try done; [|lia]. exists st. by rewrite Hst.
Qed.

Lemma Inv_same k s s' : same s s' -> Inv k s -> Inv k s'.
Proof.
  intros Hs HI. assert (Hs' := Hs). destruct Hs' as (_ & Hp & Hq & Hq' & _).
  unfold Inv. rewrite Hp, Hq, Hq'. eapply InvS_same; eassumption.
Qed.

Lemma Inv_weaken k k' s : (k' <= k)%nat -> Inv k s -> Inv k' s.
Proof. intros Hk []. split; try done. lia. Qed.

Lemma keeps_InvS {A} (m : M A) k p q sq :
  (forall s0, keeps (same s0) m) -> keeps (InvS k p q sq) m.
Proof. intros Hm s HI. eapply post_mono; [by apply (Hm s)|..]; intros ? s' Hs; exact (InvS_same _ _ _ _ _ _ Hs HI). Qed.

Lemma keeps_Inv {A} (m : M A) k : (forall s0, keeps (same s0) m) -> keeps (Inv k) m.
Proof. intros Hm s HI. eapply post_mono; [by apply (Hm s)|..]; intros ? s' Hs; exact (Inv_same _ _ _ Hs HI). Qed.

(** A setter of the storage. *)
Lemma InvS_stored (set : S -> option error * S) f k p q sq p' q' sq' d' s :
  sets_field set selfID f -> InvS k p q sq s ->
  (forall st, Pts st = p -> Qts st = q -> Date st = date s -> (track = true -> Seq st = sq) ->
     Pts (f st) = p' /\ Qts (f st) = q' /\ Date (f st) = d' /\ (track = true -> Seq (f st) = sq')) ->
  InvS k p' q' sq' (set_date d' (set_storage (snd (set (storage s))) s)).
Proof.
  intros Hset [(st & Hget & Hp & Hq & Hd & Hs) H1 H2 H3 H4] Hf. split; simpl; try done.
  exists (f st). specialize (Hset (storage s)). rewrite Hget in Hset. destruct Hset as [_ ->].
  split; [done|]. by apply Hf.
Qed.

(** *** Values *)

Lemma convert_values_pts us conv e : Forall pts_value us -> is_Some (convert_values true us conv e).
Proof.
  intros Hus. revert conv e. induction Hus as [|u us Hu Hus IH]; intros conv e; simpl; [by eexists|].
  unfold pts_value in Hu. destruct (Value u); [done|apply IH..].
Qed.

Lemma convert_values_qts us conv e : Forall qts_value us -> is_Some (convert_values false us conv e).
Proof.
  intros Hus. revert conv e. induction Hus as [|u us Hu Hus IH]; intros conv e; simpl; [by eexists|].
  unfold qts_value in Hu. destruct (Value u); [done|done|apply IH].
Qed.

Lemma final_nonzero (us : list upd) st :
  us <> [] -> Forall (fun u => State u <> 0) us -> (forall s0, final s0 us = st) -> st <> 0.
Proof.
  intros Hne Hus Hst. destruct us as [|u us] using rev_ind; [done|]. apply Forall_app in Hus as [_ Hu].
  apply Forall_cons in Hu as [Hu _]. rewrite <- (Hst 0), final_app. exact Hu.
Qed.

Context (k : nat).

Lemma applyPts_post st us s :
  Forall pts_value us -> Inv k s ->
  post (applyPts selfID handler st us) s
    (fun _ s' => InvS k st (state (qts s')) (state (seq s')) s') (fun _ => Inv k).
Proof.
  intros Hus HI. unfold applyPts.
  destruct (convert_values_pts us [] no_entities Hus) as [[conv e] ->].
  apply post_seq with (fun _ => Inv k).
  - revert s HI. change (keeps (Inv k) (if zlen conv >? 0 then
      dispatch selfID handler (mkUpdates conv (Users e) (Chats e)) ;;! ret tt else ret tt)).
    apply keeps_Inv. intros s0. solve_keeps.
  - intros _ s1 HI1. apply post_modify. simpl.
    apply (InvS_stored _ _ k _ _ _ st (state (qts s1)) (state (seq s1)) (date s1) s1
             (SetPts_law selfID st) HI1). intros st0. simpl. tauto.
Qed.

Lemma applyQts_post st us s :
  us <> [] -> Forall qts_value us -> (forall s0, final s0 us = st) -> Inv k s ->
  post (applyQts selfID handler st us) s
    (fun _ s' => InvS k (state (pts s')) st (state (seq s')) s') (fun _ => Inv k).
Proof.
  intros Hne Hus Hst HI. unfold applyQts.
  destruct (convert_values_qts us [] no_entities Hus) as [[conv e] ->].
  apply post_seq with (fun _ => Inv k); [by apply keeps_Inv; [intros; solve_keeps|]|].
  intros _ s1 HI1.
  assert (st <> 0) as H0.
  { apply (final_nonzero us); [done| |done]. eapply Forall_impl; [exact Hus|].
    intros u. unfold qts_value. by destruct (Value u). }
  destruct (st =? 0) eqn:E; bool_to_prop; [done|]. apply post_modify. simpl.
  apply (InvS_stored _ _ k _ _ _ (state (pts s1)) st (state (seq s1)) (date s1) s1
           (SetQts_law selfID st) HI1). intros st0. simpl. tauto.
Qed.

Lemma Inv_pts_box s b :
  Inv k s -> state b = state (pts s) -> Forall pts_value (pending b) -> Inv k (set_pts b s).
Proof. intros [? ? ? ? ?] Hst Hb. unfold Inv. simpl. rewrite Hst. by split. Qed.
Lemma Inv_qts_box s b :
  Inv k s -> state b = state (qts s) -> Forall qts_value (pending b) -> Inv k (set_qts b s).
Proof. intros [? ? ? ? ?] Hst Hb. unfold Inv. simpl. rewrite Hst. by split. Qed.
Lemma Inv_seq_box s b :
  Inv k s -> state b = state (seq s) -> Forall seq_value (pending b) -> Inv k (set_seq b s).
Proof. intros [? ? ? ? ?] Hst Hb. unfold Inv. simpl. rewrite Hst. by split. Qed.

Lemma keeps_pts_Handle u : pts_value u -> keeps (Inv k) (pts_Handle selfID handler u).
Proof.
  intros Hu. intros s HI. unfold pts_Handle. apply post_on_box with (good := pts_value)
    (J := fun st s => InvS k st (state (qts s)) (state (seq s)) s); try done; clear s HI.
  - by intros [].
  - by intros s [].
  - intros s b. apply Inv_pts_box.
  - intros st s []. by split.
  - intros st us s _ Hus _. by apply applyPts_post.
Qed.

Lemma keeps_qts_Handle u : qts_value u -> keeps (Inv k) (qts_Handle selfID handler u).
Proof.
  intros Hu. intros s HI. unfold qts_Handle. apply post_on_box with (good := qts_value)
    (J := fun st s => InvS k (state (pts s)) st (state (seq s)) s); try done; clear s HI.
  - by intros [].
  - by intros s [].
  - intros s b. apply Inv_qts_box.
  - intros st s []. by split.
  - intros st us s. apply applyQts_post.
Qed.

(** *** Containers *)

Lemma keeps_handlePts p n u e : keeps (Inv k) (handlePts selfID handler p n u e).
Proof. unfold handlePts. destruct (validatePts p n); [apply keeps_ret|]. by apply keeps_pts_Handle. Qed.

Lemma keeps_handleQts q u e : keeps (Inv k) (handleQts selfID handler q u e).
Proof.
  unfold handleQts. destruct (validateQts q); [apply keeps_ret|]. destruct (q =? 0) eqn:E; bool_to_prop.
  - apply keeps_Inv. intros. solve_keeps.
  - by apply keeps_qts_Handle.
Qed.

Lemma keeps_handleAffected c p n : keeps (Inv k) (handleAffected selfID handler c p n).
Proof.
  unfold handleAffected. destruct (p =? 0); [apply keeps_ret|].
  destruct (validatePts p n); [apply keeps_ret|]. destruct (negb (c =? 0)).
  - apply keeps_Inv. intros. solve_keeps.
  - by apply keeps_pts_Handle.
Qed.

Lemma keeps_handleChannel c d p n cu : keeps (Inv k) (handleChannel selfID UpdatesGetDifference c d p n cu).
Proof. apply keeps_Inv. intros. apply keeps_same_handleChannel. Qed.
#[local] Hint Resolve keeps_handlePts keeps_handleQts keeps_handleChannel : keeps.

Lemma keeps_applyOne d e u : keeps (Inv k) (applyOne selfID UpdatesGetDifference handler d e u).
Proof.
  assert (forall f, keeps (Inv k) (modify (fun s : St => set_channels (f s) s))) as Hch
    by (intros f; apply keeps_Inv; intros; apply keeps_same_set_channels).
  unfold applyOne.
  destruct u; try (apply keeps_ret); try (apply keeps_bind; [apply Hch|intros; apply keeps_ret]);
    cbn [IsPtsUpdate IsChannelPtsUpdate IsQtsUpdate]; repeat case_match; solve_keeps.
Qed.

(** Only updatePtsChanged reports changed positions. *)
Definition unchanged (m : M (bool * list UpdateClass)) : Prop :=
  forall s, match m s with (Ok (b, _), _) => b = false | _ => True end.

Lemma unchanged_then {A} (m : M A) l : unchanged (m ;;! ret (false, l)).
Proof. intros s. unfold bind. by destruct (m s) as [[] ?]. Qed.
Lemma unchanged_ret l : unchanged (ret (false, l)).
Proof. done. Qed.

Lemma applyOne_changed d e u :
  UpdatePtsChanged <> u -> unchanged (applyOne selfID UpdatesGetDifference handler d e u).
Proof.
  intros Hu. unfold applyOne.
  destruct u; try done; cbn [IsPtsUpdate IsChannelPtsUpdate IsQtsUpdate];
    repeat match goal with |- unchanged (match ?x with _ => _ end) => destruct x end;
    auto using @unchanged_then, unchanged_ret.
Qed.

Lemma applyLoop_post d e us : forall changed others s,
  Inv k s ->
  post (applyLoop selfID UpdatesGetDifference handler d e us changed others) s
    (fun r s' => Inv k s' /\ (fst r = true -> changed = true \/ UpdatePtsChanged ∈ us)) (fun _ => Inv k).
Proof.
  induction us as [|u us IH]; intros changed others s HI; simpl.
  { apply post_ret. by split; [|left]. }
  apply post_seq with (fun r s' => Inv k s' /\ (fst r = true -> UpdatePtsChanged = u)).
  - pose proof (keeps_applyOne d e u s HI) as Hk.
    assert (UpdatePtsChanged = u \/ UpdatePtsChanged <> u) as [<-|Hne] by (destruct u; auto; by right).
    { eapply post_mono; [exact Hk| |auto]. by intros a s' Hs. }
    pose proof (applyOne_changed d e u Hne s) as Hc. unfold post in *.
    destruct (applyOne _ _ _ _ _ _ _) as [[[b o]| |] s']; [|done..]. subst. by split.
  - intros [b o] s' [HI' Hb]. eapply post_mono; [by apply IH| |auto].
    intros r s'' [HI'' Hr]. split; [done|]. intros E. apply Hr in E as [E|E]; [|by right; right].
    apply orb_true_iff in E as [E|E]; [by left|]. right. rewrite (Hb E). left.
Qed.

Lemma keeps_advanceDateSeq c : keeps (Inv k) (advanceDateSeq selfID c).
Proof.
  intros s HI. unfold advanceDateSeq. apply post_bind, post_get. cbv zeta.
  destruct ((uc_Date c >? date s) && (uc_Seq c >? 0)); [|destruct (uc_Date c >? date s);
    [|destruct (uc_Seq c >? 0); [|done]]].
  - apply post_bind, post_modify, post_modify. simpl.
    destruct (InvS_stored _ _ k _ _ _ (state (pts s)) (state (qts s)) (uc_Seq c) (uc_Date c) s
      (SetDateSeq_law selfID (uc_Date c) (uc_Seq c)) HI) as [H1 H2 H3 H4 H5].
    { intros st. simpl. tauto. } by split.
  - apply post_bind, post_modify, post_modify. simpl.
    destruct (InvS_stored _ _ k _ _ _ (state (pts s)) (state (qts s)) (state (seq s)) (uc_Date c) s
      (SetDate_law selfID (uc_Date c)) HI) as [H1 H2 H3 H4 H5].
    { intros st. simpl. tauto. } by split.
  - apply post_bind, post_modify, post_modify. simpl.
    destruct (InvS_stored _ _ k _ _ _ (state (pts s)) (state (qts s)) (uc_Seq c) (date s) s
      (SetSeq_law selfID (uc_Seq c)) HI) as [H1 H2 H3 H4 H5].
    { intros st. simpl. tauto. } by split.
Qed.

Lemma applyCombined_post c s :
  Inv k s ->
  post (applyCombined selfID UpdatesGetDifference handler c) s
    (fun b s' => Inv k s' /\ (b = true -> UpdatePtsChanged ∈ uc_Updates c)) (fun _ => Inv k).
Proof.
  intros HI. unfold applyCombined.
  eapply post_seq; [by apply applyLoop_post|]. intros [b others] s1 [HI1 Hb]. cbn [fst] in Hb.
  apply post_seq with (fun _ => Inv k).
  { revert s1 HI1 Hb. assert (keeps (Inv k) (if zlen others >? 0 then
      dispatch selfID handler (mkUpdates others (uc_Users c) (uc_Chats c)) ;;! ret tt else ret tt)) as Hk
      by (apply keeps_Inv; intros; solve_keeps). intros s1 HI1 _. by apply Hk. }
  intros _ s2 HI2. eapply post_seq; [by apply keeps_advanceDateSeq|]. intros ? s3 HI3.
  apply post_ret. split; [done|]. intros E. apply Hb in E as [|E]; [done|].
  by rewrite sortUpdatesByPts_perm in E.
Qed.

(** *** Sequence numbers *)

Section Gd.
Context (gd : M unit) (keeps_gd : keeps (Inv k) gd).

Lemma applySeq_loop_post us : forall rec s,
  Forall seq_value us -> Inv k s ->
  post (applySeq_loop selfID UpdatesGetDifference handler us rec) s
    (fun b s' => Inv k s' /\ (track = true -> rec = false -> b = false)) (fun _ => Inv k).
Proof.
  induction us as [|u us IH]; intros rec s Hus HI; simpl.
  { apply post_ret. by split. }
  apply Forall_cons in Hus as [Hu Hus]. unfold seq_value in Hu.
  destruct (Value u) as [c| |]; [|done..].
  eapply post_seq; [by apply applyCombined_post|]. intros b s1 [HI1 Hb].
  eapply post_mono; [by apply IH| |auto]. intros b' s2 [HI2 Hr]. split; [done|]. intros Ht ->.
  apply Hr; [done|]. destruct b; [|done]. exfalso. by apply Hu, Hb.
Qed.

Lemma InvS_untracked p q sq sq' s : track = false -> InvS k p q sq s -> InvS k p q sq' s.
Proof.
  intros Ht [(st & ? & ? & ? & ? & _) ? ? ? ?]. split; try done. exists st. rewrite Ht. by repeat split.
Qed.

Lemma applySeq_post st us s :
  Forall seq_value us -> Inv k s ->
  post (applySeq selfID UpdatesGetDifference handler gd st us) s
    (fun _ s' => InvS k (state (pts s')) (state (qts s')) st s') (fun _ => Inv k).
Proof.
  intros Hus HI. unfold applySeq. eapply post_seq; [by apply applySeq_loop_post|].
  intros b s1 [HI1 Hb]. apply post_bind, post_modify. set (s2 := set_storage _ s1).
  assert (InvS k (state (pts s2)) (state (qts s2)) st s2) as HI2.
  { apply (InvS_stored _ _ k _ _ _ (state (pts s1)) (state (qts s1)) st (date s1) s1
             (SetSeq_law selfID st) HI1). intros st0. simpl. tauto. }
  destruct b; [|done]. destruct track eqn:Et; [by specialize (Hb eq_refl eq_refl)|].
  rewrite <- Et in *. eapply post_mono; [apply keeps_gd; by apply (InvS_untracked _ _ st)| |auto].
  intros ? s3 HI3. by apply (InvS_untracked _ _ (state (seq s3))).
Qed.

Lemma keeps_seq_Handle u : seq_value u -> keeps (Inv k) (seq_Handle selfID UpdatesGetDifference handler gd u).
Proof.
  intros Hu. intros s HI. unfold seq_Handle. apply post_on_box with (good := seq_value)
    (J := fun st s => InvS k (state (pts s)) (state (qts s)) st s); try done; clear s HI.
  - by intros [].
  - by intros s [].
  - intros s b. apply Inv_seq_box.
  - intros st s []. by split.
  - intros st us s _ Hus _. by apply applySeq_post.
Qed.

(** What an arriving container must satisfy. *)
Definition seq_ok (c : UpdatesCombined) : Prop := uc_Seq c <> 0 -> comb_ok c.

Lemma keeps_handleSeq c : seq_ok c -> keeps (Inv k) (handleSeq selfID UpdatesGetDifference handler gd c).
Proof.
  intros Hc. unfold handleSeq. destruct (validateSeq _ _); [apply keeps_ret|].
  destruct (uc_Seq c =? 0) eqn:E; bool_to_prop.
  - intros s HI. eapply post_seq; [by apply applyCombined_post|]. intros b s1 [HI1 _].
    destruct b; [by apply keeps_gd|done].
  - apply keeps_seq_Handle. by apply Hc.
Qed.

Lemma keeps_handleCombined c : seq_ok c -> keeps (Inv k) (handleCombined selfID UpdatesGetDifference handler gd c).
Proof.
  intros Hc. unfold handleCombined.
  apply keeps_bind; [apply keeps_Inv; intros; apply keeps_same_saveHashes|intros _].
  apply keeps_bind; [apply keeps_get|intros s]. destruct (negb _); [done|by apply keeps_handleSeq].
Qed.

Definition updates_ok (u : UpdatesClass) : Prop :=
  match u with
  | AnUpdates u Date Seq => seq_ok (mkCombined (up_Updates u) (up_Users u) (up_Chats u) Date Seq Seq)
  | AnUpdatesCombined u => seq_ok u
  | _ => True
  end.

Lemma keeps_handleUpdates u :
  updates_ok u -> keeps (Inv k) (handleUpdates selfID UpdatesGetDifference handler gd u).
Proof.
  assert (forall u, keeps (Inv k) (handleShort selfID UpdatesGetDifference handler gd u)) as Hs
    by (intros v; apply keeps_handleCombined; intros Hz; by destruct Hz).
  intros Hu. destruct u; simpl; auto; try (by apply keeps_handleCombined).
  all: apply keeps_bind; [apply keeps_get|intros s]; destruct (negb _); auto.
Qed.

(** *** Differences *)

Lemma keeps_setRemoteState remote : keeps (Inv k) (setRemoteState selfID remote).
Proof.
  intros s [? ? ? ? ?]. unfold setRemoteState. apply post_bind, post_modify, post_modify.
  split; simpl; try done. exists (fromRemote remote). split; [apply SetState_law|]. by repeat split.
Qed.

Lemma keeps_logged (m : M unit) : keeps (Inv k) m -> keeps (Inv k) (logged m).
Proof.
  intros Hm s HI. specialize (Hm s HI). unfold post, logged in *. by destruct (m s) as [[] ?].
Qed.
Lemma keeps_dispatchMessages d : keeps (Inv k) (dispatchMessages selfID handler d).
Proof. apply keeps_Inv. intros. apply keeps_same_dispatchMessages. Qed.
Lemma keeps_recordUsers us : keeps (Inv k) (recordUsers selfID us).
Proof. apply keeps_Inv. intros. apply keeps_same_set_userHasher. Qed.
End Gd.
End Invariant.

(** ** Runs *)

(** An answer after which getDifference asks no more. *)
Definition final_answer (a : UpdatesDifferenceClass + error) : Prop :=
  match a with
  | inr _ | inl (UpdatesDifferenceEmpty _ _) => True
  | inl (UpdatesDifference d) => d_OtherUpdates d = []
  | _ => False
  end.

Section Runs.
Context {S H UH : Type} `{!StateStorage S, !AccessHasher H, !AccessHasher UH, !LawfulStorage S}.
Context (selfID : Z)
        (UpdatesGetDifference : nat -> Z -> Z -> Z -> UpdatesDifferenceClass + error)
        (handler : nat -> Updates -> option error) (track : bool).
Abbreviation St := (internalState S H UH).
Abbreviation M := (GoM St).
Abbreviation Inv := (Inv (S := S) (H := H) (UH := UH) selfID track).
Abbreviation gdiff := (getDifference selfID UpdatesGetDifference handler).

Definition clear_gaps (s : St) : St :=
  set_seq (box_clear (seq s)) (set_qts (box_clear (qts s)) (set_pts (box_clear (pts s)) s)).

Lemma Inv_request k s : Inv k s -> Inv (Datatypes.S (calls s)) (count_call (clear_gaps s)).
Proof. intros [? ? ? ? ?]. split; simpl; try done. Qed.

Lemma round_post k gd s :
  Inv k s ->
  (final_answer (UpdatesGetDifference (calls s) (state (pts s)) (state (qts s)) (date s)) \/
   keeps (Inv (Datatypes.S (calls s))) gd) ->
  post (getDifference_round selfID UpdatesGetDifference handler gd) s (fun _ => Inv k) (fun _ => Inv k).
Proof.
  intros HI Hgd. assert (HI2 := Inv_request k s HI). set (k' := Datatypes.S (calls s)) in *.
  assert (k <= k')%nat as Hk by (destruct HI; lia).
  apply post_mono with (Q := fun _ => Inv k') (E := fun _ => Inv k'); [|by intros ? ? ?; eapply Inv_weaken..].
  unfold getDifference_round. apply post_bind, post_modify, post_bind, post_get, post_bind.
  unfold request. apply post_bind, post_get, post_bind, post_modify, post_ret. simpl.
  change (count_call _) with (count_call (clear_gaps s)). revert HI2. generalize (count_call (clear_gaps s)).
  intros s2. revert s2. clear HI.
  match goal with |- forall s2, Inv k' s2 -> post ?m s2 _ _ => change (keeps (Inv k') m) end.
  destruct (UpdatesGetDifference _ _ _ _) as [[Date Seq|d|d|Pts]|err]; simpl in Hgd.
  - intros s2 HI2. apply post_bind, post_modify, post_modify.
    destruct (InvS_stored selfID track _ _ k' _ _ _ (state (pts s2)) (state (qts s2)) Seq Date s2
      (SetDateSeq_law selfID Date Seq) HI2) as [H1 H2 H3 H4 H5]; [intros st; simpl; tauto|by split].
  - apply keeps_bind; [apply keeps_recordUsers|intros _]. apply keeps_bind; [|intros _].
    { destruct (zlen _ >? 0) eqn:E; [|apply keeps_ret]. destruct Hgd as [Hd|Hgd]; [by rewrite Hd in E|].
      apply keeps_wrapping. apply keeps_handleCombined; [exact Hgd|]. intros Hz. by destruct Hz. }
    apply keeps_bind; [apply keeps_dispatchMessages|intros _]. apply keeps_setRemoteState.
  - destruct Hgd as [[]|Hgd].
    apply keeps_bind; [apply keeps_recordUsers|intros _]. apply keeps_bind; [|intros _].
    { destruct (zlen _ >? 0); [|apply keeps_ret]. apply keeps_logged. apply keeps_handleCombined; [exact Hgd|]. intros Hz. by destruct Hz. }
    apply keeps_bind; [apply keeps_dispatchMessages|intros _].
    apply keeps_bind; [apply keeps_setRemoteState|intros _]. done.
  - destruct Hgd as [[]|Hgd]. intros s2 HI2. apply post_bind, post_modify, post_bind, post_modify.
    apply Hgd. destruct (InvS_stored selfID track _ _ k' _ _ _ Pts (state (qts s2)) (state (seq s2)) (date s2) s2
      (SetPts_law selfID Pts) HI2) as [H1 H2 H3 H4 H5]; [intros st; simpl; tauto|by split].
  - apply keeps_fail.
Qed.

(** From the request [N] on the server gives final answers. *)
Context (N : nat) (answers_final : forall n p q d, (N <= n)%nat -> final_answer (UpdatesGetDifference n p q d)).

(** With the stack as deep as there are answers that are not final, and one
    more, the calls end. *)
Lemma keeps_getDifference depth : forall k,
  (0 < depth)%nat -> (N < k + depth)%nat -> keeps (Inv k) (gdiff depth).
Proof.
  induction depth as [|depth IH]; intros k H0 HN s HI; [lia|]. simpl. apply round_post; [done|].
  destruct (decide (N <= calls s)%nat) as [|Hlt]; [left; by apply answers_final|].
  right. assert (k <= calls s)%nat by (destruct HI; done). apply IH; lia.
Qed.

(** What Run may return. *)
Definition ends (r : option error) : Prop :=
  match r with
  | None => True
  | Some e => e = Canceled \/ exists e0, e = Wrap e0 "fatal error" /\ isFatalError e0 = true
  end.

Lemma Run_step_post depth ev s :
  (N < depth)%nat -> match ev with EvUpdates u => updates_ok track u | _ => True end -> Inv 0 s ->
  post (Run_step selfID UpdatesGetDifference handler depth ev) s
    (fun r s' => Inv 0 s' /\ ends r) (fun _ _ => False).
Proof.
  intros Hd Hev HI.
  assert (keeps (Inv 0) (gdiff depth)) as Hgd by (apply keeps_getDifference; lia).
  assert (Hgs := Hgd s HI). unfold post, Run_step in *. destruct ev as [u|c p n| |c|].
  - pose proof (keeps_handleUpdates selfID UpdatesGetDifference handler track 0 _ Hgd u Hev s HI) as Hu.
    unfold post in Hu. destruct (handleUpdates _ _ _ _ u s) as [[|err|] ?]; [done| |done].
    split; [done|]. unfold ends. destruct (isFatalError err) eqn:E; [|done]. right. by exists err.
  - pose proof (keeps_handleAffected selfID UpdatesGetDifference handler track 0 c p n s HI) as Hu.
    unfold post in Hu. by destruct (handleAffected _ _ c p n s) as [[] ?].
  - by destruct (gdiff depth s) as [[] ?].
  - split; [by apply (Inv_same selfID track 0 s)|done].
  - destruct (_ || _); [destruct (gdiff depth s) as [[] ?]; try done|]; (split; [done|by left]).
Qed.

Lemma Run_loop_post depth evs : forall s,
  (N < depth)%nat -> Forall (fun ev => match ev with EvUpdates u => updates_ok track u | _ => True end) evs ->
  Inv 0 s ->
  post (Run_loop selfID UpdatesGetDifference handler depth evs) s
    (fun r s' => Inv 0 s' /\ ends r) (fun _ _ => False).
Proof.
  induction evs as [|ev evs IH]; intros s Hd Hevs HI; simpl; [done|].
  apply Forall_cons in Hevs as [Hev Hevs]. eapply post_seq; [by apply Run_step_post|].
  intros r s' [HI' Hr]. destruct r; [done|by apply IH].
Qed.

Lemma Run_post depth evs s :
  (N < depth)%nat -> Forall (fun ev => match ev with EvUpdates u => updates_ok track u | _ => True end) evs ->
  Inv 0 s -> post (Run selfID UpdatesGetDifference handler depth evs) s
    (fun r s' => Inv 0 s' /\ ends r) (fun _ _ => False).
Proof.
  intros Hd Hevs HI. pose proof (keeps_getDifference depth 0 ltac:(lia) ltac:(lia) s HI) as Hg.
  unfold post, Run in *. destruct (gdiff depth s) as [[] s']; [| |done]; by apply Run_loop_post.
Qed.

Lemma newState_Inv st chs stor h uh :
  GetState stor selfID = inl (Some st) -> Inv 0 (newState st chs stor h uh).
Proof. intros Hst. split; simpl; try done. exists st. by repeat split. Qed.
End Runs.

(** ** Correctness of the account state *)

(** The positions that are stored for the account. *)
Definition stored_as {S} `{!StateStorage S} (selfID : Z) (s : S) (p q d : Z) (sq : option Z) : Prop :=
  exists st, GetState s selfID = inl (Some st) /\ Pts st = p /\ Qts st = q /\ Date st = d /\
    match sq with Some n => Seq st = n | None => True end.

(** C18: started from a stored state, whatever updates, timeouts and affected
    results arrive, whatever the server answers and whatever the handler of the
    application returns, the manager never panics when its stack is deeper than
    the number of requests with a non-final answer; it returns only when the
    context ends or on a fatal error; and whenever it waits for the next event
    the stored pts, qts and date are the ones in memory.  The sequence number is
    stored as well, if no container that has one announces changed positions. *)
Theorem updates_run_persists {S H UH : Type}
    `{!StateStorage S, !AccessHasher H, !AccessHasher UH, !LawfulStorage S} (selfID : Z)
    (UpdatesGetDifference : nat -> Z -> Z -> Z -> UpdatesDifferenceClass + error)
    (handler : nat -> Updates -> option error) (N depth : nat) (track : bool)
    (st : Storage.State) (chs : gmap Z (Z * Z)) (stor : S) (h : H) (uh : UH) (evs : list event) :
  (forall n p q d, (N <= n)%nat -> final_answer (UpdatesGetDifference n p q d)) -> (N < depth)%nat ->
  GetState stor selfID = inl (Some st) ->
  Forall (fun ev => match ev with EvUpdates u => updates_ok track u | _ => True end) evs ->
  exists r s', Run selfID UpdatesGetDifference handler depth evs (newState st chs stor h uh) = (Ok r, s') /\
    ends r /\
    stored_as selfID (storage s') (state (pts s')) (state (qts s')) (date s')
      (if track then Some (state (seq s')) else None).
Proof.
  intros HN Hd Hst Hevs.
  pose proof (Run_post selfID UpdatesGetDifference handler track N HN depth evs
    (newState st chs stor h uh) Hd Hevs (newState_Inv selfID track st chs stor h uh Hst)) as Hrun.
  unfold post in Hrun. destruct (Run _ _ _ _ _ _) as [[r| |] s']; [|done..].
  destruct Hrun as [[(st' & Hget & Hp & Hq & Hda & Hs) _ _ _ _] Hr]. exists r, s'. split_and!; [done|done|].
  exists st'. destruct track; split_and!; auto.
Qed.

(** C38: the type assertions of the callbacks never fail: in every run, whatever
    arrives, the pts box only holds updates and affected results, the qts box
    only updates with a position, and the seq box only containers. *)
Theorem boxes_typed {S H UH : Type}
    `{!StateStorage S, !AccessHasher H, !AccessHasher UH, !LawfulStorage S} (selfID : Z)
    (UpdatesGetDifference : nat -> Z -> Z -> Z -> UpdatesDifferenceClass + error)
    (handler : nat -> Updates -> option error) (N depth : nat)
    (st : Storage.State) (chs : gmap Z (Z * Z)) (stor : S) (h : H) (uh : UH) (evs : list event) :
  (forall n p q d, (N <= n)%nat -> final_answer (UpdatesGetDifference n p q d)) -> (N < depth)%nat ->
  GetState stor selfID = inl (Some st) ->
  exists r s', Run selfID UpdatesGetDifference handler depth evs (newState st chs stor h uh) = (Ok r, s') /\
    Forall (fun u => match Value u with VCombined _ => False | _ => True end) (pending (pts s')) /\
    Forall (fun u => match Value u with VUpdate _ => State u <> 0 | _ => False end) (pending (qts s')) /\
    Forall (fun u => match Value u with VCombined _ => True | _ => False end) (pending (seq s')).
Proof.
  intros HN Hd Hst.
  assert (Forall (fun ev => match ev with EvUpdates u => updates_ok false u | _ => True end) evs) as Hok.
  { apply Forall_forall. intros [u| | | |] _; try done. by destruct u. }
  pose proof (Run_post selfID UpdatesGetDifference handler false N HN depth evs
    (newState st chs stor h uh) Hd Hok (newState_Inv selfID false st chs stor h uh Hst)) as Hrun.
  unfold post in Hrun. destruct (Run _ _ _ _ _ _) as [[r| |] s']; [|done..].
  destruct Hrun as [[_ Hp Hq Hs _] _]. exists r, s'. split_and!; [done|exact Hp|exact Hq|].
  eapply Forall_impl; [exact Hs|]. intros u. unfold seq_value. by destruct (Value u).
Qed.

(** A server with one slice before its final answers. *)
Definition slice_server (n : nat) (p q d : Z) : UpdatesDifferenceClass + error :=
  match n with
  | O => inl (UpdatesDifferenceSlice (mkDifference [MessageEmpty 3 None] [] [UpdateDeleteMessages 11 1 []]
                [] [] (mkUpdatesState 12 5 100 1)))
  | _ => inl (UpdatesDifferenceEmpty 101 2)
  end.

Definition witness_storage : memStorage.t :=
  snd (Storage.SetState 1 (mkState 10 5 90 1) memStorage.newMemStorage).

Lemma updates_run_persists_witness :
  exists r s', Run (S := memStorage.t) (H := gmap Z (gmap Z Z)) (UH := gmap Z (gmap Z Z))
      1 slice_server (fun _ _ => None) 2
      [EvUpdates (AnUpdates (mkUpdates [UpdateDeleteMessages 13 1 []] [] []) 102 3); EvTimeout; EvDone]
      (newState (mkState 10 5 90 1) ∅ witness_storage ∅ ∅) = (Ok r, s') /\
    ends r /\
    stored_as 1 (storage s') (state (pts s')) (state (qts s')) (date s') (Some (state (seq s'))).
Proof.
  apply (updates_run_persists (S := memStorage.t) (H := gmap Z (gmap Z Z)) (UH := gmap Z (gmap Z Z))
    1 slice_server (fun _ _ => None) 1 2 true (mkState 10 5 90 1) ∅ witness_storage ∅ ∅
    [EvUpdates (AnUpdates (mkUpdates [UpdateDeleteMessages 13 1 []] [] []) 102 3); EvTimeout; EvDone]).
  - intros [|n] p q d Hn; [lia|done].
  - lia.
  - reflexivity.
  - repeat constructor. intros _ _. simpl. rewrite elem_of_cons, elem_of_nil. naive_solver.
Defined.

(** ** Order and completeness of common updates *)

(** The update that handlePts gives to the box. *)
Definition pts_upd (u : UpdateClass) : upd :=
  match IsPtsUpdate u with
  | Some (p, n) => mkUpdate (VUpdate u) p n no_entities
  | None => mkUpdate VAffected 0 0 no_entities
  end.

(** Everything the handler was given. *)
Definition received {S H UH} (s : internalState S H UH) : list UpdateClass :=
  flat_map up_Updates (dispatched s).

Section Common.
Context {S H UH : Type} `{!StateStorage S, !AccessHasher H, !AccessHasher UH}.
Context (selfID : Z)
        (UpdatesGetDifference : nat -> Z -> Z -> Z -> UpdatesDifferenceClass + error)
        (handler : nat -> Updates -> option error) (gd : GoM (internalState S H UH) unit).
Abbreviation St := (internalState S H UH).

Definition value_of (u : upd) : list UpdateClass := match Value u with VUpdate v => [v] | _ => [] end.

Lemma convert_values_all us conv e :
  Forall pts_value us -> exists e', convert_values true us conv e = Some (conv ++ flat_map value_of us, e').
Proof.
  intros Hus. revert conv e. induction Hus as [|u us Hu Hus IH]; intros conv e; simpl.
  { exists e. by rewrite app_nil_r. }
  unfold pts_value in Hu. unfold value_of at 1. destruct (Value u) as [| |v]; [done|apply IH|].
  destruct (IH (conv ++ [v]) (Merge user_GetID chat_GetID e (Entities u))) as [e' ->].
  exists e'. by rewrite <- app_assoc.
Qed.

(** applyPts hands the updates over and leaves the rest alone. *)
Lemma applyPts_received st us (s : St) :
  Forall pts_value us ->
  exists s', applyPts selfID handler st us s = (Ok tt, s') /\
    received s' = received s ++ flat_map value_of us /\ pts s' = pts s /\ userHasher s' = userHasher s.
Proof.
  intros Hus. unfold applyPts. destruct (convert_values_all us [] no_entities Hus) as [e ->].
  simpl. destruct (zlen (flat_map value_of us) >? 0) eqn:Ez; eexists; (split; [reflexivity|]);
    unfold received; simpl.
  - rewrite flat_map_app. simpl. by rewrite app_nil_r.
  - destruct (flat_map value_of us); [by rewrite app_nil_r|]. rewrite zlen_cons in Ez.
    pose proof (zlen_nonneg l). lia.
Qed.

Lemma applyOne_pts d e u p n :
  IsPtsUpdate u = Some (p, n) ->
  applyOne (S:=S) (H:=H) (UH:=UH) selfID UpdatesGetDifference handler d e u
  = (handlePts selfID handler p n u e ;;! ret (false, [])).
Proof. destruct u; intros [= <- <-]; reflexivity. Qed.

Lemma saveHashes_nil (s : St) : saveHashes selfID [] [] s = (Ok tt, s).
Proof. by destruct s. Qed.

(** A container with one common update is one call of the pts box. *)
Lemma handleCombined_pts u p n users chats d (s s0 s1 : St) :
  IsPtsUpdate u = Some (p, n) -> 0 <= p -> 0 <= n ->
  saveHashes selfID chats users s = (Ok tt, s0) ->
  messageUpdatesPeersKnown selfID (userHasher s0) [u] = true ->
  pts_Handle selfID handler (mkUpdate (VUpdate u) p n (mkEntities users chats)) s0 = (Ok tt, s1) ->
  exists s', handleCombined selfID UpdatesGetDifference handler gd (mkCombined [u] users chats d 0 0) s
             = (Ok tt, s') /\
    pts s' = pts s1 /\ dispatched s' = dispatched s1 /\ userHasher s' = userHasher s1.
Proof.
  intros Hu Hp Hn Hsave Hk Hrun. unfold handleCombined.
  rewrite (bind_ok _ _ _ _ _ Hsave). erewrite bind_ok by reflexivity.
  cbn [uc_Updates us_Update]. rewrite Hk. cbn [negb]. unfold handleSeq. simpl.
  assert (applyLoop selfID UpdatesGetDifference handler d (mkEntities users chats) [u] false [] s0
          = (Ok (false, []), s1)) as Hloop.
  { simpl. rewrite (applyOne_pts _ _ _ _ _ Hu). unfold handlePts, validatePts.
    destruct (p <? 0) eqn:E1; [bool_to_prop; lia|]. destruct (n <? 0) eqn:E2; [bool_to_prop; lia|].
    unfold bind. by rewrite Hrun. }
  unfold bind at 1, applyCombined. erewrite bind_ok by exact Hloop. simpl.
  unfold advanceDateSeq, bind, get. simpl. destruct (d >? date s1); simpl; eexists; split_and!; reflexivity.
Qed.

Lemma deliver_short u p n d (s s1 : St) :
  IsPtsUpdate u = Some (p, n) -> 0 <= p -> 0 <= n ->
  messageUpdatesPeersKnown selfID (userHasher s) [u] = true ->
  pts_Handle selfID handler (pts_upd u) s = (Ok tt, s1) ->
  exists s', handleUpdates selfID UpdatesGetDifference handler gd (AnUpdateShort (mkShort u d)) s = (Ok tt, s') /\
    pts s' = pts s1 /\ dispatched s' = dispatched s1 /\ userHasher s' = userHasher s1.
Proof.
  intros Hu Hp Hn Hk Hrun. unfold pts_upd in Hrun. rewrite Hu in Hrun.
  exact (handleCombined_pts u p n [] [] d s s s1 Hu Hp Hn (saveHashes_nil s) Hk Hrun).
Qed.

(** The deliveries, one after the other. *)
Fixpoint deliver (us : list (UpdateClass * Z)) : GoM St unit :=
  match us with
  | [] => ret tt
  | (u, d) :: us =>
      handleUpdates selfID UpdatesGetDifference handler gd (AnUpdateShort (mkShort u d)) ;;! deliver us
  end.

(** A delivery takes the box through the states of a box that only records. *)
Lemma deliver_one u d (s : St) l :
  is_Some (IsPtsUpdate u) -> 0 <= State (pts_upd u) -> 0 <= Count (pts_upd u) ->
  messageUpdatesPeersKnown selfID (userHasher s) [u] = true ->
  Forall pts_value (pending (pts s)) ->
  exists s' l',
    handleUpdates selfID UpdatesGetDifference handler gd (AnUpdateShort (mkShort u d)) s = (Ok tt, s') /\
    Handle log_apply (pts_upd u) (l, pts s) = (Ok tt, (l', pts s')) /\
    Forall pts_value (pending (pts s')) /\ userHasher s' = userHasher s /\
    forall base, received s = base ++ flat_map value_of l -> received s' = base ++ flat_map value_of l'.
Proof.
  intros [[p n] Hu] Hp Hn Hk Hpend.
  pose (R := fun (w : St) (l0 : list upd) => userHasher w = userHasher s /\
     forall base, received s = base ++ flat_map value_of l -> received w = base ++ flat_map value_of l0).
  pose (ap := fun (st : Z) (us : list upd) '((w, b) : St * box) =>
    let '(r, w') := applyPts selfID handler st us (set_pts b w) in (r, (w', pts w'))).
  destruct (Handle_sim ap log_apply pts_value R) with (u := pts_upd u) (w1 := s) (w2 := l) (b := pts s)
    as (s1 & l' & b' & H1 & H2 & [Huh Hrec] & Hb').
  - intros st us w l0 b Hus [HRu HR].
    destruct (applyPts_received st us (set_pts b w) Hus) as (w' & Hrun & Hrec & Hbox & Huh).
    exists w', (l0 ++ us). unfold ap. rewrite Hrun, Hbox. simpl. split_and!; [done|done|].
    split; [by rewrite Huh|]. intros base Hbase. rewrite Hrec. unfold received. simpl.
    fold (received w). by rewrite (HR base Hbase), flat_map_app, app_assoc.
  - unfold pts_upd. by rewrite Hu.
  - done.
  - split; [done|]. done.
  - unfold pts_upd in Hp, Hn. rewrite Hu in Hp, Hn. simpl in Hp, Hn.
    destruct (deliver_short u p n d s (set_pts b' s1) Hu Hp Hn Hk) as (s' & Hd & Hpts & Hdis & Huh').
    { unfold pts_Handle, on_box. fold ap. by rewrite H1. }
    exists s', l'. rewrite Hpts. unfold received. rewrite Hdis, Huh'. simpl. by split_and!.
Qed.

Lemma deliver_all ds : forall (s : St) l,
  Forall (fun '(u, d) => is_Some (IsPtsUpdate u) /\ 0 <= State (pts_upd u) /\ 0 <= Count (pts_upd u) /\
            messageUpdatesPeersKnown selfID (userHasher s) [u] = true) ds ->
  Forall pts_value (pending (pts s)) ->
  exists s' l', deliver ds s = (Ok tt, s') /\
    forall b, handle_all log_apply (map (fun '(u, _) => pts_upd u) ds) (l, pts s) = (Ok tt, b) ->
    b = (l', pts s') /\
    forall base, received s = base ++ flat_map value_of l -> received s' = base ++ flat_map value_of l'.
Proof.
  induction ds as [|[u d] ds IH]; intros s l Hds Hpend; simpl.
  { exists s, l. split; [done|]. by intros b [= <-]. }
  apply Forall_cons in Hds as [(Hu & Hp & Hn & Hk) Hds].
  destruct (deliver_one u d s l Hu Hp Hn Hk Hpend) as (s1 & l1 & H1 & H2 & Hpend1 & Huh & Hrec1).
  destruct (IH s1 l1) as (s2 & l2 & H3 & H4); [by rewrite Huh|done|].
  exists s2, l2. split; [by erewrite bind_ok by exact H1|]. intros b Hb.
  rewrite (bind_ok _ _ _ _ _ H2) in Hb. destruct (H4 b Hb) as [-> Hrec2]. split; [done|]. auto.
Qed.
End Common.

(** C4: a server history of common updates that follow each other from the
    stored position, delivered as short updates in any order, with duplicates
    and with any dates, reaches the handler of the application exactly once,
    completely and in order, as long as the users of its messages are known; the
    account is then at the end of the history with nothing pending, and no
    difference was requested. *)
Theorem common_updates_in_order {S H UH : Type} `{!StateStorage S, !AccessHasher H, !AccessHasher UH}
    (selfID : Z) (UpdatesGetDifference : nat -> Z -> Z -> Z -> UpdatesDifferenceClass + error)
    (handler : nat -> Updates -> option error) (gd : GoM (internalState S H UH) unit)
    (st : Storage.State) (chs : gmap Z (Z * Z)) (stor : S) (h : H) (uh : UH)
    (history : list UpdateClass) (deliveries : list (UpdateClass * Z)) :
  Forall (fun u => is_Some (IsPtsUpdate u)) history -> 0 <= Pts st ->
  chain (Pts st) (map pts_upd history) ->
  messageUpdatesPeersKnown selfID uh history = true ->
  (forall u, u ∈ history <-> u ∈ map fst deliveries) ->
  exists s', deliver selfID UpdatesGetDifference handler gd deliveries (newState st chs stor h uh) = (Ok tt, s') /\
    received s' = history /\ state (pts s') = final (Pts st) (map pts_upd history) /\
    pending (pts s') = [] /\ gaps (pts s') = [].
Proof.
  intros Hpts H0 Hch Hk Hdel. set (s := newState st chs stor h uh).
  assert (Forall (fun '(u, d) => is_Some (IsPtsUpdate u) /\ 0 <= State (pts_upd u) /\ 0 <= Count (pts_upd u) /\
            messageUpdatesPeersKnown selfID (userHasher s) [u] = true) deliveries) as Hds.
  { apply Forall_forall. intros [u d] Hin.
    assert (u ∈ history) as Hu by (apply Hdel, list_elem_of_fmap; by exists (u, d)).
    rewrite Forall_forall in Hpts. split; [by apply Hpts|].
    assert (pts_upd u ∈ map pts_upd history) as Hm by (apply list_elem_of_fmap; by exists u).
    destruct (chain_bounds _ _ _ Hch Hm) as (Hlo & Hlt & _). unfold start, stop in *.
    split_and!; [lia|lia|]. unfold messageUpdatesPeersKnown in *. simpl.
    rewrite forallb_forall in Hk. by rewrite (Hk u) by (by apply list_elem_of_In). }
  destruct (deliver_all selfID UpdatesGetDifference handler gd deliveries s [] Hds) as (s' & l' & Hrun & Hsim);
    [constructor|].
  destruct (handle_all_history log_apply (fun l => l) (map pts_upd history) (Pts st) Hch
    (map (fun '(u, _) => pts_upd u) deliveries) [] [] (newSequenceBox (Pts st)))
    as (w & b & Hall & Hio); [by apply in_order_init|..].
  { intros u Hu. apply list_elem_of_fmap in Hu as ([v d] & -> & Hv). apply list_elem_of_fmap.
    exists v. split; [done|]. apply Hdel, list_elem_of_fmap. by exists (v, d). }
  destruct (in_order_complete (fun l => l) (map pts_upd history) (Pts st) Hch _ _ _ Hio)
    as (Hw & Hst & Hp & Hg).
  { intros u Hu. apply list_elem_of_fmap in Hu as (v & -> & Hv). apply Hdel, list_elem_of_fmap in Hv as ([v' d] & -> & Hin).
    rewrite app_nil_l. apply list_elem_of_fmap. by exists (v', d). }
  destruct (Hsim _ Hall) as [[= -> ->] Hrec]. exists s'. split_and!; try done.
  rewrite (Hrec []) by done. rewrite Hw. simpl. clear -Hpts.
  induction Hpts as [|u us [[p n] Hu] Hus IH]; [done|]. simpl. rewrite IH.
  unfold pts_upd at 1. by rewrite Hu.
Qed.

Lemma boxes_typed_witness :
  exists r s', Run (S := memStorage.t) (H := gmap Z (gmap Z Z)) (UH := gmap Z (gmap Z Z))
      1 slice_server (fun _ _ => None) 2
      [EvUpdates (AnUpdates (mkUpdates [UpdateDeleteMessages 15 1 []; UpdateBotStopped 8 []] [] []) 102 0);
       EvUpdates (AnUpdates (mkUpdates [UpdatePtsChanged] [] []) 103 9)]
      (newState (mkState 10 5 90 1) ∅ witness_storage ∅ ∅) = (Ok r, s') /\
    Forall (fun u => match Value u with VCombined _ => False | _ => True end) (pending (pts s')) /\
    Forall (fun u => match Value u with VUpdate _ => State u <> 0 | _ => False end) (pending (qts s')) /\
    Forall (fun u => match Value u with VCombined _ => True | _ => False end) (pending (seq s')).
Proof.
  apply (boxes_typed (S := memStorage.t) (H := gmap Z (gmap Z Z)) (UH := gmap Z (gmap Z Z))
    1 slice_server (fun _ _ => None) 1 2 (mkState 10 5 90 1) ∅ witness_storage ∅ ∅).
  - intros [|n] p q d Hn; [lia|done].
  - lia.
  - reflexivity.
Defined.

Lemma common_updates_in_order_witness :
  let h := [UpdateDeleteMessages 12 2 []; UpdateNewMessage (MessageEmpty 4 None) 13 1; UpdateWebPage 16 3 []] in
  exists s', deliver (S := memStorage.t) (H := gmap Z (gmap Z Z)) (UH := gmap Z (gmap Z Z))
      1 slice_server (fun _ _ => None) (ret tt)
      [(UpdateWebPage 16 3 [], 7); (UpdateDeleteMessages 12 2 [], 9);
       (UpdateNewMessage (MessageEmpty 4 None) 13 1, 8); (UpdateWebPage 16 3 [], 6)]
      (newState (mkState 10 5 90 1) ∅ witness_storage ∅ ∅) = (Ok tt, s') /\
    received s' = h /\ state (pts s') = final 10 (map pts_upd h) /\ pending (pts s') = [] /\ gaps (pts s') = [].
Proof.
  intros h. apply (common_updates_in_order (S := memStorage.t) (H := gmap Z (gmap Z Z)) (UH := gmap Z (gmap Z Z))
    1 slice_server (fun _ _ => None) (ret tt) (mkState 10 5 90 1) ∅ witness_storage ∅ ∅ h).
  - repeat constructor; by eexists.
  - simpl. lia.
  - simpl. unfold start. simpl. lia.
  - reflexivity.
  - intros u. simpl. unfold h. rewrite !elem_of_cons, !elem_of_nil. tauto.
Defined.

(** ** Defects *)

Section Defects.
Context {S H UH : Type} `{!StateStorage S, !AccessHasher H, !AccessHasher UH, !LawfulHasher UH}.
Context (selfID : Z)
        (UpdatesGetDifference : nat -> Z -> Z -> Z -> UpdatesDifferenceClass + error)
        (handler : nat -> Updates -> option error).
Abbreviation St := (internalState S H UH).

Lemma unknown_user_known (uh : UH) u m id users :
  message_of u = Some m -> id ∈ messageUserIDs selfID m -> id <> selfID ->
  known selfID uh id = false -> ~ Exists (full_user id) users ->
  known selfID (saveUserHashes selfID users uh) id = false /\
  messageUpdatesPeersKnown selfID (saveUserHashes selfID users (saveUserHashes selfID users uh)) [u] = false.
Proof.
  intros Hm Hid Hne Hk Hu.
  assert (forall uh : UH, known selfID uh id = false -> known selfID (saveUserHashes selfID users uh) id = false)
    as Hstep.
  { intros uh0 H0. destruct (known selfID (saveUserHashes selfID users uh0) id) eqn:E; [|done].
    apply (proj1 (saveUserHashes_known selfID users uh0 id)) in E as [E|E]; [congruence|done]. }
  split; [by apply Hstep|]. unfold messageUpdatesPeersKnown. simpl. rewrite Hm, andb_true_r.
  destruct (userPeersKnown _ _ _) eqn:E; [|done]. pose proof (proj1 (userPeersKnown_spec selfID _ _) E id Hid) as E'. clear E; rename E' into E.
  destruct E as [|E]; [done|]. rewrite !Hstep in E by auto. done.
Qed.

Lemma messageUpdatesPeersKnown_elem (uh : UH) u us :
  u ∈ us -> messageUpdatesPeersKnown selfID uh [u] = false -> messageUpdatesPeersKnown selfID uh us = false.
Proof.
  intros Hin Hu. destruct (messageUpdatesPeersKnown selfID uh us) eqn:E; [|done].
  unfold messageUpdatesPeersKnown in *. rewrite forallb_forall in E.
  apply list_elem_of_In in Hin. simpl in Hu. by rewrite (E u Hin) in Hu.
Qed.

Lemma difference_loops d u m id depth : forall s : St,
  (forall n, UpdatesGetDifference n (state (pts s)) (state (qts s)) (date s) = inl (UpdatesDifference d)) ->
  u ∈ d_OtherUpdates d -> message_of u = Some m -> id ∈ messageUserIDs selfID m -> id <> selfID ->
  known selfID (userHasher s) id = false -> ~ Exists (full_user id) (d_Users d) ->
  fst (getDifference selfID UpdatesGetDifference handler depth s) = Panic.
Proof.
  induction depth as [|depth IH]; intros s Hapi Hu Hm Hid Hne Hk Hfull; [done|]. simpl.
  destruct (unknown_user_known (userHasher s) u m id (d_Users d) Hm Hid Hne Hk Hfull) as [Hk1 Hk2].
  unfold getDifference_round. erewrite bind_ok by reflexivity. erewrite bind_ok by reflexivity.
  erewrite bind_ok; [|unfold request, bind, get, modify, ret; simpl; rewrite Hapi; reflexivity]. cbv beta iota.
  erewrite bind_ok by reflexivity. destruct (d_OtherUpdates d) as [|v vs] eqn:Ed; [by apply elem_of_nil in Hu|].
  destruct (zlen (v :: vs) >? 0) eqn:Ez; [|rewrite zlen_cons in Ez; pose proof (zlen_nonneg vs); lia].
  unfold bind at 1, wrapping. cbn [handleUpdates]. unfold handleCombined.
  match goal with |- context [bind (saveHashes selfID ?c ?us) ?k ?s1] =>
    erewrite (bind_ok (saveHashes selfID c us) k tt s1 _ eq_refl) end.
  erewrite bind_ok by reflexivity. cbn [userHasher set_userHasher uc_Updates uc_Users set_hasher].
  rewrite (messageUpdatesPeersKnown_elem _ u) by done. cbn [negb].
  match goal with |- context [getDifference _ _ _ depth ?s1] =>
    specialize (IH s1); destruct (getDifference selfID UpdatesGetDifference handler depth s1) as [r s2] eqn:E
  end.
  simpl in IH. rewrite IH; try done. by eapply (unknown_user_known _ u m).
Qed.

(** An update behind a gap is put aside. *)
Lemma pts_Handle_gap (u : upd) (s : St) :
  gaps (pts s) = [] -> pending (pts s) = [] -> 0 < Count u -> State u <> 0 -> state (pts s) < start u ->
  pts_Handle selfID handler u s
  = (Ok tt, set_pts (mkBox (state (pts s)) [mkGap (state (pts s)) (start u)] true [u]) s).
Proof.
  intros Hg Hp Hc H0 Hlt. unfold pts_Handle, on_box, Handle, bind. cbn [get_box snd].
  pose proof (checkGap_spec (state (pts s)) u H0) as Hck.
  destruct (checkGap _ _ _); [lia|lia|]. rewrite Hg, Hp. simpl.
  unfold consume_all, Consume. simpl. unfold start, stop in *.
  assert ((State u - Count u >=? State u) = false) as -> by lia. rewrite andb_false_r. simpl. by destruct s.
Qed.

Lemma dispatchMessages_received d (s : St) :
  exists s', dispatchMessages selfID handler d s = (Ok tt, s') /\
    received s' = received s ++ msgsToUpdates (d_NewMessages d) false
                  ++ encryptedMsgsToUpdates (d_NewEncryptedMessages d) /\ pts s' = pts s.
Proof.
  unfold dispatchMessages. destruct (_ || _) eqn:E; eexists; (split; [reflexivity|]); unfold received; simpl.
  - rewrite flat_map_app. simpl. by rewrite app_nil_r.
  - bool_to_prop. destruct (d_NewMessages d) as [|x l]; [|rewrite zlen_cons in *; pose proof (zlen_nonneg l); lia].
    destruct (d_NewEncryptedMessages d) as [|y l]; [|rewrite (zlen_cons y) in *; pose proof (zlen_nonneg l); lia].
    by rewrite app_nil_r.
Qed.

(** While a gap is open, an update outside of it is put aside, too. *)
Lemma pts_Handle_outside (u : upd) (s : St) g :
  gaps (pts s) = [g] -> to g < stop u -> State u <> 0 ->
  exists s', pts_Handle selfID handler u s = (Ok tt, s') /\ dispatched s' = dispatched s.
Proof.
  intros Hg Hto H0. unfold pts_Handle, on_box, Handle, bind. cbn [get_box snd].
  destruct (checkGap _ _ _); [|by eexists|]; rewrite Hg; simpl; unfold Consume; simpl;
    (assert ((to g >=? stop u) = false) as -> by lia); rewrite andb_false_r; simpl; by eexists.
Qed.
End Defects.

(** C40: A server that answers the current position with a difference whose
    other updates contain a message of an unknown user, without a full entry for
    this user, makes getDifference call itself without end: no stack is deep
    enough, since the position only advances after the other updates. *)
Theorem difference_unknown_user_overflows {S H UH : Type}
    `{!StateStorage S, !AccessHasher H, !AccessHasher UH, !LawfulHasher UH} (selfID : Z)
    (UpdatesGetDifference : nat -> Z -> Z -> Z -> UpdatesDifferenceClass + error)
    (handler : nat -> Updates -> option error) (d : Difference) (u : UpdateClass) (m : Message) (id : Z)
    (depth : nat) (s : internalState S H UH) :
  (forall n, UpdatesGetDifference n (state (pts s)) (state (qts s)) (date s) = inl (UpdatesDifference d)) ->
  u ∈ d_OtherUpdates d -> message_of u = Some m -> id ∈ messageUserIDs selfID m -> id <> selfID ->
  known selfID (userHasher s) id = false -> ~ Exists (full_user id) (d_Users d) ->
  fst (getDifference selfID UpdatesGetDifference handler depth s) = Panic.
Proof. apply difference_loops. Qed.

Lemma difference_unknown_user_overflows_witness :
  let m := mkMessage 3 (PeerUser 8) [] 100 false false false false false None None None None None None None [] in
  let d := mkDifference [] [] [UpdateEditMessage (AMessage m) 11 1] [] [AUser 8 true (Some 5) []]
             (mkUpdatesState 11 5 100 1) in
  fst (getDifference (S := memStorage.t) (H := gmap Z (gmap Z Z)) (UH := gmap Z (gmap Z Z))
         1 (fun _ _ _ _ => inl (UpdatesDifference d)) (fun _ _ => None) 1000
         (newState (mkState 10 5 90 1) ∅ witness_storage ∅ ∅)) = Panic.
Proof.
  intros m d. apply (difference_unknown_user_overflows 1 (fun _ _ _ _ => inl (UpdatesDifference d))
    (fun _ _ => None) d (UpdateEditMessage (AMessage m) 11 1) m 8 1000); try done.
  - left.
  - left.
  - intros Hex. apply Exists_cons in Hex as [(hash & rest & Heq & _)|Hex]; [done|by apply Exists_nil in Hex].
Defined.

(** An update of a difference that starts behind the position in memory,
    because messages of the same difference come before it, is put aside and not
    handed to the application; the position then passes it, so that it counts
    as outdated, and the gap it opened stays: the next update in order is put
    aside as well. *)
Theorem difference_update_lost {S H UH : Type}
    `{!StateStorage S, !AccessHasher H, !AccessHasher UH} (selfID : Z)
    (UpdatesGetDifference : nat -> Z -> Z -> Z -> UpdatesDifferenceClass + error)
    (handler : nat -> Updates -> option error) (d : Difference) (u : UpdateClass) (p n : Z)
    (depth : nat) (s : internalState S H UH) :
  UpdatesGetDifference (calls s) (state (pts s)) (state (qts s)) (date s) = inl (UpdatesDifference d) ->
  d_OtherUpdates d = [u] -> IsPtsUpdate u = Some (p, n) -> message_of u = None ->
  0 <= state (pts s) -> 0 < n -> state (pts s) < p - n -> p <= r_Pts (d_State d) -> pending (pts s) = [] ->
  exists s', getDifference selfID UpdatesGetDifference handler (Datatypes.S depth) s = (Ok tt, s') /\
    received s' = received s ++ msgsToUpdates (d_NewMessages d) false
                  ++ encryptedMsgsToUpdates (d_NewEncryptedMessages d) /\
    state (pts s') = r_Pts (d_State d) /\ checkGap (state (pts s')) p n = gapIgnore /\
    forall v q c e, IsPtsUpdate v = Some (q, c) -> q - c = state (pts s') -> 0 < c ->
      exists s'', handlePts selfID handler q c v e s' = (Ok tt, s'') /\ received s'' = received s'.
Proof.
  intros Hapi Ho Hu Hm H0 Hn Hlt Hle Hpend. simpl. unfold getDifference_round.
  erewrite bind_ok by reflexivity. erewrite bind_ok by reflexivity.
  erewrite bind_ok; [|unfold request, bind, get, modify, ret; simpl; rewrite Hapi; reflexivity]. cbv beta iota.
  erewrite bind_ok by reflexivity. rewrite Ho. change (zlen [u] >? 0) with true. cbv iota.
  match goal with |- context [bind (wrapping _ _) _ ?st] => set (s1 := st) end.
  set (gd := getDifference selfID UpdatesGetDifference handler depth).
  destruct (saveHashes selfID (d_Chats d) (d_Users d) s1) as [r s2] eqn:Esave.
  assert (r = Ok tt /\ pts s2 = pts s1 /\ dispatched s2 = dispatched s1) as (-> & Hp2 & Hd2)
    by (injection Esave as <- <-; done).
  set (ev := mkUpdate (VUpdate u) p n (mkEntities (d_Users d) (d_Chats d)) : upd).
  assert (pts s1 = box_clear (pts s)) as Hp1 by done.
  pose proof (pts_Handle_gap selfID handler ev s2) as Hgap.
  rewrite Hp2, Hp1 in Hgap. unfold start in Hgap. simpl in Hgap.
  specialize (Hgap eq_refl Hpend ltac:(lia) ltac:(lia) ltac:(lia)).
  destruct (handleCombined_pts selfID UpdatesGetDifference handler gd u p n (d_Users d) (d_Chats d) 0 s1 s2 _
    Hu ltac:(lia) ltac:(lia) Esave ltac:(unfold messageUpdatesPeersKnown; simpl; by rewrite Hm) Hgap)
    as (s3 & Hrun & Hp3 & Hd3 & _).
  erewrite bind_ok; [|unfold wrapping; simpl; rewrite Hrun; reflexivity].
  simpl in Hp3, Hd3.
  destruct (dispatchMessages_received selfID handler d s3) as (s4 & Hmsg & Hr4 & Hp4).
  rewrite (bind_ok _ _ _ _ _ Hmsg). eexists. split; [reflexivity|].
  unfold received at 1 4. simpl. fold (received s4).
  assert (received s3 = received s) as Hr3 by (unfold received; rewrite Hd3, Hd2; done).
  split_and!; [by rewrite Hr4, Hr3|done| |].
  { pose proof (checkGap_spec (r_Pts (d_State d)) (pts_upd u)) as Hck. unfold pts_upd in Hck.
    rewrite Hu in Hck. unfold start in Hck. simpl in Hck. specialize (Hck ltac:(lia)).
    destruct (checkGap _ _ _); [lia|done|lia]. }
  intros v q c e Hv Hq Hc. unfold handlePts, validatePts.
  destruct (q <? 0) eqn:E1; [bool_to_prop; lia|]. destruct (c <? 0) eqn:E2; [bool_to_prop; lia|].
  match goal with |- context [pts_Handle _ _ ?w ?st] =>
    destruct (pts_Handle_outside selfID handler w st (mkGap (state (pts s)) (p - n))) as (s5 & -> & Hd5)
  end; [simpl; by rewrite Hp4, Hp3|unfold stop; simpl; lia|simpl; lia|].
  exists s5. split; [done|]. unfold received. by rewrite Hd5.
Qed.

Lemma difference_update_lost_witness :
  let d := mkDifference [MessageEmpty 4 None] [] [UpdateDeleteMessages 12 1 []] [] [] (mkUpdatesState 12 5 100 1) in
  exists s', getDifference (S := memStorage.t) (H := gmap Z (gmap Z Z)) (UH := gmap Z (gmap Z Z))
       1 (fun _ _ _ _ => inl (UpdatesDifference d)) (fun _ _ => None) 1
       (newState (mkState 10 5 90 1) ∅ witness_storage ∅ ∅) = (Ok tt, s') /\
    received s' = [UpdateNewMessage (MessageEmpty 4 None) (-1) (-1)] /\
    state (pts s') = 12 /\ checkGap (state (pts s')) 12 1 = gapIgnore /\
    forall v q c e, IsPtsUpdate v = Some (q, c) -> q - c = state (pts s') -> 0 < c ->
      exists s'', handlePts 1 (fun _ _ => None) q c v e s' = (Ok tt, s'') /\ received s'' = received s'.
Proof.
  intros d. apply (difference_update_lost (S := memStorage.t) (H := gmap Z (gmap Z Z)) (UH := gmap Z (gmap Z Z))
    1 (fun _ _ _ _ => inl (UpdatesDifference d)) (fun _ _ => None) d (UpdateDeleteMessages 12 1 []) 12 1 0);
    simpl; try done; lia.
Defined.

(** *** The stored state through single calls *)

Section Stored.
Context {S H UH : Type} `{!StateStorage S, !AccessHasher H, !AccessHasher UH, !LawfulStorage S}.
Context (selfID : Z).
Abbreviation St := (internalState S H UH).

Definition stored_with (P : Storage.State -> Prop) (s : St) : Prop :=
  exists st, GetState (storage s) selfID = inl (Some st) /\ P st.

Lemma post_store set f (P : Storage.State -> Prop) (s : St) E :
  sets_field set selfID f -> stored_with (fun st => P (f st)) s -> post (store set) s (fun _ => stored_with P) E.
Proof.
  intros Hset (st & Hget & HP). apply post_modify. exists (f st). split; [|done]. simpl.
  specialize (Hset (storage s)). rewrite Hget in Hset. by destruct Hset as [_ ->].
Qed.

(** applyCombined of a container with a new sequence number and no position. *)
Lemma advanceDateSeq_stored c (s : St) E :
  stored_with (fun _ => True) s -> post (advanceDateSeq selfID c) s (fun _ => stored_with (fun _ => True)) E.
Proof.
  intros Hs. unfold advanceDateSeq. apply post_bind, post_get. cbv zeta.
  destruct (_ && _); [|destruct (_ >? _); [|destruct (_ >? 0)]]; try done;
    (eapply post_seq; [eapply (post_store _ _ (fun _ => True)); [|exact Hs]|intros ? s1 Hs1; by apply post_modify]).
  - apply SetDateSeq_law.
  - apply SetDate_law.
  - apply SetSeq_law.
Qed.
End Stored.

(** A container with a sequence number that announces changed positions
    makes the manager fetch the difference; the sequence number of the difference
    is stored, but in memory it is overwritten with the number of the container,
    so that memory and storage disagree. *)
Theorem seq_falls_back {S H UH : Type}
    `{!StateStorage S, !AccessHasher H, !AccessHasher UH, !LawfulStorage S} (selfID : Z)
    (UpdatesGetDifference : nat -> Z -> Z -> Z -> UpdatesDifferenceClass + error)
    (handler : nat -> Updates -> option error) (Date0 Date1 seq1 : Z) (depth : nat)
    (s : internalState S H UH) (st : Storage.State) :
  (forall n p q d, UpdatesGetDifference n p q d = inl (UpdatesDifferenceEmpty Date1 seq1)) ->
  0 <= state (seq s) -> gaps (seq s) = [] -> pending (seq s) = [] ->
  GetState (storage s) selfID = inl (Some st) ->
  let seq0 := state (seq s) + 1 in
  exists s' st', handleUpdates selfID UpdatesGetDifference handler
      (getDifference selfID UpdatesGetDifference handler (Datatypes.S depth))
      (AnUpdatesCombined (mkCombined [UpdatePtsChanged] [] [] Date0 seq0 seq0)) s = (Ok tt, s') /\
    state (seq s') = seq0 /\ GetState (storage s') selfID = inl (Some st') /\ Seq st' = seq1.
Proof.
  intros Hapi H0 Hg Hp Hst seq0. set (gd := getDifference _ _ _ _).
  cbn [handleUpdates]. unfold handleCombined.
  rewrite (bind_ok _ _ _ _ _ (saveHashes_nil selfID s)). erewrite bind_ok by reflexivity. cbn [uc_Updates].
  change (messageUpdatesPeersKnown _ _ _) with true. cbn [negb].
  set (c := mkCombined _ _ _ _ _ _). unfold handleSeq, validateSeq. cbn [uc_Seq uc_SeqStart c].
  destruct (seq0 <? 0) eqn:E1; [bool_to_prop; lia|]. destruct (seq0 =? 0) eqn:E2; [bool_to_prop; lia|].
  set (u := mkUpdate _ _ _ _ : upd).
  assert (post (applySeq selfID UpdatesGetDifference handler gd seq0 [u]) s
    (fun _ => stored_with selfID (fun st => Seq st = seq1)) (fun _ _ => False)) as Hap.
  { unfold applySeq. eapply post_seq with (R := fun b s1 => b = true /\ stored_with selfID (fun _ => True) s1).
    - simpl. unfold applyCombined. simpl.
      apply post_bind, post_bind, post_bind, post_ret, post_ret, post_bind, post_ret.
      eapply post_seq; [apply advanceDateSeq_stored; by exists st|]. intros ? s2 Hs2. by apply post_ret, post_ret.
    - intros b s1 [-> Hs1]. eapply post_seq.
      { eapply (post_store selfID _ _ (fun _ => True)); [apply SetSeq_law|exact Hs1]. }
      intros ? s2 Hs2. subst gd. simpl. unfold getDifference_round.
      apply post_bind, post_modify, post_bind, post_get, post_bind.
      unfold request. apply post_bind, post_get, post_bind, post_modify, post_ret. rewrite Hapi.
      apply post_seq with (fun _ => stored_with selfID (fun st => Seq st = seq1));
        [|intros ? s3 Hs3; apply post_modify; exact Hs3].
      eapply post_store; [apply SetDateSeq_law|]. destruct Hs2 as (st2 & Hget & _). by exists st2. }
  unfold post in Hap. destruct (applySeq _ _ _ _ _ _ s) as [[[]| |] s1] eqn:Eap; [|done..].
  destruct Hap as (st' & Hget & Hseq). exists (set_seq (box_state seq0 (seq s1)) s1), st'.
  split_and!; try done. unfold seq_Handle.
  apply (on_box_next seq set_seq _ u s s1); [by destruct s|done|done| |done].
  unfold checkGap. cbn [State Count u]. rewrite E2.
  assert ((state (seq s) + (seq0 - seq0 + 1) =? seq0) = true) as -> by lia. done.
Qed.

Lemma seq_falls_back_witness :
  exists s' st', handleUpdates (S := memStorage.t) (H := gmap Z (gmap Z Z)) (UH := gmap Z (gmap Z Z))
      1 (fun _ _ _ _ => inl (UpdatesDifferenceEmpty 101 9)) (fun _ _ => None)
      (getDifference 1 (fun _ _ _ _ => inl (UpdatesDifferenceEmpty 101 9)) (fun _ _ => None) 1)
      (AnUpdatesCombined (mkCombined [UpdatePtsChanged] [] [] 95 2 2))
      (newState (mkState 10 5 90 1) ∅ witness_storage ∅ ∅) = (Ok tt, s') /\
    state (seq s') = 2 /\ GetState (storage s') 1 = inl (Some st') /\ Seq st' = 9.
Proof.
  apply (seq_falls_back (S := memStorage.t) (H := gmap Z (gmap Z Z)) (UH := gmap Z (gmap Z Z))
    1 (fun _ _ _ _ => inl (UpdatesDifferenceEmpty 101 9)) (fun _ _ => None) 95 101 9 0
    (newState (mkState 10 5 90 1) ∅ witness_storage ∅ ∅) (mkState 10 5 90 1)); done.
Defined.

(** An affected result without a position changes nothing, but an update
    with position 0 moves the account back to position 0, in memory and in the
    storage. *)
Theorem zero_pts_resets {S H UH : Type}
    `{!StateStorage S, !AccessHasher H, !AccessHasher UH, !LawfulStorage S} (selfID : Z)
    (handler : nat -> Updates -> option error) (u : UpdateClass) (n channelID : Z) (e : ents)
    (s : internalState S H UH) (st : Storage.State) :
  0 <= n -> gaps (pts s) = [] -> pending (pts s) = [] -> GetState (storage s) selfID = inl (Some st) ->
  handleAffected selfID handler channelID 0 n s = (Ok tt, s) /\
  exists s', handlePts selfID handler 0 n u e s = (Ok tt, s') /\
    state (pts s') = 0 /\ GetState (storage s') selfID = inl (Some (with_Pts 0 st)).
Proof.
  intros Hn Hg Hp Hst. split; [done|]. unfold handlePts, validatePts.
  destruct (n <? 0) eqn:E; [bool_to_prop; lia|]. simpl. set (w := mkUpdate _ _ _ _ : upd).
  eexists. split; [unfold pts_Handle; apply on_box_next; [by destruct s|done|done|done|reflexivity]|].
  simpl. split; [done|]. pose proof (SetPts_law selfID 0 (storage s)) as Hl. rewrite Hst in Hl. apply Hl.
Qed.

Lemma zero_pts_resets_witness :
  let s := newState (H := gmap Z (gmap Z Z)) (UH := gmap Z (gmap Z Z)) (mkState 10 5 90 1) ∅ witness_storage ∅ ∅ in
  handleAffected 1 (fun _ _ => None) 0 0 1 s = (Ok tt, s) /\
  exists s', handlePts 1 (fun _ _ => None) 0 1 (UpdateWebPage 0 1 []) no_entities s = (Ok tt, s') /\
    state (pts s') = 0 /\ GetState (storage s') 1 = inl (Some (with_Pts 0 (mkState 10 5 90 1))).
Proof.
  intros s. apply (zero_pts_resets 1 (fun _ _ => None) (UpdateWebPage 0 1 []) 1 0 no_entities s (mkState 10 5 90 1));
    done.
Defined.
