(* ===== verification/Channel.v ===== *)
(** * telegram/updates: the worker of a channel

    Model of src/telegram/updates state_channel.go: the state of one channel with
    its sequence box, the timeout between differences, and every handler of its
    worker.  The remote API, the clock, the handler of the application and the
    cancellation of the context are parameters.  Updates that the worker drops
    while it waits do not appear as events; how the workers and the account share
    their queues and the semaphore is the subject of Workers.v. *)
From S2P Require Import Prelude Tgerr Tg Storage Sequence Updates.

(** ** Answers of updates.getChannelDifference *)

Inductive ChannelDifferenceClass : Type :=
| UpdatesChannelDifferenceEmpty (Pts : Z) (Timeout : option Z)
| UpdatesChannelDifferenceTooLong (Timeout : option Z) (dialog : DialogClass)
| UpdatesChannelDifference (Final : bool) (Pts : Z) (Timeout : option Z)
    (NewMessages : list MessageClass) (OtherUpdates : list UpdateClass)
    (chats : list ChatClass) (users : list UserClass).

(** Where the worker waits for something that the end of the context interrupts. *)
Inductive place : Type := Waiting | Acquiring | Sending | Removing.

Section Channel.
Context {S H UH : Type} `{!StateStorage S, !AccessHasher H, !AccessHasher UH}.

Record channelState : Type := mkChannelState {
  c_pts : box;
  diffTimeout : Z;
  c_storage : S;
  c_hasher : H;
  c_userHasher : UH;
  c_calls : nat;                  (* requests sent so far *)
  c_dispatched : list Updates;    (* what the handler was given *)
  c_out : list Updates;           (* what was handed to the account *)
  c_tooLong : nat;                (* calls of onTooLong *)
  c_inaccessible : nat;           (* calls of onInaccessible *)
  c_removed : nat;                (* removals requested *)
}.

Definition cset_pts b s := mkChannelState b (diffTimeout s) (c_storage s) (c_hasher s) (c_userHasher s)
  (c_calls s) (c_dispatched s) (c_out s) (c_tooLong s) (c_inaccessible s) (c_removed s).
Definition cset_timeout t s := mkChannelState (c_pts s) t (c_storage s) (c_hasher s) (c_userHasher s)
  (c_calls s) (c_dispatched s) (c_out s) (c_tooLong s) (c_inaccessible s) (c_removed s).
Definition cset_storage st s := mkChannelState (c_pts s) (diffTimeout s) st (c_hasher s) (c_userHasher s)
  (c_calls s) (c_dispatched s) (c_out s) (c_tooLong s) (c_inaccessible s) (c_removed s).
Definition ccount_call s := mkChannelState (c_pts s) (diffTimeout s) (c_storage s) (c_hasher s) (c_userHasher s)
  (Datatypes.S (c_calls s)) (c_dispatched s) (c_out s) (c_tooLong s) (c_inaccessible s) (c_removed s).
Definition clog_dispatch u s := mkChannelState (c_pts s) (diffTimeout s) (c_storage s) (c_hasher s) (c_userHasher s)
  (c_calls s) (c_dispatched s ++ [u]) (c_out s) (c_tooLong s) (c_inaccessible s) (c_removed s).
Definition clog_out u s := mkChannelState (c_pts s) (diffTimeout s) (c_storage s) (c_hasher s) (c_userHasher s)
  (c_calls s) (c_dispatched s) (c_out s ++ [u]) (c_tooLong s) (c_inaccessible s) (c_removed s).
Definition onTooLong s := mkChannelState (c_pts s) (diffTimeout s) (c_storage s) (c_hasher s) (c_userHasher s)
  (c_calls s) (c_dispatched s) (c_out s) (Datatypes.S (c_tooLong s)) (c_inaccessible s) (c_removed s).
Definition onInaccessible s := mkChannelState (c_pts s) (diffTimeout s) (c_storage s) (c_hasher s) (c_userHasher s)
  (c_calls s) (c_dispatched s) (c_out s) (c_tooLong s) (Datatypes.S (c_inaccessible s)) (c_removed s).
Definition crequest_removal s := mkChannelState (c_pts s) (diffTimeout s) (c_storage s) (c_hasher s) (c_userHasher s)
  (c_calls s) (c_dispatched s) (c_out s) (c_tooLong s) (c_inaccessible s) (Datatypes.S (c_removed s)).

(** The immutable fields; the API by the number of earlier requests and the
    position asked from; the clock before and after a request; the error of the
    context where it ends a wait. *)
Context (selfID channelID diffLim : Z)
        (UpdatesGetChannelDifference : nat -> Z -> ChannelDifferenceClass + error)
        (handler : nat -> Updates -> option error)
        (clock : nat -> bool -> Z) (cancelled : nat -> place -> option error).

Abbreviation M := (GoM channelState).

Definition cstore (f : S -> option error * S) : M unit :=
  modify (fun s => cset_storage (snd (f (c_storage s))) s).

(** A wait that returns [ctx.Err()] when the context ends first. *)
Definition wait (p : place) : M unit :=
  let! s := get in
  match cancelled (c_calls s) p with Some err => fail err | None => ret tt end.

Definition cdispatch (u : Updates) : M (option error) :=
  let! s := get in
  let u := mkUpdates (up_Updates u) (backfillMinUsers selfID (c_userHasher s) (up_Users u))
                     (backfillMinChats selfID (c_hasher s) (up_Chats u)) in
  modify (clog_dispatch u) ;;!
  ret (handler (length (c_dispatched s)) u).

Definition storePts (state : Z) : M unit := cstore (SetChannelPts selfID channelID state).

Definition applyChannelPts (state : Z) (updates : list upd) : M unit :=      (* applyPts *)
  match convert_values true updates [] no_entities with
  | None => fun s => (Panic, s)
  | Some (converted, e) =>
      let! err := (if zlen converted >? 0 then cdispatch (mkUpdates converted (Users e) (Chats e))
                   else ret None) in
      match err with
      | Some _ => ret tt
      | None => storePts state
      end
  end.

Definition cpts_Handle (u : upd) : M unit := on_box c_pts cset_pts applyChannelPts (fun apply => Handle apply u).

Definition handleChannelAffected (pts ptsCount : Z) : M unit :=              (* handleAffected *)
  if pts =? 0 then ret tt
  else match validatePts pts ptsCount with
       | Some _ => ret tt
       | None => cpts_Handle (mkUpdate VAffected pts ptsCount no_entities)
       end.

Definition handleInaccessible {A} : M A :=
  modify onInaccessible ;;!
  let! s := get in
  match cancelled (c_calls s) Removing with
  | Some _ => ret tt
  | None => modify crequest_removal
  end ;;!
  fail errChannelInaccessible.

Definition sendOut (u : Updates) : M unit :=
  wait Sending ;;!
  modify (clog_out u).

(** [time.Now().Add(time.Second * time.Duration(seconds))] *)
Definition setTimeout (n : nat) (Timeout : option Z) : M unit :=
  match Timeout with
  | Some seconds => modify (cset_timeout (clock n true + i64 (Second * seconds)))
  | None => ret tt
  end.

Definition setPosition (pts : Z) : M unit :=
  storePts pts ;;!
  modify (fun s => cset_pts (box_state pts (c_pts s)) s).

(** The answer to request [n]; a difference that is not final is followed by
    the next one. *)
Definition handleAnswer (getDifference : M unit) (n : nat) (answer : ChannelDifferenceClass + error) : M unit :=
  match answer with
  | inr err =>
      if IsOneOfTypes err [bytes_of_string "CHANNEL_PRIVATE"] then handleInaccessible
      else fail (Wrap err "get channel difference")
  | inl (UpdatesChannelDifference Final Pts Timeout NewMessages OtherUpdates chats users) =>
      (if zlen OtherUpdates >? 0 then sendOut (mkUpdates OtherUpdates users chats) else ret tt) ;;!
      (if zlen NewMessages >? 0 then
         cdispatch (mkUpdates (msgsToUpdates NewMessages true) users chats) ;;! ret tt
       else ret tt) ;;!
      setPosition Pts ;;!
      setTimeout n Timeout ;;!
      if negb Final then getDifference else ret tt
  | inl (UpdatesChannelDifferenceEmpty Pts Timeout) =>
      setPosition Pts ;;!
      setTimeout n Timeout
  | inl (UpdatesChannelDifferenceTooLong Timeout dialog) =>
      setTimeout n Timeout ;;!
      match getDialogPts dialog with
      | inr _ => ret tt
      | inl remotePts => setPosition remotePts
      end ;;!
      modify onTooLong
  end.

(** One round of getDifference. *)
Definition channelDifference_round (getDifference : M unit) : M unit :=
  modify (fun s => cset_pts (box_clear (c_pts s)) s) ;;!
  let! s := get in
  let n := c_calls s in
  (if clock n false <? diffTimeout s then wait Waiting else ret tt) ;;!
  wait Acquiring ;;!
  modify ccount_call ;;!
  handleAnswer getDifference n (UpdatesGetChannelDifference n (state (c_pts s))).

Fixpoint getChannelDifference (depth : nat) : M unit :=
  match depth with
  | O => fun s => (Panic, s)
  | Datatypes.S depth => channelDifference_round (getChannelDifference depth)
  end.

Definition handleTooLong (depth : nat) (long_Pts : option Z) : M unit :=
  match long_Pts with
  | None => getChannelDifference depth
  | Some remotePts =>
      let! s := get in
      if remotePts - state (c_pts s) >? diffLim then modify onTooLong
      else getChannelDifference depth
  end.

Definition handleChannelUpdate (depth : nat) (u : option UpdateClass) (e : ents) : M unit :=  (* handleUpdate *)
  match u with
  | None => fail (Errorf "expected channel update")
  | Some (UpdateChannelTooLong _ Pts) => handleTooLong depth Pts
  | Some u =>
      match IsChannelPtsUpdate u with
      | None => fail (Errorf "expected channel update")
      | Some (_, _, _, Some err) => fail (Wrap err "invalid update")
      | Some (id, pts, ptsCount, None) =>
          if negb (id =? channelID) then fail (Errorf "update for wrong channel")
          else cpts_Handle (mkUpdate (VUpdate u) pts ptsCount e)
      end
  end.

(** ** Run *)

Inductive channelEvent : Type :=
| CEvUpdate (u : channelUpdate)
| CEvTimeout                        (* the gap timer and the idle timer *)
| CEvDone.                          (* ctx.Done *)

(** The end of an iteration: None to go on, Some r when Run returns r. *)
Definition after (m : M unit) : M (option (option error)) :=
  fun s =>
    match m s with
    | (Ok _, s') => (Ok None, s')
    | (Err err, s') => (Ok (if Is err errChannelInaccessible then Some None else None), s')
    | (Panic, s') => (Panic, s')
    end.

Definition channelRun_step (depth : nat) (ev : channelEvent) : M (option (option error)) :=
  match ev with
  | CEvUpdate u =>
      after (if cu_affected u then handleChannelAffected (cu_pts u) (cu_ptsCount u)
             else handleChannelUpdate depth (cu_update u) (cu_entities u))
  | CEvTimeout => after (getChannelDifference depth)
  | CEvDone =>
      let! s := get in
      (if zlen (pending (c_pts s)) >? 0 then after (getChannelDifference depth) ;;! ret tt else ret tt) ;;!
      ret (Some (Some Canceled))
  end.

Fixpoint channelRun_loop (depth : nat) (evs : list channelEvent) : M (option (option error)) :=
  match evs with
  | [] => ret None
  | ev :: evs =>
      let! r := channelRun_step depth ev in
      match r with
      | Some r => ret (Some r)
      | None => channelRun_loop depth evs
      end
  end.

Definition channelRun (depth : nat) (evs : list channelEvent) : M (option (option error)) :=
  let! r := after (getChannelDifference depth) in
  match r with
  | Some r => ret (Some r)
  | None => channelRun_loop depth evs
  end.

Definition newChannelState (InitialPts : Z) (st : S) (h : H) (uh : UH) : channelState :=
  mkChannelState (newSequenceBox InitialPts) 0 st h uh 0 [] [] 0 0 0.
End Channel.
Arguments channelState : clear implicits.

(** ** Invariants *)

Section ChannelInvariant.
Context {S H UH : Type} `{!StateStorage S, !AccessHasher H, !AccessHasher UH, !LawfulStorage S}.
Context (selfID channelID diffLim : Z)
        (UpdatesGetChannelDifference : nat -> Z -> ChannelDifferenceClass + error)
        (handler : nat -> Updates -> option error)
        (clock : nat -> bool -> Z) (cancelled : nat -> place -> option error).
Abbreviation St := (channelState S H UH).
Abbreviation M := (GoM St).

(** With [reliable], the handler of the application reports no errors. *)
Context (reliable : bool) (handler_ok : reliable = true -> forall n u, handler n u = None).
(** The sentinel of this package does not come from outside. *)
Definition foreign (err : error) : Prop := Is err errChannelInaccessible = false.
Context (api_foreign : forall n p err, UpdatesGetChannelDifference n p = inr err -> foreign err)
        (ctx_foreign : forall n p err, cancelled n p = Some err -> foreign err).

(** The stored position is [p], positions are accepted, the box holds values of
    its kind, at least [k] requests were made, and the loss of access was
    reported [i] times. *)
Record CInvS (i k : nat) (p : Z) (s : St) : Prop := {
  cinv_stored : reliable = true -> GetChannelPts (c_storage s) selfID channelID = inl (Some p) /\
    forall p', fst (SetChannelPts selfID channelID p' (c_storage s)) = None;
  cinv_pts : Forall pts_value (pending (c_pts s));
  cinv_calls : (k <= c_calls s)%nat;
  cinv_access : c_inaccessible s = i;
}.

Definition CInv (i k : nat) (s : St) : Prop := CInvS i k (state (c_pts s)) s.

Lemma CInv_weaken i k k' s : (k' <= k)%nat -> CInv i k s -> CInv i k' s.
Proof. intros Hk []. split; try done. lia. Qed.

(** Calls that only touch logs, timers and counters. *)
Lemma keeps_CInv_modify i k f :
  (forall s : St, c_storage (f s) = c_storage s /\ c_pts (f s) = c_pts s /\
     c_inaccessible (f s) = c_inaccessible s /\ (c_calls s <= c_calls (f s))%nat) ->
  keeps (CInv i k) (modify f).
Proof.
  intros Hf. apply keeps_modify. intros s [? ? ? ?]. destruct (Hf s) as (H1 & H2 & H3 & H4).
  unfold CInv. split; rewrite ?H1, ?H2, ?H3; try done. lia.
Qed.

Lemma keeps_CInv_log i k u : keeps (CInv i k) (modify (clog_dispatch u)).
Proof. apply keeps_CInv_modify. intros s. by repeat split. Qed.
Lemma keeps_CInv_out i k u : keeps (CInv i k) (modify (clog_out u)).
Proof. apply keeps_CInv_modify. intros s. by repeat split. Qed.
Lemma keeps_CInv_timeout i k t : keeps (CInv i k) (modify (cset_timeout t)).
Proof. apply keeps_CInv_modify. intros s. by repeat split. Qed.
Lemma keeps_CInv_tooLong i k : keeps (CInv i k) (modify onTooLong).
Proof. apply keeps_CInv_modify. intros s. by repeat split. Qed.
#[local] Hint Resolve keeps_CInv_log keeps_CInv_out keeps_CInv_timeout keeps_CInv_tooLong : keeps.

Lemma keeps_CInv_dispatch i k u : keeps (CInv i k) (cdispatch selfID handler u).
Proof. unfold cdispatch. solve_keeps. Qed.
Lemma keeps_CInv_setTimeout i k n t : keeps (CInv i k) (setTimeout clock n t).
Proof. unfold setTimeout. solve_keeps. Qed.
#[local] Hint Resolve keeps_CInv_dispatch keeps_CInv_setTimeout : keeps.

Lemma stored_position i k p p' (s : St) :
  CInvS i k p s -> CInvS i k p' (cset_storage (snd (SetChannelPts selfID channelID p' (c_storage s))) s).
Proof.
  intros [Hst Hp Hc Ha]. split; simpl; try done. intros Hr. destruct (Hst Hr) as [_ Hok].
  destruct (SetChannelPts_law selfID channelID p' (c_storage s)) as [_ Hget]. split; [by apply Hget|].
  intros p''. by apply SetChannelPts_again.
Qed.

Lemma keeps_setPosition i k p : keeps (CInv i k) (setPosition selfID channelID p).
Proof.
  intros s HI. unfold setPosition, storePts, cstore. apply post_bind, post_modify, post_modify.
  apply (stored_position i k _ p) in HI as [? ? ? ?]. by split.
Qed.
#[local] Hint Resolve keeps_setPosition : keeps.

(** *** The box *)

Lemma applyChannelPts_post i k st us s :
  Forall pts_value us -> CInv i k s ->
  post (applyChannelPts selfID channelID handler st us) s (fun _ => CInvS i k st) (fun _ _ => False).
Proof.
  intros Hus HI. unfold applyChannelPts.
  destruct (convert_values_pts us [] no_entities Hus) as [[conv e] ->].
  apply post_seq with (fun err s' => CInv i k s' /\ (reliable = true -> err = None)).
  - destruct (zlen conv >? 0); [|by apply post_ret].
    pose proof (keeps_CInv_dispatch i k (mkUpdates conv (Users e) (Chats e)) s HI) as Hd.
    unfold cdispatch, post in *. simpl in *. split; [done|]. intros Hr. by apply handler_ok.
  - intros [err|] s' [HI' Herr]; [|apply post_modify; by apply (stored_position i k (state (c_pts s')) st)].
    apply post_ret. destruct HI' as [? ? ? ?]. split; try done. intros Hr. by specialize (Herr Hr).
Qed.

Lemma cpts_Handle_post i k u s :
  pts_value u -> CInv i k s ->
  post (cpts_Handle selfID channelID handler u) s (fun _ => CInv i k) (fun _ _ => False).
Proof.
  intros Hu HI. unfold cpts_Handle. apply post_on_box with (good := pts_value) (J := fun st s => CInvS i k st s);
    try done; clear s HI.
  - by intros [].
  - by intros s [].
  - intros s b [? ? ? ?] Hst Hb. unfold CInv. simpl. rewrite Hst. by split.
  - intros st s [? ? ? ?]. by split.
  - intros st us s _ Hus _. by apply applyChannelPts_post.
Qed.

(** *** Differences *)

(** What a call leaves behind: with an error that reports the loss of access,
    it was reported once more. *)
Definition left_by (k : nat) (m : M unit) (s : St) : Prop :=
  post m s (fun _ => CInv 0 k) (fun e s' => CInv (if Is e errChannelInaccessible then 1 else 0) k s').

Lemma left_by_keeps k m s :
  keeps (CInv 0 k) m -> (forall e, fst (m s) = Err e -> foreign e) -> CInv 0 k s -> left_by k m s.
Proof.
  intros Hm He HI. specialize (Hm s HI). unfold left_by, post in *.
  destruct (m s) as [[|e|] s']; [done| |done]. by rewrite (He e eq_refl).
Qed.

Lemma left_by_bind {A} k (m : M A) kont s :
  keeps (CInv 0 k) m -> (forall e, fst (m s) = Err e -> foreign e) ->
  (forall a s', CInv 0 k s' -> left_by k (kont a) s') -> CInv 0 k s -> left_by k (bind m kont) s.
Proof.
  intros Hm He Hk HI. specialize (Hm s HI). unfold left_by, post, bind in *.
  destruct (m s) as [[a|e|] s']; [by apply Hk| |done]. by rewrite (He e eq_refl).
Qed.

Lemma left_by_weaken k k' m s : (k' <= k)%nat -> left_by k m s -> left_by k' m s.
Proof. intros Hk Hl. eapply post_mono; [exact Hl|..]; intros; by eapply CInv_weaken. Qed.

(** Calls without errors. *)
Definition total {A} (m : M A) : Prop := forall s e, fst (m s) <> Err e.
Lemma total_ret {A} (a : A) : total (ret a).
Proof. done. Qed.
Lemma total_get : total get.
Proof. done. Qed.
Lemma total_modify f : total (modify f).
Proof. done. Qed.
Lemma total_bind {A B} (m : M A) (kont : A -> M B) : total m -> (forall a, total (kont a)) -> total (bind m kont).
Proof.
  intros Hm Hk s e. unfold bind. specialize (Hm s). destruct (m s) as [[a|e'|] s']; simpl in *;
    [apply Hk|intros [= ->]; by apply (Hm e)|done].
Qed.
Lemma total_setPosition p : total (setPosition selfID channelID p).
Proof. done. Qed.
Lemma total_setTimeout n t : total (setTimeout clock n t).
Proof. by destruct t. Qed.
Lemma total_dispatch u : total (cdispatch selfID handler u).
Proof. done. Qed.

Lemma left_by_total {A} k (m : M A) kont s :
  keeps (CInv 0 k) m -> total m -> (forall a s', CInv 0 k s' -> left_by k (kont a) s') ->
  CInv 0 k s -> left_by k (bind m kont) s.
Proof. intros Hm Ht Hk HI. apply left_by_bind; try done. intros e He. by destruct (Ht s e). Qed.

Lemma keeps_wait i k p : keeps (CInv i k) (wait cancelled p).
Proof. unfold wait. intros s HI. apply post_bind, post_get. by destruct (cancelled _ _). Qed.
#[local] Hint Resolve keeps_wait : keeps.

(** A wait leaves the state as it is. *)
Lemma left_by_wait k p (b : bool) kont s :
  CInv 0 k s -> left_by k (kont tt) s -> left_by k (bind (if b then wait cancelled p else ret tt) kont) s.
Proof.
  intros HI Hk. destruct b; [|done]. unfold left_by, post, wait, bind in *. simpl.
  destruct (cancelled _ _) eqn:E; simpl; [|done]. assert (foreign e) as Hf by (by eapply ctx_foreign).
  by rewrite Hf.
Qed.

Lemma left_by_inaccessible k s : CInv 0 k s -> left_by k (handleInaccessible cancelled) s.
Proof.
  intros [? ? ? ?]. unfold left_by, handleInaccessible. apply post_bind, post_modify, post_bind, post_get.
  apply post_bind. destruct (cancelled _ _); [apply post_ret|apply post_modify]; apply post_fail;
    (split; simpl; try done; congruence).
Qed.

Lemma left_by_ret k s : CInv 0 k s -> left_by k (ret tt) s.
Proof. done. Qed.

Definition cfinal_answer (a : ChannelDifferenceClass + error) : Prop :=
  match a with inl (UpdatesChannelDifference false _ _ _ _ _ _) => False | _ => True end.

Abbreviation cround := (channelDifference_round selfID channelID UpdatesGetChannelDifference handler clock cancelled).

Lemma left_by_answer k n a gd s :
  (forall err, a = inr err -> foreign err) ->
  (cfinal_answer a \/ forall s, CInv 0 k s -> left_by k gd s) -> CInv 0 k s ->
  left_by k (handleAnswer selfID channelID handler clock cancelled gd n a) s.
Proof.
  intros Ha Hgd HI. destruct a as [[Pts Timeout|Timeout dialog|Final Pts Timeout msgs others chats users]|err]; simpl.
  - apply left_by_total; [solve_keeps|done|intros ? s1 HI1|done].
    apply left_by_keeps; [solve_keeps|by destruct Timeout|done].
  - apply left_by_total; [solve_keeps|apply total_setTimeout|intros ? s1 HI1|done].
    apply left_by_total; [destruct (getDialogPts dialog); solve_keeps|by destruct (getDialogPts dialog)|
      intros ? s2 HI2|done].
    apply left_by_keeps; [solve_keeps|done|done].
  - apply left_by_bind; [| |intros ? s1 HI1|done].
    { destruct (zlen others >? 0); [|apply keeps_ret]. unfold sendOut. solve_keeps. }
    { destruct (zlen others >? 0); [|done]. intros e. unfold sendOut, wait, bind. simpl.
      destruct (cancelled _ _) eqn:E; simpl; [|done]. intros [= <-]. by eapply ctx_foreign. }
    apply left_by_total; [solve_keeps|by destruct (zlen msgs >? 0)|intros ? s2 HI2|done].
    apply left_by_total; [solve_keeps|done|intros ? s3 HI3|done].
    apply left_by_total; [solve_keeps|apply total_setTimeout|intros ? s4 HI4|done].
    destruct Final; [done|]. destruct Hgd as [[]|Hgd]. by apply Hgd.
  - destruct (IsOneOfTypes err _); [by apply left_by_inaccessible|].
    apply left_by_keeps; [apply keeps_fail| |done]. intros e [= <-]. specialize (Ha err eq_refl).
    unfold foreign in *. simpl. by rewrite Ha.
Qed.

Lemma left_by_round k gd s :
  CInv 0 k s ->
  (cfinal_answer (UpdatesGetChannelDifference (c_calls s) (state (c_pts s))) \/
   forall s', CInv 0 (Datatypes.S (c_calls s)) s' -> left_by (Datatypes.S (c_calls s)) gd s') ->
  left_by k (cround gd) s.
Proof.
  intros HI Hgd. assert (k <= c_calls s)%nat as Hk by (destruct HI; done).
  apply left_by_weaken with (c_calls s); [done|].
  unfold channelDifference_round, left_by. apply post_bind, post_modify, post_bind, post_get.
  set (s0 := cset_pts _ s). assert (CInv 0 (c_calls s) s0) as HI0 by (destruct HI; by split).
  match goal with |- post ?m _ _ _ => change (left_by (c_calls s) m s0) end.
  apply left_by_wait; [done|]. apply (left_by_wait _ _ true); [done|].
  unfold left_by. apply post_bind, post_modify.
  match goal with |- post ?m ?s1 _ _ => change (left_by (c_calls s) m s1) end.
  apply left_by_weaken with (Datatypes.S (c_calls s)); [lia|].
  apply left_by_answer; [intros err; apply api_foreign|exact Hgd|].
  destruct HI0 as [? ? ? ?]. by split.
Qed.

(** From the request [N] on the differences are final. *)
Context (N : nat) (answers_final : forall n p, (N <= n)%nat -> cfinal_answer (UpdatesGetChannelDifference n p)).
Abbreviation cdiff := (getChannelDifference selfID channelID UpdatesGetChannelDifference handler clock cancelled).

Lemma left_by_difference depth : forall k s,
  (0 < depth)%nat -> (N < k + depth)%nat -> CInv 0 k s -> left_by k (cdiff depth) s.
Proof.
  induction depth as [|depth IH]; intros k s H0 HN HI; [lia|]. apply left_by_round; [done|].
  destruct (decide (N <= c_calls s)%nat) as [|Hlt]; [left; by apply answers_final|].
  right. intros s' HI'. assert (k <= c_calls s)%nat by (destruct HI; done). apply IH; [lia|lia|done].
Qed.

Lemma left_by_cpts_Handle k u s : pts_value u -> CInv 0 k s -> left_by k (cpts_Handle selfID channelID handler u) s.
Proof. intros Hu HI. eapply post_mono; [by apply cpts_Handle_post|done|done]. Qed.

Lemma left_by_affected k p n s : CInv 0 k s -> left_by k (handleChannelAffected selfID channelID handler p n) s.
Proof.
  intros HI. unfold handleChannelAffected. destruct (p =? 0); [done|].
  destruct (validatePts p n); [done|]. by apply left_by_cpts_Handle.
Qed.

Lemma left_by_fail k msg s : CInv 0 k s -> left_by k (fail (Errorf msg)) s.
Proof. done. Qed.

(** Errors about a message do not report the loss of access. *)
Lemma channel_error_foreign u c p n e :
  IsChannelPtsUpdate u = Some (c, p, n, Some e) -> foreign e.
Proof.
  assert (forall m c e, extractChannelID m = (c, Some e) -> foreign e) as Hm.
  { intros m c0 e0. unfold extractChannelID, channel_of. intros Hx.
    repeat case_match; simplify_eq; done. }
  destruct u; intros Hu; simpl in Hu; simplify_eq; try done;
    destruct (extractChannelID Message) eqn:E; simplify_eq; by eapply Hm.
Qed.

Lemma left_by_update depth u e s :
  (N < depth)%nat -> CInv 0 0 s ->
  left_by 0 (handleChannelUpdate selfID channelID diffLim UpdatesGetChannelDifference handler clock cancelled
               depth u e) s.
Proof.
  intros Hd HI. unfold handleChannelUpdate. destruct u as [u|]; [|by apply left_by_fail].
  assert (left_by 0 match IsChannelPtsUpdate u with
      | None => fail (Errorf "expected channel update")
      | Some (_, _, _, Some err) => fail (Wrap err "invalid update")
      | Some (id, pts, ptsCount, None) =>
          if negb (id =? channelID) then fail (Errorf "update for wrong channel")
          else cpts_Handle selfID channelID handler (mkUpdate (VUpdate u) pts ptsCount e)
      end s) as Hother.
  { destruct (IsChannelPtsUpdate u) as [[[[id p] n] [err|]]|] eqn:E; [| |by apply left_by_fail].
    - apply channel_error_foreign in E. unfold left_by, post, fail. simpl. unfold foreign in E. by rewrite E.
    - destruct (negb _); [by apply left_by_fail|by apply left_by_cpts_Handle]. }
  destruct u; try exact Hother. unfold handleTooLong. destruct Pts as [p|]; [|apply left_by_difference; (lia || done)].
  unfold left_by. apply post_bind, post_get. destruct (_ >? _); [|apply left_by_difference; (lia || done)].
  apply (keeps_CInv_tooLong 0 0 s HI).
Qed.

(** *** Run *)

(** The worker stops after the loss of access, or when the context ends. *)
Definition stopped_right (r : option (option error)) (s : St) : Prop :=
  match r with
  | None => CInv 0 0 s
  | Some None => CInv 1 0 s
  | Some (Some e) => e = Canceled /\ exists i, CInv i 0 s
  end.

Lemma after_post m s : left_by 0 m s -> post (after m) s stopped_right (fun _ _ => False).
Proof.
  unfold left_by, post, after. destruct (m s) as [[|e|] s']; [done| |done].
  by destruct (Is e errChannelInaccessible).
Qed.

Abbreviation crun_step := (channelRun_step selfID channelID diffLim UpdatesGetChannelDifference handler clock cancelled).
Abbreviation crun_loop := (channelRun_loop selfID channelID diffLim UpdatesGetChannelDifference handler clock cancelled).

Lemma channelRun_step_post depth ev s :
  (N < depth)%nat -> CInv 0 0 s -> post (crun_step depth ev) s stopped_right (fun _ _ => False).
Proof.
  intros Hd HI. assert (left_by 0 (cdiff depth) s) as Hgd by (apply left_by_difference; (lia || done)).
  destruct ev as [u| |]; simpl.
  - apply after_post. destruct (cu_affected u); [by apply left_by_affected|by apply left_by_update].
  - by apply after_post.
  - apply post_bind, post_get, post_bind. destruct (_ >? 0).
    + apply post_bind. eapply post_mono; [by apply after_post| |done].
      intros r s' Hr. apply post_ret, post_ret. split; [done|].
      destruct r as [[e|]|]; [destruct Hr as [_ Hr]; done|by exists 1%nat|by exists 0%nat].
    + apply post_ret, post_ret. split; [done|by exists 0%nat].
Qed.

Lemma channelRun_loop_post depth evs : forall s,
  (N < depth)%nat -> CInv 0 0 s -> post (crun_loop depth evs) s stopped_right (fun _ _ => False).
Proof.
  induction evs as [|ev evs IH]; intros s Hd HI; simpl; [done|].
  eapply post_seq; [by apply channelRun_step_post|]. intros [r|] s' Hr; [by apply post_ret|by apply IH].
Qed.

Lemma channelRun_post depth evs s :
  (N < depth)%nat -> CInv 0 0 s ->
  post (channelRun selfID channelID diffLim UpdatesGetChannelDifference handler clock cancelled depth evs) s
    stopped_right (fun _ _ => False).
Proof.
  intros Hd HI. unfold channelRun. eapply post_seq.
  { apply after_post. apply left_by_difference; [lia|lia|done]. }
  intros [r|] s' Hr; [by apply post_ret|by apply channelRun_loop_post].
Qed.
End ChannelInvariant.

(** ** Correctness of the worker *)

(** Whatever updates and timeouts arrive and whatever the server answers,
    the worker of a channel never panics when its stack is deeper than the number
    of differences that are not final; it returns nil exactly after the loss of
    access was reported, once, and otherwise only when the context ends; and if
    the handler of the application reports no errors, the stored position is the
    one in memory whenever the worker waits or has returned. *)
Theorem channel_run_persists {S H UH : Type}
    `{!StateStorage S, !AccessHasher H, !AccessHasher UH, !LawfulStorage S} (selfID channelID diffLim : Z)
    (UpdatesGetChannelDifference : nat -> Z -> ChannelDifferenceClass + error)
    (handler : nat -> Updates -> option error)
    (clock : nat -> bool -> Z) (cancelled : nat -> place -> option error) (N depth : nat)
    (initial : Z) (st : S) (h : H) (uh : UH) (evs : list channelEvent) :
  (forall n p err, UpdatesGetChannelDifference n p = inr err -> foreign err) ->
  (forall n p err, cancelled n p = Some err -> foreign err) ->
  (forall n p, (N <= n)%nat -> cfinal_answer (UpdatesGetChannelDifference n p)) -> (N < depth)%nat ->
  GetChannelPts st selfID channelID = inl (Some initial) ->
  (forall p, fst (SetChannelPts selfID channelID p st) = None) ->
  exists r s', channelRun selfID channelID diffLim UpdatesGetChannelDifference handler clock cancelled depth evs
                 (newChannelState initial st h uh) = (Ok r, s') /\
    match r with
    | None => c_inaccessible s' = 0%nat
    | Some None => c_inaccessible s' = 1%nat
    | Some (Some e) => e = Canceled
    end /\
    ((forall n u, handler n u = None) ->
     GetChannelPts (c_storage s') selfID channelID = inl (Some (state (c_pts s')))).
Proof.
  intros Hapi Hctx HN Hd Hst Hok.
  assert (forall reliable, (reliable = true -> forall n u, handler n u = None) ->
    post (channelRun selfID channelID diffLim UpdatesGetChannelDifference handler clock cancelled depth evs)
      (newChannelState initial st h uh) (stopped_right selfID channelID reliable) (fun _ _ => False)) as Hrun.
  { intros reliable Hr. eapply channelRun_post; try done. }
  assert (Hrun0 := Hrun false ltac:(done)). unfold post in *.
  destruct (channelRun _ _ _ _ _ _ _ _ _ _) as [[r| |] s']; [|done..].
  exists r, s'. split; [done|]. split.
  - destruct r as [[e|]|]; simpl in Hrun0; [by destruct Hrun0|by destruct Hrun0..].
  - intros Hh. specialize (Hrun true ltac:(done)).
    destruct r as [[e|]|]; simpl in Hrun; [destruct Hrun as (_ & i & Hi)|rename Hrun into Hi..];
      by destruct Hi as [Hi _ _ _]; apply Hi.
Qed.

(** A server whose first difference is not final, and which then closes the
    channel. *)
Definition closing_server (n : nat) (p : Z) : ChannelDifferenceClass + error :=
  match n with
  | O => inl (UpdatesChannelDifference false 12 (Some 1) [MessageEmpty 3 None] [OtherUpdate []] [] [])
  | 1%nat => inl (UpdatesChannelDifferenceEmpty 13 None)
  | _ => inr (RPCError 400 (bytes_of_string "CHANNEL_PRIVATE"))
  end.

Lemma channel_run_persists_witness :
  let st := snd (SetChannelPts 1 7 10 witness_storage) in
  let u := UpdateDeleteChannelMessages 7 15 2 [] in
  exists r s', channelRun (H := gmap Z (gmap Z Z)) (UH := gmap Z (gmap Z Z)) 1 7 100 closing_server
      (fun _ _ => None) (fun _ _ => 5) (fun _ _ => None) 2
      [CEvUpdate (mkChannelUpdate (Some u) no_entities false 0 0); CEvTimeout; CEvTimeout]
      (newChannelState 10 st ∅ ∅) = (Ok r, s') /\
    match r with
    | None => c_inaccessible s' = 0%nat
    | Some None => c_inaccessible s' = 1%nat
    | Some (Some e) => e = Canceled
    end /\
    ((forall (n : nat) (u : Updates), (fun _ _ => None) n u = @None error) ->
     GetChannelPts (c_storage s') 1 7 = inl (Some (state (c_pts s')))).
Proof.
  intros st u.
  apply (channel_run_persists (H := gmap Z (gmap Z Z)) (UH := gmap Z (gmap Z Z)) 1 7 100 closing_server
    (fun _ _ => None) (fun _ _ => 5) (fun _ _ => None) 1 2 10 st ∅ ∅).
  - intros [|[|n]] p err; simpl; [done|done|]. by intros [= <-].
  - done.
  - intros [|[|n]] p Hn; [lia|done|done].
  - lia.
  - reflexivity.
  - reflexivity.
Defined.

(** The worker of the example stops, with both positions at the last answer. *)
Example closing_server_run :
  let st := snd (SetChannelPts 1 7 10 witness_storage) in
  let '(r, s') := channelRun (H := gmap Z (gmap Z Z)) (UH := gmap Z (gmap Z Z)) 1 7 100 closing_server
      (fun _ _ => None) (fun _ _ => 5) (fun _ _ => None) 2
      [CEvUpdate (mkChannelUpdate (Some (UpdateDeleteChannelMessages 7 15 2 [])) no_entities false 0 0); CEvTimeout]
      (newChannelState 10 st ∅ ∅) in
  r = Ok (Some None) /\ c_removed s' = 1%nat /\ state (c_pts s') = 15 /\
  GetChannelPts (c_storage s') 1 7 = inl (Some 15) /\ length (c_dispatched s') = 2%nat /\ length (c_out s') = 1%nat.
Proof. vm_compute. repeat split. Qed.
