(* ===== verification/Workers.v ===== *)
(** * telegram/updates: the account and its channel workers

    Model of how the goroutines of src/telegram/updates share their queues: the
    account (state.go) pushes updates to the bounded queues of the channel workers
    (state_channel.go, Push and Run), the workers hand updates back through
    internalQueue (sendOut), ask for their removal (handleInaccessible,
    removeChannelState) and share the semaphore of channel_diff_semaphore.go.
    A system is a step function on labels, so that every interleaving is a list
    of labels; contents of updates are left out, the queues count them.  The end
    of the context, which unblocks everything, is not a step: the theorems are
    about a manager that keeps running. *)
From S2P Require Import Prelude.

(** ** The system *)

(** [make(chan ..., 10)] *)
Definition capacity : nat := 10.

(** Where a worker is. *)
Inductive wpc : Type :=
| WLoop                    (* the select in Run *)
| WTimeout                 (* the wait for diffTimeout, which drains the queue *)
| WAcquire                 (* chDiffSem.acquire *)
| WRpc                     (* updates.getChannelDifference is in flight *)
| WSend (again : option bool)  (* sendOut; then another difference, see [after_diff] *)
| WRemove                  (* the send to removeChannel *)
| WStopped.                (* Run returned, done is closed *)

Record worker : Type := mkWorker { w_pc : wpc; w_queue : nat }.

Record sys : Type := mkSys {
  main : list Z;               (* the channels the handler in progress still pushes to *)
  out : nat;                   (* internalQueue *)
  removals : list Z;           (* removeChannel *)
  workers : gmap Z worker;     (* channels *)
  held : nat;                  (* slots of chDiffSem that are taken *)
}.

(** newChDiffSem *)
Definition newChDiffSem (n : Z) : option nat := if n <=? 0 then None else Some (Z.to_nat n).

Section System.
Context (sem : option nat).

Definition acquire (held : nat) : option nat :=
  match sem with
  | None => Some held
  | Some n => if (held <? n)%nat then Some (S held) else None
  end.

Definition release (held : nat) : nat := match sem with None => held | Some _ => Nat.pred held end.

(** What updates.getChannelDifference gives. *)
Inductive answer : Type :=
| AError                                  (* an error that is logged *)
| APrivate                                (* CHANNEL_PRIVATE *)
| ADifference (other : bool) (again : option bool).
    (* whether it has other updates; [None] for a final one, otherwise whether
       diffTimeout is still ahead when getDifference calls itself *)

Inductive label : Type :=
| MReceive (pushes : list Z)              (* externalQueue or affectedQueue *)
| MInternal (pushes : list Z)             (* internalQueue *)
| MRemove                                 (* removeChannel *)
| MPush                                   (* the next push, which may start a worker *)
| MSkip                                   (* an update for a channel that is not tracked *)
| WTake (c : Z) (diff timeout : bool)     (* an update, after which a difference may be due *)
| WTimer (c : Z) (timeout : bool)         (* the gap timer or the idle timer *)
| WDrain (c : Z)                          (* an update that is ignored *)
| WWake (c : Z)                           (* diffTimeout is over *)
| WAcq (c : Z)
| WAnswer (c : Z) (a : answer)
| WSendOut (c : Z)
| WRequestRemoval (c : Z).

Definition set_main m s := mkSys m (out s) (removals s) (workers s) (held s).
Definition set_worker c w s := mkSys (main s) (out s) (removals s) (<[c := w]> (workers s)) (held s).
Definition set_out n s := mkSys (main s) n (removals s) (workers s) (held s).
Definition set_removals r s := mkSys (main s) (out s) r (workers s) (held s).
Definition set_held n s := mkSys (main s) (out s) (removals s) (workers s) n.

(** channelState.Push: drops for a stopped worker, blocks on a full queue. *)
Definition Push (w : worker) : option worker :=
  match w_pc w with
  | WStopped => Some w
  | pc => if (w_queue w <? capacity)%nat then Some (mkWorker pc (S (w_queue w))) else None
  end.

Definition take_one (w : worker) (pc : wpc) : option worker :=
  match w_queue w with O => None | S n => Some (mkWorker pc n) end.

(** Where a call of getDifference starts. *)
Definition start_diff (timeout : bool) : wpc := if timeout then WTimeout else WAcquire.

(** The end of getDifference: [if !diff.Final { return s.getDifference(...) }]. *)
Definition after_diff (again : option bool) : wpc :=
  match again with Some timeout => start_diff timeout | None => WLoop end.

(** A step of worker [c] that only changes its own state. *)
Definition local (c : Z) (f : worker -> option worker) (s : sys) : option sys :=
  match workers s !! c with
  | None => None
  | Some w => match f w with Some w' => Some (set_worker c w' s) | None => None end
  end.

Definition step (l : label) (s : sys) : option sys :=
  match l with
  | MReceive pushes => match main s with [] => Some (set_main pushes s) | _ => None end
  | MInternal pushes =>
      match main s, out s with
      | [], S n => Some (set_out n (set_main pushes s))
      | _, _ => None
      end
  | MRemove =>
      match main s, removals s with
      | [], c :: rs => Some (mkSys [] (out s) rs (delete c (workers s)) (held s))
      | _, _ => None
      end
  | MPush =>
      match main s with
      | [] => None
      | c :: cs =>
          let w := default (mkWorker WAcquire 0) (workers s !! c) in
          match Push w with
          | Some w' => Some (set_main cs (set_worker c w' s))
          | None => None
          end
      end
  | MSkip =>
      match main s with
      | [] => None
      | c :: cs => match workers s !! c with None => Some (set_main cs s) | Some _ => None end
      end
  | WTake c diff timeout =>
      local c (fun w => match w_pc w with
                        | WLoop => take_one w (if diff then start_diff timeout else WLoop)
                        | _ => None
                        end) s
  | WTimer c timeout =>
      local c (fun w => match w_pc w with WLoop => Some (mkWorker (start_diff timeout) (w_queue w)) | _ => None end) s
  | WDrain c =>
      local c (fun w => match w_pc w with WTimeout | WSend _ => take_one w (w_pc w) | _ => None end) s
  | WWake c =>
      local c (fun w => match w_pc w with WTimeout => Some (mkWorker WAcquire (w_queue w)) | _ => None end) s
  | WAcq c =>
      match workers s !! c, acquire (held s) with
      | Some (mkWorker WAcquire q), Some n => Some (set_held n (set_worker c (mkWorker WRpc q) s))
      | _, _ => None
      end
  | WAnswer c a =>
      match workers s !! c with
      | Some (mkWorker WRpc q) =>
          let pc := match a with
                    | AError => WLoop
                    | APrivate => WRemove
                    | ADifference true again => WSend again
                    | ADifference false again => after_diff again
                    end in
          Some (set_held (release (held s)) (set_worker c (mkWorker pc q) s))
      | _ => None
      end
  | WSendOut c =>
      match workers s !! c with
      | Some (mkWorker (WSend again) q) =>
          if (out s <? capacity)%nat
          then Some (set_out (S (out s)) (set_worker c (mkWorker (after_diff again) q) s))
          else None
      | _ => None
      end
  | WRequestRemoval c =>
      match workers s !! c with
      | Some (mkWorker WRemove q) =>
          if (length (removals s) <? capacity)%nat
          then Some (set_removals (removals s ++ [c]) (set_worker c (mkWorker WStopped q) s))
          else None
      | _ => None
      end
  end.

Fixpoint run (ls : list label) (s : sys) : option sys :=
  match ls with
  | [] => Some s
  | l :: ls => match step l s with Some s' => run ls s' | None => None end
  end.

(** newState: every stored channel has a worker that fetches its difference. *)
Definition start_sys (chs : gmap Z unit) : sys :=
  mkSys [] 0 [] ((fun _ => mkWorker WAcquire 0) <$> chs) 0.

Definition reachable (s : sys) : Prop := exists chs ls, run ls (start_sys chs) = Some s.

(** ** Invariants *)

Definition in_rpc (w : worker) : Prop := w_pc w = WRpc.
#[global] Instance in_rpc_dec w : Decision (in_rpc w).
Proof. unfold in_rpc. destruct (w_pc w); (left; reflexivity) || (right; discriminate). Defined.

(** The requests in flight. *)
Definition flights (ws : gmap Z worker) : nat := size (filter (fun '(_, w) => in_rpc w) ws).

Record Inv (s : sys) : Prop := {
  inv_held : match sem with None => True | Some n => held s = flights (workers s) /\ (held s <= n)%nat end;
  inv_removals : NoDup (removals s);
  inv_stopped : Forall (fun c => w_pc <$> workers s !! c = Some WStopped) (removals s);
}.

Lemma flights_insert ws c w :
  flights (<[c := w]> ws) =
    (flights (delete c ws) + if decide (in_rpc w) then 1 else 0)%nat.
Proof.
  unfold flights. rewrite <- insert_delete_eq. rewrite map_filter_insert.
  destruct (decide (in_rpc w)).
  - rewrite map_size_insert_None; [lia|]. rewrite map_lookup_filter_None. left. apply lookup_delete_eq.
  - rewrite delete_delete_eq. lia.
Qed.

Lemma flights_delete ws c w :
  ws !! c = Some w ->
  flights ws = (flights (delete c ws) + if decide (in_rpc w) then 1 else 0)%nat.
Proof. intros Hc. rewrite <- (insert_id ws c w Hc) at 1. apply flights_insert. Qed.

Lemma flights_none ws c w : ws !! c = None -> flights (<[c := w]> ws) = (flights ws + if decide (in_rpc w) then 1 else 0)%nat.
Proof. intros Hc. by rewrite flights_insert, delete_id. Qed.

(** A worker that stays in or out of its request. *)
Lemma flights_same ws c w w' :
  ws !! c = Some w -> (in_rpc w <-> in_rpc w') -> flights (<[c := w']> ws) = flights ws.
Proof.
  intros Hc Hw. rewrite flights_insert, (flights_delete ws c w Hc).
  destruct (decide (in_rpc w)), (decide (in_rpc w')); tauto.
Qed.

(** Other workers keep their place in the removal queue. *)
Lemma stopped_insert (rs : list Z) (ws : gmap Z worker) c w :
  Forall (fun c => w_pc <$> ws !! c = Some WStopped) rs -> (c ∈ rs -> w_pc w = WStopped) ->
  Forall (fun d => w_pc <$> <[c := w]> ws !! d = Some WStopped) rs.
Proof.
  rewrite !Forall_forall. intros Hrs Hc d Hd. destruct (decide (d = c)) as [->|Hne].
  - rewrite lookup_insert_eq. simpl. by rewrite Hc.
  - rewrite lookup_insert_ne by congruence. by apply Hrs.
Qed.

(** A worker changes its place, not into or out of a request. *)
Lemma Inv_worker c w w' s :
  workers s !! c = Some w -> (in_rpc w <-> in_rpc w') -> (w_pc w = WStopped -> w_pc w' = WStopped) ->
  Inv s -> Inv (set_worker c w' s).
Proof.
  intros Hc Hrpc Hst [Hh Hnd Hs]. split; simpl; [|done|].
  - by rewrite (flights_same _ _ w).
  - apply stopped_insert; [done|]. intros Hin. rewrite Forall_forall in Hs. apply Hs in Hin.
    rewrite Hc in Hin. apply Hst. by injection Hin.
Qed.

(** The steps that only change their worker. *)
Lemma Inv_local c f s s' :
  (forall w w', f w = Some w' -> ~ in_rpc w /\ ~ in_rpc w' /\ w_pc w <> WStopped) ->
  local c f s = Some s' -> Inv s -> Inv s'.
Proof.
  intros Hf Hl HI. unfold local in Hl. destruct (workers s !! c) as [w|] eqn:Ec; [|done].
  destruct (f w) as [w'|] eqn:Ew; [|done]. injection Hl as <-. destruct (Hf w w' Ew) as (H1 & H2 & H3).
  eapply Inv_worker; [exact Ec|tauto|done|done].
Qed.

Lemma Inv_main m s : Inv s -> Inv (set_main m s).
Proof. by intros []. Qed.
Lemma Inv_out n s : Inv s -> Inv (set_out n s).
Proof. by intros []. Qed.

Lemma take_one_pc w pc w' : take_one w pc = Some w' -> w_pc w' = pc.
Proof. unfold take_one. destruct (w_queue w); [done|]. by intros [= <-]. Qed.

Lemma Push_pc w w' : Push w = Some w' -> w_pc w' = w_pc w.
Proof. unfold Push. destruct (w_pc w) eqn:E; [case_bool; intros Hw; simplify_eq; done..|]. by intros [= <-]. Qed.

Lemma start_diff_rpc t : start_diff t <> WRpc.
Proof. by destruct t. Qed.

Lemma after_diff_rpc again : after_diff again <> WRpc.
Proof. by destruct again as [[]|]. Qed.

Lemma Inv_step_push s s' : step MPush s = Some s' -> Inv s -> Inv s'.
Proof.
  simpl. destruct (main s) as [|c cs]; [done|]. destruct (Push _) as [w'|] eqn:Ep; [|done].
  intros [= <-] HI. apply Push_pc in Ep. apply Inv_main. destruct (workers s !! c) as [w|] eqn:Ec; simpl in Ep.
  - eapply Inv_worker; [exact Ec| | |exact HI]; unfold in_rpc; rewrite Ep; done.
  - destruct HI as [Hh Hnd Hst]. split; simpl; [|done|].
    + rewrite flights_none by done. destruct (decide (in_rpc w')) as [Hr|]; [|by rewrite Nat.add_0_r].
      unfold in_rpc in Hr. by rewrite Ep in Hr.
    + apply stopped_insert; [done|]. intros Hin. rewrite Forall_forall in Hst. apply Hst in Hin.
      by rewrite Ec in Hin.
Qed.

Lemma Inv_step_remove s s' : step MRemove s = Some s' -> Inv s -> Inv s'.
Proof.
  simpl. destruct (main s); [|done]. destruct (removals s) as [|c rs] eqn:Er; [done|].
  intros [= <-] [Hh Hnd Hst]. rewrite Er in *. apply Forall_cons in Hst as [Hc Hst]. apply NoDup_cons in Hnd as [Hn Hnd].
  destruct (workers s !! c) as [w|] eqn:Ec; [|done]. injection Hc as Hc. split; simpl; [|done|].
  - rewrite (flights_delete _ c w Ec) in Hh. destruct (decide (in_rpc w)) as [Hr|]; [unfold in_rpc in Hr; congruence|].
    by rewrite Nat.add_0_r in Hh.
  - rewrite Forall_forall in *. intros d Hd. rewrite lookup_delete_ne; [by apply Hst|]. by intros ->.
Qed.

Lemma Inv_step_acquire c s s' : step (WAcq c) s = Some s' -> Inv s -> Inv s'.
Proof.
  simpl. destruct (workers s !! c) as [[[] q]|] eqn:Ec; try done.
  destruct (acquire (held s)) as [n|] eqn:Ea; [|done]. intros [= <-] [Hh Hnd Hst].
  split; simpl; [|done|].
  - unfold acquire in Ea. destruct sem as [k|]; [|done]. destruct (_ <? _)%nat eqn:El; [|done].
    injection Ea as <-. apply Nat.ltb_lt in El. destruct Hh as [Hh _]. split; [|lia].
    rewrite Hh, flights_insert, (flights_delete _ c _ Ec). simpl. lia.
  - apply stopped_insert; [done|]. intros Hin. rewrite Forall_forall in Hst. apply Hst in Hin.
    by rewrite Ec in Hin.
Qed.

Lemma Inv_step_answer c a s s' : step (WAnswer c a) s = Some s' -> Inv s -> Inv s'.
Proof.
  simpl. destruct (workers s !! c) as [[[] q]|] eqn:Ec; try done. intros [= <-] [Hh Hnd Hst].
  split; simpl; [|done|].
  - unfold release. destruct sem as [k|]; [|done]. destruct Hh as [Hh Hk]. split; [|lia].
    rewrite flights_insert. rewrite (flights_delete _ c _ Ec) in Hh. simpl in Hh.
    destruct (decide (in_rpc _)) as [Hr|Hr]; [|lia]. by destruct a as [| |[] [[]|]].
  - apply stopped_insert; [done|]. intros Hin. rewrite Forall_forall in Hst. apply Hst in Hin.
    by rewrite Ec in Hin.
Qed.

Lemma Inv_step_send c s s' : step (WSendOut c) s = Some s' -> Inv s -> Inv s'.
Proof.
  simpl. destruct (workers s !! c) as [[[] q]|] eqn:Ec; try done. destruct (_ <? _)%nat; [|done].
  intros [= <-] HI. apply Inv_out. eapply Inv_worker; [exact Ec| |done|done].
  unfold in_rpc. simpl. split; [done|]. intros E. by apply after_diff_rpc in E.
Qed.

Lemma Inv_step_removal c s s' : step (WRequestRemoval c) s = Some s' -> Inv s -> Inv s'.
Proof.
  simpl. destruct (workers s !! c) as [[[] q]|] eqn:Ec; try done. destruct (_ <? _)%nat; [|done].
  intros [= <-] HI. pose proof (inv_stopped _ HI) as Hst0.
  assert (c ∉ removals s) as Hc.
  { intros Hin. rewrite Forall_forall in Hst0. apply Hst0 in Hin. by rewrite Ec in Hin. }
  destruct (Inv_worker c _ (mkWorker WStopped q) s Ec) as [Hh Hnd Hst]; [done|done|done|].
  split; simpl in *; [done| |].
  - apply NoDup_app. split_and!; [done| |by apply NoDup_singleton].
    intros d Hd Hin. by apply list_elem_of_singleton in Hin as ->.
  - apply Forall_app. split; [done|]. apply Forall_singleton. by rewrite lookup_insert_eq.
Qed.

Lemma Inv_step l s s' : step l s = Some s' -> Inv s -> Inv s'.
Proof.
  destruct l; try apply Inv_step_push; try apply Inv_step_remove; try apply Inv_step_acquire;
    try apply Inv_step_answer; try apply Inv_step_send; try apply Inv_step_removal; intros Hs HI.
  - simpl in Hs. destruct (main s); [|done]. injection Hs as <-. by apply Inv_main.
  - simpl in Hs. destruct (main s), (out s); try done. injection Hs as <-. by apply Inv_out, Inv_main.
  - simpl in Hs. destruct (main s); [done|]. destruct (workers s !! z); [done|]. injection Hs as <-. by apply Inv_main.
  - unfold step in Hs. eapply Inv_local; [|exact Hs|exact HI]. unfold in_rpc. intros w w' Hw.
    destruct (w_pc w) eqn:E; try done. apply take_one_pc in Hw. rewrite Hw.
    split_and!; [done| |done]. destruct diff; [apply start_diff_rpc|done].
  - unfold step in Hs. eapply Inv_local; [|exact Hs|exact HI]. unfold in_rpc. intros w w' Hw.
    destruct (w_pc w) eqn:E; try done. injection Hw as <-. split_and!; [done|apply start_diff_rpc|done].
  - unfold step in Hs. eapply Inv_local; [|exact Hs|exact HI]. unfold in_rpc. intros w w' Hw.
    destruct (w_pc w) eqn:E; try done; apply take_one_pc in Hw; rewrite Hw; done.
  - unfold step in Hs. eapply Inv_local; [|exact Hs|exact HI]. unfold in_rpc. intros w w' Hw.
    destruct (w_pc w) eqn:E; try done. by injection Hw as <-.
Qed.

Lemma Inv_run ls : forall s s', run ls s = Some s' -> Inv s -> Inv s'.
Proof.
  induction ls as [|l ls IH]; intros s s' Hrun HI; simpl in Hrun; [by injection Hrun as <-|].
  destruct (step l s) as [s1|] eqn:E; [|done]. eapply IH; [exact Hrun|]. by eapply Inv_step.
Qed.

Lemma Inv_start chs : Inv (start_sys chs).
Proof.
  split; simpl; [|constructor|constructor]. destruct sem as [n|]; [|done].
  assert (flights ((fun _ => mkWorker WAcquire 0) <$> chs) = 0%nat) as ->; [|split; [done|lia]].
  unfold flights. apply map_size_empty_iff, map_empty_filter_2. intros c w Hw.
  rewrite lookup_fmap in Hw. destruct (chs !! c); [|done]. by injection Hw as <-.
Qed.

Lemma reachable_Inv s : reachable s -> Inv s.
Proof. intros (chs & ls & Hrun). eapply Inv_run; [exact Hrun|apply Inv_start]. Qed.

(** ** Progress *)

(** Steps that workers take on their own. *)
Definition by_workers (l : label) : Prop :=
  match l with MReceive _ | MInternal _ | MRemove | MPush | MSkip => False | _ => True end.

(** From [s] the workers alone can get to a state that satisfies [P], while the
    account waits. *)
Definition workers_reach (s : sys) (P : sys -> Prop) : Prop :=
  exists ls s', Forall by_workers ls /\ run ls s = Some s' /\ main s' = main s /\ P s'.

Lemma workers_reach_now s (P : sys -> Prop) : P s -> workers_reach s P.
Proof. intros HP. by exists [], s. Qed.

Lemma workers_reach_step l s s1 P :
  by_workers l -> step l s = Some s1 -> main s1 = main s -> workers_reach s1 P -> workers_reach s P.
Proof.
  intros Hl Hs Hm (ls & s' & Hls & Hrun & Hm' & HP). exists (l :: ls), s'.
  split_and!; [by constructor|simpl; by rewrite Hs|congruence|done].
Qed.

(** The next push of the account is not blocked. *)
Definition can_push (s : sys) : Prop := is_Some (step MPush s).

Lemma can_push_room s c cs w :
  main s = c :: cs -> workers s !! c = Some w -> (w_queue w < capacity)%nat \/ w_pc w = WStopped -> can_push s.
Proof.
  intros Hm Hc Hw. unfold can_push, step. rewrite Hm, Hc. simpl. unfold Push.
  destruct Hw as [Hw|Hw]; [|rewrite Hw; by eexists].
  apply Nat.ltb_lt in Hw. rewrite Hw. destruct (w_pc w); by eexists.
Qed.

Lemma can_push_loop s c cs q :
  main s = c :: cs -> workers s !! c = Some (mkWorker WLoop q) -> (q <= capacity)%nat -> workers_reach s can_push.
Proof.
  intros Hm Hc Hq. destruct q as [|q].
  { apply workers_reach_now. eapply can_push_room; [exact Hm|exact Hc|left; simpl; unfold capacity; lia]. }
  eapply (workers_reach_step (WTake c false false)); [done|simpl; unfold local; rewrite Hc; reflexivity|done|].
  apply workers_reach_now. eapply (can_push_room _ c cs (mkWorker WLoop q)); [done|apply lookup_insert_eq|].
  left. simpl. lia.
Qed.

Lemma can_push_rpc s c cs q :
  main s = c :: cs -> workers s !! c = Some (mkWorker WRpc q) -> (q <= capacity)%nat -> workers_reach s can_push.
Proof.
  intros Hm Hc Hq. eapply (workers_reach_step (WAnswer c AError)); [done|simpl; rewrite Hc; reflexivity|done|].
  eapply (can_push_loop _ c cs q); [done|apply lookup_insert_eq|done].
Qed.

(** With a free slot the request is made. *)
Lemma can_push_acquire_free s c cs q n :
  main s = c :: cs -> workers s !! c = Some (mkWorker WAcquire q) -> acquire (held s) = Some n ->
  (q <= capacity)%nat -> workers_reach s can_push.
Proof.
  intros Hm Hc Ha Hq. eapply (workers_reach_step (WAcq c)); [done|simpl; rewrite Hc, Ha; reflexivity|done|].
  eapply (can_push_rpc _ c cs q); [done|apply lookup_insert_eq|done].
Qed.

(** Without one, some request is in flight, and its answer frees a slot. *)
Lemma can_push_acquire s c cs q :
  Inv s -> (forall n, sem = Some n -> (0 < n)%nat) ->
  main s = c :: cs -> workers s !! c = Some (mkWorker WAcquire q) -> (q <= capacity)%nat ->
  workers_reach s can_push.
Proof.
  intros HI Hn Hm Hc Hq. destruct (acquire (held s)) as [n|] eqn:Ea; [by eapply can_push_acquire_free|].
  unfold acquire in Ea. destruct sem as [n|] eqn:Es; [|done]. destruct (_ <? _)%nat eqn:El; [done|].
  apply Nat.ltb_ge in El. specialize (Hn n eq_refl).
  pose proof (inv_held _ HI) as Hh. rewrite Es in Hh. destruct Hh as [Hh Hle].
  assert (filter (fun '(_, w) => in_rpc w) (workers s) <> ∅) as Hne.
  { intros E. unfold flights in Hh. rewrite E, map_size_empty in Hh. lia. }
  apply map_choose in Hne as (d & w & Hd). apply map_lookup_filter_Some in Hd as [Hd Hr].
  destruct w as [pc qd]. unfold in_rpc in Hr. simpl in Hr. subst pc.
  assert (d <> c) as Hdc by (intros ->; congruence).
  eapply (workers_reach_step (WAnswer d AError)); [done|simpl; rewrite Hd; reflexivity|done|].
  eapply (can_push_acquire_free _ c cs q); [done|by simpl; rewrite lookup_insert_ne| |done].
  simpl. unfold acquire, release. rewrite Es. destruct (Nat.ltb_spec (Nat.pred (held s)) n); [reflexivity|lia].
Qed.

(** The workers never need the account to take updates out of their queues. *)
Definition queues_bounded (s : sys) : Prop := map_Forall (fun _ w => (w_queue w <= capacity)%nat) (workers s).

Lemma bounded_insert s c w : queues_bounded s -> (w_queue w <= capacity)%nat ->
  map_Forall (fun _ w => (w_queue w <= capacity)%nat) (<[c := w]> (workers s)).
Proof. intros Hs Hw. by apply map_Forall_insert_2. Qed.

Lemma queues_bounded_step l s s' : step l s = Some s' -> queues_bounded s -> queues_bounded s'.
Proof.
  intros Hs Hb. unfold queues_bounded in *.
  assert (forall c w, workers s !! c = Some w -> (w_queue w <= capacity)%nat) as Hq by (intros c w; apply Hb).
  destruct l; simpl in Hs; unfold local, take_one, Push in Hs;
    repeat (case_match; simplify_eq/=); try done; try (apply bounded_insert; [done|]; simpl);
    repeat match goal with
      | E : workers s !! _ = Some _ |- _ => apply Hq in E; simpl in E
      | E : (_ <? _)%nat = true |- _ => apply Nat.ltb_lt in E
      end; try lia.
  - by apply map_Forall_delete.
  - destruct (workers s !! z) eqn:E; simpl; [by eapply Hq|unfold capacity; lia].
Qed.

Lemma queues_bounded_run ls : forall s s', run ls s = Some s' -> queues_bounded s -> queues_bounded s'.
Proof.
  induction ls as [|l ls IH]; intros s s' Hrun Hb; simpl in Hrun; [by injection Hrun as <-|].
  destruct (step l s) as [s1|] eqn:E; [|done]. eapply IH; [exact Hrun|]. by eapply queues_bounded_step.
Qed.

Lemma reachable_bounded s : reachable s -> queues_bounded s.
Proof.
  intros (chs & ls & Hrun). eapply queues_bounded_run; [exact Hrun|]. intros c w Hw. simpl in Hw.
  rewrite lookup_fmap in Hw. destruct (chs !! c); [|done]. injection Hw as <-. simpl. unfold capacity. lia.
Qed.

(** Waiting for the timeout and sending out drain the queue. *)
Lemma can_push_drain s c cs pc q :
  main s = c :: cs -> workers s !! c = Some (mkWorker pc (S q)) -> (S q <= capacity)%nat ->
  match pc with WTimeout | WSend _ => True | _ => False end -> workers_reach s can_push.
Proof.
  intros Hm Hc Hq Hpc.
  eapply (workers_reach_step (WDrain c) s (set_worker c (mkWorker pc q) s)); [done| |done|].
  { simpl. unfold local. rewrite Hc. by destruct pc. }
  apply workers_reach_now. eapply (can_push_room _ c cs (mkWorker pc q)); [done|apply lookup_insert_eq|].
  left. simpl. lia.
Qed.

Lemma can_push_reached s c cs :
  (forall n, sem = Some n -> (0 < n)%nat) -> reachable s -> main s = c :: cs ->
  (forall q, workers s !! c = Some (mkWorker WRemove q) -> (length (removals s) < capacity)%nat) ->
  workers_reach s can_push.
Proof.
  intros Hn Hr Hm Hrem. assert (HI := reachable_Inv s Hr). assert (Hb := reachable_bounded s Hr).
  destruct (workers s !! c) as [[pc q]|] eqn:Ec.
  2:{ apply workers_reach_now. unfold can_push, step. rewrite Hm, Ec. by eexists. }
  assert (q <= capacity)%nat as Hq by (by apply (Hb c _ Ec)).
  destruct q as [|q].
  { apply workers_reach_now. eapply can_push_room; [done|exact Ec|]. left. simpl. unfold capacity. lia. }
  destruct pc.
  - by eapply can_push_loop.
  - by eapply can_push_drain.
  - by eapply can_push_acquire.
  - by eapply can_push_rpc.
  - by eapply can_push_drain.
  - assert (length (removals s) < capacity)%nat as Hl by (by eapply Hrem). apply Nat.ltb_lt in Hl.
    eapply (workers_reach_step (WRequestRemoval c)); [done|simpl; rewrite Ec, Hl; reflexivity|done|].
    apply workers_reach_now. eapply (can_push_room _ c cs (mkWorker WStopped (S q)));
      [done|apply lookup_insert_eq|by right].
  - apply workers_reach_now. eapply can_push_room; [done|exact Ec|by right].
Qed.

(** ** Deadlock *)

(** The account waits for worker [c], which waits for the account. *)
Record stuck (c : Z) (cs : list Z) (s : sys) : Prop := {
  stuck_main : main s = c :: cs;
  stuck_worker : workers s !! c = Some (mkWorker WRemove capacity);
  stuck_removals : length (removals s) = capacity;
}.

Lemma stuck_step c cs l s s' : step l s = Some s' -> stuck c cs s -> stuck c cs s'.
Proof.
  intros Hs [Hm Hw Hr]. assert (forall d, d <> c -> forall w, <[d := w]> (workers s) !! c = workers s !! c) as Hne
    by (intros; by apply lookup_insert_ne).
  destruct l as [ps|ps| | | |d b t|d t|d|d|d|d a|d|d]; simpl in Hs; rewrite ?Hm in Hs; try done;
    try (rewrite Hw in Hs; done);
    destruct (decide (d = c)) as [->|Hdc]; unfold local in Hs; rewrite ?Hw in Hs; try done;
    repeat (case_match; simplify_eq/=); try done; try (split; simpl; rewrite ?Hne; done).
  all: match goal with E : (_ <? _)%nat = true |- _ => apply Nat.ltb_lt in E; lia end.
Qed.

Lemma stuck_run c cs ls : forall s s', run ls s = Some s' -> stuck c cs s -> stuck c cs s'.
Proof.
  induction ls as [|l ls IH]; intros s s' Hrun Hst; simpl in Hrun; [by injection Hrun as <-|].
  destruct (step l s) as [s1|] eqn:E; [|done]. eapply IH; [exact Hrun|]. by eapply stuck_step.
Qed.
End System.

(** ** The queues of a manager *)

(** C23: however the account and its workers interleave, and however small the
    limit of concurrent differences is, the account is never blocked for good by
    a full queue of a channel: the workers can always make room without it, or
    stop, except when the worker of this channel asks for its removal and the
    removal queue is full. *)
Theorem push_unblocked (limit c : Z) (cs : list Z) (s : sys) :
  reachable (newChDiffSem limit) s -> main s = c :: cs ->
  (forall q, workers s !! c = Some (mkWorker WRemove q) -> (length (removals s) < capacity)%nat) ->
  workers_reach (newChDiffSem limit) s (can_push (newChDiffSem limit)).
Proof.
  intros Hr Hm Hrem. eapply can_push_reached; [|done|exact Hm|exact Hrem].
  intros n. unfold newChDiffSem. case_bool; [done|]. intros [= <-]. bool_to_prop. lia.
Qed.

(** Eleven updates for a channel whose worker still waits for its slot. *)
Definition full_queue : sys :=
  default (start_sys ∅) (run (newChDiffSem 1) ([WAcq 2; MReceive (replicate 11 1)] ++ replicate 10 MPush)
                           (start_sys {[1 := tt; 2 := tt]})).

Lemma push_unblocked_witness :
  main full_queue = [1] /\
  workers_reach (newChDiffSem 1) full_queue (can_push (newChDiffSem 1)).
Proof.
  split; [reflexivity|].
  apply (push_unblocked 1 1 []).
  - exists {[1 := tt; 2 := tt]}, ([WAcq 2; MReceive (replicate 11 1)] ++ replicate 10 MPush). vm_compute. reflexivity.
  - reflexivity.
  - intros q. vm_compute. discriminate.
Defined.

(** With a positive limit, at most that many requests for differences are in
    flight at any time, and the slots taken are exactly the requests in flight. *)
Theorem differences_limited (limit : Z) (s : sys) :
  0 < limit -> reachable (newChDiffSem limit) s ->
  held s = flights (workers s) /\ Z.of_nat (flights (workers s)) <= limit.
Proof.
  intros Hl Hr. pose proof (inv_held _ _ (reachable_Inv _ s Hr)) as Hh. unfold newChDiffSem in Hh.
  destruct (limit <=? 0) eqn:E; bool_to_prop; [lia|]. destruct Hh as [<- Hle]. split; [done|lia].
Qed.

Lemma differences_limited_witness :
  held full_queue = flights (workers full_queue) /\ Z.of_nat (flights (workers full_queue)) <= 1.
Proof.
  apply (differences_limited 1); [lia|].
  exists {[1 := tt; 2 := tt]}, ([WAcq 2; MReceive (replicate 11 1)] ++ replicate 10 MPush). vm_compute. reflexivity.
Defined.

(** Eleven channels lose access while the account pushes eleven updates to the
    last of them. *)
Definition others : list Z := [2; 3; 4; 5; 6; 7; 8; 9; 10; 11].
Definition deadlock_run : list label :=
  WAcq 1 :: MReceive (replicate 11 1) :: replicate 10 MPush
  ++ flat_map (fun c => [WAcq c; WAnswer c APrivate; WRequestRemoval c]) others
  ++ [WAnswer 1 APrivate].
Definition deadlocked : sys :=
  default (start_sys ∅) (run None deadlock_run (start_sys (list_to_map ((fun c => (c, tt)) <$> 1 :: others)))).

(** C36: eleven channels that lose access at once can block the manager: the
    account waits for room in the queue of a worker, this worker waits for room
    in the removal queue, which only the account empties, and from there no
    sequence of steps ever lets the account go on. *)
Theorem removal_deadlock :
  reachable None deadlocked /\
  forall ls s', run None ls deadlocked = Some s' -> main s' = main deadlocked /\ main s' = [1] /\ ~ can_push None s'.
Proof.
  assert (stuck 1 [] deadlocked) as Hst by (split; vm_compute; reflexivity).
  split.
  - exists (list_to_map ((fun c => (c, tt)) <$> 1 :: others)), deadlock_run. vm_compute. reflexivity.
  - intros ls s' Hrun. pose proof (stuck_run None 1 [] ls _ _ Hrun Hst) as [Hm Hw Hr].
    split_and!; [by rewrite Hm, (stuck_main _ _ _ Hst)|done|].
    unfold can_push, step. rewrite Hm, Hw. simpl. by intros [].
Qed.
