(* ===== verification/Manager.v ===== *)
(** * telegram/updates: the manager

    Model of src/telegram/updates manager.go: how a manager loads the state of an
    account and its channels from the storage, starts and resets the account, and
    passes updates on.  The theorems compose the storage, the account and the
    loading: what one run leaves behind is what the next run starts from. *)
From S2P Require Import Prelude Tg Storage Sequence Updates.

Section Manager.
Context {S H UH : Type} `{!StateStorage S, !AccessHasher H, !AccessHasher UH}.

(** The account while it runs, what was queued for it, what the handler was
    given as it is, and the storage of the configuration. *)
Record Manager : Type := mkManager {
  m_state : option (internalState S H UH);
  m_queue : list event;
  m_raw : list UpdatesClass;
  m_storage : S;
  m_hasher : H;
  m_userHasher : UH;
  m_stateFailed : nat;             (* calls of OnLoadUserStateFailed *)
  m_channelFailed : list Z;        (* calls of OnLoadChannelStateFailed *)
}.

(** New *)
Definition New (st : S) (h : H) (uh : UH) : Manager := mkManager None [] [] st h uh 0 [].

Definition Handle (u : UpdatesClass) (m : Manager) : Manager :=
  match m_state m with
  | None => mkManager None (m_queue m) (m_raw m ++ [u]) (m_storage m) (m_hasher m) (m_userHasher m)
              (m_stateFailed m) (m_channelFailed m)
  | Some s => mkManager (Some s) (m_queue m ++ [EvUpdates u]) (m_raw m) (m_storage m) (m_hasher m)
                (m_userHasher m) (m_stateFailed m) (m_channelFailed m)
  end.

Definition HandleAffected (channelID pts ptsCount : Z) (m : Manager) : Manager :=
  match m_state m with
  | None => m
  | Some s => mkManager (Some s) (m_queue m ++ [EvAffected channelID pts ptsCount]) (m_raw m) (m_storage m)
                (m_hasher m) (m_userHasher m) (m_stateFailed m) (m_channelFailed m)
  end.

Definition Reset (m : Manager) : Manager :=
  mkManager None (m_queue m) (m_raw m) (m_storage m) (m_hasher m) (m_userHasher m) (m_stateFailed m)
    (m_channelFailed m).

Context (userID : Z) (UpdatesGetState : UpdatesState + error).

(** The part of loadState with [forget]. *)
Definition loadRemote (st : S) : (Storage.State + error) * S :=
  match UpdatesGetState with
  | inr err => (inr (Wrap err "get remote internalState"), st)
  | inl remote =>
      match Storage.SetState userID (fromRemote remote) st with
      | (Some err, st') => (inr err, st')
      | (None, st') => (inl (fromRemote remote), st')
      end
  end.

(** loadState: the state, the new storage, and whether nothing was stored. *)
Definition loadState (forget : bool) (st : S) : (Storage.State + error) * S * bool :=
  if forget then (loadRemote st, false)
  else
    match GetState st userID with
    | inr err => (inr (Wrap err "restore local internalState"), st, false)
    | inl None => (loadRemote st, true)
    | inl (Some state) => (inl state, st, false)
    end.

(** loadChannels: the callback of ForEachChannels collects the channels whose
    access hash is known and reports the others. *)
Fixpoint loadChannels_loop (h : H) (chs : list (Z * Z)) (channels : gmap Z (Z * Z)) (failed : list Z)
    : (gmap Z (Z * Z) * list Z) + error :=
  match chs with
  | [] => inl (channels, failed)
  | (channelID, pts) :: chs =>
      match GetAccessHash h userID channelID with
      | inr err => inr (Wrap err "get channel access hash")
      | inl None => loadChannels_loop h chs channels (failed ++ [channelID])
      | inl (Some hash) => loadChannels_loop h chs (<[channelID := (pts, hash)]> channels) failed
      end
  end.

Definition loadChannels (h : H) (st : S) : (gmap Z (Z * Z) * list Z) + error :=
  match ChannelsOf st userID with
  | inr err => inr (Wrap err "iterate channels")
  | inl chs =>
      match loadChannels_loop h chs ∅ [] with
      | inr err => inr (Wrap err "iterate channels")
      | inl r => inl r
      end
  end.

(** The setup in Run: an error, or the manager with its account. *)
Definition setup (forget : bool) (m : Manager) : option error * Manager :=
  match m_state m with
  | Some _ => (Some (Wrap (Errorf "already authorized") "setup"), m)
  | None =>
      let '(r, st, failed) := loadState forget (m_storage m) in
      let m := mkManager None (m_queue m) (m_raw m) st (m_hasher m) (m_userHasher m)
                 (if failed then Datatypes.S (m_stateFailed m) else m_stateFailed m) (m_channelFailed m) in
      match r with
      | inr err => (Some (Wrap (Wrap err "load internalState") "setup"), m)
      | inl state =>
          match loadChannels (m_hasher m) st with
          | inr err => (Some (Wrap (Wrap err "load channels") "setup"), m)
          | inl (channels, lost) =>
              (None, mkManager (Some (newState state channels st (m_hasher m) (m_userHasher m)))
                       (m_queue m) (m_raw m) st (m_hasher m) (m_userHasher m) (m_stateFailed m)
                       (m_channelFailed m ++ lost))
          end
      end
  end.
End Manager.
Arguments Manager : clear implicits.

(** ** Loading *)

Section Loading.
Context {H : Type} `{!AccessHasher H} (userID : Z) (h : H).

(** With no errors of the hasher, exactly the channels with a hash are loaded. *)
Lemma loadChannels_loop_spec chs : forall acc failed,
  NoDup chs.*1 -> (forall c, c ∈ chs.*1 -> acc !! c = None) ->
  (forall c, exists o, GetAccessHash h userID c = inl o) ->
  exists channels failed', loadChannels_loop userID h chs acc failed = inl (channels, failed') /\
    forall c p hash, channels !! c = Some (p, hash) <->
      acc !! c = Some (p, hash) \/ (c, p) ∈ chs /\ GetAccessHash h userID c = inl (Some hash).
Proof.
  induction chs as [|[c0 p0] chs IH]; intros acc failed Hnd Hacc Hh; simpl.
  { exists acc, failed. split; [done|]. intros c p hash. rewrite elem_of_nil. tauto. }
  simpl in *. apply NoDup_cons in Hnd as [Hn Hnd].
  assert (forall c p hash, (c, p) ∈ (c0, p0) :: chs /\ GetAccessHash h userID c = inl (Some hash) <->
    c = c0 /\ p = p0 /\ GetAccessHash h userID c0 = inl (Some hash) \/
    (c, p) ∈ chs /\ GetAccessHash h userID c = inl (Some hash)) as Hcons.
  { intros c p hash. rewrite elem_of_cons. split.
    - intros [[[= -> ->]|?] ?]; auto.
    - intros [(-> & -> & ?)|[? ?]]; auto. }
  setoid_rewrite Hcons. destruct (Hh c0) as [[hash0|] Hc0]; rewrite Hc0.
  - destruct (IH (<[c0 := (p0, hash0)]> acc) failed Hnd) as (channels & failed' & -> & Hspec); [|done|].
    { intros c Hc. rewrite lookup_insert_ne; [apply Hacc; by right|]. by intros ->. }
    exists channels, failed'. split; [done|]. intros c p hash. rewrite Hspec.
    destruct (decide (c = c0)) as [->|Hne].
    + rewrite lookup_insert_eq, Hc0, (Hacc c0) by left.
      split; [intros [[= -> ->]|?]; auto|intros [?|[(_ & -> & [= ->])|?]]; by auto].
    + rewrite lookup_insert_ne by done. tauto.
  - destruct (IH acc (failed ++ [c0]) Hnd) as (channels & failed' & -> & Hspec); [|done|].
    { intros c Hc. apply Hacc. by right. }
    exists channels, failed'. split; [done|]. intros c p hash. rewrite Hspec.
    split; [tauto|]. intros [?|[(_ & _ & ?)|?]]; by auto.
Qed.
End Loading.

(** A manager that is started from the storage in memory loads exactly the
    channels that have a stored position and a known access hash, each with
    this position and hash. *)
Theorem mem_channels_loaded (userID : Z) (st : memStorage.t) (h : gmap Z (gmap Z Z)) (cmap : gmap Z Z) :
  memStorage.channels st !! userID = Some cmap ->
  exists channels lost, loadChannels userID h st = inl (channels, lost) /\
    forall c p hash, channels !! c = Some (p, hash) <->
      GetChannelPts st userID c = inl (Some p) /\ GetAccessHash h userID c = inl (Some hash).
Proof.
  intros Hst. unfold loadChannels. simpl. unfold memStorage.ForEachChannels. rewrite Hst.
  destruct (loadChannels_loop_spec userID h (map_to_list cmap) ∅ []) as (channels & lost & -> & Hspec).
  - apply NoDup_fst_map_to_list.
  - done.
  - intros c. simpl. unfold memAccessHasher.GetChannelAccessHash. destruct (h !! userID); by eexists.
  - exists channels, lost. split; [done|]. intros c p hash. rewrite Hspec, lookup_empty, elem_of_map_to_list.
    unfold memStorage.GetChannelPts. rewrite Hst. split.
    + intros [?|[-> ?]]; [done|]. by split.
    + intros [[= ->] ?]. by right.
Qed.

Lemma mem_channels_loaded_witness :
  let st := snd (SetChannelPts 1 8 30 (snd (SetChannelPts 1 7 20 witness_storage))) in
  let h := snd (SetAccessHash 1 7 99 memAccessHasher.newMemAccessHasher) in
  exists channels lost, loadChannels 1 h st = inl (channels, lost) /\
    forall c p hash, channels !! c = Some (p, hash) <->
      GetChannelPts st 1 c = inl (Some p) /\ GetAccessHash h 1 c = inl (Some hash).
Proof.
  intros st h. apply (mem_channels_loaded 1 st h {[8 := 30; 7 := 20]}). reflexivity.
Defined.

(** What a run of the account leaves in the storage is what the next start
    without [forget] continues from: the loaded positions and date are the ones
    the previous run had in memory. *)
Theorem restart_continues {S H UH : Type}
    `{!StateStorage S, !AccessHasher H, !AccessHasher UH, !LawfulStorage S} (selfID : Z)
    (UpdatesGetDifference : nat -> Z -> Z -> Z -> UpdatesDifferenceClass + error)
    (handler : nat -> Updates -> option error) (UpdatesGetState : UpdatesState + error) (N depth : nat)
    (st : Storage.State) (chs : gmap Z (Z * Z)) (stor : S) (h : H) (uh : UH) (evs : list event) :
  (forall n p q d, (N <= n)%nat -> final_answer (UpdatesGetDifference n p q d)) -> (N < depth)%nat ->
  GetState stor selfID = inl (Some st) ->
  exists r s' st', Run selfID UpdatesGetDifference handler depth evs (newState st chs stor h uh) = (Ok r, s') /\
    loadState selfID UpdatesGetState false (storage s') = (inl st', storage s', false) /\
    Pts st' = state (pts s') /\ Qts st' = state (qts s') /\ Date st' = date s'.
Proof.
  intros HN Hd Hst.
  pose proof (Run_post selfID UpdatesGetDifference handler false N HN depth evs (newState st chs stor h uh) Hd) as Hrun.
  assert (Forall (fun ev => match ev with EvUpdates u => updates_ok false u | _ => True end) evs) as Hok.
  { apply Forall_forall. intros [u| | | |] _; try done. by destruct u. }
  specialize (Hrun Hok (newState_Inv selfID false st chs stor h uh Hst)). unfold post in Hrun.
  destruct (Run _ _ _ _ _ _) as [[r| |] s']; [|done..].
  destruct Hrun as [[(st' & Hget & Hp & Hq & Hda & _) _ _ _ _] _]. exists r, s', st'.
  split; [done|]. unfold loadState. by rewrite Hget.
Qed.

Lemma restart_continues_witness :
  exists r s' st', Run (S := memStorage.t) (H := gmap Z (gmap Z Z)) (UH := gmap Z (gmap Z Z))
      1 slice_server (fun _ _ => None) 2 [EvUpdates UpdatesTooLong; EvAffected 0 14 2; EvDone]
      (newState (mkState 10 5 90 1) ∅ witness_storage ∅ ∅) = (Ok r, s') /\
    loadState 1 (inr EOF) false (storage s') = (inl st', storage s', false) /\
    Pts st' = state (pts s') /\ Qts st' = state (qts s') /\ Date st' = date s'.
Proof.
  apply (restart_continues (S := memStorage.t) (H := gmap Z (gmap Z Z)) (UH := gmap Z (gmap Z Z))
    1 slice_server (fun _ _ => None) (inr EOF) 1 2 (mkState 10 5 90 1) ∅ witness_storage ∅ ∅).
  - intros [|n] p q d Hn; [lia|done].
  - lia.
  - reflexivity.
Defined.

(** With the storage in memory, a difference that reaches the final state
    erases the positions of all channels, so that a manager restarted on this
    storage tracks no channel at all. *)
Theorem restart_forgets_channels {H UH : Type} `{!AccessHasher H, !AccessHasher UH} (selfID : Z)
    (UpdatesGetDifference : nat -> Z -> Z -> Z -> UpdatesDifferenceClass + error)
    (handler : nat -> Updates -> option error) (d : Difference) (depth : nat)
    (s : internalState memStorage.t H UH) (h : H) :
  UpdatesGetDifference (calls s) (state (pts s)) (state (qts s)) (date s) = inl (UpdatesDifference d) ->
  d_OtherUpdates d = [] ->
  exists s', getDifference selfID UpdatesGetDifference handler (Datatypes.S depth) s = (Ok tt, s') /\
    loadChannels selfID h (storage s') = inl (∅, []).
Proof.
  intros Hapi Ho. simpl. unfold getDifference_round.
  erewrite bind_ok by reflexivity. erewrite bind_ok by reflexivity.
  erewrite bind_ok; [|unfold request, bind, get, modify, ret; simpl; rewrite Hapi; reflexivity]. cbv beta iota.
  erewrite bind_ok by reflexivity. rewrite Ho. erewrite bind_ok by reflexivity.
  match goal with |- context [bind (dispatchMessages _ _ _) _ ?s1] =>
    destruct (dispatchMessages_received selfID handler d s1) as (s4 & Hmsg & _ & _) end.
  rewrite (bind_ok _ _ _ _ _ Hmsg). eexists. split; [reflexivity|].
  unfold loadChannels. simpl. unfold memStorage.ForEachChannels. simpl. by rewrite lookup_insert_eq.
Qed.

Lemma restart_forgets_channels_witness :
  let d := mkDifference [] [] [] [] [] (mkUpdatesState 12 5 100 1) in
  let st := snd (SetChannelPts 1 7 20 witness_storage) in
  exists s', getDifference (S := memStorage.t) (H := gmap Z (gmap Z Z)) (UH := gmap Z (gmap Z Z))
      1 (fun _ _ _ _ => inl (UpdatesDifference d)) (fun _ _ => None) 1
      (newState (mkState 10 5 90 1) {[7 := (20, 99)]} st {[1 := {[7 := 99]}]} ∅) = (Ok tt, s') /\
    loadChannels 1 ({[1 := {[7 := 99]}]} : gmap Z (gmap Z Z)) (storage s') = inl (∅, []).
Proof.
  intros d st. apply (restart_forgets_channels (H := gmap Z (gmap Z Z)) (UH := gmap Z (gmap Z Z))
    1 (fun _ _ _ _ => inl (UpdatesDifference d)) (fun _ _ => None) d 0); reflexivity.
Defined.
