(* ===== verification/Hash.v ===== *)
(** * crypto/sha1 and crypto/sha256

    The hash functions of Go's standard library that MTProto uses, as executable
    definitions (FIPS 180-4), checked on the standard's test vectors.  The other
    files use them through their lengths only: they are opaque to proofs. *)
From S2P Require Import Prelude.

Definition be_combine (bs : list byte) : Z := le_combine (rev bs).
Definition be_split (n : nat) (z : Z) : list byte := rev (le_split n z).

Lemma zlen_be_split n z : zlen (be_split n z) = Z.of_nat n.
Proof. unfold zlen, be_split. by rewrite length_rev, length_le_split. Qed.

Module Words.
Definition add (x y : Z) : Z := u32 (x + y).
Definition rotl (n x : Z) : Z := Z.lor (u32 (Z.shiftl x n)) (Z.shiftr x (32 - n)).
Definition rotr (n x : Z) : Z := rotl (32 - n) x.
Definition not (x : Z) : Z := Z.lxor x 0xffffffff.

Fixpoint chunks (fuel : nat) (n : nat) (l : list byte) : list (list byte) :=
  match fuel, l with
  | S fuel, _ :: _ => take n l :: chunks fuel n (drop n l)
  | _, _ => []
  end.

(** The message with its padding to 64-byte blocks. *)
Definition pad (m : list byte) : list byte :=
  m ++ [Byte.x80] ++ zeros ((55 - zlen m) mod 64) ++ be_split 8 (8 * zlen m).

(** The blocks, each as sixteen words, the last word first. *)
Definition blocks (m : list byte) : list (list Z) :=
  let p := pad m in
  (fun b => rev (be_combine <$> chunks 16 4 b)) <$> chunks (length p) 64 p.

(** Extends a schedule, most recent word first, by [n] words. *)
Fixpoint schedule (next : list Z -> Z) (n : nat) (w : list Z) : list Z :=
  match n with
  | O => rev w
  | S n => schedule next n (next w :: w)
  end.
End Words.

Module Sha1.
Import Words.
Definition next (w : list Z) : Z :=
  rotl 1 (Z.lxor (Z.lxor (nth 2 w 0) (nth 7 w 0)) (Z.lxor (nth 13 w 0) (nth 15 w 0))).

Record st : Type := mkSt { a : Z; b : Z; c : Z; d : Z; e : Z }.
Definition init : st := mkSt 0x67452301 0xefcdab89 0x98badcfe 0x10325476 0xc3d2e1f0.

Definition round (ts : nat * st) (w : Z) : nat * st :=
  let '(t, s) := ts in
  let '(f, k) :=
    if Nat.ltb t 20 then (Z.lor (Z.land (b s) (c s)) (Z.land (not (b s)) (d s)), 0x5a827999)
    else if Nat.ltb t 40 then (Z.lxor (Z.lxor (b s) (c s)) (d s), 0x6ed9eba1)
    else if Nat.ltb t 60 then
      (Z.lor (Z.lor (Z.land (b s) (c s)) (Z.land (b s) (d s))) (Z.land (c s) (d s)), 0x8f1bbcdc)
    else (Z.lxor (Z.lxor (b s) (c s)) (d s), 0xca62c1d6) in
  let temp := add (add (add (rotl 5 (a s)) f) (add (e s) k)) w in
  (S t, mkSt temp (a s) (rotl 30 (b s)) (c s) (d s)).

Definition compress (s : st) (block : list Z) : st :=
  let '(_, s') := fold_left round (schedule next 64 block) (O, s) in
  mkSt (add (a s) (a s')) (add (b s) (b s')) (add (c s) (c s')) (add (d s) (d s')) (add (e s) (e s')).

Definition Size : Z := 20.
Definition Sum (m : list byte) : list byte :=
  let s := fold_left compress (blocks m) init in
  be_split 4 (a s) ++ be_split 4 (b s) ++ be_split 4 (c s) ++ be_split 4 (d s) ++ be_split 4 (e s).
End Sha1.

Module Sha256.
Import Words.
(** The constants of the standard: the first 32 bits of the fractional parts of
    the cube roots and square roots of the first primes. *)
Definition is_prime (n : Z) : bool :=
  forallb (fun d => negb (n mod d =? 0)) (seqZ 2 (n - 2)).
Definition primes (n : nat) : list Z := take n (List.filter is_prime (seqZ 2 310)).

(** The integer cube root below [2^bits], one bit at a time. *)
Fixpoint cube_root (bits : nat) (acc z : Z) : Z :=
  match bits with
  | O => acc
  | S bits =>
      let acc' := acc + 2 ^ Z.of_nat bits in
      cube_root bits (if acc' * acc' * acc' <=? z then acc' else acc) z
  end.

Definition K : list Z :=
  Eval vm_compute in (fun p => u32 (cube_root 36 0 (p * 2 ^ 96))) <$> primes 64.

Definition s0 (x : Z) : Z := Z.lxor (Z.lxor (rotr 7 x) (rotr 18 x)) (Z.shiftr x 3).
Definition s1 (x : Z) : Z := Z.lxor (Z.lxor (rotr 17 x) (rotr 19 x)) (Z.shiftr x 10).
Definition S0 (x : Z) : Z := Z.lxor (Z.lxor (rotr 2 x) (rotr 13 x)) (rotr 22 x).
Definition S1 (x : Z) : Z := Z.lxor (Z.lxor (rotr 6 x) (rotr 11 x)) (rotr 25 x).
Definition next (w : list Z) : Z :=
  add (add (s1 (nth 1 w 0)) (nth 6 w 0)) (add (s0 (nth 14 w 0)) (nth 15 w 0)).

Record st : Type := mkSt { a : Z; b : Z; c : Z; d : Z; e : Z; f : Z; g : Z; h : Z }.
Definition H0 : list Z := Eval vm_compute in (fun p => u32 (Z.sqrt (p * 2 ^ 64))) <$> primes 8.
Definition init : st :=
  let w i := nth i H0 0 in mkSt (w 0%nat) (w 1%nat) (w 2%nat) (w 3%nat) (w 4%nat) (w 5%nat) (w 6%nat) (w 7%nat).

Definition round (s : st) (kw : Z * Z) : st :=
  let '(k, w) := kw in
  let ch := Z.lxor (Z.land (e s) (f s)) (Z.land (not (e s)) (g s)) in
  let maj := Z.lxor (Z.lxor (Z.land (a s) (b s)) (Z.land (a s) (c s))) (Z.land (b s) (c s)) in
  let t1 := add (add (h s) (S1 (e s))) (add ch (add k w)) in
  let t2 := add (S0 (a s)) maj in
  mkSt (add t1 t2) (a s) (b s) (c s) (add (d s) t1) (e s) (f s) (g s).

Definition compress (s : st) (block : list Z) : st :=
  let s' := fold_left round (zip K (schedule next 48 block)) s in
  mkSt (add (a s) (a s')) (add (b s) (b s')) (add (c s) (c s')) (add (d s) (d s'))
       (add (e s) (e s')) (add (f s) (f s')) (add (g s) (g s')) (add (h s) (h s')).

Definition Sum (m : list byte) : list byte :=
  let s := fold_left compress (blocks m) init in
  be_split 4 (a s) ++ be_split 4 (b s) ++ be_split 4 (c s) ++ be_split 4 (d s) ++
  be_split 4 (e s) ++ be_split 4 (f s) ++ be_split 4 (g s) ++ be_split 4 (h s).
End Sha256.

Abbreviation sha1 := Sha1.Sum.
Abbreviation sha256 := Sha256.Sum.

Example sha1_abc :
  be_combine (sha1 [Byte.x61; Byte.x62; Byte.x63]) = 0xa9993e364706816aba3e25717850c26c9cd0d89d.
Proof. vm_compute. reflexivity. Qed.
Example sha256_abc :
  be_combine (sha256 [Byte.x61; Byte.x62; Byte.x63]) =
  0xba7816bf8f01cfea414140de5dae2223b00361a396177a9cb410ff61f20015ad.
Proof. vm_compute. reflexivity. Qed.
Example sha256_two_blocks :
  be_combine (sha256 (replicate 64 Byte.x61)) =
  0xffe054fe7ae0cb6dc65c3af9b61d5209f439851db43d0ba5997337df154668eb.
Proof. vm_compute. reflexivity. Qed.

Lemma zlen_sha1 m : zlen (sha1 m) = 20.
Proof. unfold sha1. cbv zeta. by rewrite !zlen_app, !zlen_be_split. Qed.
Lemma zlen_sha256 m : zlen (sha256 m) = 32.
Proof. unfold sha256. cbv zeta. by rewrite !zlen_app, !zlen_be_split. Qed.
#[export] Hint Rewrite zlen_sha1 zlen_sha256 : zlen.
#[global] Opaque Sha1.Sum Sha256.Sum.
