(* ===== verification/Keys.v ===== *)
(** * crypto: keys and nonces

    Model of the key material of src/crypto: the MTProto 2.0 key schedule
    (keys.go), the MTProto 1.0 one (keys_old.go, kdf_v1.go), authorization keys
    (key.go), the temporary keys and values of the key exchange (temp_keys.go,
    salt.go, NonceHash1 of exchange.go) and the random values (rand.go,
    session_id.go).  Fixed-size Go arrays are byte lists whose length is a
    hypothesis where it matters. *)
From S2P Require Import Prelude Io Bin Hash.

(** ** keys.go *)

Inductive Side : Type := Client | Server.
#[export] Instance Side_eq_dec : EqDecision Side.
Proof. solve_decision. Defined.

Definition DecryptSide (s : Side) : Side :=
  match s with Client => Server | Server => Client end.

Definition getX (mode : Side) : Z := match mode with Client => 0 | Server => 8 end.

Definition msgKeyLarge (authKey plaintextPadded : list byte) (mode : Side) : list byte :=
  let x := getX mode in
  sha256 (slice (88 + x) (32 + 88 + x) authKey ++ plaintextPadded).

Definition messageKey (messageKeyLarge : list byte) : list byte :=
  slice 8 (16 + 8) messageKeyLarge.

Definition sha256a (authKey msgKey : list byte) (x : Z) : list byte :=
  sha256 (msgKey ++ slice x (x + 36) authKey).

Definition sha256b (authKey msgKey : list byte) (x : Z) : list byte :=
  sha256 (slice (40 + x) (40 + x + 36) authKey ++ msgKey).

Definition aesKey (a b : list byte) : list byte :=
  slice 0 8 a ++ slice 8 (16 + 8) b ++ slice 24 (24 + 8) a.

Definition aesIV (a b : list byte) : list byte := aesKey b a.

Definition Keys (authKey msgKey : list byte) (mode : Side) : list byte * list byte :=
  let x := getX mode in
  let a := sha256a authKey msgKey x in
  let b := sha256b authKey msgKey x in
  (aesKey a b, aesIV a b).

Definition MessageKey (authKey plaintextPadded : list byte) (mode : Side) : list byte :=
  messageKey (msgKeyLarge authKey plaintextPadded mode).

(** ** keys_old.go, kdf_v1.go *)

Definition sha1a (authKey msgKey : list byte) (x : Z) : list byte :=
  sha1 (msgKey ++ slice x (x + 32) authKey).
Definition sha1b (authKey msgKey : list byte) (x : Z) : list byte :=
  sha1 (slice (32 + x) (32 + x + 16) authKey ++ msgKey ++ slice (48 + x) (48 + x + 16) authKey).
Definition sha1c (authKey msgKey : list byte) (x : Z) : list byte :=
  sha1 (slice (64 + x) (64 + x + 32) authKey ++ msgKey).
Definition sha1d (authKey msgKey : list byte) (x : Z) : list byte :=
  sha1 (msgKey ++ slice (96 + x) (96 + x + 32) authKey).

Definition OldKeys (authKey msgKey : list byte) (mode : Side) : list byte * list byte :=
  let x := getX mode in
  let aesKey a b c := slice 0 8 a ++ slice 8 (8 + 12) b ++ slice 4 (4 + 12) c in
  let aesIV a b c d := slice 8 (8 + 12) a ++ slice 0 8 b ++ slice 16 (16 + 4) c ++ slice 0 8 d in
  let a := sha1a authKey msgKey x in
  let b := sha1b authKey msgKey x in
  let c := sha1c authKey msgKey x in
  let d := sha1d authKey msgKey x in
  (aesKey a b c, aesIV a b c d).

Definition MessageKeyV1 (plaintext : list byte) : list byte := slice 4 20 (sha1 plaintext).

Definition KeysV1 (authKey msgKey : list byte) : list byte * list byte :=
  let a := sha1a authKey msgKey 0 in
  let b := sha1b authKey msgKey 0 in
  let c := sha1c authKey msgKey 0 in
  let d := sha1d authKey msgKey 0 in
  (slice 0 8 a ++ slice 8 20 b ++ slice 4 16 c,
   slice 8 20 a ++ slice 0 8 b ++ slice 16 20 c ++ slice 0 8 d).

(** ** key.go *)

Definition KeySize : Z := 256.
Definition Key_Zero (k : list byte) : bool := bool_decide (k = zeros KeySize).
Definition Key_ID (k : list byte) : list byte := take 8 (drop 12 (sha1 k)).
Definition AuxHash (k : list byte) : list byte := slice 0 8 (sha1 k).

Record AuthKey : Type := mkAuthKey { ak_Value : list byte; ak_ID : list byte }.
#[export] Instance AuthKey_eq_dec : EqDecision AuthKey.
Proof. solve_decision. Defined.

Definition WithID (k : list byte) : AuthKey := mkAuthKey k (Key_ID k).
Definition AuthKey_Zero (a : AuthKey) : bool :=
  bool_decide (a = mkAuthKey (zeros KeySize) (zeros 8)).
Definition IntID (a : AuthKey) : Z := i64 (le_combine (ak_ID a)).
Definition SetIntID (v : Z) (a : AuthKey) : AuthKey := mkAuthKey (ak_Value a) (le_split 8 (u64 v)).

(** An AuthKey as the program makes them: both fields have their array sizes. *)
Definition auth_key_ok (a : AuthKey) : Prop := zlen (ak_Value a) = KeySize /\ zlen (ak_ID a) = 8.
#[export] Instance auth_key_ok_dec a : Decision (auth_key_ok a).
Proof. unfold auth_key_ok. apply _. Defined.

(** ** temp_keys.go, salt.go, exchange.go *)

Definition sha1Bytes (a b : list byte) : list byte := sha1 (a ++ b).

(** [big.Int.FillBytes] into [n] bytes; it panics on a larger number, which the
    callers exclude. *)
Definition big_FillBytes (z : Z) (n : nat) : list byte := be_split n z.

Definition TempAESKeys (newNonce serverNonce : Z) : list byte * list byte :=
  let nn := big_FillBytes newNonce 32 in
  let sn := big_FillBytes serverNonce 16 in
  (sha1Bytes nn sn ++ slice 0 12 (sha1Bytes sn nn),
   slice 12 (12 + 8) (sha1Bytes sn nn) ++ sha1Bytes nn nn ++ slice 0 4 nn).

(** [xor.Bytes(dst, a, b)] of github.com/go-faster/xor, for [a] and [b] of the
    length of [dst], and what it documents: the bytewise exclusive or. *)
Definition xor_bytes (a b : list byte) : list byte :=
  zip_with (fun x y => byte.of_Z (Z.lxor (byte.unsigned x) (byte.unsigned y))) a b.
Class XorLib : Type := xor_Bytes : list byte -> list byte -> list byte.
Class LawfulXor `{!XorLib} : Prop :=
  xor_Bytes_spec a b : zlen a = zlen b -> xor_Bytes a b = xor_bytes a b.

Definition ServerSalt `{!XorLib} (newNonce serverNonce : list byte) : Z :=
  i64 (le_combine (xor_Bytes (slice 0 8 newNonce) (slice 0 8 serverNonce))).

Definition NonceHash1 (newNonce key : list byte) : list byte :=
  slice 4 20 (sha1 (newNonce ++ [Byte.x01] ++ slice 0 8 (sha1 key))).

(** ** rand.go, session_id.go *)

Definition RandInt64 : GoM Stream Z :=
  let! buf := must_read (Word * 2) in
  fun r => (fst (Long buf), r).

(** [v *= -1] and [%] at 64 bits; [n = 0] panics. *)
Definition RandInt64n (n : Z) : GoM Stream Z :=
  let! v := RandInt64 in
  let v := if v <? 0 then i64 (v * -1) else v in
  if n =? 0 then fun r => (Panic, r) else ret (i64 (Z.rem v n)).

Definition RandInt128 : GoM Stream (list byte) :=
  let! buf := must_read (Word * 4) in
  fun r => (fst (Int128 buf), r).

Definition RandInt256 : GoM Stream (list byte) :=
  let! buf := must_read (Word * 8) in
  fun r => (fst (Int256 buf), r).

Definition NewSessionID : GoM Stream Z :=
  let! bytes := must_read 8 in
  ret (i64 (le_combine bytes)).

(** ** Lengths *)

Lemma zlen_slice {A} lo hi (l : list A) : 0 <= lo <= hi -> hi <= zlen l -> zlen (slice lo hi l) = hi - lo.
Proof. intros. unfold slice, zlen in *. rewrite length_take, length_drop. lia. Qed.

Lemma slice_0_app {A} n (l k : list A) : n = zlen l -> slice 0 n (l ++ k) = l.
Proof. intros H. unfold slice. rewrite Z.sub_0_r. simpl drop. by apply take_zlen_app. Qed.

Lemma zlen_MessageKey k p m : zlen (MessageKey k p m) = 16.
Proof. unfold MessageKey, messageKey, msgKeyLarge. rewrite zlen_slice; rewrite ?zlen_sha256; lia. Qed.

Lemma zlen_Keys k m mode : zlen (fst (Keys k m mode)) = 32 /\ zlen (snd (Keys k m mode)) = 32.
Proof.
  unfold Keys, aesIV, aesKey, sha256a, sha256b. simpl.
  rewrite !zlen_app. rewrite !zlen_slice by (rewrite ?zlen_sha256; lia). lia.
Qed.

Lemma zlen_KeysV1 k m : zlen (fst (KeysV1 k m)) = 32 /\ zlen (snd (KeysV1 k m)) = 32.
Proof.
  unfold KeysV1, sha1a, sha1b, sha1c, sha1d. simpl.
  rewrite !zlen_app. rewrite !zlen_slice by (rewrite ?zlen_sha1; lia). lia.
Qed.
#[export] Hint Rewrite zlen_MessageKey : zlen.

Lemma be_split_combine bs n : length bs = n -> be_split n (be_combine bs) = bs.
Proof.
  intros <-. unfold be_split, be_combine. rewrite <- (length_rev bs), split_le_combine.
  apply rev_involutive.
Qed.

Lemma be_combine_split n z : is_unsigned (Z.of_nat n * 8) z -> be_combine (be_split n z) = z.
Proof.
  intros. unfold be_split, be_combine. rewrite rev_involutive. by apply le_combine_split_unsigned.
Qed.

Lemma be_combine_range bs : 0 <= be_combine bs < 2 ^ (8 * zlen bs).
Proof.
  unfold be_combine, zlen. rewrite <- length_rev. apply le_combine_bound.
Qed.

Lemma xor_bytes_cancel a b : zlen a = zlen b -> xor_bytes (xor_bytes a b) b = a.
Proof.
  unfold zlen. revert b. induction a as [|x a IH]; intros [|y b] H; try (simpl in H; lia); [done|].
  simpl. f_equal; [|apply IH; simpl in H; lia].
  apply byte.unsigned_inj. rewrite !byte.unsigned_of_Z. unfold byte.wrap.
  pose proof (byte.unsigned_range x) as Hx. pose proof (byte.unsigned_range y) as Hy.
  assert (0 <= Z.lxor (byte.unsigned x) (byte.unsigned y) < 2 ^ 8) as Hr.
  { assert (0 <= Z.lxor (byte.unsigned x) (byte.unsigned y)) as H0 by (apply Z.lxor_nonneg; lia).
    split; [done|]. apply Z.bounded_iff_bits_nonneg; [lia|done|]. intros l Hl. rewrite Z.lxor_spec.
    rewrite (proj1 (Z.bounded_iff_bits_nonneg 8 (byte.unsigned x) ltac:(lia) ltac:(lia)) ltac:(lia) l Hl).
    by rewrite (proj1 (Z.bounded_iff_bits_nonneg 8 (byte.unsigned y) ltac:(lia) ltac:(lia)) ltac:(lia) l Hl). }
  rewrite (Z.mod_small (Z.lxor (byte.unsigned x) (byte.unsigned y)) (2 ^ 8)) by done.
  rewrite Z.lxor_assoc, Z.lxor_nilpotent, Z.lxor_0_r. apply Z.mod_small. lia.
Qed.

Lemma zlen_xor_bytes a b : zlen a = zlen b -> zlen (xor_bytes a b) = zlen a.
Proof. unfold zlen, xor_bytes. intros. rewrite length_zip_with. lia. Qed.

(** ** Correctness of the key material *)

(** The temporary keys of the exchange depend on the nonces at their full
    lengths: passing them as big integers and filling them back loses no leading
    zero byte; key and initialization vector have 32 bytes each. *)
Theorem temp_keys_full_nonces (newNonce serverNonce : list byte) :
  zlen newNonce = 32 -> zlen serverNonce = 16 ->
  let '(key, iv) := TempAESKeys (BigInt newNonce) (BigInt serverNonce) in
  key = sha1 (newNonce ++ serverNonce) ++ take 12 (sha1 (serverNonce ++ newNonce)) /\
  iv = take 8 (drop 12 (sha1 (serverNonce ++ newNonce))) ++ sha1 (newNonce ++ newNonce) ++
       take 4 newNonce /\
  zlen key = 32 /\ zlen iv = 32.
Proof.
  intros Hn Hs. unfold TempAESKeys, big_FillBytes.
  change (BigInt newNonce) with (be_combine newNonce).
  change (BigInt serverNonce) with (be_combine serverNonce).
  rewrite !be_split_combine by (unfold zlen in *; lia). unfold sha1Bytes.
  split; [done|]. split; [done|]. rewrite !zlen_app.
  rewrite !zlen_slice by (rewrite ?zlen_sha1; lia). rewrite !zlen_sha1. lia.
Qed.

Lemma temp_keys_full_nonces_witness :
  let newNonce := zeros 31 ++ [Byte.x05] in
  let serverNonce := Byte.x00 :: replicate 15 Byte.xab in
  let '(key, iv) := TempAESKeys (BigInt newNonce) (BigInt serverNonce) in
  key = sha1 (newNonce ++ serverNonce) ++ take 12 (sha1 (serverNonce ++ newNonce)) /\
  iv = take 8 (drop 12 (sha1 (serverNonce ++ newNonce))) ++ sha1 (newNonce ++ newNonce) ++
       take 4 newNonce /\
  zlen key = 32 /\ zlen iv = 32.
Proof. exact (temp_keys_full_nonces (zeros 31 ++ [Byte.x05]) (Byte.x00 :: replicate 15 Byte.xab) eq_refl eq_refl). Defined.

(** The MTProto 1.0 derivation used for binding temporary keys is the old
    key schedule on the client side, and the MTProto 2.0 schedule takes the key
    of the one direction exactly where the other direction reads it eight bytes
    further into the authorization key. *)
Theorem key_schedules (authKey msgKey : list byte) :
  KeysV1 authKey msgKey = OldKeys authKey msgKey Client /\
  Keys authKey msgKey Server = Keys (drop 8 authKey) msgKey Client /\
  (forall p, MessageKey authKey p Server = MessageKey (drop 8 authKey) p Client).
Proof.
  split; [done|].
  assert (forall lo hi, 0 <= lo -> slice (lo + 8) (hi + 8) authKey = slice lo hi (drop 8 authKey)) as Hsl.
  { intros lo hi Hlo. unfold slice. rewrite drop_drop. f_equal; [|f_equal]; lia. }
  split.
  - unfold Keys, sha256a, sha256b, getX. rewrite !Z.add_0_r.
    assert (slice 8 (8 + 36) authKey = slice 0 (0 + 36) (drop 8 authKey)) as -> by (by apply (Hsl 0 36)).
    assert (slice (40 + 8) (40 + 8 + 36) authKey = slice 40 (40 + 36) (drop 8 authKey)) as ->
      by (by apply (Hsl 40 76)).
    done.
  - intros p. unfold MessageKey, msgKeyLarge, getX. rewrite !Z.add_0_r.
    pose proof (Hsl 88 (32 + 88) ltac:(lia)) as H1. by rewrite H1.
Qed.

(** A random integer below [n] is below [n], and non-negative unless the
    eight random bytes encode the smallest 64-bit integer, whose negation is
    itself. *)
Theorem rand_int64n_range (n : Z) (r : Stream) :
  0 < n -> int64 n ->
  match RandInt64n n r with
  | (Ok v, r') =>
      v < n /\ (v < 0 -> le_combine (take 8 (incoming r)) = 2 ^ 63) /\
      incoming r = take 8 (incoming r) ++ incoming r'
  | (Err _, _) => zlen (incoming r) < 8
  | (Panic, _) => False
  end.
Proof.
  intros Hn Hn64. unfold RandInt64n, RandInt64, Word. rewrite bind_assoc. unfold bind at 1.
  unfold must_read. destruct (ReadFull (4 * 2) r) as [[got err] r1] eqn:E.
  destruct (ReadFull_spec (4 * 2) r got err r1 ltac:(lia) E) as (Hin & _ & Herr).
  destruct err as [e|].
  { destruct Herr as (Hlt & Hnil & _). rewrite Hin, Hnil, app_nil_r. lia. }
  unfold bind. unfold Long, Uint64, Word, bind, ret. simpl fst.
  replace (zlen got <? 4 * 2) with false by lia. simpl fst.
  assert (take 8 got = got) as Ht by (apply take_ge; unfold zlen in Herr; lia).
  assert (take 8 (incoming r) = got) as Htr.
  { rewrite Hin. apply (take_zlen_app got _ 8). lia. }
  rewrite Ht, Htr.
  pose proof (swrap_range 64 (le_combine got) ltac:(lia)) as Hv.
  assert (is_unsigned 64 (le_combine got)) as Hu
    by (apply (le_combine_range 8); unfold zlen in Herr; lia).
  replace (n =? 0) with false by lia.
  set (v := i64 (le_combine got)) in *.
  assert (v = - 2 ^ 63 -> le_combine got = 2 ^ 63) as Hmin.
  { unfold is_unsigned in Hu. subst v. unfold swrap. intros Hm.
    pose proof (Z.div_mod (le_combine got + 2 ^ (64 - 1)) (2 ^ 64)). lia. }
  unfold is_signed in *.
  destruct (Z.ltb_spec v 0) as [Hneg|Hpos].
  - destruct (decide (v = - 2 ^ 63)) as [Heq|Hne].
    + split; [|split; [tauto|done]]. pose proof (Z.rem_bound_abs (i64 (v * -1)) n ltac:(lia)).
      rewrite (swrap_id 64 (Z.rem _ _)); [lia|lia|]. unfold is_signed. lia.
    + rewrite (swrap_id 64 (v * -1)) by (unfold is_signed; lia).
      pose proof (Z.rem_bound_pos (v * -1) n ltac:(lia) ltac:(lia)).
      rewrite swrap_id by (unfold is_signed; lia). split; [lia|]. split; [lia|done].
  - pose proof (Z.rem_bound_pos v n ltac:(lia) ltac:(lia)).
    rewrite swrap_id by (unfold is_signed; lia). split; [lia|]. split; [lia|done].
Qed.

Lemma rand_int64n_range_witness :
  match RandInt64n 10 (mkStream (le_split 8 (2 ^ 63)) EOF) with
  | (Ok v, r') =>
      v < 10 /\ (v < 0 -> le_combine (take 8 (le_split 8 (2 ^ 63))) = 2 ^ 63) /\
      le_split 8 (2 ^ 63) = take 8 (le_split 8 (2 ^ 63)) ++ incoming r'
  | (Err _, _) => zlen (le_split 8 (2 ^ 63)) < 8
  | (Panic, _) => False
  end.
Proof. apply (rand_int64n_range 10 (mkStream (le_split 8 (2 ^ 63)) EOF)); [|unfold is_signed]; lia. Defined.

(** Negating the smallest integer gives a result outside [0, n). *)
Example rand_int64n_negative :
  fst (RandInt64n 10 (mkStream (le_split 8 (2 ^ 63)) EOF)) = Ok (-8).
Proof. vm_compute. reflexivity. Qed.
