(* ===== verification/Cipher.v ===== *)
(** * crypto: encrypted messages

    Model of src/crypto/cipher.go, cipher_encrypt.go, cipher_decrypt.go,
    encrypted_message.go and encrypted_message_data.go: the MTProto 2.0 envelope.
    AES-IGE (github.com/gotd/ige) is a parameter, the class [IGE], whose law is
    that decryption inverts encryption on whole blocks; the random source is a
    stream that may end. *)
From S2P Require Import Prelude Io Bin Hash Keys.

(** AES-256 in IGE mode: key, initialization vector, data. *)
Class IGE : Type := {
  ige_encrypt : list byte -> list byte -> list byte -> list byte;
  ige_decrypt : list byte -> list byte -> list byte -> list byte;
}.
Class LawfulIGE `{!IGE} : Prop := {
  ige_inverse key iv p :
    zlen key = 32 -> zlen iv = 32 -> zlen p mod 16 = 0 -> ige_decrypt key iv (ige_encrypt key iv p) = p;
  ige_length key iv p : zlen (ige_encrypt key iv p) = zlen p;
}.

(** ** encrypted_message.go *)

Record EncryptedMessage : Type := mkEncrypted {
  AuthKeyID : list byte; MsgKey : list byte; EncryptedData : list byte }.

Module EncryptedMessage.
Definition Encode (e : EncryptedMessage) : GoM Buffer unit :=
  modify (Put (AuthKeyID e)) ;;!
  modify (PutInt128 (MsgKey e)) ;;!
  modify (Put (EncryptedData e)).

Definition Decode : GoM Buffer EncryptedMessage :=
  let! id := ConsumeN 8 in
  let! v := Int128 in
  let! b := get in
  let! data := ConsumeN (Len b) in
  ret (mkEncrypted id v data).

(** EncryptedData references the rest of the buffer, which is not consumed. *)
Definition DecodeWithoutCopy : GoM Buffer EncryptedMessage :=
  let! id := ConsumeN 8 in
  let! v := Int128 in
  let! b := get in
  ret (mkEncrypted id v b).
End EncryptedMessage.

(** ** encrypted_message_data.go *)

Record EncryptedMessageData : Type := mkData {
  Salt : Z; SessionID : Z; MessageID : Z; SeqNo : Z; MessageDataLen : Z;
  MessageDataWithPadding : list byte;
  Message : option (GoM Buffer unit) }.

Module EncryptedMessageData.
Definition Encode (e : EncryptedMessageData) : GoM Buffer unit :=
  modify (PutLong (Salt e)) ;;!
  modify (PutLong (SessionID e)) ;;!
  modify (PutLong (MessageID e)) ;;!
  modify (PutInt32 (SeqNo e)) ;;!
  modify (PutInt32 (MessageDataLen e)) ;;!
  modify (Put (MessageDataWithPadding e)).

(** [PutInt] to the empty slice at [off] overwrites the four bytes there. *)
Definition patch_int (off : Z) (v : Z) (b : Buffer) : Buffer :=
  take (Z.to_nat off) b ++ PutInt v [] ++ drop (Z.to_nat (off + 4)) b.

Definition EncodeWithoutCopy (e : EncryptedMessageData) : GoM Buffer unit :=
  match Message e with
  | None => Encode e
  | Some message =>
      modify (PutLong (Salt e)) ;;!
      modify (PutLong (SessionID e)) ;;!
      modify (PutLong (MessageID e)) ;;!
      modify (PutInt32 (SeqNo e)) ;;!
      let! b := get in
      let lengthOffset := Len b in
      modify (PutInt32 0) ;;!
      let! b := get in
      let originalLength := Len b in
      wrapping "encode inner message" message ;;!
      let! b := get in
      let msgLen := Len b - originalLength in
      modify (patch_int lengthOffset msgLen)
  end.

(** The fields in front of the data, shared by both decoders. *)
Definition decode_header : GoM Buffer (Z * Z * Z * Z * Z) :=
  let! salt := Long in
  let! session := Long in
  let! msg := Long in
  let! seq := Int32 in
  let! len := Int32 in
  ret (salt, session, msg, seq, len).

Definition DecodeWithoutCopy : GoM Buffer EncryptedMessageData :=
  let! hdr := decode_header in
  let '(salt, session, msg, seq, len) := hdr in
  let! b := get in
  if len >? zlen b
  then fail (Errorf "MessageDataLen field is bigger then MessageDataWithPadding length")
  else ret (mkData salt session msg seq len b None).

(** Decode copies the rest of the buffer, and leaves it in the buffer too. *)
Definition Decode : GoM Buffer EncryptedMessageData :=
  let! hdr := decode_header in
  let '(salt, session, msg, seq, len) := hdr in
  let! b := get in
  let data := [] ++ b in
  if len >? zlen data
  then fail (Errorf "MessageDataLen field is bigger then MessageDataWithPadding length")
  else ret (mkData salt session msg seq len data None).

(** [e.MessageDataWithPadding[:e.MessageDataLen]] *)
Definition Data (e : EncryptedMessageData) : outcome (list byte) :=
  if (MessageDataLen e <? 0) || (MessageDataLen e >? zlen (MessageDataWithPadding e)) then Panic
  else Ok (take (Z.to_nat (MessageDataLen e)) (MessageDataWithPadding e)).
End EncryptedMessageData.

(** ** cipher.go, cipher_encrypt.go, cipher_decrypt.go *)

Record Cipher : Type := mkCipher { encryptSide : Side }.
Definition NewClientCipher : Cipher := mkCipher Client.
Definition NewServerCipher : Cipher := mkCipher Server.

Definition countPadding (l : Z) (randByte : byte) : Z :=
  let padding := Z.rem (16 - Z.rem l 16) 16 in
  let padding := if padding <? 12 then padding + 16 else padding in
  padding + Z.land (byte.unsigned randByte) 0x0f * 16.

Section Cipher.
Context `{!IGE}.

(** The state is the random source and the caller's buffer, which holds the
    plaintext and receives the padding. *)
Definition encryptMessage (c : Cipher) (k : AuthKey) : GoM (Stream * Buffer) EncryptedMessage :=
  fun '(rand, plaintext) =>
    let offset := zlen plaintext in
    match ReadFull 1 rand with
    | (_, Some e, rand) => (Err e, (rand, plaintext))
    | (randByte, None, rand) =>
        let n := countPadding offset (default Byte.x00 (head randByte)) in
        match ReadFull n rand with
        | (got, Some e, rand) => (Err e, (rand, plaintext ++ got ++ zeros (n - zlen got)))
        | (padding, None, rand) =>
            let plaintext := plaintext ++ padding in
            let messageKey := MessageKey (ak_Value k) plaintext (encryptSide c) in
            let '(key, iv) := Keys (ak_Value k) messageKey (encryptSide c) in
            (Ok (mkEncrypted (ak_ID k) messageKey (ige_encrypt key iv plaintext)),
             (rand, plaintext))
        end
    end.

(** Runs a buffer method on the buffer of the state. *)
Definition on_buffer {A} (m : GoM Buffer A) : GoM (Stream * Buffer) A := fun '(rand, b) =>
  let '(r, b') := m b in (r, (rand, b')).

Definition Encrypt (c : Cipher) (key : AuthKey) (data : EncryptedMessageData)
    : GoM (Stream * Buffer) unit :=
  on_buffer (modify Reset) ;;!
  on_buffer (EncryptedMessageData.EncodeWithoutCopy data) ;;!
  let! msg := encryptMessage c key in
  on_buffer (modify Reset) ;;!
  on_buffer (EncryptedMessage.Encode msg).

Definition decryptMessage (c : Cipher) (k : AuthKey) (encrypted : EncryptedMessage)
    : outcome (list byte) :=
  if negb (bool_decide (ak_ID k = AuthKeyID encrypted)) then Err (Errorf "unknown auth key id")
  else if negb (Z.rem (zlen (EncryptedData encrypted)) 16 =? 0)
  then Err (Errorf "invalid encrypted data padding")
  else
    let '(key, iv) := Keys (ak_Value k) (MsgKey encrypted) (DecryptSide (encryptSide c)) in
    Ok (ige_decrypt key iv (EncryptedData encrypted)).

Definition maxPadding : Z := 1024.

Definition Decrypt (c : Cipher) (k : AuthKey) (encrypted : EncryptedMessage)
    : outcome EncryptedMessageData :=
  match decryptMessage c k encrypted with
  | Err e => Err e
  | Panic => Panic
  | Ok plaintext =>
      let side := DecryptSide (encryptSide c) in
      let msgKey := MessageKey (ak_Value k) plaintext side in
      if negb (bool_decide (msgKey = MsgKey encrypted)) then Err (Errorf "msg_key is invalid")
      else
        match fst (EncryptedMessageData.DecodeWithoutCopy plaintext) with
        | Err e => Err e
        | Panic => Panic
        | Ok msg =>
            let n := MessageDataLen msg in
            let paddingLen := zlen (MessageDataWithPadding msg) - n in
            if n <? 0 then Err (Errorf "message length is invalid: less than zero")
            else if negb (Z.rem n 4 =? 0)
            then Err (Errorf "message length is invalid: not divisible by 4")
            else if paddingLen >? maxPadding then Err (Errorf "padding of message is too big")
            else Ok msg
        end
  end.

Definition DecryptFromBuffer (c : Cipher) (k : AuthKey) : GoM Buffer EncryptedMessageData :=
  let! msg := EncryptedMessage.DecodeWithoutCopy in
  fun b => (Decrypt c k msg, b).
End Cipher.

(** ** The envelope's layout *)

Definition header_bytes (salt session msg seq len : Z) : list byte :=
  le_split 8 (u64 salt) ++ le_split 8 (u64 session) ++ le_split 8 (u64 msg) ++
  le_split 4 (u32 seq) ++ le_split 4 (u32 len).

Definition header_ok (d : EncryptedMessageData) : Prop :=
  int64 (Salt d) /\ int64 (SessionID d) /\ int64 (MessageID d) /\ int32 (SeqNo d).
#[export] Instance header_ok_dec d : Decision (header_ok d).
Proof. unfold header_ok. apply _. Defined.

(** [carries d payload]: what the envelope [d] transports. *)
Definition carries (d : EncryptedMessageData) (payload : list byte) : Prop :=
  match Message d with
  | None => MessageDataLen d = zlen payload /\ MessageDataWithPadding d = payload
  | Some message => forall b, message b = (Ok tt, b ++ payload)
  end.

Lemma zlen_header_bytes salt session msg seq len :
  zlen (header_bytes salt session msg seq len) = 32.
Proof. unfold header_bytes. autorewrite with zlen. reflexivity. Qed.

Lemma Encode_data_run d b :
  EncryptedMessageData.Encode d b =
  (Ok tt, b ++ header_bytes (Salt d) (SessionID d) (MessageID d) (SeqNo d) (MessageDataLen d)
            ++ MessageDataWithPadding d).
Proof.
  unfold EncryptedMessageData.Encode, header_bytes. run_puts. done.
Qed.

Lemma patch_int_run (pre old rest : list byte) (v : Z) (off : Z) :
  off = zlen pre -> zlen old = 4 ->
  EncryptedMessageData.patch_int off v (pre ++ old ++ rest) = pre ++ le_split 4 (u32 v) ++ rest.
Proof.
  intros -> Ho. unfold EncryptedMessageData.patch_int.
  rewrite take_zlen_app by done. rewrite (app_assoc pre old rest).
  rewrite (drop_zlen_app (pre ++ old)) by (rewrite zlen_app; lia).
  unfold PutInt, PutInt32, PutUint32. by rewrite uwrap_swrap by lia.
Qed.

Lemma EncodeWithoutCopy_run d message payload b :
  Message d = Some message -> (forall b, message b = (Ok tt, b ++ payload)) ->
  EncryptedMessageData.EncodeWithoutCopy d b =
  (Ok tt, b ++ header_bytes (Salt d) (SessionID d) (MessageID d) (SeqNo d) (zlen payload) ++ payload).
Proof.
  intros Hm Hrun. unfold EncryptedMessageData.EncodeWithoutCopy. rewrite Hm.
  unfold bind at 1 2 3 4 5 6 7, modify at 1 2 3 4 5, get, PutLong, PutInt32, PutUint64, PutUint32.
  unfold wrapping. unfold bind at 1. rewrite Hrun. unfold bind, modify, Len.
  set (pre := (((b ++ _) ++ _) ++ _) ++ _).
  replace (zlen ((pre ++ le_split 4 (u32 0)) ++ payload) - zlen (pre ++ le_split 4 (u32 0)))
    with (zlen payload) by (rewrite (zlen_app _ payload); lia).
  rewrite <- (app_assoc pre). rewrite patch_int_run by (by rewrite ?zlen_le_split_4).
  subst pre. unfold header_bytes. by rewrite <- !app_assoc.
Qed.

Lemma EncodeWithoutCopy_carries d payload b :
  carries d payload ->
  EncryptedMessageData.EncodeWithoutCopy d b =
  (Ok tt, b ++ header_bytes (Salt d) (SessionID d) (MessageID d) (SeqNo d) (zlen payload) ++ payload).
Proof.
  unfold carries. destruct (Message d) as [message|] eqn:E; intros H.
  - by eapply EncodeWithoutCopy_run.
  - destruct H as [H1 H2]. unfold EncryptedMessageData.EncodeWithoutCopy. rewrite E.
    by rewrite Encode_data_run, H1, H2.
Qed.

Lemma parses_decode_header salt session msg seq len :
  int64 salt -> int64 session -> int64 msg -> int32 seq -> int32 len ->
  parses EncryptedMessageData.decode_header (header_bytes salt session msg seq len)
         (salt, session, msg, seq, len).
Proof.
  intros. unfold EncryptedMessageData.decode_header, header_bytes.
  apply (parses_bind _ _ _ _ salt); [by apply parses_Long|].
  apply (parses_bind _ _ _ _ session); [by apply parses_Long|].
  apply (parses_bind _ _ _ _ msg); [by apply parses_Long|].
  apply (parses_bind _ _ _ _ seq); [by apply parses_Int32|].
  by apply (parses_bind_ret _ (fun len => (salt, session, msg, seq, len))), parses_Int32.
Qed.

Lemma safe_decode_header : safe EncryptedMessageData.decode_header.
Proof. unfold EncryptedMessageData.decode_header. solve_safe. Qed.

(** ** Padding *)

Lemma countPadding_spec l b :
  0 <= l -> 12 <= countPadding l b <= 267 /\ (l + countPadding l b) mod 16 = 0.
Proof.
  intros Hl. unfold countPadding. pose proof (byte.unsigned_range b) as Hb.
  change 0x0f with (Z.ones 4). rewrite Z.land_ones by lia.
  pose proof (Z.mod_pos_bound (byte.unsigned b) (2 ^ 4) ltac:(lia)).
  set (r := byte.unsigned b mod 2 ^ 4) in *.
  rewrite (Z.rem_mod_nonneg l) by lia. pose proof (Z.mod_pos_bound l 16 ltac:(lia)) as Hm.
  rewrite Z.rem_mod_nonneg by lia.
  pose proof (Z.mod_pos_bound (16 - l mod 16) 16 ltac:(lia)) as Hp.
  assert ((l + (16 - l mod 16) mod 16) mod 16 = 0) as Ha.
  { rewrite Zplus_mod_idemp_r. pose proof (Z.div_mod l 16 ltac:(lia)) as Hd.
    replace (l + (16 - l mod 16)) with ((l / 16 + 1) * 16) by lia. apply Z.mod_mul. lia. }
  set (p := (16 - l mod 16) mod 16) in *.
  destruct (Z.ltb_spec p 12); (split; [lia|]).
  - replace (l + (p + 16 + r * 16)) with (l + p + (1 + r) * 16) by lia. by rewrite Z.mod_add by lia.
  - replace (l + (p + r * 16)) with (l + p + r * 16) by lia. by rewrite Z.mod_add by lia.
Qed.

(** ** Encryption and decryption *)

Section CipherProofs.
Context `{!IGE}.

Lemma Encode_msg_run m b :
  EncryptedMessage.Encode m b = (Ok tt, b ++ AuthKeyID m ++ MsgKey m ++ EncryptedData m).
Proof. unfold EncryptedMessage.Encode. run_puts. done. Qed.

Lemma DecodeWithoutCopy_run m :
  zlen (AuthKeyID m) = 8 -> zlen (MsgKey m) = 16 ->
  EncryptedMessage.DecodeWithoutCopy (AuthKeyID m ++ MsgKey m ++ EncryptedData m) =
  (Ok m, EncryptedData m).
Proof.
  intros Hid Hk. unfold EncryptedMessage.DecodeWithoutCopy.
  erewrite bind_ok by (by apply parses_ConsumeN). erewrite bind_ok by (by apply parses_Int128).
  erewrite bind_ok by done. by destruct m.
Qed.

(** The plaintext that is encrypted: the envelope and its padding. *)
Lemma encryptMessage_run c k plain rand :
  268 <= zlen (incoming rand) ->
  exists padding rand', (zlen plain + zlen padding) mod 16 = 0 /\ 12 <= zlen padding <= 267 /\
    zlen (incoming rand) - 268 <= zlen (incoming rand') /\
    let pp := plain ++ padding in
    let mk := MessageKey (ak_Value k) pp (encryptSide c) in
    let '(key, iv) := Keys (ak_Value k) mk (encryptSide c) in
    encryptMessage c k (rand, plain) =
    (Ok (mkEncrypted (ak_ID k) mk (ige_encrypt key iv pp)), (rand', pp)).
Proof.
  destruct rand as [[|rb inc] e]; intros Hr; simpl in Hr; [rewrite zlen_nil in Hr; lia|].
  rewrite zlen_cons in Hr. pose proof (zlen_nonneg plain) as Hp0.
  destruct (countPadding_spec (zlen plain) rb Hp0) as [Hb Ha].
  set (n := countPadding (zlen plain) rb) in *.
  assert (zlen (take (Z.to_nat n) inc) = n) as Hn by (apply zlen_take; lia).
  exists (take (Z.to_nat n) inc), (mkStream (drop (Z.to_nat n) inc) e).
  rewrite Hn. split; [done|]. split; [lia|]. cbn [incoming].
  split; [rewrite zlen_cons, zlen_drop by lia; lia|]. cbv zeta.
  destruct (Keys _ _ _) as [key iv] eqn:EK. unfold encryptMessage.
  rewrite (ReadFull_app 1 [rb] inc) by done. cbn [head default]. fold n.
  rewrite <- (take_drop (Z.to_nat n) inc) at 1. rewrite ReadFull_app by done. by rewrite EK.
Qed.

Lemma Decrypt_envelope `{!LawfulIGE} c k plain padding :
  (zlen plain + zlen padding) mod 16 = 0 ->
  decryptMessage (mkCipher (DecryptSide (encryptSide c))) k
    (let pp := plain ++ padding in
     let mk := MessageKey (ak_Value k) pp (encryptSide c) in
     let '(key, iv) := Keys (ak_Value k) mk (encryptSide c) in
     mkEncrypted (ak_ID k) mk (ige_encrypt key iv pp)) = Ok (plain ++ padding).
Proof.
  intros Hal. cbv zeta. set (mk := MessageKey _ _ _).
  destruct (zlen_Keys (ak_Value k) mk (encryptSide c)) as [Hk Hiv].
  destruct (Keys (ak_Value k) mk (encryptSide c)) as [key iv] eqn:EK. simpl in Hk, Hiv.
  unfold decryptMessage. cbn [AuthKeyID MsgKey EncryptedData encryptSide].
  rewrite bool_decide_eq_true_2 by done. cbn [negb]. rewrite ige_length, zlen_app.
  rewrite Z.rem_mod_nonneg by (pose proof (zlen_nonneg plain); pose proof (zlen_nonneg padding); lia).
  rewrite Hal. cbn [negb Z.eqb].
  assert (DecryptSide (DecryptSide (encryptSide c)) = encryptSide c) as -> by (by destruct (encryptSide c)).
  rewrite EK. by rewrite ige_inverse by (by rewrite ?zlen_app).
Qed.

Lemma DecodeWithoutCopy_data d payload padding :
  header_ok d -> zlen payload < 2 ^ 31 ->
  fst (EncryptedMessageData.DecodeWithoutCopy
    ((header_bytes (Salt d) (SessionID d) (MessageID d) (SeqNo d) (zlen payload) ++ payload) ++ padding)) =
  Ok (mkData (Salt d) (SessionID d) (MessageID d) (SeqNo d) (zlen payload) (payload ++ padding) None).
Proof.
  intros (H1 & H2 & H3 & H4) Hlen. pose proof (zlen_nonneg payload). pose proof (zlen_nonneg padding).
  unfold EncryptedMessageData.DecodeWithoutCopy. rewrite <- app_assoc.
  erewrite bind_ok by (apply parses_decode_header; try done; unfold is_signed; lia).
  cbv beta iota. erewrite bind_ok by done.
  replace (_ >? _) with false by (rewrite zlen_app; lia). done.
Qed.
End CipherProofs.

(** What [DecodeWithoutCopy] accepted is what the plaintext holds. *)
Lemma DecodeWithoutCopy_data_inv plain m b' :
  EncryptedMessageData.DecodeWithoutCopy plain = (Ok m, b') ->
  plain = header_bytes (Salt m) (SessionID m) (MessageID m) (SeqNo m) (MessageDataLen m)
          ++ MessageDataWithPadding m /\
  MessageDataLen m <= zlen (MessageDataWithPadding m).
Proof.
  unfold EncryptedMessageData.DecodeWithoutCopy, EncryptedMessageData.decode_header. intros H.
  inv_read. destruct (_ >? _) eqn:E; [done|]. bool_to_prop.
  unfold get in *. simplify_eq/=. inv_read. unfold header_bytes. simpl.
  by rewrite <- !app_assoc.
Qed.

Lemma safe_data_decode : safe EncryptedMessageData.DecodeWithoutCopy.
Proof.
  unfold EncryptedMessageData.DecodeWithoutCopy. apply safe_bind; [apply safe_decode_header|].
  intros [[[[salt session] msg] seq] len]. apply safe_bind; [|intros; solve_safe].
  intros b. by eexists _, _.
Qed.

Lemma safe_envelope_decode : safe EncryptedMessage.DecodeWithoutCopy.
Proof.
  unfold EncryptedMessage.DecodeWithoutCopy. apply safe_bind; [by apply safe_ConsumeN|].
  intros id. apply safe_bind; [apply safe_Int128|]. intros mk. apply safe_bind; [|intros; solve_safe].
  intros b. by eexists _, _.
Qed.

Section DecryptProofs.
Context `{!IGE}.

Lemma Decrypt_inv c k e m :
  Decrypt c k e = Ok m ->
  AuthKeyID e = ak_ID k /\ zlen (EncryptedData e) mod 16 = 0 /\
  let side := DecryptSide (encryptSide c) in
  let '(key, iv) := Keys (ak_Value k) (MsgKey e) side in
  let plain := ige_decrypt key iv (EncryptedData e) in
  MsgKey e = MessageKey (ak_Value k) plain side /\
  plain = header_bytes (Salt m) (SessionID m) (MessageID m) (SeqNo m) (MessageDataLen m)
          ++ MessageDataWithPadding m /\
  0 <= MessageDataLen m <= zlen (MessageDataWithPadding m) /\ MessageDataLen m mod 4 = 0 /\
  zlen (MessageDataWithPadding m) <= MessageDataLen m + maxPadding.
Proof.
  unfold Decrypt, decryptMessage. cbv zeta.
  destruct (bool_decide_reflect (ak_ID k = AuthKeyID e)) as [Hid|]; [cbn [negb]|done].
  destruct (Z.eqb_spec (Z.rem (zlen (EncryptedData e)) 16) 0) as [Hal|]; [cbn [negb]|done].
  rewrite Z.rem_mod_nonneg in Hal by (pose proof (zlen_nonneg (EncryptedData e)); lia).
  destruct (Keys _ _ _) as [key iv]. set (plain := ige_decrypt _ _ _).
  destruct (bool_decide_reflect (MessageKey (ak_Value k) plain (DecryptSide (encryptSide c)) = MsgKey e))
    as [Hmk|]; [cbn [negb]|done].
  destruct (EncryptedMessageData.DecodeWithoutCopy plain) as [[m'|err|] b'] eqn:ED; try done.
  simpl. case_bool; try done. intros [= ->]. bool_to_prop.
  destruct (DecodeWithoutCopy_data_inv _ _ _ ED) as [Hplain Hlen].
  rewrite Z.rem_mod_nonneg in * by lia. split_and!; try done; lia.
Qed.

Lemma Decrypt_no_panic c k e : Decrypt c k e <> Panic.
Proof.
  unfold Decrypt, decryptMessage.
  case_bool; try done. destruct (Keys _ _ _) as [key iv].
  case_bool; try done. pose proof (safe_data_decode (ige_decrypt key iv (EncryptedData e))) as Hs.
  destruct Hs as (r & b' & -> & Hr & _). simpl. destruct r; try done. by case_bool.
Qed.
End DecryptProofs.

(** ** Correctness of the envelope *)

(** The receiver recovers what the sender put into the envelope. *)
Lemma Encrypt_Decrypt `{!IGE, !LawfulIGE} (side : Side) (k : AuthKey) (d : EncryptedMessageData)
    (payload : list byte) (rand : Stream) (b : Buffer) :
  zlen (ak_ID k) = 8 -> header_ok d -> carries d payload ->
  zlen payload mod 4 = 0 -> zlen payload < 2 ^ 31 -> 268 <= zlen (incoming rand) ->
  exists rand' out m rest,
    Encrypt (mkCipher side) k d (rand, b) = (Ok tt, (rand', out)) /\
    DecryptFromBuffer (mkCipher (DecryptSide side)) k out = (Ok m, rest) /\
    Salt m = Salt d /\ SessionID m = SessionID d /\ MessageID m = MessageID d /\ SeqNo m = SeqNo d /\
    EncryptedMessageData.Data m = Ok payload /\
    zlen (incoming rand) - 268 <= zlen (incoming rand').
Proof.
  intros Hid Hok Hc Hal Hlen Hr. pose proof (zlen_nonneg payload).
  set (plain := header_bytes (Salt d) (SessionID d) (MessageID d) (SeqNo d) (zlen payload) ++ payload).
  destruct (encryptMessage_run (mkCipher side) k plain rand Hr) as (padding & rand' & Hpad & Hb & Hrd & Henc).
  pose proof (Decrypt_envelope (mkCipher side) k plain padding Hpad) as Hdec.
  cbv zeta in Henc, Hdec. cbn [encryptSide] in *. set (mk := MessageKey _ _ _) in *.
  destruct (Keys (ak_Value k) mk side) as [key iv] eqn:EK.
  set (msg := mkEncrypted (ak_ID k) mk (ige_encrypt key iv (plain ++ padding))) in *.
  exists rand', (AuthKeyID msg ++ MsgKey msg ++ EncryptedData msg).
  exists (mkData (Salt d) (SessionID d) (MessageID d) (SeqNo d) (zlen payload) (payload ++ padding) None).
  exists (EncryptedData msg). split_and!; try done.
  - unfold Encrypt. erewrite bind_ok by done.
    erewrite bind_ok by (unfold on_buffer; rewrite (EncodeWithoutCopy_carries d payload) by done; done).
    change (Reset b ++ header_bytes (Salt d) (SessionID d) (MessageID d) (SeqNo d) (zlen payload) ++ payload)
      with plain. erewrite bind_ok by exact Henc. erewrite bind_ok by done.
    unfold on_buffer. by rewrite Encode_msg_run.
  - unfold DecryptFromBuffer. erewrite bind_ok by (apply DecodeWithoutCopy_run; [done|apply zlen_MessageKey]).
    f_equal. unfold Decrypt. rewrite Hdec. cbn [encryptSide].
    assert (DecryptSide (DecryptSide side) = side) as -> by (by destruct side).
    rewrite bool_decide_eq_true_2 by done. cbn [negb].
    unfold plain. rewrite DecodeWithoutCopy_data by done. cbn [MessageDataLen MessageDataWithPadding].
    replace (zlen payload <? 0) with false by lia.
    rewrite Z.rem_mod_nonneg, Hal by lia. cbn [negb Z.eqb].
    unfold maxPadding. by replace (_ >? 1024) with false by (rewrite zlen_app; lia).
  - unfold EncryptedMessageData.Data. cbn [MessageDataLen MessageDataWithPadding].
    replace ((zlen payload <? 0) || _) with false by (rewrite zlen_app; lia).
    by rewrite take_zlen_app.
Qed.

(** C7: a message encrypted by one side is decrypted by the other side with the
    same key: header and payload come back unchanged, whatever the random
    padding; one byte and at most 267 bytes of randomness are enough. *)
Theorem cipher_roundtrip `{!IGE, !LawfulIGE} (side : Side) (k : AuthKey) (d : EncryptedMessageData)
    (payload : list byte) (rand : Stream) (b : Buffer) :
  zlen (ak_ID k) = 8 -> header_ok d -> carries d payload ->
  zlen payload mod 4 = 0 -> zlen payload < 2 ^ 31 -> 268 <= zlen (incoming rand) ->
  exists rand' out m rest,
    Encrypt (mkCipher side) k d (rand, b) = (Ok tt, (rand', out)) /\
    DecryptFromBuffer (mkCipher (DecryptSide side)) k out = (Ok m, rest) /\
    Salt m = Salt d /\ SessionID m = SessionID d /\ MessageID m = MessageID d /\ SeqNo m = SeqNo d /\
    EncryptedMessageData.Data m = Ok payload.
Proof.
  intros. destruct (Encrypt_Decrypt side k d payload rand b)
    as (rand' & out & m & rest & ? & ? & ? & ? & ? & ? & ? & _); try done.
  by exists rand', out, m, rest.
Qed.

(** A cipher that satisfies the law of [IGE]. *)
#[local] Instance ige_identity : IGE := {
  ige_encrypt _ _ p := p; ige_decrypt _ _ p := p }.
#[local] Instance ige_identity_lawful : LawfulIGE.
Proof. by split. Qed.

Lemma cipher_roundtrip_witness :
  exists rand' out m rest,
    Encrypt (mkCipher Client) (WithID (zeros 256)) (mkData 1 (-2) 3 4 8 (zeros 8) None)
      (mkStream (zeros 300) EOF, []) = (Ok tt, (rand', out)) /\
    DecryptFromBuffer (mkCipher Server) (WithID (zeros 256)) out = (Ok m, rest) /\
    Salt m = 1 /\ SessionID m = -2 /\ MessageID m = 3 /\ SeqNo m = 4 /\
    EncryptedMessageData.Data m = Ok (zeros 8).
Proof.
  apply (cipher_roundtrip Client (WithID (zeros 256)) (mkData 1 (-2) 3 4 8 (zeros 8) None) (zeros 8)
           (mkStream (zeros 300) EOF) []); vm_compute; repeat split; congruence.
Defined.

(** Whatever bytes arrive, decryption does not panic, and a message it
    accepts was encrypted under this key: the key identifier and the message key
    match the decrypted plaintext, the payload length is a non-negative multiple
    of four inside the data, and at most 1024 bytes of padding follow it. *)
Theorem decrypt_checks `{!IGE} (c : Cipher) (k : AuthKey) (b : Buffer) :
  match DecryptFromBuffer c k b with
  | (Ok m, _) => exists e,
      b = AuthKeyID e ++ MsgKey e ++ EncryptedData e /\ AuthKeyID e = ak_ID k /\
      let side := DecryptSide (encryptSide c) in
      let '(key, iv) := Keys (ak_Value k) (MsgKey e) side in
      let plain := ige_decrypt key iv (EncryptedData e) in
      MsgKey e = MessageKey (ak_Value k) plain side /\
      plain = header_bytes (Salt m) (SessionID m) (MessageID m) (SeqNo m) (MessageDataLen m)
              ++ MessageDataWithPadding m /\
      MessageDataLen m mod 4 = 0 /\
      zlen (MessageDataWithPadding m) <= MessageDataLen m + 1024 /\
      EncryptedMessageData.Data m = Ok (take (Z.to_nat (MessageDataLen m)) (MessageDataWithPadding m))
  | (Err _, _) => True
  | (Panic, _) => False
  end.
Proof.
  unfold DecryptFromBuffer, bind.
  destruct (safe_envelope_decode b) as (r & b' & E & Hr & _). rewrite E.
  destruct r as [e|err|]; [|done|done].
  destruct (Decrypt c k e) as [m|err|] eqn:ED; [|done|by apply Decrypt_no_panic in ED].
  apply Decrypt_inv in ED as (Hid & Hal & Hrest). exists e.
  split; [|split; [done|]].
  { unfold EncryptedMessage.DecodeWithoutCopy in E. inv_read. unfold get in *. by simplify_eq/=. }
  cbv zeta in *. destruct (Keys _ _ _) as [key iv].
  destruct Hrest as (Hmk & Hplain & Hlen & H4 & Hpad). split_and!; try done.
  unfold EncryptedMessageData.Data. by replace ((_ <? 0) || _) with false by lia.
Qed.

(** Encoding the inner message directly behind the header and patching the
    length in afterwards gives the same bytes as encoding the message first and
    the envelope around it. *)
Theorem encode_without_copy_equiv (d : EncryptedMessageData) (message : GoM Buffer unit)
    (payload : list byte) (b : Buffer) :
  Message d = Some message -> (forall b, message b = (Ok tt, b ++ payload)) ->
  EncryptedMessageData.EncodeWithoutCopy d b =
  EncryptedMessageData.Encode
    (mkData (Salt d) (SessionID d) (MessageID d) (SeqNo d) (i32 (zlen payload)) payload None) b.
Proof.
  intros Hm Hrun. rewrite (EncodeWithoutCopy_run d message payload b Hm Hrun).
  rewrite Encode_data_run. cbn [Salt SessionID MessageID SeqNo MessageDataLen MessageDataWithPadding].
  unfold header_bytes. by rewrite uwrap_swrap by lia.
Qed.

Lemma encode_without_copy_equiv_witness :
  EncryptedMessageData.EncodeWithoutCopy (mkData 1 2 3 4 0 [] (Some (modify (Put (zeros 12))))) [Byte.x01] =
  EncryptedMessageData.Encode (mkData 1 2 3 4 (i32 (zlen (zeros 12))) (zeros 12) None) [Byte.x01].
Proof.
  apply (encode_without_copy_equiv (mkData 1 2 3 4 0 [] (Some (modify (Put (zeros 12)))))
           (modify (Put (zeros 12))) (zeros 12) [Byte.x01]); reflexivity.
Defined.

(** The padding aligns the plaintext to AES blocks, is at least the twelve
    bytes the protocol requires, and the encryption's random extra stays within
    the padding that decryption accepts. *)
Theorem count_padding_bounds (l : Z) (randByte : byte) :
  0 <= l ->
  12 <= countPadding l randByte <= 267 /\ (l + countPadding l randByte) mod 16 = 0 /\
  countPadding l randByte <= maxPadding.
Proof.
  intros Hl. destruct (countPadding_spec l randByte Hl) as [Hb Ha]. unfold maxPadding.
  split; [done|]. split; [done|lia].
Qed.

Lemma count_padding_bounds_witness :
  12 <= countPadding 37 Byte.xff <= 267 /\ (37 + countPadding 37 Byte.xff) mod 16 = 0 /\
  countPadding 37 Byte.xff <= maxPadding.
Proof. apply (count_padding_bounds 37 Byte.xff). lia. Defined.
