(* ===== verification/Exchange.v ===== *)
(** * crypto: payloads of the key exchange

    Model of the hashed and padded payloads of src/crypto: data_with_hash.go, the
    encrypted answers of exchange.go, the RSA paddings of rsa.go, rsa_hashed.go
    and rsa_pad.go with fill_bytes.go and rsa_fingerprint.go, and the binding of
    temporary keys (bind.go).  An RSA key is its modulus and exponents; that
    decryption inverts encryption below the modulus is the class [RSAKeyPair]. *)
From S2P Require Import Prelude Io Bin Hash Keys Cipher.
From Stdlib Require Import Zpow_facts.

(** ** data_with_hash.go *)

Definition paddedLen16 (l : Z) : Z :=
  let n := 16 * (l `quot` 16) in
  if n <? l then n + 16 else n.

Definition DataWithHash (data : list byte) : GoM Stream (list byte) := fun rand =>
  let total := paddedLen16 (zlen data + Sha1.Size) in
  match ReadFull (total - Sha1.Size - zlen data) rand with
  | (_, Some e, rand) => (Err e, rand)
  | (padding, None, rand) => (Ok (sha1 data ++ data ++ padding), rand)
  end.

(** The loop over the number [i] of padding bytes, [tries] of them. *)
Fixpoint guess_loop (tries : nat) (i : Z) (dataWithHash : list byte) : option (list byte) :=
  match tries with
  | O => None
  | S tries =>
      if zlen dataWithHash - i <? Sha1.Size then None
      else
        let data := slice Sha1.Size (zlen dataWithHash - i) dataWithHash in
        if bool_decide (sha1 data = slice 0 Sha1.Size dataWithHash) then Some data
        else guess_loop tries (i + 1) dataWithHash
  end.

(** [None] is Go's nil slice. *)
Definition GuessDataWithHash (dataWithHash : list byte) : option (list byte) :=
  if zlen dataWithHash <=? Sha1.Size then None else guess_loop 16 0 dataWithHash.

(** ** exchange.go *)

(** aes.NewCipher accepts keys of 16, 24 and 32 bytes. *)
Definition aes_NewCipher (key : list byte) : option error :=
  if bool_decide (zlen key = 16 \/ zlen key = 24 \/ zlen key = 32) then None
  else Some (Errorf "crypto/aes: invalid key size").

Section Answers.
Context `{!IGE}.

(** [data] is [None] for a nil slice.  The test is on [data], not on the
    guessed [dst]. *)
Definition DecryptExchangeAnswer (data : option (list byte)) (key iv : list byte)
    : outcome (option (list byte)) :=
  match aes_NewCipher key with
  | Some e => Err (Wrap e "create aes cipher")
  | None =>
      let bytes := default [] data in
      if negb (Z.rem (zlen bytes) 16 =? 0) then Err (Errorf "invalid len of data_with_hash")
      else
        let dst := GuessDataWithHash (ige_decrypt key iv bytes) in
        match data with
        | None => Err (Errorf "guess data from data_with_hash")
        | Some _ => Ok dst
        end
  end.

Definition EncryptExchangeAnswer (answer key iv : list byte) : GoM Stream (list byte) :=
  match aes_NewCipher key with
  | Some e => fail (Wrap e "create aes cipher")
  | None =>
      let! answerWithHash := wrapping "get answer with hash" (DataWithHash answer) in
      ret (ige_encrypt key iv answerWithHash)
  end.
End Answers.

(** ** rsa.go, fill_bytes.go, rsa_fingerprint.go *)

Record RSAKey : Type := mkRSA { rsa_N : Z; rsa_E : Z; rsa_D : Z }.

(** big.Int.Exp(x, y, m) for m > 0 *)
Definition big_Exp (x y m : Z) : Z := Zpow_mod x y m.
Definition BitLen (z : Z) : Z := if z =? 0 then 0 else Z.log2 (Z.abs z) + 1.
(** big.Int.Bytes: big-endian without leading zeros *)
Definition big_Bytes (z : Z) : list byte := be_split (Z.to_nat ((BitLen z + 7) / 8)) z.

Definition FillBytes (b : Z) (len : Z) : option (list byte) :=
  if (BitLen b + 7) `quot` 8 >? len then None else Some (big_FillBytes b (Z.to_nat len)).

Definition rsaLen : Z := 256.
Definition rsaWithHashLen : Z := 255.
Definition rsaDataLen : Z := rsaWithHashLen - Sha1.Size.

(** [FillBytes] of math/big panics when the number does not fit. *)
Definition rsaEncrypt (data : list byte) (key : RSAKey) : outcome (list byte) :=
  match FillBytes (big_Exp (be_combine data) (rsa_E key) (rsa_N key)) rsaLen with
  | Some res => Ok res
  | None => Panic
  end.

Definition rsaDecrypt (data : list byte) (key : RSAKey) (to : Z) : option (list byte) :=
  FillBytes (big_Exp (be_combine data) (rsa_D key) (rsa_N key)) to.

Definition pub_Size (key : RSAKey) : Z := (BitLen (rsa_N key) + 7) `quot` 8.
Definition RSAPublicDecrypt (key : RSAKey) (sig : list byte) : outcome (list byte) :=
  if (pub_Size key <? 11) || negb (pub_Size key =? zlen sig)
  then Err (Errorf "crypto/rsa: verification error")
  else Ok (big_Bytes (big_Exp (be_combine sig) (rsa_E key) (rsa_N key))).

Definition RSAFingerprint (key : RSAKey) : Z :=
  let buf := PutBytes (big_Bytes (rsa_E key)) (PutBytes (big_Bytes (rsa_N key)) []) in
  i64 (le_combine (slice 12 Sha1.Size (sha1 buf))).

(** ** rsa_hashed.go *)

Definition RSAEncryptHashed (data : list byte) (key : RSAKey) : GoM Stream (list byte) :=
  if zlen data >? rsaDataLen then fail (Errorf "data length is too big")
  else
    let! random := must_read rsaWithHashLen in
    let dataWithHash := sha1 data ++ data ++ drop (Z.to_nat (Sha1.Size + zlen data)) random in
    fun rand => (rsaEncrypt dataWithHash key, rand).

(** The loop: [i] bytes are cut off the end of [paddedData]. *)
Fixpoint unhash_loop (tries : nat) (i : Z) (hash paddedData : list byte) : outcome (list byte) :=
  match tries with
  | O => Err (Errorf "hash mismatch")
  | S tries =>
      let data := slice 0 (zlen paddedData - i) paddedData in
      if bool_decide (sha1 data = hash) then Ok data
      else unhash_loop tries (i + 1) hash paddedData
  end.

Definition RSADecryptHashed (data : list byte) (key : RSAKey) : outcome (list byte) :=
  match rsaDecrypt data key rsaWithHashLen with
  | None => Err (Errorf "invalid data_with_hash")
  | Some dataWithHash =>
      let hash := slice 0 Sha1.Size dataWithHash in
      let paddedData := drop (Z.to_nat Sha1.Size) dataWithHash in
      unhash_loop (S (length paddedData)) 0 hash paddedData
  end.

(** ** rsa_pad.go *)

Definition rsaPadDataLimit : Z := 144.
Definition dataWithPaddingLength : Z := 192.
Definition tempKeySize : Z := 32.
Definition reverseBytes (s : list byte) : list byte := rev s.
Definition zeroIV : list byte := zeros 32.

Section RSAPad.
Context `{!IGE, !XorLib}.

(** Steps 3 to 7 for one temporary key. *)
Definition keyAESEncrypted (dataWithPadding tempKey : list byte) : list byte :=
  let dataWithHash := reverseBytes dataWithPadding ++ sha256 (tempKey ++ dataWithPadding) in
  let aesEncrypted := ige_encrypt tempKey zeroIV dataWithHash in
  xor_Bytes tempKey (sha256 aesEncrypted) ++ aesEncrypted.

(** The retry loop.  Each attempt takes 32 random bytes, so a source with
    fewer than [32 * fuel] of them ends the loop with an error before the fuel
    runs out. *)
Fixpoint pad_loop (fuel : nat) (dataWithPadding : list byte) (key : RSAKey)
    : GoM Stream (list byte) :=
  match fuel with
  | O => fun rand => (Panic, rand)
  | S fuel =>
      let! tempKey := wrapping "generate temp_key" (must_read tempKeySize) in
      let kae := keyAESEncrypted dataWithPadding tempKey in
      if be_combine kae >=? rsa_N key then pad_loop fuel dataWithPadding key
      else fun rand => (rsaEncrypt kae key, rand)
  end.

Definition RSAPad (data : list byte) (key : RSAKey) : GoM Stream (list byte) :=
  if zlen data >? rsaPadDataLimit then fail (Errorf "data length is bigger that 144")
  else
    let! padding := wrapping "pad data with random" (must_read (dataWithPaddingLength - zlen data)) in
    fun rand => pad_loop (S (length (incoming rand))) (data ++ padding) key rand.

Definition DecodeRSAPad (data : list byte) (key : RSAKey) : outcome (list byte) :=
  match rsaDecrypt data key 256 with
  | None => Err (Errorf "invalid encrypted_data")
  | Some encryptedData =>
      let tempKeyXor := slice 0 tempKeySize encryptedData in
      let aesEncrypted := drop (Z.to_nat tempKeySize) encryptedData in
      let tempKey := xor_Bytes tempKeyXor (sha256 aesEncrypted) in
      let dataWithHash := ige_decrypt tempKey zeroIV aesEncrypted in
      let dataWithPadding := reverseBytes (slice 0 dataWithPaddingLength dataWithHash) in
      let hash := drop (Z.to_nat dataWithPaddingLength) dataWithHash in
      if negb (bool_decide (hash = sha256 (tempKey ++ dataWithPadding)))
      then Err (Errorf "hash mismatch")
      else Ok dataWithPadding
  end.
End RSAPad.

(** ** bind.go *)

Definition BindAuthKeyInnerTypeID : Z := 0x75a3f765.
Record BindAuthKeyInner : Type := mkBind {
  bind_Nonce : Z; TempAuthKeyID : Z; PermAuthKeyID : Z; TempSessionID : Z; ExpiresAt : Z }.

Module BindAuthKeyInner.
Definition Encode (m : BindAuthKeyInner) : GoM Buffer unit :=
  modify (PutID BindAuthKeyInnerTypeID) ;;!
  modify (PutLong (bind_Nonce m)) ;;!
  modify (PutLong (TempAuthKeyID m)) ;;!
  modify (PutLong (PermAuthKeyID m)) ;;!
  modify (PutLong (TempSessionID m)) ;;!
  modify (PutInt (ExpiresAt m)).

Definition Decode : GoM Buffer BindAuthKeyInner :=
  wrapping "unable to decode bind_auth_key_inner" (ConsumeID BindAuthKeyInnerTypeID) ;;!
  let! nonce := wrapping "field nonce" Long in
  let! temp := wrapping "field temp_auth_key_id" Long in
  let! perm := wrapping "field perm_auth_key_id" Long in
  let! session := wrapping "field temp_session_id" Long in
  let! expires := wrapping "field expires_at" Int in
  ret (mkBind nonce temp perm session expires).
End BindAuthKeyInner.

Section Bind.
Context `{!IGE}.

(** A nil random source is crypto.DefaultRand: the stream is what the source
    in use delivers. *)
Definition EncryptBindMessage (permKey : AuthKey) (msgID : Z) (inner : BindAuthKeyInner)
    : GoM Stream (list byte) :=
  if AuthKey_Zero permKey then fail (Errorf "permanent key is zero")
  else
    match BindAuthKeyInner.Encode inner [] with
    | (Err e, _) => fail (Wrap e "encode bind_auth_key_inner")
    | (Panic, _) => fun rand => (Panic, rand)
    | (Ok _, payload) =>
        let! random := wrapping "generate random prefix" (must_read 16) in
        let plaintext := Put random [] in
        let plaintext := PutLong msgID plaintext in
        let plaintext := PutInt32 0 plaintext in
        let plaintext := PutInt32 (i32 (Len payload)) plaintext in
        let plaintext := Put payload plaintext in
        let msgKey := MessageKeyV1 plaintext in
        let rem := Z.rem (zlen plaintext) 16 in
        let! padding :=
          (if negb (rem =? 0)
           then wrapping "generate random padding" (must_read (16 - rem))
           else ret []) in
        let plaintext := plaintext ++ padding in
        let '(key, iv) := KeysV1 (ak_Value permKey) msgKey in
        let msg := mkEncrypted (ak_ID permKey) msgKey (ige_encrypt key iv plaintext) in
        fun rand =>
          match EncryptedMessage.Encode msg [] with
          | (Ok _, encrypted) => (Ok ([] ++ encrypted), rand)
          | (Err e, _) => (Err (Wrap e "encode encrypted message"), rand)
          | (Panic, _) => (Panic, rand)
          end
    end.
End Bind.

(** ** Data with its hash *)

Lemma paddedLen16_spec l :
  0 <= l -> paddedLen16 l mod 16 = 0 /\ l <= paddedLen16 l < l + 16.
Proof.
  intros Hl. unfold paddedLen16. rewrite Z.quot_div_nonneg by lia.
  pose proof (Z.div_mod l 16). pose proof (Z.mod_pos_bound l 16).
  destruct (Z.ltb_spec (16 * (l / 16)) l).
  - replace (16 * (l / 16) + 16) with ((l / 16 + 1) * 16) by lia. rewrite Z.mod_mul by lia. lia.
  - rewrite Z.mul_comm, Z.mod_mul by lia. lia.
Qed.

(** Cutting [i] bytes of the padding off. *)
Lemma slice_padded (h data pad : list byte) i :
  0 <= i <= zlen pad ->
  slice (zlen h) (zlen (h ++ data ++ pad) - i) (h ++ data ++ pad) =
  data ++ take (Z.to_nat (zlen pad - i)) pad.
Proof.
  intros Hi. pose proof (zlen_nonneg data). unfold slice. rewrite drop_zlen_app by done.
  rewrite !zlen_app, take_app_ge by (unfold zlen in *; lia).
  do 2 f_equal. unfold zlen in *. lia.
Qed.

(** The first guess that matches is the data, or a longer string with the same
    hash. *)
Lemma guess_loop_found tries i data pad :
  0 <= i <= zlen pad -> zlen pad < i + Z.of_nat tries ->
  exists p, p `prefix_of` pad /\ sha1 (data ++ p) = sha1 data /\
    guess_loop tries i (sha1 data ++ data ++ pad) = Some (data ++ p).
Proof.
  revert i. induction tries as [|tries IH]; intros i Hi Ht; [lia|]. cbn [guess_loop].
  pose proof (zlen_nonneg data). rewrite (zlen_app (sha1 data)), zlen_app, zlen_sha1.
  unfold Sha1.Size. replace (_ <? 20) with false by lia.
  replace (slice 20 _ _) with (data ++ take (Z.to_nat (zlen pad - i)) pad); cycle 1.
  { rewrite <- (slice_padded (sha1 data)) by lia. rewrite zlen_sha1, !zlen_app, zlen_sha1.
    do 2 f_equal. }
  replace (slice 0 20 (sha1 data ++ data ++ pad)) with (sha1 data); cycle 1.
  { by rewrite slice_0_app by (by rewrite zlen_sha1). }
  case_bool_decide as Hd.
  - exists (take (Z.to_nat (zlen pad - i)) pad). split; [|done].
    exists (drop (Z.to_nat (zlen pad - i)) pad). by rewrite take_drop.
  - apply IH; [|lia]. split; [lia|]. destruct (decide (i = zlen pad)) as [->|]; [|lia].
    exfalso. apply Hd. by rewrite Z.sub_diag, take_0, app_nil_r.
Qed.

Lemma unhash_loop_found tries i data pad :
  0 <= i <= zlen pad -> zlen pad < i + Z.of_nat tries ->
  exists p, p `prefix_of` pad /\ sha1 (data ++ p) = sha1 data /\
    unhash_loop tries i (sha1 data) (data ++ pad) = Ok (data ++ p).
Proof.
  revert i. induction tries as [|tries IH]; intros i Hi Ht; [lia|]. cbn [unhash_loop].
  pose proof (slice_padded [] data pad i Hi) as Hs. rewrite !app_nil_l, zlen_nil in Hs. rewrite Hs.
  case_bool_decide as Hd.
  - exists (take (Z.to_nat (zlen pad - i)) pad). split; [|done].
    exists (drop (Z.to_nat (zlen pad - i)) pad). by rewrite take_drop.
  - apply IH; [|lia]. split; [lia|]. destruct (decide (i = zlen pad)) as [->|]; [|lia].
    exfalso. apply Hd. by rewrite Z.sub_diag, take_0, app_nil_r.
Qed.

Lemma DataWithHash_run data rand r rand' :
  DataWithHash data rand = (Ok r, rand') ->
  exists pad, r = sha1 data ++ data ++ pad /\ zlen pad < 16 /\ zlen r mod 16 = 0.
Proof.
  unfold DataWithHash, Sha1.Size. pose proof (zlen_nonneg data).
  destruct (paddedLen16_spec (zlen data + 20)) as [Ha Hb]; [lia|].
  destruct (ReadFull _ _) as [[pad err] r1] eqn:E.
  destruct (ReadFull_spec (paddedLen16 (zlen data + 20) - 20 - zlen data) rand pad err r1 ltac:(lia) E)
    as (_ & _ & Herr).
  destruct err; [done|]. intros [= <- <-]. exists pad. split; [done|]. split; [lia|].
  rewrite !zlen_app, zlen_sha1. by replace (20 + (zlen data + zlen pad)) with (paddedLen16 (zlen data + 20)) by lia.
Qed.

Lemma GuessDataWithHash_found data pad :
  zlen pad < 16 -> 0 < zlen (data ++ pad) ->
  exists p, p `prefix_of` pad /\ sha1 (data ++ p) = sha1 data /\
    GuessDataWithHash (sha1 data ++ data ++ pad) = Some (data ++ p).
Proof.
  intros Hp Hne. pose proof (zlen_nonneg pad). unfold GuessDataWithHash, Sha1.Size.
  rewrite (zlen_app (sha1 data)), zlen_sha1. replace (20 + _ <=? 20) with false by lia.
  apply guess_loop_found; lia.
Qed.

(** ** RSA *)

(** The documented property of an RSA key pair of the protocol's size. *)
Class RSAKeyPair (key : RSAKey) : Prop := {
  rsa_modulus : 2 ^ 2040 <= rsa_N key < 2 ^ 2048;
  rsa_inverse m : 0 <= m < rsa_N key ->
    big_Exp (big_Exp m (rsa_E key) (rsa_N key)) (rsa_D key) (rsa_N key) = m;
}.

Lemma FillBytes_fits b len :
  0 <= len -> 0 <= b < 2 ^ (8 * len) -> FillBytes b len = Some (be_split (Z.to_nat len) b).
Proof.
  intros Hl Hb. unfold FillBytes, big_FillBytes.
  assert (BitLen b <= 8 * len) as Hbl.
  { unfold BitLen. destruct (Z.eqb_spec b 0); [lia|]. rewrite Z.abs_eq by lia.
    assert (Z.log2 b < 8 * len); [|lia]. apply Z.log2_lt_pow2; lia. }
  assert (0 <= BitLen b) by (unfold BitLen; case_bool; pose proof (Z.log2_nonneg (Z.abs b)); lia).
  rewrite Z.quot_div_nonneg by lia.
  assert ((BitLen b + 7) / 8 <= len).
  { apply Z.lt_succ_r, Z.div_lt_upper_bound; lia. }
  by replace (_ >? len) with false by lia.
Qed.

Lemma BitLen_nonneg z : 0 <= BitLen z.
Proof. unfold BitLen. case_bool; pose proof (Z.log2_nonneg (Z.abs z)); lia. Qed.

(** The bytes of a natural number, and how many they are. *)
Lemma be_combine_big_Bytes z : 0 <= z -> be_combine (big_Bytes z) = z.
Proof.
  intros Hz. unfold big_Bytes. apply be_combine_split. pose proof (BitLen_nonneg z) as Hb.
  pose proof (Z.div_mod (BitLen z + 7) 8). pose proof (Z.mod_pos_bound (BitLen z + 7) 8).
  rewrite Z2Nat.id by (apply Z.div_pos; lia). split; [done|].
  apply (Z.lt_le_trans _ (2 ^ BitLen z)); [|apply Z.pow_le_mono_r; lia].
  unfold BitLen. destruct (Z.eqb_spec z 0); [by subst|]. rewrite Z.abs_eq by lia.
  apply Z.log2_spec. lia.
Qed.

Lemma zlen_big_Bytes z n : 0 <= n -> 0 <= z < 2 ^ (8 * n) -> zlen (big_Bytes z) <= n.
Proof.
  intros Hn Hz. unfold big_Bytes, be_split, zlen. rewrite length_rev, length_le_split.
  pose proof (BitLen_nonneg z). rewrite Z2Nat.id by (apply Z.div_pos; lia).
  assert (BitLen z <= 8 * n) as Hbl.
  { unfold BitLen. destruct (Z.eqb_spec z 0); [lia|]. rewrite Z.abs_eq by lia.
    assert (Z.log2 z < 8 * n); [|lia]. apply Z.log2_lt_pow2; lia. }
  apply Z.lt_succ_r, Z.div_lt_upper_bound; lia.
Qed.

Section RSAProofs.
Context (key : RSAKey) `{!RSAKeyPair key}.

Lemma rsa_roundtrip data :
  be_combine data < rsa_N key ->
  exists c, rsaEncrypt data key = Ok c /\ zlen c = 256 /\
    forall to, zlen data = to -> rsaDecrypt c key to = Some data.
Proof.
  intros Hlt. pose proof rsa_modulus as HN. pose proof (be_combine_range data) as [H0 Hr].
  assert (0 <= big_Exp (be_combine data) (rsa_E key) (rsa_N key) < rsa_N key) as He.
  { unfold big_Exp. rewrite Zpow_mod_correct by lia. apply Z.mod_pos_bound. lia. }
  set (c := big_Exp _ _ _) in *. exists (be_split 256 c). split_and!.
  - unfold rsaEncrypt. fold c. rewrite FillBytes_fits; [done|done|]. unfold rsaLen. lia.
  - apply zlen_be_split.
  - intros to <-. unfold rsaDecrypt. rewrite be_combine_split by (unfold is_unsigned; simpl; lia).
    subst c. rewrite rsa_inverse by lia. rewrite FillBytes_fits by (try apply zlen_nonneg; lia).
    f_equal. apply be_split_combine. unfold zlen. lia.
Qed.

(** 255 bytes are below the modulus. *)
Lemma rsa_255_below data : zlen data = 255 -> be_combine data < rsa_N key.
Proof.
  intros Hl. pose proof rsa_modulus. pose proof (be_combine_range data) as [_ Hr]. rewrite Hl in Hr.
  change (8 * 255) with 2040 in Hr. lia.
Qed.
End RSAProofs.

Section PadProofs.
Context `{!IGE, !LawfulIGE, !XorLib, !LawfulXor} (key : RSAKey) `{!RSAKeyPair key}.

Lemma zlen_keyAES dwp tempKey :
  zlen dwp = 192 -> zlen tempKey = 32 -> zlen (keyAESEncrypted dwp tempKey) = 256.
Proof.
  intros Hd Ht. unfold keyAESEncrypted, reverseBytes.
  rewrite zlen_app, xor_Bytes_spec, zlen_xor_bytes by (by rewrite zlen_sha256).
  rewrite ige_length, zlen_app, zlen_sha256. unfold zlen in *. rewrite length_rev. lia.
Qed.

Lemma DecodeRSAPad_keyAES dwp tempKey c :
  zlen dwp = 192 -> zlen tempKey = 32 ->
  rsaDecrypt c key 256 = Some (keyAESEncrypted dwp tempKey) ->
  DecodeRSAPad c key = Ok dwp.
Proof.
  intros Hd Ht Hc. unfold DecodeRSAPad, tempKeySize, dataWithPaddingLength. rewrite Hc.
  unfold keyAESEncrypted. set (dwh := reverseBytes dwp ++ sha256 (tempKey ++ dwp)).
  set (aes := ige_encrypt tempKey zeroIV dwh).
  assert (zlen dwh = 224) as Hdwh.
  { subst dwh. unfold reverseBytes. rewrite zlen_app, zlen_sha256. unfold zlen in *. rewrite length_rev. lia. }
  rewrite (xor_Bytes_spec tempKey (sha256 aes)) by (by rewrite zlen_sha256).
  assert (zlen (xor_bytes tempKey (sha256 aes)) = 32) as Hx by (rewrite zlen_xor_bytes; rewrite ?zlen_sha256; lia).
  rewrite (drop_zlen_app _ aes) by (by rewrite Hx).
  rewrite !slice_0_app by (by rewrite Hx).
  rewrite xor_Bytes_spec, xor_bytes_cancel by (rewrite ?Hx, ?zlen_sha256; done).
  subst aes. rewrite ige_inverse by (try done; rewrite Hdwh; done).
  subst dwh. unfold reverseBytes.
  rewrite (drop_zlen_app (rev dwp)) by (unfold zlen in *; rewrite length_rev; lia).
  rewrite slice_0_app by (unfold zlen in *; rewrite length_rev; lia).
  rewrite rev_involutive. by rewrite bool_decide_eq_true_2.
Qed.

Lemma pad_loop_spec fuel dwp rand :
  zlen dwp = 192 -> (length (incoming rand) < fuel)%nat ->
  match pad_loop fuel dwp key rand with
  | (Ok c, _) => DecodeRSAPad c key = Ok dwp /\ zlen c = 256
  | (Err e, _) => exists e', e = Wrap e' "generate temp_key"
  | (Panic, _) => False
  end.
Proof.
  intros Hd. revert rand. induction fuel as [|fuel IH]; intros rand Hf; [lia|]. cbn [pad_loop].
  unfold bind, wrapping.
  destruct (must_read tempKeySize rand) as [[tk|e|] rand'] eqn:E;
    [|by eexists|by apply (must_read_no_panic tempKeySize rand); rewrite E].
  destruct (must_read_inv tempKeySize rand tk rand' ltac:(done) E) as (Hin & Htk & _).
  destruct (be_combine _ >=? _) eqn:EN.
  - apply IH. rewrite Hin, length_app in Hf. unfold zlen, tempKeySize in Htk. lia.
  - destruct (rsa_roundtrip key (keyAESEncrypted dwp tk)) as (c & -> & Hl & Hdec); [lia|].
    split; [|done]. eapply DecodeRSAPad_keyAES; [done|exact Htk|].
    apply Hdec. by apply zlen_keyAES.
Qed.
End PadProofs.

(** ** Correctness of the exchange payloads *)

(** A ciphertext of an answer decrypts to a string that starts with the answer
    and ends within its padding. *)
Lemma exchange_answer_found `{!IGE, !LawfulIGE} (answer key iv c : list byte) (rand rand' : Stream) :
  zlen key = 32 -> zlen iv = 32 -> EncryptExchangeAnswer answer key iv rand = (Ok c, rand') ->
  20 <= zlen c < zlen answer + 36 /\
  exists p, DecryptExchangeAnswer (Some c) key iv = Ok (Some (answer ++ p)) /\
    zlen p < 16 /\ sha1 (answer ++ p) = sha1 answer.
Proof.
  intros Hk Hiv. unfold EncryptExchangeAnswer, DecryptExchangeAnswer.
  assert (aes_NewCipher key = None) as -> by (unfold aes_NewCipher; rewrite bool_decide_eq_true_2; auto).
  unfold bind, wrapping. destruct (DataWithHash answer rand) as [[r|e|] r'] eqn:E; try done. intros [= <- <-].
  destruct (DataWithHash_run _ _ _ _ E) as (pad & Hr' & Hp & Ha).
  pose proof (zlen_nonneg (answer ++ pad)) as Hn.
  assert (0 < zlen (answer ++ pad)) as Hpos.
  { subst r. rewrite zlen_app, zlen_sha1 in Ha.
    destruct (decide (zlen (answer ++ pad) = 0)) as [Hz|]; [rewrite Hz in Ha; done|lia]. }
  destruct (GuessDataWithHash_found answer pad Hp Hpos) as (p & Hpre & Hh & Hg).
  assert (zlen p <= zlen pad) as Hpl by (unfold zlen; apply prefix_length in Hpre; lia).
  rewrite ige_length. split.
  { subst r. autorewrite with zlen in *. rewrite ?zlen_sha1. lia. }
  exists p. cbn [default]. unfold default, id. rewrite ige_length.
  rewrite Z.rem_mod_nonneg, Ha by (pose proof (zlen_nonneg r); lia). cbn [negb Z.eqb].
  rewrite ige_inverse by done. rewrite Hr', Hg. split_and!; [done|lia|done].
Qed.

(** Fifteen random bytes are enough. *)
Lemma EncryptExchangeAnswer_runs `{!IGE} (answer key iv : list byte) (rand : Stream) :
  zlen key = 32 -> 15 <= zlen (incoming rand) ->
  exists c rand', EncryptExchangeAnswer answer key iv rand = (Ok c, rand').
Proof.
  intros Hk Hr. unfold EncryptExchangeAnswer.
  assert (aes_NewCipher key = None) as -> by (unfold aes_NewCipher; rewrite bool_decide_eq_true_2; auto).
  unfold bind, wrapping, DataWithHash, Sha1.Size. pose proof (zlen_nonneg answer).
  destruct (paddedLen16_spec (zlen answer + 20)) as [_ Hb]; [lia|].
  destruct (ReadFull _ _) as [[pad err] r1] eqn:ER.
  destruct (ReadFull_spec (paddedLen16 (zlen answer + 20) - 20 - zlen answer) rand pad err r1
              ltac:(lia) ER) as (Hin & _ & Herr).
  destruct err; [|by eexists _, _]. destruct Herr as (Hlt & Hnil & _).
  rewrite Hin, Hnil, app_nil_r in Hr. lia.
Qed.

(** An answer encrypted for the key exchange is found again by the receiver:
    decryption returns a string that starts with the answer, has its SHA-1 hash
    and at most fifteen more bytes; it is the answer itself unless these bytes
    of padding collide in SHA-1.  Fifteen random bytes are enough. *)
Theorem exchange_answer_roundtrip `{!IGE, !LawfulIGE} (answer key iv : list byte) (rand : Stream) :
  zlen key = 32 -> zlen iv = 32 -> 15 <= zlen (incoming rand) ->
  exists c rand' d,
    EncryptExchangeAnswer answer key iv rand = (Ok c, rand') /\
    DecryptExchangeAnswer (Some c) key iv = Ok (Some d) /\
    answer `prefix_of` d /\ zlen d < zlen answer + 16 /\ sha1 d = sha1 answer /\
    ((forall p, p <> [] -> zlen p < 16 -> sha1 (answer ++ p) <> sha1 answer) -> d = answer).
Proof.
  intros Hk Hiv Hr. destruct (EncryptExchangeAnswer_runs answer key iv rand Hk Hr) as (c & rand' & E).
  destruct (exchange_answer_found answer key iv c rand rand' Hk Hiv E) as (_ & p & Hd & Hp & Hh).
  exists c, rand', (answer ++ p). split_and!; try done.
  - by exists p.
  - rewrite zlen_app. lia.
  - intros Hnc. destruct p as [|x p]; [by rewrite app_nil_r|]. exfalso. by apply (Hnc (x :: p)); [|lia|].
Qed.

#[local] Instance ige_id : IGE := { ige_encrypt _ _ p := p; ige_decrypt _ _ p := p }.
#[local] Instance ige_id_lawful : LawfulIGE.
Proof. by split. Qed.
#[local] Instance xor_direct : XorLib := xor_bytes.
#[local] Instance xor_direct_lawful : LawfulXor.
Proof. by intros a b. Qed.

Lemma exchange_answer_roundtrip_witness :
  exists c rand' d,
    EncryptExchangeAnswer [Byte.x01] (zeros 32) (zeros 32) (mkStream (zeros 15) EOF) = (Ok c, rand') /\
    DecryptExchangeAnswer (Some c) (zeros 32) (zeros 32) = Ok (Some d) /\
    [Byte.x01] `prefix_of` d /\ zlen d < zlen [Byte.x01] + 16 /\ sha1 d = sha1 [Byte.x01] /\
    ((forall p, p <> [] -> zlen p < 16 -> sha1 ([Byte.x01] ++ p) <> sha1 [Byte.x01]) -> d = [Byte.x01]).
Proof.
  apply (exchange_answer_roundtrip [Byte.x01] (zeros 32) (zeros 32) (mkStream (zeros 15) EOF));
    vm_compute; congruence.
Defined.

(** An answer that matches no hash is not reported as an error: the check
    after the guess looks at the input instead of the result, so that the caller
    receives a nil answer with a nil error. *)
Theorem exchange_answer_unchecked `{!IGE} (data key iv : list byte) :
  zlen key = 32 -> zlen data mod 16 = 0 ->
  GuessDataWithHash (ige_decrypt key iv data) = None ->
  DecryptExchangeAnswer (Some data) key iv = Ok None.
Proof.
  intros Hk Ha Hg. unfold DecryptExchangeAnswer.
  assert (aes_NewCipher key = None) as -> by (unfold aes_NewCipher; rewrite bool_decide_eq_true_2; auto).
  unfold default, id. rewrite Z.rem_mod_nonneg, Ha by (pose proof (zlen_nonneg data); lia).
  cbn [negb Z.eqb]. by rewrite Hg.
Qed.

Lemma exchange_answer_unchecked_witness :
  DecryptExchangeAnswer (Some (zeros 32)) (zeros 32) (zeros 32) = Ok None.
Proof. apply (exchange_answer_unchecked (zeros 32) (zeros 32) (zeros 32)); vm_compute; reflexivity. Defined.

(** Data encrypted with the hashed RSA padding is recovered with the private
    key, up to a SHA-1 collision with its random padding; longer data than the
    padding can hold is refused without touching the random source. *)
Theorem rsa_hashed_roundtrip (key : RSAKey) `{!RSAKeyPair key} (data : list byte) (rand : Stream) :
  255 <= zlen (incoming rand) ->
  if zlen data >? rsaDataLen
  then RSAEncryptHashed data key rand = (Err (Errorf "data length is too big"), rand)
  else exists c rand' d,
    RSAEncryptHashed data key rand = (Ok c, rand') /\ RSADecryptHashed c key = Ok d /\
    data `prefix_of` d /\ sha1 d = sha1 data /\
    ((forall p, p <> [] -> sha1 (data ++ p) <> sha1 data) -> d = data).
Proof.
  intros Hr. unfold RSAEncryptHashed. destruct (zlen data >? rsaDataLen) eqn:El; [done|].
  unfold rsaDataLen, rsaWithHashLen, Sha1.Size in *. bool_to_prop.
  destruct rand as [inc e]. simpl in Hr. rewrite <- (take_drop 255 inc).
  assert (zlen (take 255 inc) = 255) as H255 by (apply (zlen_take 255); lia).
  set (random := take 255 inc) in *. set (pad := drop (Z.to_nat (20 + zlen data)) random).
  pose proof (zlen_nonneg data).
  assert (zlen pad = 235 - zlen data) as Hpad by (subst pad; rewrite zlen_drop; lia).
  assert (zlen (sha1 data ++ data ++ pad) = 255) as Hdwh by (rewrite !zlen_app, zlen_sha1; lia).
  destruct (rsa_roundtrip key (sha1 data ++ data ++ pad)) as (c & Hc & _ & Hdec);
    [by apply rsa_255_below|].
  destruct (unhash_loop_found (S (length (data ++ pad))) 0 data pad) as (p & Hpre & Hh & Hu);
    [lia|rewrite length_app; unfold zlen; lia|].
  exists c, (mkStream (drop 255 inc) e), (data ++ p). split_and!.
  - erewrite bind_ok by (by apply must_read_app). fold pad. by rewrite Hc.
  - unfold RSADecryptHashed, rsaWithHashLen, Sha1.Size. rewrite (Hdec 255 Hdwh).
    rewrite drop_zlen_app by (by rewrite zlen_sha1).
    rewrite slice_0_app by (by rewrite zlen_sha1). exact Hu.
  - by exists p.
  - done.
  - intros Hnc. destruct p as [|x p]; [by rewrite app_nil_r|]. exfalso. by apply (Hnc (x :: p)).
Qed.

(** A key that satisfies the law: both exponents are one. *)
Definition trivial_key : RSAKey := mkRSA (2 ^ 2047) 1 1.
#[local] Instance trivial_key_pair : RSAKeyPair trivial_key.
Proof.
  split; [vm_compute; split; congruence|]. intros m Hm. unfold big_Exp.
  assert (rsa_N trivial_key <> 0) by (vm_compute; congruence).
  rewrite !Zpow_mod_correct by done. cbn [rsa_E rsa_D trivial_key]. rewrite !Z.pow_1_r.
  rewrite !Z.mod_small; [done| |]; rewrite ?Z.mod_small; done.
Qed.

Lemma rsa_hashed_roundtrip_witness :
  if zlen [Byte.x07] >? rsaDataLen
  then RSAEncryptHashed [Byte.x07] trivial_key (mkStream (zeros 255) EOF)
       = (Err (Errorf "data length is too big"), mkStream (zeros 255) EOF)
  else exists c rand' d,
    RSAEncryptHashed [Byte.x07] trivial_key (mkStream (zeros 255) EOF) = (Ok c, rand') /\
    RSADecryptHashed c trivial_key = Ok d /\
    [Byte.x07] `prefix_of` d /\ sha1 d = sha1 [Byte.x07] /\
    ((forall p, p <> [] -> sha1 ([Byte.x07] ++ p) <> sha1 [Byte.x07]) -> d = [Byte.x07]).
Proof.
  apply (rsa_hashed_roundtrip trivial_key [Byte.x07] (mkStream (zeros 255) EOF)). vm_compute. congruence.
Defined.

(** RSA padding: whatever keys the random source yields, the retry loop ends
    with a ciphertext or with the source's error; a ciphertext is decoded with the
    private key to the data followed by its random padding to 192 bytes. *)
Theorem rsa_pad_roundtrip `{!IGE, !LawfulIGE, !XorLib, !LawfulXor} (key : RSAKey) `{!RSAKeyPair key}
    (data : list byte) (rand : Stream) :
  match RSAPad data key rand with
  | (Ok c, _) =>
      zlen data <= rsaPadDataLimit /\ zlen c = 256 /\
      exists padding, DecodeRSAPad c key = Ok (data ++ padding) /\
        zlen (data ++ padding) = dataWithPaddingLength /\ padding `prefix_of` incoming rand
  | (Err _, _) => True
  | (Panic, _) => False
  end.
Proof.
  unfold RSAPad. destruct (zlen data >? rsaPadDataLimit) eqn:El; [done|]. bool_to_prop.
  unfold rsaPadDataLimit in El. pose proof (zlen_nonneg data).
  unfold bind, wrapping, dataWithPaddingLength.
  destruct (must_read (192 - zlen data) rand) as [[padding|e|] rand'] eqn:E;
    [|done|by apply (must_read_no_panic (192 - zlen data) rand); rewrite E].
  destruct (must_read_inv (192 - zlen data) rand padding rand' ltac:(lia) E) as (Hin & Hp & _).
  assert (zlen (data ++ padding) = 192) as Hd by (rewrite zlen_app; lia).
  pose proof (pad_loop_spec key (S (length (incoming rand'))) (data ++ padding) rand' Hd ltac:(lia)) as Hs.
  destruct (pad_loop _ _ _ _) as [[c|e|] rand'']; [|done|done]. destruct Hs as [Hs Hc].
  split; [done|]. split; [done|]. exists padding. split; [done|]. split; [done|]. by exists (incoming rand').
Qed.

Lemma rsa_pad_roundtrip_witness :
  match RSAPad [Byte.x07] trivial_key (mkStream (zeros 300) EOF) with
  | (Ok c, _) =>
      zlen [Byte.x07] <= rsaPadDataLimit /\ zlen c = 256 /\
      exists padding, DecodeRSAPad c trivial_key = Ok ([Byte.x07] ++ padding) /\
        zlen ([Byte.x07] ++ padding) = dataWithPaddingLength /\
        padding `prefix_of` incoming (mkStream (zeros 300) EOF)
  | (Err _, _) => True
  | (Panic, _) => False
  end.
Proof.
  pose proof (rsa_pad_roundtrip trivial_key [Byte.x07] (mkStream (zeros 300) EOF)) as H.
  destruct (RSAPad [Byte.x07] trivial_key (mkStream (zeros 300) EOF)) as [[c|e|] r]; exact H.
Defined.

(** ** Binding a temporary key *)

Definition inner_ok (m : BindAuthKeyInner) : Prop :=
  int64 (bind_Nonce m) /\ int64 (TempAuthKeyID m) /\ int64 (PermAuthKeyID m) /\
  int64 (TempSessionID m) /\ int32 (ExpiresAt m).
#[export] Instance inner_ok_dec m : Decision (inner_ok m).
Proof. unfold inner_ok. apply _. Defined.

#[export] Instance bind_object : Object BindAuthKeyInner := {
  Encode := BindAuthKeyInner.Encode; Decode := BindAuthKeyInner.Decode; valid := inner_ok }.
#[export] Instance bind_lawful : LawfulObject BindAuthKeyInner.
Proof.
  split; [|unfold Decode; simpl; unfold BindAuthKeyInner.Decode; solve_safe].
  intros [n t p s e] b (Hn & Ht & Hp & Hs & He). simpl in *.
  eexists (le_split 4 BindAuthKeyInnerTypeID ++ le_split 8 (u64 n) ++ le_split 8 (u64 t) ++
           le_split 8 (u64 p) ++ le_split 8 (u64 s) ++ le_split 4 (u32 e)).
  split.
  - unfold BindAuthKeyInner.Encode. run_puts. simpl. rewrite swrap_id by done. done.
  - unfold BindAuthKeyInner.Decode.
    apply (parses_bind _ _ _ _ tt); [by apply parses_wrapping, parses_ConsumeID|].
    apply (parses_bind _ _ _ _ n); [by apply parses_wrapping, parses_Long|].
    apply (parses_bind _ _ _ _ t); [by apply parses_wrapping, parses_Long|].
    apply (parses_bind _ _ _ _ p); [by apply parses_wrapping, parses_Long|].
    apply (parses_bind _ _ _ _ s); [by apply parses_wrapping, parses_Long|].
    by apply (parses_bind_ret _ (fun e => mkBind n t p s e)), parses_wrapping, parses_Int.
Qed.

Lemma EncryptedMessage_Decode_run m :
  zlen (AuthKeyID m) = 8 -> zlen (MsgKey m) = 16 ->
  EncryptedMessage.Decode (AuthKeyID m ++ MsgKey m ++ EncryptedData m) = (Ok m, []).
Proof.
  intros Hid Hk. unfold EncryptedMessage.Decode.
  erewrite bind_ok by (by apply parses_ConsumeN). erewrite bind_ok by (by apply parses_Int128).
  erewrite bind_ok by done. unfold Len.
  erewrite bind_ok by (apply (parses_nil (ConsumeN _)), parses_ConsumeN; done).
  by destruct m.
Qed.

(** What the holder of the permanent key reads from a binding message: the
    payload, behind the 32 byte header of the plaintext. *)
Definition bind_envelope `{!IGE} (permKey : AuthKey) (inner : BindAuthKeyInner) (out : list byte) : Prop :=
  exists e plain pad,
    EncryptedMessage.Decode out = (Ok e, []) /\ AuthKeyID e = ak_ID permKey /\
    MsgKey e = MessageKeyV1 plain /\ zlen pad < 16 /\
    (let '(key, iv) := KeysV1 (ak_Value permKey) (MsgKey e) in
     ige_decrypt key iv (EncryptedData e) = plain ++ pad) /\
    BindAuthKeyInner.Decode (drop 32 plain) = (Ok inner, []).

Lemma bind_envelope_intro `{!IGE, !LawfulIGE} (permKey : AuthKey) (inner : BindAuthKeyInner) (plain pad body : list byte) :
  zlen (ak_ID permKey) = 8 -> zlen pad < 16 -> (zlen plain + zlen pad) mod 16 = 0 ->
  drop 32 plain = body -> parses BindAuthKeyInner.Decode body inner ->
  bind_envelope permKey inner
    (ak_ID permKey ++ MessageKeyV1 plain ++
     (let '(key, iv) := KeysV1 (ak_Value permKey) (MessageKeyV1 plain) in ige_encrypt key iv (plain ++ pad))).
Proof.
  intros Hid Hpad Hal Hdrop Hdec.
  destruct (KeysV1 (ak_Value permKey) (MessageKeyV1 plain)) as [key iv] eqn:EK.
  destruct (zlen_KeysV1 (ak_Value permKey) (MessageKeyV1 plain)) as [Hk Hiv]. rewrite EK in Hk, Hiv. simpl in Hk, Hiv.
  assert (zlen (MessageKeyV1 plain) = 16) as Hmk
    by (unfold MessageKeyV1; rewrite zlen_slice; rewrite ?zlen_sha1; lia).
  exists (mkEncrypted (ak_ID permKey) (MessageKeyV1 plain) (ige_encrypt key iv (plain ++ pad))), plain, pad.
  split_and!; try done.
  - by apply (EncryptedMessage_Decode_run (mkEncrypted (ak_ID permKey) (MessageKeyV1 plain) _)).
  - cbn [MsgKey EncryptedData]. rewrite EK. by rewrite ige_inverse by (by rewrite ?zlen_app).
  - rewrite Hdrop. by apply parses_nil.
Qed.

Lemma EncryptBindMessage_post `{!IGE, !LawfulIGE} (permKey : AuthKey) (msgID : Z)
    (inner : BindAuthKeyInner) (rand : Stream) :
  AuthKey_Zero permKey = false ->
  post (EncryptBindMessage permKey msgID inner) rand
    (fun out rand' => ending rand' = ending rand /\
       (zlen (ak_ID permKey) = 8 -> inner_ok inner -> bind_envelope permKey inner out))
    (fun e rand' => ending rand' = ending rand /\ zlen (incoming rand) < 31 /\
       exists e' msg, e = Wrap e' msg /\ (e' = ending rand \/ e' = ErrUnexpectedEOF)).
Proof.
  intros Hz. unfold EncryptBindMessage. rewrite Hz.
  set (body := snd (BindAuthKeyInner.Encode inner [])).
  change (BindAuthKeyInner.Encode inner []) with (@Ok unit tt, body). cbv iota.
  eapply post_seq.
  { apply post_wrapping. eapply post_mono; [apply must_read_post; lia|intros a s1 Ha; exact Ha|].
    intros e s1 (? & ? & ?). split_and!; [done|lia|eauto]. }
  intros random rand1 (Hin1 & H16 & Hend1). set (plain := Put body _).
  assert (drop 32 plain = body) as Hdrop.
  { subst plain. unfold Put at 1. apply (drop_zlen_app _ body 32).
    unfold PutInt32, PutLong, PutUint32, PutUint64, Put. autorewrite with zlen. lia. }
  pose proof (zlen_nonneg plain) as Hp0. cbv zeta.
  rewrite Z.rem_mod_nonneg by lia. pose proof (Z.mod_pos_bound (zlen plain) 16 ltac:(lia)) as Hm.
  eapply (post_seq _ _ _ (fun pad rand2 => ending rand2 = ending rand /\ zlen pad < 16 /\
    (zlen plain + zlen pad) mod 16 = 0)).
  { destruct (Z.eqb_spec (zlen plain mod 16) 0) as [Hz0|Hz0]; cbn [negb].
    - apply post_ret. rewrite zlen_nil, Z.add_0_r. done.
    - apply post_wrapping. eapply post_mono; [apply must_read_post; lia| |].
      + intros pad s' (_ & Hn & He). split_and!; [congruence|lia|]. rewrite Hn.
        pose proof (Z.div_mod (zlen plain) 16 ltac:(lia)).
        replace (zlen plain + (16 - zlen plain mod 16)) with ((zlen plain / 16 + 1) * 16) by lia.
        by rewrite Z.mod_mul by lia.
      + intros e s' (He & Hl & Hor). rewrite Hin1, zlen_app. split_and!; [congruence|lia|].
        eexists _, _. split; [done|]. by rewrite <- Hend1. }
  intros pad rand2 (Hend2 & Hpad & Hal).
  pose proof (fun Hid : zlen (ak_ID permKey) = 8 => bind_envelope_intro permKey inner plain pad body Hid Hpad Hal Hdrop) as Henv.
  destruct (KeysV1 (ak_Value permKey) (MessageKeyV1 plain)) as [key iv].
  unfold post. rewrite Encode_msg_run, app_nil_l. split; [done|]. intros Hid Hin. apply Henv; [done|].
  destruct (@encode_decode _ _ bind_lawful inner [] Hin) as (body' & Henc & Hdec).
  assert (body = body') as ->; [|done]. unfold body. change (BindAuthKeyInner.Encode inner []) with (Encode inner []).
  by rewrite Henc.
Qed.

(** The binding message carries the binding payload to whoever holds the
    permanent key: the envelope has the permanent key's identifier, the message
    key of the MTProto 1.0 derivation over the unpadded plaintext, and decrypts to
    that plaintext and less than a block of padding; behind its 32 byte header
    the payload is decoded.  31 random bytes are enough. *)
Theorem bind_message_roundtrip `{!IGE, !LawfulIGE} (permKey : AuthKey) (msgID : Z)
    (inner : BindAuthKeyInner) (rand : Stream) :
  AuthKey_Zero permKey = false -> zlen (ak_ID permKey) = 8 -> inner_ok inner ->
  31 <= zlen (incoming rand) ->
  exists out rand' e plain pad,
    EncryptBindMessage permKey msgID inner rand = (Ok out, rand') /\
    EncryptedMessage.Decode out = (Ok e, []) /\ AuthKeyID e = ak_ID permKey /\
    MsgKey e = MessageKeyV1 plain /\ zlen pad < 16 /\
    (let '(key, iv) := KeysV1 (ak_Value permKey) (MsgKey e) in
     ige_decrypt key iv (EncryptedData e) = plain ++ pad) /\
    BindAuthKeyInner.Decode (drop 32 plain) = (Ok inner, []).
Proof.
  intros Hz Hid Hin Hr. pose proof (EncryptBindMessage_post permKey msgID inner rand Hz) as Hp. unfold post in Hp.
  destruct (EncryptBindMessage permKey msgID inner rand) as [[out|e|] rand'].
  - destruct Hp as [_ Hp]. destruct (Hp Hid Hin) as (e & plain & pad & Henv). by exists out, rand', e, plain, pad.
  - destruct Hp as (_ & ? & _). lia.
  - done.
Qed.

Lemma bind_message_roundtrip_witness :
  exists out rand' e plain pad,
    EncryptBindMessage (mkAuthKey (zeros 256) (replicate 8 Byte.x01)) 5 (mkBind 1 2 3 4 5)
      (mkStream (zeros 40) EOF) = (Ok out, rand') /\
    EncryptedMessage.Decode out = (Ok e, []) /\ AuthKeyID e = replicate 8 Byte.x01 /\
    MsgKey e = MessageKeyV1 plain /\ zlen pad < 16 /\
    (let '(key, iv) := KeysV1 (zeros 256) (MsgKey e) in
     ige_decrypt key iv (EncryptedData e) = plain ++ pad) /\
    BindAuthKeyInner.Decode (drop 32 plain) = (Ok (mkBind 1 2 3 4 5), []).
Proof.
  apply (bind_message_roundtrip (mkAuthKey (zeros 256) (replicate 8 Byte.x01)) 5 (mkBind 1 2 3 4 5)
           (mkStream (zeros 40) EOF)).
  - vm_compute. reflexivity.
  - reflexivity.
  - unfold inner_ok, is_signed. simpl. lia.
  - vm_compute. congruence.
Defined.
