(* ===== verification/Dh.v ===== *)
(** * crypto: Diffie-Hellman parameters

    Model of src/crypto/check_gp.go, dh.go and check_dh.go: the checks of the
    server's Diffie-Hellman parameters with the cache of validated ones.  math/big's ProbablyPrime is a parameter.  The
    cache is shared by concurrent handshakes: the unlocked lookup and the locked
    section are two steps, between which other handshakes may run theirs. *)
From S2P Require Import Prelude Io Hash Keys Exchange.

(** ** check_gp.go *)

Definition checkSubgroup (p divider : Z) (expected : list Z) : bool :=
  let rem := Z.rem p divider in
  existsb (fun e => rem =? e) expected.

Definition CheckGP (g p : Z) : option error :=
  let check (result : bool) :=
    if negb result then Some (Errorf "g should be a quadratic residue mod p") else None in
  if g =? 2 then check (checkSubgroup p 8 [7])
  else if g =? 3 then check (checkSubgroup p 3 [2])
  else if g =? 4 then check true
  else if g =? 5 then check (checkSubgroup p 5 [1; 4])
  else if g =? 6 then check (checkSubgroup p 24 [19; 23])
  else if g =? 7 then check (checkSubgroup p 7 [3; 5; 6])
  else Some (Errorf "unexpected g: g should be equal to 2, 3, 4, 5, 6 or 7").

(** ** dh.go *)

Definition RSAKeyBits : Z := 2048.

Definition InRange (x min max : Z) : bool := (x >? min) && (x <? max).

Definition CheckDHParams (dhPrime g gA gB : Z) : option error :=
  let dhPrimeMinusOne := dhPrime - 1 in
  if negb (InRange g 1 dhPrimeMinusOne)
  then Some (Errorf "kex: bad g, g must be 1 < g < dh_prime - 1")
  else if negb (InRange gA 1 dhPrimeMinusOne)
  then Some (Errorf "kex: bad g_a, g_a must be 1 < g_a < dh_prime - 1")
  else if negb (InRange gB 1 dhPrimeMinusOne)
  then Some (Errorf "kex: bad g_b, g_b must be 1 < g_b < dh_prime - 1")
  else
    let safetyRangeMin := 2 ^ (RSAKeyBits - 64) in
    let safetyRangeMax := dhPrime - safetyRangeMin in
    if negb (InRange gA safetyRangeMin safetyRangeMax)
    then Some (Errorf "kex: bad g_a, g_a must be 2^{2048-64} < g_a < dh_prime - 2^{2048-64}")
    else if negb (InRange gB safetyRangeMin safetyRangeMax)
    then Some (Errorf "kex: bad g_b, g_b must be 2^{2048-64} < g_b < dh_prime - 2^{2048-64}")
    else None.

(** ** check_dh.go *)

Definition validatedDHParameterCacheCapacity : nat := 16.

Record validatedDHParameterKey : Type := mkDHKey { key_g : Z; key_p : list byte }.
#[export] Instance dh_key_eq_dec : EqDecision validatedDHParameterKey.
Proof. solve_decision. Defined.

Record validatedDHParameterCache : Type := mkCache {
  entries : list validatedDHParameterKey; used : nat; next : nat }.

Definition empty_cache : validatedDHParameterCache :=
  mkCache (replicate validatedDHParameterCacheCapacity (mkDHKey 0 (zeros 256))) 0 0.

(** [p] is [None] for a nil pointer. *)
Definition validatedDHKey (g : Z) (p : option Z) : option validatedDHParameterKey :=
  match p with
  | None => None
  | Some p =>
      if (p <=? 0) || negb (BitLen p =? RSAKeyBits) then None
      else Some (mkDHKey g (big_FillBytes p 256))
  end.

Definition containsLocked (c : validatedDHParameterCache) (key : validatedDHParameterKey) : bool :=
  existsb (fun k => bool_decide (k = key)) (take (used c) (entries c)).

(** The locked section of validate; [err] is what the validation would report.
    Go panics on an index outside [entries], where the insertion here does
    nothing: the first index is in range by the test, the second by [co_next],
    which dh_cache_transparent states of every cache that can be reached. *)
Definition validate_locked (key : validatedDHParameterKey) (err : option error)
    (c : validatedDHParameterCache) : option error * validatedDHParameterCache :=
  if containsLocked c key then (None, c)
  else
    match err with
    | Some e => (Some e, c)
    | None =>
        if Nat.ltb (used c) (length (entries c))
        then (None, mkCache (<[used c := key]> (entries c)) (S (used c)) (next c))
        else (None, mkCache (<[next c := key]> (entries c)) (used c)
                            ((next c + 1) mod length (entries c))%nat)
    end.

(** The cache is [c1] at the lookup under the read lock, and [c2] when the write
    lock is taken. *)
Definition validate (c1 c2 : validatedDHParameterCache) (key : validatedDHParameterKey)
    (err : option error) : option error * validatedDHParameterCache :=
  if containsLocked c1 key then (None, c2) else validate_locked key err c2.

Section CheckDH.
Context (ProbablyPrime : Z -> bool).

Definition checkPrime (p : Z) : option error :=
  if negb (ProbablyPrime p) then Some (Errorf "p is not prime number")
  else if negb (ProbablyPrime ((p - 1) `quot` 2)) then Some (Errorf "(p-1)/2 is not prime number")
  else None.

(** The validation that the cache saves. *)
Definition checkGPPrime (g p : Z) : option error :=
  match CheckGP g p with
  | Some e => Some e
  | None => checkPrime p
  end.

Definition checkDHWithCache (c1 c2 : validatedDHParameterCache) (g : Z) (p : option Z)
    : option error * validatedDHParameterCache :=
  match validatedDHKey g p with
  | None => (Some (Errorf "p should be 2^2047 < p < 2^2048"), c2)
  | Some key => validate c1 c2 key (checkGPPrime g (default 0 p))
  end.

(** The caches that handshakes can produce: each locked section runs after a
    lookup that missed in some earlier cache. *)
Inductive reachable : validatedDHParameterCache -> Prop :=
| reach_init : reachable empty_cache
| reach_check c1 c2 g p : reachable c1 -> reachable c2 -> reachable (snd (checkDHWithCache c1 c2 g p)).

(** The check without a cache. *)
Definition check_uncached (g : Z) (p : option Z) : option error :=
  match validatedDHKey g p with
  | None => Some (Errorf "p should be 2^2047 < p < 2^2048")
  | Some _ => checkGPPrime g (default 0 p)
  end.

(** Only pairs that passed are stored, and the indices stay in range. *)
Record cache_ok (c : validatedDHParameterCache) : Prop := {
  co_length : length (entries c) = 16%nat;
  co_used : (used c <= 16)%nat;
  co_next : (next c < 16)%nat;
  co_checked k : k ∈ take (used c) (entries c) ->
    checkGPPrime (key_g k) (be_combine (key_p k)) = None;
}.

Lemma validatedDHKey_inv g p key :
  validatedDHKey g p = Some key ->
  exists z, p = Some z /\ key_g key = g /\ be_combine (key_p key) = z /\ BitLen z = 2048.
Proof.
  unfold validatedDHKey. destruct p as [z|]; [|done]. case_bool; [done|]. intros [= <-].
  bool_to_prop. exists z. simpl. split_and!; try done. apply be_combine_split.
  unfold is_unsigned, RSAKeyBits in *. split; [lia|]. unfold BitLen in *.
  replace (z =? 0) with false in * by lia. rewrite Z.abs_eq in * by lia.
  change (Z.of_nat 256 * 8) with 2048. apply Z.log2_lt_pow2; lia.
Qed.

(** Parameters that pass are of the size of the protocol, with a small generator. *)
Lemma check_uncached_range g p : check_uncached g (Some p) = None -> 0 < p < 2 ^ 2048 /\ 2 <= g <= 7.
Proof.
  unfold check_uncached, checkGPPrime. destruct (validatedDHKey g (Some p)) as [key|] eqn:E; [|done]. cbn [default].
  destruct (validatedDHKey_inv _ _ _ E) as (z & [= <-] & _ & Hz & Hb). intros Hc. split.
  - pose proof (be_combine_range (key_p key)) as Hr. unfold validatedDHKey in E.
    destruct ((p <=? 0) || _) eqn:Ep; [done|]. injection E as <-. cbn [key_p] in *.
    rewrite Hz in Hr. unfold big_FillBytes in Hr. rewrite zlen_be_split in Hr. change (8 * Z.of_nat 256) with 2048 in Hr. lia.
  - unfold CheckGP in Hc. destruct (Z.eqb_spec g 2), (Z.eqb_spec g 3), (Z.eqb_spec g 4), (Z.eqb_spec g 5), (Z.eqb_spec g 6), (Z.eqb_spec g 7); try lia; done.
Qed.

Lemma containsLocked_true c key : containsLocked c key = true <-> key ∈ take (used c) (entries c).
Proof.
  unfold containsLocked. rewrite existsb_exists. split.
  - intros (k & Hk & ?%bool_decide_eq_true_1). subst. by apply list_elem_of_In.
  - intros Hk. exists key. split; [by apply list_elem_of_In|]. by apply bool_decide_eq_true_2.
Qed.

(** Storing a checked key keeps the invariant. *)
Lemma cache_ok_store c key :
  cache_ok c -> checkGPPrime (key_g key) (be_combine (key_p key)) = None ->
  cache_ok (snd (validate_locked key None c)).
Proof.
  intros [Hl Hu Hn Hk] Hkey. unfold validate_locked. destruct (containsLocked c key); [done|].
  rewrite Hl. destruct (Nat.ltb_spec (used c) 16); split; simpl; rewrite ?length_insert; try done; try lia.
  - intros k Hin. rewrite (take_S_r _ _ key) in Hin by (apply list_lookup_insert_eq; lia).
    rewrite take_insert_ge in Hin by lia.
    apply elem_of_app in Hin as [Hin|Hin]; [by apply Hk|]. by apply list_elem_of_singleton in Hin as ->.
  - intros k Hin. assert (used c = 16%nat) as Hu16 by lia. rewrite Hu16 in *.
    rewrite !take_ge in * by (rewrite ?length_insert; lia).
    apply list_elem_of_lookup in Hin as [i Hi].
    destruct (decide (i = next c)) as [->|Hne].
    + rewrite list_lookup_insert_eq in Hi by lia. by injection Hi as <-.
    + rewrite list_lookup_insert_ne in Hi by done. apply Hk. by eapply list_elem_of_lookup_2.
Qed.

Lemma checkDHWithCache_ok c1 c2 g p :
  cache_ok c1 -> cache_ok c2 ->
  fst (checkDHWithCache c1 c2 g p) = check_uncached g p /\ cache_ok (snd (checkDHWithCache c1 c2 g p)).
Proof.
  intros H1 H2. unfold checkDHWithCache, check_uncached.
  destruct (validatedDHKey g p) as [key|] eqn:EK; [|done].
  destruct (validatedDHKey_inv _ _ _ EK) as (z & -> & Hg & Hz & _). cbn [default]. unfold default, id.
  assert (forall c, cache_ok c -> containsLocked c key = true -> checkGPPrime g z = None) as Hhit.
  { intros c Hc Hin. apply containsLocked_true, (co_checked _ Hc) in Hin. by rewrite <- Hg, <- Hz. }
  unfold validate. destruct (containsLocked c1 key) eqn:E1; [by rewrite (Hhit c1)|].
  unfold validate_locked at 1. destruct (containsLocked c2 key) eqn:E2.
  { rewrite (Hhit c2) by done. split; [done|]. unfold validate_locked. by rewrite E2. }
  destruct (checkGPPrime g z) as [e|] eqn:EC.
  - split; [done|]. unfold validate_locked. by rewrite E2.
  - split; [by destruct (Nat.ltb _ _)|]. apply cache_ok_store; [done|]. by rewrite Hg, Hz.
Qed.

Lemma dh_reachable_ok c : reachable c -> cache_ok c.
Proof.
  induction 1 as [|c1 c2 g p _ H1 _ H2].
  - split; simpl; try lia. intros k Hk. by apply not_elem_of_nil in Hk.
  - by apply checkDHWithCache_ok.
Qed.

(** C39: the cache of validated Diffie-Hellman parameters is transparent: for any
    interleaving of concurrent handshakes, a check answers exactly what the full
    validation answers, the cache never holds more than sixteen pairs, and the
    index of the entry that is replaced next stays inside the array. *)
Theorem dh_cache_transparent (c1 c2 : validatedDHParameterCache) (g : Z) (p : option Z) :
  reachable c1 -> reachable c2 ->
  fst (checkDHWithCache c1 c2 g p) = check_uncached g p /\
  (used (snd (checkDHWithCache c1 c2 g p)) <= validatedDHParameterCacheCapacity)%nat /\
  (next (snd (checkDHWithCache c1 c2 g p)) < length (entries (snd (checkDHWithCache c1 c2 g p))))%nat.
Proof.
  intros H1%dh_reachable_ok H2%dh_reachable_ok.
  destruct (checkDHWithCache_ok c1 c2 g p H1 H2) as [Heq Hok]. split; [done|]. split; [apply Hok|].
  rewrite (co_length _ Hok). apply Hok.
Qed.
End CheckDH.

Lemma dh_cache_transparent_witness :
  let c := snd (checkDHWithCache (fun _ => true) empty_cache empty_cache 4 (Some (2 ^ 2047)%Z)) in
  fst (checkDHWithCache (fun _ => true) c c 4 (Some (2 ^ 2047)%Z)) =
    check_uncached (fun _ => true) 4 (Some (2 ^ 2047)%Z) /\
  (used (snd (checkDHWithCache (fun _ => true) c c 4 (Some (2 ^ 2047)%Z))) <=
   validatedDHParameterCacheCapacity)%nat /\
  (next (snd (checkDHWithCache (fun _ => true) c c 4 (Some (2 ^ 2047)%Z))) <
   length (entries (snd (checkDHWithCache (fun _ => true) c c 4 (Some (2 ^ 2047)%Z)))))%nat.
Proof.
  intros c. assert (reachable (fun _ => true) c) as Hc by (apply reach_check; constructor).
  apply (dh_cache_transparent (fun _ => true) c c 4 (Some (2 ^ 2047)%Z) Hc Hc).
Defined.

(** CheckDHParams accepts exactly a generator strictly between 1 and p - 1
    and public values at least 2^1984 away from both ends of the group. *)
Theorem dh_params_accepted (p g gA gB : Z) :
  CheckDHParams p g gA gB = None <->
  1 < g < p - 1 /\ 2 ^ 1984 < gA < p - 2 ^ 1984 /\ 2 ^ 1984 < gB < p - 2 ^ 1984.
Proof.
  assert (1 < 2 ^ 1984) as Hpow by (by apply Z.pow_gt_1).
  unfold CheckDHParams, InRange, RSAKeyBits. change (2048 - 64) with 1984.
  set (m := 2 ^ 1984) in *. clearbody m.
  case_bool; bool_to_prop; split; intros; try done; try lia;
    exfalso; repeat match goal with H : (_ && _) = false |- _ => apply andb_false_iff in H end; lia.
Qed.
