(* ===== verification/Srp.v ===== *)
(** * crypto/srp: login with a password

    Model of src/crypto/srp (srp.go, hash.go, new_hash.go, pad.go): the answer to
    a password challenge and the hash of a new password.  The source of randomness
    and the cache of validated Diffie-Hellman parameters are the state.  Parameters:
    math/big's ProbablyPrime, PBKDF2 of golang.org/x/crypto and the xor library. *)
From S2P Require Import Prelude Io Hash Keys Exchange Dh.
From Stdlib Require Import Zpow_facts.

(** ** srp.go *)

Record Input : Type := mkInput { Salt1 : list byte; Salt2 : list byte; G : Z; P : list byte }.
Record Answer : Type := mkAnswer { A : list byte; M1 : list byte }.

(** SRP.random, and what CheckDH keeps between calls. *)
Record srp : Type := mkSRP { srp_random : Stream; srp_cache : validatedDHParameterCache }.

Section SRP.
Context (ProbablyPrime : Z -> bool).
(** pbkdf2.Key(password, salt, iter, keyLen, sha512.New) *)
Context (pbkdf2_Key : list byte -> list byte -> Z -> Z -> list byte).
Context {xor : XorLib}.

Definition xor32 (a b : list byte) : list byte := xor_Bytes a b.
Definition bigFromBytes (b : list byte) : Z := be_combine b.
Definition bigExp (x y m : Z) : Z := big_Exp x y m.

Definition checkInput (g p : Z) : GoM srp unit := fun s =>
  let '(err, cache) := checkDHWithCache ProbablyPrime (srp_cache s) (srp_cache s) g (Some p) in
  let s := mkSRP (srp_random s) cache in
  match err with Some e => (Err e, s) | None => (Ok tt, s) end.

(** ** pad.go *)

Definition pad256FromBig (i : Z) : option (list byte) := FillBytes i 256.

Definition pad256 (b : list byte) : list byte :=
  if zlen b >=? 256 then drop (Z.to_nat (zlen b - 256)) b
  else zeros (256 - zlen b) ++ b.

(** ** hash.go *)

Definition hash (data : list (list byte)) : list byte := sha256 (concat data).
Definition saltHash (data salt : list byte) : list byte := hash [salt; data; salt].
Definition primary (password salt1 salt2 : list byte) : list byte := saltHash (saltHash password salt1) salt2.
Definition pbkdf2 (ph1 salt1 : list byte) (n : Z) : list byte := pbkdf2_Key ph1 salt1 n 64.
Definition secondary (password salt1 salt2 : list byte) : list byte :=
  saltHash (pbkdf2 (primary password salt1 salt2) salt1 100000) salt2.

(** new_hash.go *)
Definition computeXV (password clientSalt serverSalt : list byte) (g p : Z) : Z * Z :=
  let x := be_combine (secondary password clientSalt serverSalt) in
  let v := big_Exp g x p in
  (x, v).

(** [k.Mul(k, v).Mod(k, p)] is the Euclidean remainder. *)
Definition Hash (password srpB random : list byte) (i : Input) : GoM srp Answer :=
  let p := bigFromBytes (P i) in
  wrapping "validate algo" (checkInput (G i) p) ;;!
  let g := G i in
  let gBytes := big_FillBytes (Z.abs g) 256 in
  let a := bigFromBytes random in
  match pad256FromBig (bigExp g a p) with
  | None => fail (Errorf "g_a is too big")
  | Some ga =>
      let gb := pad256 srpB in
      let u := bigFromBytes (hash [ga; gb]) in
      let '(x, v) := computeXV password (Salt1 i) (Salt2 i) g p in
      let k := bigFromBytes (hash [P i; gBytes]) in
      let kv := (k * v) mod p in
      let t := bigFromBytes srpB - kv in
      let t := if t <? 0 then t + p else t in
      match pad256FromBig (bigExp t (u * x + a) p) with
      | None => fail (Errorf "s_a is too big")
      | Some sa =>
          let ka := sha256 sa in
          let xorHpHg := xor32 (sha256 (P i)) (sha256 gBytes) in
          ret (mkAnswer ga (hash [xorHpHg; hash [Salt1 i]; hash [Salt2 i]; ga; gb; ka]))
      end
  end.

(** ** new_hash.go *)

(** A result of FillBytes that is not checked leaves the array at zero. *)
Definition NewHash (password : list byte) (i : Input) : GoM srp (list byte * list byte) :=
  let p := be_combine (P i) in
  wrapping "validate algo" (checkInput (G i) p) ;;!
  let! tail := (fun s => let '(r, rnd) := must_read 32 (srp_random s) in (r, mkSRP rnd (srp_cache s))) in
  let newClientSalt := Salt1 i ++ tail in
  let '(_, v) := computeXV password newClientSalt (Salt2 i) (G i) p in
  let padded := default (zeros 256) (pad256FromBig v) in
  ret (padded, newClientSalt).

(** ** What the server knows and computes

    The server of the protocol (core.telegram.org/api/srp) stores the verifier [v]
    and the salts.  It draws [b], sends B, and accepts the proof M1 that it computes
    from the key that A and its secrets give. *)

Definition server_k (i : Input) : Z := be_combine (sha256 (P i ++ be_split 256 (G i))).

Definition server_B (i : Input) (v b : Z) : Z :=
  let p := be_combine (P i) in (server_k i * v + G i ^ b mod p) mod p.

Definition server_key (i : Input) (v b A : Z) : Z :=
  let p := be_combine (P i) in
  let u := be_combine (sha256 (be_split 256 A ++ be_split 256 (server_B i v b))) in
  (A * v ^ u) ^ b mod p.

Definition server_M1 (i : Input) (v b A : Z) : list byte :=
  sha256 (xor_bytes (sha256 (P i)) (sha256 (be_split 256 (G i))) ++ sha256 (Salt1 i) ++ sha256 (Salt2 i) ++
          be_split 256 A ++ be_split 256 (server_B i v b) ++ sha256 (be_split 256 (server_key i v b A))).

(** ** Lemmas *)

(** Padding and cutting keep the number modulo 2^2048. *)
Lemma pad256_number b : pad256 b = be_split 256 (be_combine b).
Proof.
  unfold pad256. rewrite Z.geb_leb. destruct (Z.leb_spec 256 (zlen b)).
  - set (d := drop _ b). assert (length d = 256%nat) as Hd.
    { subst d. rewrite length_drop. unfold zlen in *. lia. }
    rewrite <- (be_split_combine d 256 Hd) at 1. unfold be_split, be_combine. f_equal.
    rewrite (le_split_mod (le_combine (rev b))). change (Z.of_nat 256 * 8) with (8 * Z.of_nat 256).
    rewrite <- le_combine_firstn, firstn_rev. subst d. do 4 f_equal. unfold zlen in *. lia.
  - rewrite <- (be_split_combine (zeros (256 - zlen b) ++ b) 256) at 1.
    + f_equal. unfold be_combine, zeros. rewrite rev_app_distr.
      replace (replicate _ _) with (List.repeat Byte.x00 (Z.to_nat (256 - zlen b))) by (induction (Z.to_nat _); simpl; congruence).
      rewrite rev_repeat. apply le_combine_app_0.
    + unfold zeros. rewrite length_app, length_replicate. unfold zlen in *. lia.
Qed.

Lemma big_Exp_mod x y m : 0 <= y -> 0 < m -> big_Exp x y m = x ^ y mod m.
Proof. intros. unfold big_Exp. apply Zpow_mod_correct. lia. Qed.

(** The client takes k*v from what the server sent, and gets the power of the server back. *)
Lemma unblind p kv gb : 0 < p ->
  let t := (kv + gb mod p) mod p - kv mod p in
  (if t <? 0 then t + p else t) mod p = gb mod p.
Proof.
  intros Hp t. assert (t mod p = gb mod p) as Ht.
  { subst t. rewrite <- Zminus_mod. replace (kv + gb mod p - kv) with (gb mod p) by lia. apply Zmod_mod. }
  destruct (t <? 0); [|done]. rewrite <- Ht. rewrite <- (Z.mul_1_l p) at 1. by rewrite Z_mod_plus_full.
Qed.

(** Both sides raise the generator to b * (a + u * x). *)
Lemma srp_powers p g a b x u t : 0 < p -> 0 <= a -> 0 <= b -> 0 <= x -> 0 <= u ->
  t mod p = g ^ b mod p ->
  t ^ (u * x + a) mod p = ((g ^ a mod p) * (g ^ x mod p) ^ u) ^ b mod p.
Proof.
  intros Hp Ha Hb Hx Hu Ht. rewrite (Zpower_mod t) by lia. rewrite Ht, <- Zpower_mod by lia.
  rewrite (Zpower_mod (_ * _)), Zmult_mod_idemp_l, <- Zmult_mod_idemp_r, <- (Zpower_mod (g ^ x)) by lia.
  rewrite Zmult_mod_idemp_r, <- Zpower_mod, <- !Z.pow_mul_r, <- Z.pow_add_r, <- Z.pow_mul_r by nia.
  do 2 f_equal. lia.
Qed.

(** The check of the group, by its answer without a cache. *)
Lemma checkInput_run g p s : reachable ProbablyPrime (srp_cache s) ->
  exists cache, reachable ProbablyPrime cache /\
  checkInput g p s =
    (match check_uncached ProbablyPrime g (Some p) with Some e => Err e | None => Ok tt end, mkSRP (srp_random s) cache).
Proof.
  intros Hr. unfold checkInput.
  pose proof (reach_check ProbablyPrime _ _ g (Some p) Hr Hr) as Hr'.
  apply dh_reachable_ok in Hr as Hok.
  destruct (checkDHWithCache_ok ProbablyPrime _ _ g (Some p) Hok Hok) as [Hf _].
  destruct (checkDHWithCache _ _ _ _ _) as [err cache]. cbn [fst snd] in *. subst err.
  exists cache. split; [done|]. by destruct (check_uncached _ _ _).
Qed.

Lemma wrapped_check g p s e cache {B} (k : unit -> GoM srp B) :
  checkInput g p s = (match e with Some e => Err e | None => Ok tt end, cache) ->
  (wrapping "validate algo" (checkInput g p) ;;! k tt) s =
  match e with Some e => (Err (Wrap e "validate algo"), cache) | None => k tt cache end.
Proof. intros H. unfold bind, wrapping. rewrite H. by destruct e. Qed.

Lemma pad_power g y p : 0 < p < 2 ^ 2048 -> 0 <= y -> pad256FromBig (big_Exp g y p) = Some (be_split 256 (g ^ y mod p)).
Proof.
  intros Hp Hy. unfold pad256FromBig. rewrite big_Exp_mod by lia. apply (FillBytes_fits _ 256); [lia|].
  change (8 * 256) with 2048. pose proof (Z.mod_pos_bound (g ^ y) p). lia.
Qed.

Lemma power_unsigned g y p : 0 < p < 2 ^ 2048 -> is_unsigned (Z.of_nat 256 * 8) (g ^ y mod p).
Proof.
  intros Hp. unfold is_unsigned. change (Z.of_nat 256 * 8) with 2048. pose proof (Z.mod_pos_bound (g ^ y) p). lia.
Qed.

(** The verifier of a password. *)
Definition verifier (password : list byte) (i : Input) : Z :=
  G i ^ be_combine (secondary password (Salt1 i) (Salt2 i)) mod be_combine (P i).

Lemma NewHash_run password i s hash salt s' : reachable ProbablyPrime (srp_cache s) ->
  NewHash password i s = (Ok (hash, salt), s') ->
  check_uncached ProbablyPrime (G i) (Some (be_combine (P i))) = None /\
  (exists tail, zlen tail = 32 /\ salt = Salt1 i ++ tail /\ incoming (srp_random s) = tail ++ incoming (srp_random s')) /\
  zlen hash = 256 /\ be_combine hash = verifier password (mkInput salt (Salt2 i) (G i) (P i)).
Proof.
  intros Hr Hn. unfold NewHash in Hn. destruct (checkInput_run (G i) (be_combine (P i)) s Hr) as (cache & _ & Hc).
  rewrite (wrapped_check _ _ _ _ _ (fun _ => _) Hc) in Hn.
  destruct (check_uncached _ _ _) eqn:Eu; [done|]. split; [done|].
  apply check_uncached_range in Eu as [Hp Hg].
  apply bind_inv_ok in Hn as (tail & s1 & Ht & Hn). cbn [srp_random srp_cache] in Ht.
  destruct (must_read 32 (srp_random s)) as [r rnd] eqn:Em. injection Ht as -> <-.
  apply must_read_inv in Em as (Hin & Hl & _); [|lia].
  unfold computeXV in Hn. rewrite pad_power in Hn by (try apply be_combine_range; done).
  injection Hn as <- <- <-. split; [by exists tail|]. split; [apply zlen_be_split|].
  apply be_combine_split. by apply power_unsigned.
Qed.

(** With a good group and enough randomness a hash is made. *)
Lemma NewHash_total password i s tail rest e : reachable ProbablyPrime (srp_cache s) ->
  check_uncached ProbablyPrime (G i) (Some (be_combine (P i))) = None ->
  srp_random s = mkStream (tail ++ rest) e -> zlen tail = 32 ->
  exists hash s', NewHash password i s = (Ok (hash, Salt1 i ++ tail), s').
Proof.
  intros Hr Hu Hs Hl. destruct (checkInput_run (G i) (be_combine (P i)) s Hr) as (cache & _ & Hc).
  eexists _, _. unfold NewHash. rewrite (wrapped_check _ _ _ _ _ (fun _ => _) Hc), Hu.
  unfold bind at 1. cbn [srp_random srp_cache]. rewrite Hs, must_read_app by done. reflexivity.
Qed.

Context `{!LawfulXor}.

Lemma Hash_run password srpB random i s b : reachable ProbablyPrime (srp_cache s) ->
  check_uncached ProbablyPrime (G i) (Some (be_combine (P i))) = None -> 0 <= b ->
  be_combine srpB = server_B i (verifier password i) b ->
  exists s', Hash password srpB random i s =
    (Ok (mkAnswer (be_split 256 (G i ^ be_combine random mod be_combine (P i)))
          (server_M1 i (verifier password i) b (G i ^ be_combine random mod be_combine (P i)))), s').
Proof.
  intros Hr Hu Hb HB. unfold Hash. destruct (checkInput_run (G i) (be_combine (P i)) s Hr) as (cache & _ & Hc).
  exists (mkSRP (srp_random s) cache). unfold bigFromBytes, bigExp.
  rewrite (wrapped_check _ _ _ _ _ (fun _ => _) Hc), Hu. apply check_uncached_range in Hu as [Hp Hg].
  cbv zeta. rewrite (Z.abs_eq (G i)) by lia. rewrite pad_power by (try apply be_combine_range; done).
  unfold computeXV. rewrite (big_Exp_mod (G i) (be_combine (secondary _ _ _))) by (try apply be_combine_range; lia).
  fold (verifier password i).
  rewrite pad256_number, HB. unfold hash. cbn [concat]. rewrite !app_nil_r.
  change (be_combine (sha256 (P i ++ big_FillBytes (G i) 256))) with (server_k i).
  set (p := be_combine (P i)) in *. set (a := be_combine random) in *. set (ga := G i ^ a mod p).
  set (x := be_combine (secondary _ _ _)). set (u := be_combine (sha256 (_ ++ _))).
  assert (0 <= a) by apply be_combine_range. assert (0 <= x) by apply be_combine_range.
  assert (0 <= u) by apply be_combine_range.
  rewrite pad_power by nia. rewrite (srp_powers p (G i) a b x u); [|lia..|apply unblind; lia].
  unfold xor32. rewrite xor_Bytes_spec by (by rewrite !zlen_sha256). reflexivity.
Qed.

(** C9: A password that was set can be used: the server keeps only the hash and the salt
    that NewHash made, and for every challenge that it makes from them the client
    answers with the proof that the server expects. *)
Theorem srp_login (password : list byte) (i0 : Input) (s0 s1 : srp) (hash salt : list byte) (s : srp)
    (srpB random : list byte) (b : Z) :
  reachable ProbablyPrime (srp_cache s0) -> NewHash password i0 s0 = (Ok (hash, salt), s1) ->
  reachable ProbablyPrime (srp_cache s) -> 0 <= b ->
  let i := mkInput salt (Salt2 i0) (G i0) (P i0) in
  be_combine srpB = server_B i (be_combine hash) b ->
  exists answer s', Hash password srpB random i s = (Ok answer, s') /\
    be_combine (A answer) = G i ^ be_combine random mod be_combine (P i) /\
    M1 answer = server_M1 i (be_combine hash) b (be_combine (A answer)).
Proof.
  intros H0 Hn Hs Hb i HB. destruct (NewHash_run _ _ _ _ _ _ H0 Hn) as (Hu & _ & _ & Hv). fold i in Hv.
  rewrite Hv in *. destruct (Hash_run password srpB random i s b Hs Hu Hb HB) as (s' & Hrun).
  eexists _, s'. split; [exact Hrun|]. cbn [A M1].
  rewrite be_combine_split by (apply power_unsigned, (check_uncached_range ProbablyPrime (G i) (be_combine (P i)) Hu)). done.
Qed.

(** A group that fails the checks of Diffie-Hellman parameters is refused before the
    password is used and before randomness is drawn. *)
Theorem srp_refuses_group (password srpB random : list byte) (i : Input) (s : srp) (e : error) :
  reachable ProbablyPrime (srp_cache s) ->
  check_uncached ProbablyPrime (G i) (Some (be_combine (P i))) = Some e ->
  exists s', Hash password srpB random i s = (Err (Wrap e "validate algo"), s') /\
    NewHash password i s = (Err (Wrap e "validate algo"), s') /\ srp_random s' = srp_random s.
Proof.
  intros Hs He. destruct (checkInput_run (G i) (be_combine (P i)) s Hs) as (cache & _ & Hc).
  eexists. unfold Hash, NewHash, bigFromBytes. rewrite !(wrapped_check _ _ _ _ _ (fun _ => _) Hc), He. done.
Qed.
End SRP.

Section Sample.
(** A group that passes with a primality test that accepts everything, and a stand-in
    for PBKDF2 that returns the password. *)
Definition sample_algo : Input := mkInput [Byte.x01] [Byte.x02] 4 (be_split 256 (2 ^ 2047)).
Definition sample_srp : srp := mkSRP (mkStream (replicate 40 Byte.x05) EOF) empty_cache.
Definition sample_pbkdf2 (password salt : list byte) (iter len : Z) : list byte := password.
#[local] Instance xor_sample : XorLib := xor_bytes.
#[local] Instance xor_sample_lawful : LawfulXor.
Proof. done. Qed.

Lemma sample_group : be_combine (P sample_algo) = 2 ^ 2047.
Proof. apply be_combine_split. split; [by vm_compute|vm_compute; reflexivity]. Qed.

Lemma sample_check : check_uncached (fun _ => true) (G sample_algo) (Some (be_combine (P sample_algo))) = None.
Proof. rewrite sample_group. vm_compute. reflexivity. Qed.

Lemma sample_new_hash : exists hash s1,
  NewHash (fun _ => true) sample_pbkdf2 [Byte.x70] sample_algo sample_srp =
    (Ok (hash, Salt1 sample_algo ++ replicate 32 Byte.x05), s1).
Proof.
  exact (NewHash_total (fun _ => true) sample_pbkdf2 [Byte.x70] sample_algo sample_srp (replicate 32 Byte.x05)
           (replicate 8 Byte.x05) EOF (reach_init _) sample_check eq_refl eq_refl).
Qed.

(** The server draws the exponent 7. *)
Lemma srp_login_witness : exists hash s1,
  NewHash (fun _ => true) sample_pbkdf2 [Byte.x70] sample_algo sample_srp =
    (Ok (hash, Salt1 sample_algo ++ replicate 32 Byte.x05), s1) /\
  let i := mkInput (Salt1 sample_algo ++ replicate 32 Byte.x05) (Salt2 sample_algo) (G sample_algo) (P sample_algo) in
  exists answer s',
    Hash (fun _ => true) sample_pbkdf2 [Byte.x70] (big_Bytes (server_B i (be_combine hash) 7)) [Byte.x03] i sample_srp =
      (Ok answer, s') /\
    be_combine (A answer) = G i ^ be_combine [Byte.x03] mod be_combine (P i) /\
    M1 answer = server_M1 i (be_combine hash) 7 (be_combine (A answer)).
Proof.
  destruct sample_new_hash as (hash & s1 & Hn). exists hash, s1. split; [exact Hn|]. intros i.
  apply (srp_login (fun _ => true) sample_pbkdf2 [Byte.x70] sample_algo sample_srp s1 hash _ sample_srp
           (big_Bytes (server_B i (be_combine hash) 7)) [Byte.x03] 7 (reach_init _) Hn (reach_init _)); [lia|].
  apply be_combine_big_Bytes. unfold server_B. apply Z.mod_pos_bound. cbv zeta. unfold i. cbn [P]. rewrite sample_group.
  apply Z.pow_pos_nonneg; lia.
Defined.

Lemma srp_refuses_group_witness :
  let i := mkInput [] [] 4 [Byte.x17] in
  exists s', Hash (fun _ => true) sample_pbkdf2 [Byte.x70] [Byte.x01] [Byte.x03] i sample_srp =
    (Err (Wrap (Errorf "p should be 2^2047 < p < 2^2048") "validate algo"), s') /\
    NewHash (fun _ => true) sample_pbkdf2 [Byte.x70] i sample_srp =
    (Err (Wrap (Errorf "p should be 2^2047 < p < 2^2048") "validate algo"), s') /\ srp_random s' = srp_random sample_srp.
Proof.
  apply (srp_refuses_group (fun _ => true) sample_pbkdf2 [Byte.x70] [Byte.x01] [Byte.x03] (mkInput [] [] 4 [Byte.x17])
           sample_srp (Errorf "p should be 2^2047 < p < 2^2048") (reach_init _)). reflexivity.
Defined.
End Sample.
