(* ===== verification/Download.v ===== *)
(** * telegram/downloader: downloads in parts

    Model of src/telegram/downloader reader.go, verifier.go, retry.go, sink.go,
    stream.go and parallel.go: the goroutines of one download as a system of
    interleaved steps.  A thread takes the next part of the file from the reader,
    asks the schema for it, checks it against a hash when the reader verifies, and
    hands it to the writer over a channel.  What the servers answer to a request is
    a relation, so the theorems hold for every sequence of answers; the rows that
    retry report an event.  Locked sections are one step each.  A file that is
    written in parallel is the sequence of the WriteAt calls. *)
From S2P Require Import Prelude Tgerr Hash Tg.

(** ** client.go, reader.go: parts *)

(** [tag] is the StorageFileTypeClass, nil when there is none. *)
Record chunk : Type := mkChunk { data : list byte; tag : option Z }.
Record block : Type := mkBlock { b_chunk : chunk; offset : Z; partSize : Z }.

Definition block_last (b : block) : bool := zlen (data (b_chunk b)) <? partSize b.

(** ** retry.go *)

Definition ErrTimeout : list byte := bytes_of_string "Timeout".

(** [timeout]: whether the error is a net.Error with Timeout(). *)
Definition isRetryableTimeout (timeout : error -> bool) (ctxErr : option error) (err : error) : bool :=
  match ctxErr with
  | Some _ => false
  | None => IsOneOfTypes err [ErrTimeout] || Is err DeadlineExceeded || timeout err
  end.

(** retry_event.go *)
Record RetryEvent : Type := mkEvent { Operation : string; Attempt : Z; Err_ : error }.
Definition RetryOperationReaderChunk : string := "reader.chunk".
Definition RetryOperationReaderHashes : string := "reader.hashes".

(** ** verifier.go *)

Record verifier : Type := mkVerifier { v_hashes : list FileHash; v_offset : Z }.

Definition by_offset (x y : FileHash) : bool := fh_Offset x <? fh_Offset y.

Definition hash_end (h : FileHash) : Z := i64 (fh_Offset h + fh_Limit h).

Definition newVerifier (hashes : list FileHash) : verifier :=
  let r := Stable by_offset hashes in
  let step nextOffset h :=
    if fh_Limit h <=? 0 then nextOffset
    else if hash_end h >? nextOffset then hash_end h else nextOffset in
  mkVerifier r (fold_left step r 0).

Definition pop (v : verifier) : option FileHash * verifier :=
  match v_hashes v with
  | [] => (None, v)
  | h :: hs => (Some h, mkVerifier hs (v_offset v))
  end.

Definition update (hashes : list FileHash) (v : verifier) : option FileHash * verifier :=
  match last (Stable by_offset hashes) with
  | None => (None, v)
  | Some l =>
      if fh_Offset l =? i64 (v_offset v - fh_Limit l) then (None, v)
      else pop (mkVerifier (v_hashes v ++ Stable by_offset hashes) (hash_end l))
  end.

Definition verify (h : FileHash) (d : list byte) : bool := bool_decide (sha256 d = fh_Hash h).

(** ** The goroutines of a download *)

(** reader: [rd_verifier] is nil for a plain reader; [rd_lock] is the thread that
    holds the lock of the verifier while it asks for hashes. *)
Record reader : Type := mkReader {
  rd_offset : Z; rd_verifier : option verifier; rd_lock : option nat }.

(** Where a download thread is: at the head of its loop, before [r.Next], at the
    request for hashes or for a part, at the channel, or at its end. *)
Inductive pc : Type :=
| Head
| Take
| Hashing (attempt : Z)
| Fetch (o limit : Z) (h : option FileHash) (attempt : Z)
| Sending (b : block)
| Exited (err : option error).

(** The writer: in its loop, or at its end. *)
Inductive wpc : Type := Writing | WExited (err : option error).

(** [dl_group] is the first error of the download threads, [dl_error] the one of the
    outer group; [dl_parent] tells whether the context of the caller has ended. *)
Record download : Type := mkDownload {
  dl_reader : reader;
  dl_threads : list pc;
  dl_queue : list block;
  dl_closed : bool;
  dl_ready : bool;
  dl_typ : option (option Z);
  dl_writer : wpc;
  dl_log : list block;
  dl_group : option error;
  dl_error : option error;
  dl_parent : option error;
  dl_events : list RetryEvent }.

Definition set_reader (r : reader) (s : download) : download :=
  mkDownload r (dl_threads s) (dl_queue s) (dl_closed s) (dl_ready s) (dl_typ s) (dl_writer s) (dl_log s)
    (dl_group s) (dl_error s) (dl_parent s) (dl_events s).
Definition set_pc (i : nat) (p : pc) (s : download) : download :=
  mkDownload (dl_reader s) (<[i := p]> (dl_threads s)) (dl_queue s) (dl_closed s) (dl_ready s) (dl_typ s)
    (dl_writer s) (dl_log s) (dl_group s) (dl_error s) (dl_parent s) (dl_events s).
Definition set_queue (q : list block) (s : download) : download :=
  mkDownload (dl_reader s) (dl_threads s) q (dl_closed s) (dl_ready s) (dl_typ s) (dl_writer s) (dl_log s)
    (dl_group s) (dl_error s) (dl_parent s) (dl_events s).
Definition set_closed (s : download) : download :=
  mkDownload (dl_reader s) (dl_threads s) (dl_queue s) true (dl_ready s) (dl_typ s) (dl_writer s) (dl_log s)
    (dl_group s) (dl_error s) (dl_parent s) (dl_events s).
Definition set_ready (t : option (option Z)) (s : download) : download :=
  mkDownload (dl_reader s) (dl_threads s) (dl_queue s) (dl_closed s) true t (dl_writer s) (dl_log s)
    (dl_group s) (dl_error s) (dl_parent s) (dl_events s).
Definition set_writer (w : wpc) (l : list block) (s : download) : download :=
  mkDownload (dl_reader s) (dl_threads s) (dl_queue s) (dl_closed s) (dl_ready s) (dl_typ s) w l
    (dl_group s) (dl_error s) (dl_parent s) (dl_events s).
Definition set_errors (g e : option error) (s : download) : download :=
  mkDownload (dl_reader s) (dl_threads s) (dl_queue s) (dl_closed s) (dl_ready s) (dl_typ s) (dl_writer s)
    (dl_log s) g e (dl_parent s) (dl_events s).
Definition set_parent (e : error) (s : download) : download :=
  mkDownload (dl_reader s) (dl_threads s) (dl_queue s) (dl_closed s) (dl_ready s) (dl_typ s) (dl_writer s)
    (dl_log s) (dl_group s) (dl_error s) (Some e) (dl_events s).
Definition report (op : string) (attempt : Z) (e : error) (s : download) : download :=
  mkDownload (dl_reader s) (dl_threads s) (dl_queue s) (dl_closed s) (dl_ready s) (dl_typ s) (dl_writer s)
    (dl_log s) (dl_group s) (dl_error s) (dl_parent s) (dl_events s ++ [mkEvent op attempt e]).

Definition first_error (old new : option error) : option error :=
  match old with Some e => Some e | None => new end.

(** The contexts: the one of the outer group ends with it or with the caller's, the
    one of the download threads also with theirs. *)
Definition outer_err (s : download) : option error :=
  match dl_parent s with Some e => Some e | None => match dl_error s with Some _ => Some Canceled | None => None end end.
Definition inner_err (s : download) : option error :=
  match outer_err s with Some e => Some e | None => match dl_group s with Some _ => Some Canceled | None => None end end.

Section System.
Context (timeout : error -> bool).
(** What the schema may answer: Chunk(offset, limit) and Hashes(offset). *)
Context (chunk_answer : Z -> Z -> outcome chunk -> Prop) (hash_answer : Z -> outcome (list FileHash) -> Prop).
(** [par]: parallel or stream; [size] is the part size of the reader. *)
Context (par : bool) (size : Z).

(** A download thread returns: its error goes to the group of the threads, and in a
    stream, where the thread is the only one, to the outer group. *)
Definition exit_thread (i : nat) (err : option error) (s : download) : download :=
  let s := set_pc i (Exited err) s in
  if par then set_errors (first_error (dl_group s) err) (dl_error s) s
  else set_errors (first_error (dl_group s) err) (first_error (dl_error s) err) s.

(** stop: the type of the file is set once, by the first thread; a stream closes the
    channel. *)
Definition stop (t : option Z) (s : download) : download :=
  if par then set_ready (match dl_typ s with Some t' => Some t' | None => Some t end) s
  else set_closed (set_ready (Some t) s).

(** What a thread does with a part: an empty one ends the download. *)
Definition received (i : nat) (b : block) (s : download) : download :=
  if zlen (data (b_chunk b)) <? 1 then exit_thread i None (stop (tag (b_chunk b)) s)
  else set_pc i (Sending b) s.

Definition part_size (r : reader) : Z := match rd_verifier r with Some _ => 0 | None => size end.

(** Capacity of the channel to the writer. *)
Definition capacity (s : download) : nat := if par then length (dl_threads s) else 1.

(** A transient error: a flood wait that was slept, or a timeout. *)
Definition transient (ctxErr : option error) (e : error) : bool :=
  match FloodWait e ctxErr with (flood, err, _) => flood || isRetryableTimeout timeout ctxErr err end.
(** The error that is returned otherwise. *)
Definition final_error (ctxErr : option error) (e : error) : error :=
  match FloodWait e ctxErr with (_, err, _) => err end.

Inductive step : download -> download -> Prop :=
(* the head of the loop of a thread *)
| step_head_ctx s i e :
    par = true -> dl_threads s !! i = Some Head -> inner_err s = Some e ->
    step s (exit_thread i (Some e) s)
| step_head_ready s i :
    par = true -> dl_threads s !! i = Some Head -> dl_ready s = true ->
    step s (exit_thread i None s)
| step_head s i :
    dl_threads s !! i = Some Head -> (par = true -> inner_err s = None /\ dl_ready s = false) ->
    step s (set_pc i Take s)
(* reader.Next: nextPlain, and verifier.next under its lock *)
| step_plain s i :
    dl_threads s !! i = Some Take -> rd_verifier (dl_reader s) = None ->
    let r := dl_reader s in
    step s (set_pc i (Fetch (rd_offset r) size None 0)
              (set_reader (mkReader (i64 (rd_offset r + size)) None (rd_lock r)) s))
| step_pop s i v h v' :
    dl_threads s !! i = Some Take -> rd_verifier (dl_reader s) = Some v -> rd_lock (dl_reader s) = None ->
    pop v = (Some h, v') ->
    step s (set_pc i (Fetch (fh_Offset h) (fh_Limit h) (Some h) 0)
              (set_reader (mkReader (rd_offset (dl_reader s)) (Some v') None) s))
| step_lock s i v v' :
    dl_threads s !! i = Some Take -> rd_verifier (dl_reader s) = Some v -> rd_lock (dl_reader s) = None ->
    pop v = (None, v') ->
    step s (set_pc i (Hashing 0) (set_reader (mkReader (rd_offset (dl_reader s)) (Some v) (Some i)) s))
| step_hashes s i a v hs h v' :
    dl_threads s !! i = Some (Hashing a) -> rd_verifier (dl_reader s) = Some v ->
    hash_answer (v_offset v) (Ok hs) -> update hs v = (h, v') ->
    let s' := set_reader (mkReader (rd_offset (dl_reader s)) (Some v') None) s in
    step s (match h with
            | Some h => set_pc i (Fetch (fh_Offset h) (fh_Limit h) (Some h) 0) s'
            | None => received i (mkBlock (mkChunk [] None) 0 0) s'
            end)
| step_hashes_retry s i a v e :
    dl_threads s !! i = Some (Hashing a) -> rd_verifier (dl_reader s) = Some v ->
    hash_answer (v_offset v) (Err e) -> transient (inner_err s) e = true ->
    step s (set_pc i (Hashing (a + 1))
              (report RetryOperationReaderHashes (a + 1) (final_error (inner_err s) e) s))
| step_hashes_fail s i a v e :
    dl_threads s !! i = Some (Hashing a) -> rd_verifier (dl_reader s) = Some v ->
    hash_answer (v_offset v) (Err e) -> transient (inner_err s) e = false ->
    step s (exit_thread i (Some (Wrap (Wrap (final_error (inner_err s) e) "get hashes") "get file"))
              (set_reader (mkReader (rd_offset (dl_reader s)) (Some v) None) s))
(* reader.next *)
| step_chunk s i o limit h a c :
    dl_threads s !! i = Some (Fetch o limit h a) -> chunk_answer o limit (Ok c) ->
    let b := mkBlock c o (part_size (dl_reader s)) in
    step s (match h with
            | Some h' => if verify h' (data c) then received i b s
                         else exit_thread i (Some (Wrap ErrHashMismatch "get file")) s
            | None => received i b s
            end)
| step_chunk_retry s i o limit h a e :
    dl_threads s !! i = Some (Fetch o limit h a) -> chunk_answer o limit (Err e) ->
    transient (inner_err s) e = true ->
    step s (set_pc i (Fetch o limit h (a + 1))
              (report RetryOperationReaderChunk (a + 1) (final_error (inner_err s) e) s))
| step_chunk_fail s i o limit h a e :
    dl_threads s !! i = Some (Fetch o limit h a) -> chunk_answer o limit (Err e) ->
    transient (inner_err s) e = false ->
    step s (exit_thread i (Some (Wrap (Wrap (final_error (inner_err s) e) "get next chunk") "get file")) s)
(* the channel *)
| step_send s i b :
    dl_threads s !! i = Some (Sending b) -> (length (dl_queue s) < capacity s)%nat ->
    let s' := set_queue (dl_queue s ++ [b]) s in
    step s (if block_last b then exit_thread i None (stop (tag (b_chunk b)) s') else set_pc i Head s')
| step_send_ctx s i b e :
    dl_threads s !! i = Some (Sending b) -> inner_err s = Some e ->
    step s (exit_thread i (Some e) s)
(* the download function of a parallel download ends: close, and the error of the group *)
| step_close s :
    par = true -> dl_closed s = false -> Forall (fun p => exists e, p = Exited e) (dl_threads s) ->
    step s (set_errors (dl_group s) (first_error (dl_error s) (dl_group s)) (set_closed s))
(* the writer *)
| step_write s b q :
    dl_writer s = Writing -> dl_queue s = b :: q ->
    step s (set_writer Writing (dl_log s ++ [b]) (set_queue q s))
| step_write_fail s b q e :
    dl_writer s = Writing -> dl_queue s = b :: q ->
    step s (set_errors (dl_group s) (first_error (dl_error s) (Some (Wrap e "write output")))
              (set_writer (WExited (Some (Wrap e "write output"))) (dl_log s) (set_queue q s)))
| step_writer_done s :
    dl_writer s = Writing -> dl_queue s = [] -> dl_closed s = true ->
    step s (set_writer (WExited None) (dl_log s) s)
| step_writer_ctx s e :
    dl_writer s = Writing -> outer_err s = Some e ->
    step s (set_errors (dl_group s) (first_error (dl_error s) (Some e))
              (set_writer (WExited (Some e)) (dl_log s) s))
(* the context of the caller ends *)
| step_parent s e : dl_parent s = None -> step s (set_parent e s).

(** plainReader, verifiedReader: [hashes] are given for a verifying one. *)
Definition new_reader (hashes : option (list FileHash)) : reader :=
  mkReader 0 (option_map newVerifier hashes) None.

(** The start of [parallel] with [threads] threads, and of [stream] with one. *)
Definition init (threads : nat) (hashes : option (list FileHash)) : download :=
  mkDownload (new_reader hashes) (replicate threads Head) [] false false None Writing [] None None None [].

Inductive reachable (threads : nat) (hashes : option (list FileHash)) : download -> Prop :=
| reach_init : reachable threads hashes (init threads hashes)
| reach_step s s' : reachable threads hashes s -> step s s' -> reachable threads hashes s'.

(** [g.Wait()] has returned: every goroutine has. *)
Definition finished (s : download) : Prop :=
  Forall (fun p => exists e, p = Exited e) (dl_threads s) /\ (exists e, dl_writer s = WExited e) /\
  (par = true -> dl_closed s = true).
End System.

(** ** Downloads of an unverified file from an honest server *)

(** What io.WriterAt makes of the calls: bytes beyond the end of the file extend it
    with zeros (syncio.BufWriterAt, or a file). *)
Definition WriteAt (p : list byte) (off : Z) (buf : list byte) : list byte :=
  let ends := zlen p + off in
  let buf := if zlen buf <? ends then buf ++ zeros (ends - zlen buf) else buf in
  take (Z.to_nat off) buf ++ p ++ drop (Z.to_nat ends) buf.

Definition written_at (log : list block) : list byte :=
  fold_left (fun buf b => WriteAt (data (b_chunk b)) (offset b) buf) log [].

(** What io.Writer makes of them. *)
Definition written (log : list block) : list byte := concat (map (fun b => data (b_chunk b)) log).

(** The part of a file at an offset. *)
Definition part_of (file : list byte) (o limit : Z) : list byte := take (Z.to_nat limit) (drop (Z.to_nat o) file).

Section Honest.
Context (timeout : error -> bool) (chunk_answer : Z -> Z -> outcome chunk -> Prop)
        (hash_answer : Z -> outcome (list FileHash) -> Prop) (par : bool) (size : Z) (threads : nat).
Context (file : list byte).

(** The server sends the bytes of the file, or an error. *)
Definition honest : Prop := forall o limit c, 0 <= o -> chunk_answer o limit (Ok c) -> data c = part_of file o limit.

Context (Hhonest : honest) (Hsize : 0 < size) (Hthreads : (0 < threads)%nat) (Hstream : par = false -> threads = 1%nat)
        (Hfits : zlen file + (Z.of_nat threads + 2) * size < 2 ^ 63).

Abbreviation step := (step timeout chunk_answer hash_answer par size).
Abbreviation reachable := (reachable timeout chunk_answer hash_answer par size threads None).

Definition pc_offset (p : pc) : list Z :=
  match p with Fetch o _ _ _ => [o] | Sending b => [offset b] | _ => [] end.
(** A thread that has read past the end of the file, or returned. *)
Definition past (p : pc) : list unit :=
  match p with Fetch o _ _ _ => if zlen file <=? o then [tt] else [] | Exited _ => [tt] | _ => [] end.

Definition offsets (s : download) : list Z :=
  flat_map pc_offset (dl_threads s) ++ map offset (dl_queue s) ++ map offset (dl_log s).
Definition multiples (k : nat) : list Z := map (fun j => Z.of_nat j * size) (seq 0 k).

Definition no_error (s : download) : Prop := dl_group s = None /\ dl_error s = None.

(** A block that holds its part of the file. *)
Definition good (b : block) : Prop :=
  0 <= offset b /\ data (b_chunk b) = part_of file (offset b) size /\ data (b_chunk b) <> [] /\ partSize b = size.

(** What a thread may be doing when the reader is at [off]. *)
Definition pc_ok (off : Z) (ready : bool) (p : pc) : Prop :=
  match p with
  | Fetch o l h _ => l = size /\ h = None /\ 0 <= o /\ o + size <= off
  | Sending b => good b /\ offset b + size <= off
  | Hashing _ => False
  | Exited None => ready = true
  | _ => True
  end.

Definition exited (p : pc) : Prop := exists e, p = Exited e.

Record inv (s : download) : Prop := {
  i_plain : rd_verifier (dl_reader s) = None;
  i_len : length (dl_threads s) = threads;
  i_off : exists k : nat, rd_offset (dl_reader s) = Z.of_nat k * size /\
    (no_error s -> exists em, Forall (fun o => zlen file <= o) em /\ offsets s ++ em ≡ₚ multiples k);
  i_bound : rd_offset (dl_reader s) <= zlen file + size + Z.of_nat (length (flat_map past (dl_threads s))) * size;
  i_pcs : Forall (pc_ok (rd_offset (dl_reader s)) (dl_ready s)) (dl_threads s);
  i_good : Forall good (dl_queue s ++ dl_log s);
  i_ready : dl_ready s = true -> zlen file < rd_offset (dl_reader s);
  i_closed : dl_closed s = true -> Forall exited (dl_threads s);
  i_group : dl_closed s = true \/ par = false -> dl_error s = None -> dl_group s = None;
  i_exits : no_error s -> Forall (fun p => forall e, p <> Exited (Some e)) (dl_threads s);
  i_writer : match dl_writer s with
             | Writing => True
             | WExited None => dl_queue s = [] /\ dl_closed s = true
             | WExited (Some _) => dl_error s <> None
             end }.

Lemma flat_map_heads n : flat_map pc_offset (replicate n Head) = [].
Proof. by induction n. Qed.

Lemma inv_init : inv (init threads None).
Proof.
  split; simpl; try done.
  - by rewrite length_replicate.
  - exists 0%nat. split; [done|]. intros _. exists []. split; [done|].
    unfold offsets. simpl. rewrite !app_nil_r. by rewrite flat_map_heads.
  - pose proof (zlen_nonneg file). nia.
  - apply Forall_replicate. done.
  - intros _. by apply Forall_replicate.
Qed.

Lemma multiples_S k : multiples (S k) = multiples k ++ [Z.of_nat k * size].
Proof. unfold multiples. by rewrite seq_S, map_app. Qed.

Lemma past_le p : (length (past p) <= 1)%nat.
Proof. destruct p as [| | |o l h a| |]; simpl; try lia. destruct (zlen file <=? o); simpl; lia. Qed.

Lemma past_all l : (length (flat_map past l) <= length l)%nat.
Proof. induction l as [|p l IH]; simpl; [lia|]. rewrite length_app. pose proof (past_le p). lia. Qed.

Lemma past_lt l i : l !! i = Some Take -> (length (flat_map past l) < length l)%nat.
Proof.
  revert i. induction l as [|p l IH]; [done|]. intros [|i] Hi; simpl in *; rewrite length_app.
  - injection Hi as ->. simpl. pose proof (past_all l). lia.
  - specialize (IH _ Hi). pose proof (past_le p). lia.
Qed.

Lemma inv_report op a e s : inv s -> inv (report op a e s).
Proof. intros []. by split. Qed.

(** The moves of one thread that keep what it holds. *)
Lemma inv_pc s i old p : inv s -> dl_threads s !! i = Some old ->
  pc_offset p = pc_offset old -> (length (past old) <= length (past p))%nat ->
  pc_ok (rd_offset (dl_reader s)) (dl_ready s) p -> ~ exited old -> (forall e, p <> Exited (Some e)) ->
  inv (set_pc i p s).
Proof.
  intros [] Hi Ho Hp Hok Hold Hne. split; simpl; try done.
  - by rewrite length_insert.
  - destruct i_off0 as (k & Hk & Hem). exists k. split; [done|]. intros Hn. destruct (Hem Hn) as (em & He & Hperm).
    exists em. split; [done|]. rewrite <- Hperm. unfold offsets. simpl. do 2 f_equiv.
    apply (Permutation_app_inv_l (pc_offset old)). rewrite (flat_map_insert _ _ _ p old Hi). by rewrite Ho.
  - pose proof (flat_map_insert past _ _ p old Hi) as H%Permutation_length. rewrite !length_app in H. nia.
  - by apply Forall_insert.
  - intros Hc. exfalso. apply Hold. by apply (Forall_lookup_1 _ _ _ _ (i_closed0 Hc) Hi).
  - intros Hn. apply Forall_insert; [by apply i_exits0|done].
Qed.

(** A thread returns: with an error, or at the end of the file. *)
Lemma inv_exit s i old err (st : option (option Z)) : inv s -> dl_threads s !! i = Some old -> ~ exited old ->
  (err = None -> zlen file < rd_offset (dl_reader s) /\ Forall (fun o => zlen file <= o) (pc_offset old)) ->
  (st = None -> err = None -> dl_ready s = true) -> (st <> None -> err = None) ->
  inv (exit_thread par i err (match st with Some t => stop par t s | None => s end)).
Proof.
  intros [] Hi Hold Herr Hst Hst'.
  assert (dl_closed s = false) as Hnc.
  { apply not_true_is_false. intros Hc. apply Hold, (Forall_lookup_1 _ _ _ _ (i_closed0 Hc) Hi). }
  set (s1 := match st with Some t => stop par t s | None => s end).
  assert (dl_reader s1 = dl_reader s /\ dl_threads s1 = dl_threads s /\ dl_queue s1 = dl_queue s /\ dl_log s1 = dl_log s /\
    dl_group s1 = dl_group s /\ dl_error s1 = dl_error s /\ dl_writer s1 = dl_writer s /\
    (dl_ready s = true -> dl_ready s1 = true) /\ (err = None -> dl_ready s1 = true) /\
    (dl_closed s1 = true -> par = false)) as (Er & Et & Eq & El & Eg & Ee & Ew & Hr1 & Hr2 & Hc1).
  { subst s1. unfold stop. destruct st, par; simpl; rewrite ?Hnc; try done; split_and!; try done; by auto. }
  assert (no_error (exit_thread par i err s1) -> no_error s /\ err = None) as Hne.
  { unfold no_error, exit_thread. destruct par; simpl; rewrite Eg, Ee; destruct (dl_group s), (dl_error s), err; simpl; by intros []. }
  assert (dl_reader (exit_thread par i err s1) = dl_reader s /\
    dl_threads (exit_thread par i err s1) = <[i := Exited err]> (dl_threads s) /\
    dl_queue (exit_thread par i err s1) = dl_queue s /\ dl_log (exit_thread par i err s1) = dl_log s /\
    dl_writer (exit_thread par i err s1) = dl_writer s /\ dl_closed (exit_thread par i err s1) = dl_closed s1 /\
    dl_ready (exit_thread par i err s1) = dl_ready s1 /\
    (dl_error s <> None -> dl_error (exit_thread par i err s1) <> None) /\
    (par = false -> dl_error (exit_thread par i err s1) = None -> dl_group (exit_thread par i err s1) = None))
    as (Xr & Xt & Xq & Xl & Xw & Xc & Xd & Xe & Xg).
  { unfold exit_thread. destruct par; simpl; rewrite ?Er, ?Et, ?Eq, ?El, ?Ew, ?Ee, ?Eg; split_and!; try done.
    - by destruct (dl_error s).
    - intros _. destruct (dl_error s) eqn:E; simpl; [done|]. intros ->. by rewrite i_group0 by auto. }
  split; rewrite ?Xr, ?Xt, ?Xq, ?Xl, ?Xw, ?Xc, ?Xd; rewrite ?length_insert; try done.
  - destruct i_off0 as (k & Hk & Hem). exists k. split; [done|]. intros Hn. destruct (Hne Hn) as [Hn' Hnone].
    destruct (Hem Hn') as (em & He & Hperm), (Herr Hnone) as [_ Hpast]. exists (pc_offset old ++ em).
    split; [by apply Forall_app|]. rewrite <- Hperm. unfold offsets. rewrite Xt, Xq, Xl.
    pose proof (flat_map_insert pc_offset _ _ (Exited err) old Hi) as HP. simpl in HP. rewrite <- HP.
    set (T := flat_map _ _). set (Q := map offset _ ++ map offset _). rewrite <- !app_assoc.
    by rewrite (Permutation_app_swap_app Q), (Permutation_app_swap_app T).
  - pose proof (flat_map_insert past _ _ (Exited err) old Hi) as HP%Permutation_length. rewrite !length_app in HP.
    pose proof (past_le old). simpl in HP. nia.
  - apply Forall_insert.
    + eapply Forall_impl; [exact i_pcs0|]. intros [] Hp; try done. simpl in *. destruct err0; auto.
    + simpl. destruct err; auto.
  - intros Hr. destruct err as [e|]; [|by apply Herr]. apply i_ready0.
    subst s1. destruct st; [by discriminate Hst'|done].
  - intros Hc. assert (length (dl_threads s) = 1%nat) as H1' by (rewrite i_len0; by apply Hstream, Hc1).
    destruct (dl_threads s) as [|p [|]]; try done. apply lookup_lt_Some in Hi. simpl in Hi.
    destruct i; [|lia]. simpl. constructor; [by exists err|done].
  - intros Hcp. destruct par eqn:Ep; [|by apply Xg]. destruct Hcp as [Hc|]; [|done]. by apply Hc1 in Hc.
  - intros Hn. destruct (Hne Hn) as [Hn' ->]. apply Forall_insert; [by apply i_exits0|done].
  - destruct (dl_writer s) as [|[e|]]; [done|by apply Xe|]. destruct i_writer0 as [_ Hc]. by rewrite Hnc in Hc.
Qed.

Lemma zlen_part_of o l : 0 <= o -> 0 <= l -> zlen (part_of file o l) = Z.max 0 (Z.min l (zlen file - o)).
Proof. intros. unfold part_of, zlen. rewrite length_take, length_drop. lia. Qed.

Lemma inv_received s i o a c : inv s -> dl_threads s !! i = Some (Fetch o size None a) ->
  data c = part_of file o size -> inv (received par i (mkBlock c o size) s).
Proof.
  intros Hs Hi Hd. pose proof (Forall_lookup_1 _ _ _ _ (i_pcs _ Hs) Hi) as (_ & _ & Ho & Hoff).
  pose proof (zlen_part_of o size Ho ltac:(lia)) as Hl. unfold received. simpl. rewrite Hd.
  destruct (Z.ltb_spec (zlen (part_of file o size)) 1).
  - assert (zlen file <= o) by lia. apply (inv_exit s i _ None (Some (tag c)) Hs Hi); try done.
    + by intros [].
    + intros _. split; [lia|]. by constructor.
  - apply (inv_pc s i _ _ Hs Hi); try done.
    + simpl. replace (zlen file <=? o) with false by lia. done.
    + simpl. split; [|done]. repeat split; simpl; try done. intros E. by rewrite Hd, E in *.
    + by intros [].
Qed.

Lemma inv_send s i b : inv s -> dl_threads s !! i = Some (Sending b) ->
  inv (set_pc i Head (set_queue (dl_queue s ++ [b]) s)).
Proof.
  intros Hs Hi. pose proof (Forall_lookup_1 _ _ _ _ (i_pcs _ Hs) Hi) as [Hb _].
  assert (dl_closed s = false) as Hnc.
  { apply not_true_is_false. intros Hc. destruct (Forall_lookup_1 _ _ _ _ (i_closed _ Hs Hc) Hi) as [e He]. done. }
  destruct Hs. split; simpl; rewrite ?length_insert; try done.
  - destruct i_off0 as (k & Hk & Hem). exists k. split; [done|]. intros Hn. destruct (Hem Hn) as (em & He & Hperm).
    exists em. split; [done|]. rewrite <- Hperm. f_equiv. unfold offsets. simpl.
    pose proof (flat_map_insert pc_offset _ _ Head _ Hi) as HP. simpl in HP. rewrite <- HP. simpl.
    rewrite map_app, <- app_assoc. simpl. by rewrite !Permutation_middle.
  - pose proof (flat_map_insert past _ _ Head _ Hi) as HP%Permutation_length. simpl in HP. by rewrite HP.
  - by apply Forall_insert.
  - rewrite <- app_assoc. apply Forall_app in i_good0 as [? ?]. by apply Forall_app; split; [|constructor].
  - by rewrite Hnc.
  - intros Hn. apply Forall_insert; [by apply i_exits0|done].
  - destruct (dl_writer s) as [|[e|]]; try done. destruct i_writer0 as [_ Hc]. by rewrite Hnc in Hc.
Qed.

Lemma set_pc_twice i p q s : set_pc i p (set_pc i q s) = set_pc i p s.
Proof. unfold set_pc. simpl. by rewrite list_insert_insert_eq. Qed.

Lemma exit_stop_pc i q t s : exit_thread par i None (stop par t (set_pc i q s)) = exit_thread par i None (stop par t s).
Proof. unfold exit_thread, stop, set_pc. destruct par; simpl; by rewrite list_insert_insert_eq. Qed.

Lemma inv_take s i : inv s -> dl_threads s !! i = Some Take ->
  let r := dl_reader s in
  inv (set_pc i (Fetch (rd_offset r) size None 0) (set_reader (mkReader (i64 (rd_offset r + size)) None (rd_lock r)) s)).
Proof.
  intros [] Hi r. subst r. destruct i_off0 as (k & Hk & Hem).
  pose proof (flat_map_insert past _ _ (Fetch (rd_offset (dl_reader s)) size None 0) _ Hi) as HP%Permutation_length.
  simpl in HP. rewrite length_app in HP.
  pose proof (past_lt _ _ Hi) as Hlt. rewrite i_len0 in Hlt.
  assert (i64 (rd_offset (dl_reader s) + size) = rd_offset (dl_reader s) + size) as Hw.
  { apply swrap_id; [lia|]. pose proof (zlen_nonneg file). split; [nia|]. change (2 ^ (64 - 1)) with (2 ^ 63). nia. }
  split; simpl; rewrite ?length_insert, ?Hw; try done.
  - exists (S k). split; [lia|]. intros Hn. destruct (Hem Hn) as (em & He & Hperm). exists em. split; [done|].
    rewrite multiples_S, <- Hperm. unfold offsets. simpl.
    pose proof (flat_map_insert pc_offset _ _ (Fetch (rd_offset (dl_reader s)) size None 0) _ Hi) as HQ. simpl in HQ.
    rewrite HQ. simpl. rewrite Hk. apply Permutation_cons_append.
  - destruct (Z.leb_spec (zlen file) (rd_offset (dl_reader s))); simpl in HP; [nia|].
    rewrite HP. simpl. nia.
  - apply Forall_insert; [|simpl; split_and!; first [done|nia]]. eapply Forall_impl; [exact i_pcs0|].
    intros [| | |o l h a|b|[e|]]; simpl; naive_solver lia.
  - intros Hr. specialize (i_ready0 Hr). lia.
  - intros Hc. destruct (Forall_lookup_1 _ _ _ _ (i_closed0 Hc) Hi) as [e He]. done.
  - intros Hn. apply Forall_insert; [by apply i_exits0|done].
Qed.

(** A thread that is not at its end can be made to return with an error. *)
Lemma inv_fail s i old e : inv s -> dl_threads s !! i = Some old -> ~ exited old ->
  inv (exit_thread par i (Some e) s).
Proof. intros Hs Hi Ho. by apply (inv_exit s i old (Some e) None). Qed.

Lemma inv_write s b q : inv s -> dl_writer s = Writing -> dl_queue s = b :: q ->
  inv (set_writer Writing (dl_log s ++ [b]) (set_queue q s)).
Proof.
  intros [] Hw Hq. split; simpl; try done.
  - destruct i_off0 as (k & Hk & Hem). exists k. split; [done|]. intros Hn. destruct (Hem Hn) as (em & He & Hperm).
    exists em. split; [done|]. rewrite <- Hperm. f_equiv. unfold offsets. simpl. rewrite Hq, map_app. simpl.
    f_equiv. rewrite app_assoc. symmetry. apply Permutation_cons_append.
  - rewrite Hq in i_good0. rewrite app_assoc. apply Forall_app. simpl in i_good0.
    apply Forall_cons in i_good0 as [? ?]. split; [done|by constructor].
Qed.

(** The steps after which the download has failed, or nothing moves. *)
Lemma inv_settle s s' : inv s ->
  dl_reader s' = dl_reader s -> dl_threads s' = dl_threads s -> dl_ready s' = dl_ready s ->
  dl_queue s' ⊆ dl_queue s -> dl_log s' = dl_log s ->
  (no_error s' -> no_error s /\ dl_queue s' = dl_queue s) ->
  (dl_closed s' = true -> Forall exited (dl_threads s)) ->
  (dl_closed s' = true \/ par = false -> dl_error s' = None -> dl_group s' = None) ->
  match dl_writer s' with
  | Writing => True
  | WExited None => dl_queue s' = [] /\ dl_closed s' = true
  | WExited (Some _) => dl_error s' <> None
  end -> inv s'.
Proof.
  intros [] Er Et Ey Hq El Hn Hc Hg Hw. split; rewrite ?Er, ?Et, ?Ey, ?El; try done.
  - destruct i_off0 as (k & Hk & Hem). exists k. split; [done|]. intros Hn'. destruct (Hn Hn') as [Hns Hqq].
    destruct (Hem Hns) as (em & He & Hperm). exists em. split; [done|]. rewrite <- Hperm. unfold offsets.
    by rewrite Et, El, Hqq.
  - apply Forall_app in i_good0 as [Hgq Hgl]. apply Forall_app. split; [|done].
    rewrite Forall_forall in Hgq |- *. auto.
  - intros Hn'. by apply i_exits0, Hn.
Qed.

Lemma exited_not p : (forall e, p <> Exited e) -> ~ exited p.
Proof. intros H [e ->]. by apply (H e). Qed.

Lemma inv_step s s' : inv s -> step s s' -> inv s'.
Proof.
  intros Hs Hst. pose proof Hs as Hs0. pose proof (i_plain _ Hs) as Hpl. destruct Hst.
  - apply (inv_fail s i Head e Hs); [done|]. by apply exited_not.
  - apply (inv_exit s i Head None None Hs); try done; [by apply exited_not|].
    intros _. split; [by apply (i_ready _ Hs)|done].
  - apply (inv_pc s i Head Take Hs); try done. by apply exited_not.
  - by apply inv_take.
  - by rewrite Hpl in *.
  - by rewrite Hpl in *.
  - by rewrite Hpl in *.
  - by rewrite Hpl in *.
  - by rewrite Hpl in *.
  - pose proof (Forall_lookup_1 _ _ _ _ (i_pcs _ Hs) H) as (-> & -> & Ho & _). subst b. unfold part_size. rewrite Hpl.
    by eapply inv_received; [done|done|]; apply Hhonest.
  - pose proof (Forall_lookup_1 _ _ _ _ (i_pcs _ Hs) H) as Hp.
    apply (inv_pc _ i _ (Fetch o limit h (a + 1)) (inv_report _ _ _ _ Hs) H); try done. by apply exited_not.
  - by eapply inv_fail; [done|done|]; apply exited_not.
  - pose proof (inv_send s i b Hs H) as Hsend. subst s'. destruct (block_last b) eqn:El; [|done].
    rewrite <- (exit_stop_pc i Head).
    pose proof (Forall_lookup_1 _ _ _ _ (i_pcs _ Hs) H) as [(Hb0 & Hbd & _ & Hbs) Hoff].
    assert (zlen file < rd_offset (dl_reader s)) as Hend.
    { unfold block_last in El. rewrite Hbd, Hbs, zlen_part_of in El by lia. lia. }
    apply (inv_exit _ i Head None (Some (tag (b_chunk b))) Hsend); try done; [|by apply exited_not].
    apply list_lookup_insert_eq. by eapply lookup_lt_Some.
  - by eapply inv_fail; [done|done|]; apply exited_not.
  - destruct Hs. apply (inv_settle s); try done; simpl.
    + intros [Hg He]. split; [|done]. split; [done|]. by destruct (dl_error s).
    + intros _. by destruct (dl_error s).
    + destruct (dl_writer s) as [|[e|]]; try done; [|by destruct i_writer0]. by destruct (dl_error s).
  - by apply (inv_write s b q).
  - apply (inv_settle s); try done; simpl.
    + rewrite H0. set_solver.
    + intros [_ He]. by destruct (dl_error s).
    + by apply i_closed.
    + intros _. by destruct (dl_error s).
    + by destruct (dl_error s).
  - apply (inv_settle s); try done; simpl; [by apply i_closed|by apply i_group].
  - apply (inv_settle s); try done; simpl.
    + intros [_ He]. by destruct (dl_error s).
    + by apply i_closed.
    + intros _. by destruct (dl_error s).
    + by destruct (dl_error s).
  - apply (inv_settle s); try done; simpl; [by apply i_closed|by apply i_group|by apply i_writer].
Qed.

Lemma inv_reachable s : reachable s -> inv s.
Proof. induction 1 as [|s s' _ IH Hst]; [apply inv_init|by apply (inv_step s)]. Qed.

(** *** What was written *)

Lemma part_of_lookup o l (j : nat) : 0 <= o -> Z.of_nat j < l -> part_of file o l !! j = file !! (Z.to_nat o + j)%nat.
Proof. intros Ho Hj. unfold part_of. rewrite lookup_take_lt by lia. by rewrite lookup_drop. Qed.

Lemma WriteAt_lookup (p buf : list byte) off (j : nat) : 0 <= off -> off <= Z.of_nat j < off + zlen p ->
  WriteAt p off buf !! j = p !! (j - Z.to_nat off)%nat.
Proof.
  intros Ho Hj. unfold WriteAt.
  set (buf' := if zlen buf <? zlen p + off then buf ++ zeros (zlen p + off - zlen buf) else buf).
  assert (zlen p + off <= zlen buf') as Hl.
  { subst buf'. case_bool; [|lia]. unfold zeros. rewrite zlen_app. unfold zlen at 3. rewrite length_replicate. lia. }
  assert (length (take (Z.to_nat off) buf') = Z.to_nat off) as Ht by (rewrite length_take; unfold zlen in *; lia).
  rewrite lookup_app_r by lia. rewrite Ht, lookup_app_l by (unfold zlen in *; lia). done.
Qed.

Lemma WriteAt_outside (p buf : list byte) off (j : nat) : 0 <= off -> (j < length buf)%nat ->
  ~ (off <= Z.of_nat j < off + zlen p) -> WriteAt p off buf !! j = buf !! j.
Proof.
  intros Ho Hj Hout. unfold WriteAt.
  set (buf' := if zlen buf <? zlen p + off then buf ++ zeros (zlen p + off - zlen buf) else buf).
  assert (buf' !! j = buf !! j) as Hb by (subst buf'; case_bool; [by rewrite lookup_app_l|done]).
  assert (zlen p + off <= zlen buf') as Hl.
  { subst buf'. case_bool; [|lia]. unfold zeros. rewrite zlen_app. unfold zlen at 3. rewrite length_replicate. lia. }
  assert (length (take (Z.to_nat off) buf') = Z.to_nat off) as Ht by (rewrite length_take; unfold zlen in *; lia).
  rewrite <- Hb. destruct (decide (Z.of_nat j < off)).
  - rewrite lookup_app_l by lia. by rewrite lookup_take_lt by lia.
  - rewrite lookup_app_r, Ht by lia. rewrite lookup_app_r by (unfold zlen in *; lia).
    rewrite lookup_drop. f_equal. unfold zlen in *. lia.
Qed.

Lemma WriteAt_length (p buf : list byte) off : 0 <= off -> zlen (WriteAt p off buf) = Z.max (zlen buf) (zlen p + off).
Proof.
  intros Ho. unfold WriteAt. case_bool; unfold zeros, zlen in *;
    repeat rewrite ?length_app, ?length_take, ?length_drop, ?length_replicate; lia.
Qed.

Definition covers (log : list block) (j : nat) : Prop :=
  exists b, b ∈ log /\ offset b <= Z.of_nat j < offset b + zlen (data (b_chunk b)).

Lemma good_length b : good b -> 0 < zlen (data (b_chunk b)) /\ offset b + zlen (data (b_chunk b)) <= zlen file /\
  zlen (data (b_chunk b)) = Z.min size (zlen file - offset b).
Proof.
  intros (H0 & Hd & Hne & _). rewrite Hd in *. rewrite zlen_part_of in * by lia.
  assert (zlen (part_of file (offset b) size) <> 0) by (intros E; apply Hne, nil_length_inv; unfold zlen in E; lia).
  rewrite zlen_part_of in * by lia. lia.
Qed.

Lemma written_at_agrees log : Forall good log ->
  zlen (written_at log) <= zlen file /\ forall j, covers log j -> written_at log !! j = file !! j.
Proof.
  intros Hg. unfold written_at. induction log as [|b log IH] using rev_ind; [split; [apply zlen_nonneg|by intros j (b & Hb & _); apply not_elem_of_nil in Hb]|].
  apply Forall_app in Hg as [Hg Hb]. apply Forall_cons in Hb as [Hb _]. destruct (IH Hg) as [IHl IHc]. rewrite fold_left_app. simpl.
  set (buf := fold_left _ log []) in *. destruct (good_length b Hb) as (Hpos & Hend & Hlen). destruct Hb as (H0 & Hd & _).
  split; [rewrite WriteAt_length by done; lia|]. intros j (b' & Hb' & Hj).
  destruct (decide (offset b <= Z.of_nat j < offset b + zlen (data (b_chunk b)))) as [Hin|Hout].
  - rewrite WriteAt_lookup by done. rewrite Hd, part_of_lookup by lia. f_equal. lia.
  - apply elem_of_app in Hb' as [Hb'|Hb']; [|apply list_elem_of_singleton in Hb' as ->; done].
    assert (buf !! j = file !! j) as E by (apply IHc; by exists b').
    rewrite WriteAt_outside; [done|done| |done].
    apply lookup_lt_is_Some. rewrite E. apply lookup_lt_is_Some.
    rewrite Forall_forall in Hg. destruct (good_length b' (Hg _ Hb')) as (_ & ? & _). unfold zlen in *. lia.
Qed.

(** At the end of a download without an error nothing is on its way. *)
Lemma finished_inv s : inv s -> finished par s -> dl_error s = None ->
  no_error s /\ dl_queue s = [] /\ flat_map pc_offset (dl_threads s) = [] /\ zlen file < rd_offset (dl_reader s).
Proof.
  intros [] (Hx & (e & Hw) & _) He. rewrite Hw in i_writer0. destruct e as [e|]; [done|].
  destruct i_writer0 as [Hq Hc]. assert (no_error s) as Hn by (split; [by apply i_group0; auto|done]).
  split_and!; try done.
  - clear -Hx. induction Hx as [|p l [e ->] _ IH]; [done|]. done.
  - apply i_ready0. destruct (dl_threads s) as [|p ps] eqn:Et; [simpl in *; lia|].
    apply Forall_cons in Hx as [[e ->] _]. specialize (i_exits0 Hn). apply Forall_cons in i_exits0 as [Hp _].
    apply Forall_cons in i_pcs0 as [Hok _]. destruct e as [e|]; [by destruct (Hp e)|done].
Qed.

Lemma parallel_log s : reachable s -> finished par s -> dl_error s = None -> written_at (dl_log s) = file.
Proof.
  intros Hr Hf He. apply inv_reachable in Hr as Hs. destruct (finished_inv s Hs Hf He) as (Hn & Hq & Ht & Hend).
  destruct (i_off _ Hs) as (k & Hk & Hem). destruct (Hem Hn) as (em & Hemp & Hperm).
  unfold offsets in Hperm. rewrite Hq, Ht in Hperm. simpl in Hperm.
  assert (Forall good (dl_log s)) as Hg by (pose proof (i_good _ Hs) as Hg; by rewrite Hq in Hg).
  destruct (written_at_agrees _ Hg) as [Hl Hc].
  assert (forall j : nat, Z.of_nat j < zlen file -> written_at (dl_log s) !! j = file !! j) as Hall.
  { intros j Hj. apply Hc. set (o := Z.of_nat j / size * size).
    assert (o <= Z.of_nat j < o + size) as Ho by (subst o; pose proof (Z.div_mod (Z.of_nat j) size); pose proof (Z.mod_pos_bound (Z.of_nat j) size); nia).
    assert (o ∈ multiples k) as Hin.
    { unfold multiples. apply list_elem_of_fmap. exists (Z.to_nat (Z.of_nat j / size)).
      assert (0 <= Z.of_nat j / size) by (apply Z.div_pos; lia). split; [by rewrite Z2Nat.id by done|].
      apply elem_of_seq. nia. }
    rewrite <- Hperm in Hin. apply elem_of_app in Hin as [Hin|Hin].
    - apply list_elem_of_fmap in Hin as (b & Hbo & Hb). exists b. split; [done|].
      rewrite Forall_forall in Hg. destruct (good_length b (Hg _ Hb)) as (_ & _ & ->). lia.
    - rewrite Forall_forall in Hemp. specialize (Hemp _ Hin). lia. }
  apply list_eq. intros j. destruct (decide (Z.of_nat j < zlen file)) as [Hj|Hj]; [by apply Hall|].
  rewrite !lookup_ge_None_2; [done|unfold zlen in *; lia..].
Qed.

(** *** Streams: the parts are written in their order *)

Definition in_order (s : download) : list Z :=
  map offset (dl_log s) ++ map offset (dl_queue s) ++ flat_map pc_offset (dl_threads s).

(** What a step of a stream without an error does to the parts in their order. *)
Inductive order_step (s s' : download) : Prop :=
| order_same : in_order s' = in_order s -> rd_offset (dl_reader s') = rd_offset (dl_reader s) ->
    (Forall exited (dl_threads s) -> Forall exited (dl_threads s')) -> order_step s s'
| order_taken : in_order s' = in_order s ++ [rd_offset (dl_reader s)] ->
    rd_offset (dl_reader s') = rd_offset (dl_reader s) + size -> ~ Forall exited (dl_threads s) -> order_step s s'
| order_end o : in_order s = in_order s' ++ [o] -> zlen file <= o ->
    rd_offset (dl_reader s') = rd_offset (dl_reader s) -> ~ Forall exited (dl_threads s) ->
    Forall exited (dl_threads s') -> order_step s s'.

Lemma i64_take s i : inv s -> dl_threads s !! i = Some Take ->
  i64 (rd_offset (dl_reader s) + size) = rd_offset (dl_reader s) + size.
Proof.
  intros [] Hi. destruct i_off0 as (k & Hk & _). pose proof (past_lt _ _ Hi) as Hlt. rewrite i_len0 in Hlt.
  apply swrap_id; [lia|]. pose proof (zlen_nonneg file). split; [nia|]. change (2 ^ (64 - 1)) with (2 ^ 63). nia.
Qed.

Lemma first_error_none a b : first_error a b = None -> a = None /\ b = None.
Proof. by destruct a. Qed.

Lemma order_received s i o a c : par = false -> inv s -> dl_threads s = [Fetch o size None a] -> i = 0%nat ->
  data c = part_of file o size -> order_step s (received par i (mkBlock c o size) s).
Proof.
  intros Hp Hs Ht -> Hd. unfold received. simpl. rewrite Hd.
  assert (0 <= o) as Ho by (pose proof (i_pcs _ Hs) as H; rewrite Ht in H; apply Forall_cons in H as [(_ & _ & H & _) _]; done).
  pose proof (zlen_part_of o size Ho ltac:(lia)) as Hl.
  assert (~ Forall exited (dl_threads s)) as Hne by (rewrite Ht; intros [[? ?] _]%Forall_cons; done).
  destruct (Z.ltb_spec (zlen (part_of file o size)) 1).
  - apply (order_end _ _ o); unfold in_order, exit_thread, stop; rewrite ?Hp; simpl; rewrite ?Ht; simpl; try done.
    + by rewrite app_nil_r, <- app_assoc.
    + lia.
    + by intros [[? ?] _]%Forall_cons.
    + by constructor; [exists None|].
  - apply order_same; unfold in_order; simpl; rewrite ?Ht; simpl; try done. by intros [[? ?] _]%Forall_cons.
Qed.

Lemma stream_step s s' : par = false -> inv s -> step s s' -> no_error s' -> no_error s /\ order_step s s'.
Proof.
  intros Hp Hs Hst [Hg He]. pose proof (i_len _ Hs) as Hlen. rewrite Hstream in Hlen by done.
  destruct (dl_threads s) as [|p [|]] eqn:Et; try done. pose proof (i_plain _ Hs) as Hpl.
  pose proof (i_pcs _ Hs) as Hpc. rewrite Et in Hpc. apply Forall_cons in Hpc as [Hpc _].
  assert (forall i q, [p] !! i = Some q -> i = 0%nat /\ q = p) as Hi0.
  { intros i q Hi. apply lookup_lt_Some in Hi as Hl. simpl in Hl. destruct i; [|lia]. by injection Hi as ->. }
  assert (forall q, p = q -> ~ exited q -> ~ Forall exited (dl_threads s)) as Hnx.
  { intros q -> Hq. rewrite Et. by intros [? _]%Forall_cons. }
  destruct Hst; try (rewrite Hp in *; discriminate); rewrite ?Hpl in *; try discriminate;
    try (match goal with H : dl_threads s !! ?i = Some ?q |- _ => rewrite Et in H; destruct (Hi0 _ _ H) as [-> <-] end);
    try (unfold exit_thread in Hg; rewrite Hp in Hg; simpl in Hg; by apply first_error_none in Hg as [_ ?]);
    try (simpl in He; by apply first_error_none in He as [_ ?]).
  - split; [done|]. apply order_same; unfold in_order; simpl; rewrite ?Et; try done. by intros [[? ?] _]%Forall_cons.
  - split; [done|]. subst r. apply order_taken; simpl; rewrite ?Et.
    + unfold in_order. simpl. rewrite Et. simpl. by rewrite app_nil_r, <- app_assoc.
    + apply (i64_take s 0); [done|by rewrite Et].
    + by intros [[? ?] _]%Forall_cons.
  - destruct Hpc as (-> & -> & Ho & Hoff). subst b. unfold part_size in *. rewrite Hpl in *. split.
    + unfold received, exit_thread, stop in *. rewrite Hp in *. simpl in *.
      destruct (zlen (data c) <? 1); simpl in *; [|done].
      by apply first_error_none in Hg as [? _], He as [? _].
    + apply (order_received s 0 o a c); try done. by apply Hhonest.
  - split; [done|]. apply order_same; unfold in_order; simpl; rewrite ?Et; try done. by intros [[? ?] _]%Forall_cons.
  - subst s'. split.
    + unfold exit_thread, stop in *. rewrite Hp in *. destruct (block_last b); simpl in *; [|done].
      by apply first_error_none in Hg as [? _], He as [? _].
    + apply order_same; unfold exit_thread, stop; rewrite ?Hp, ?Et; [| |by intros [[? ?] _]%Forall_cons];
        destruct (block_last b); unfold in_order; simpl; rewrite ?Et; try done;
        simpl; rewrite map_app; simpl; by rewrite app_nil_r.
  - split; [done|]. apply order_same; simpl; try done. unfold in_order. simpl.
    match goal with H : dl_queue s = _ |- _ => rewrite H end. rewrite map_app, <- app_assoc. done.
  - split; [done|]. by apply order_same.
  - split; [done|]. by apply order_same.
Qed.

Definition ordered (s : download) : Prop :=
  no_error s -> exists (k : nat) em, rd_offset (dl_reader s) = Z.of_nat k * size /\ in_order s ++ em = multiples k /\
    Forall (fun o => zlen file <= o) em /\ (em <> [] -> Forall exited (dl_threads s)).

Lemma stream_ordered s : par = false -> reachable s -> ordered s.
Proof.
  intros Hp. induction 1 as [|s s' Hr IH Hst].
  - intros _. exists 0%nat, []. split_and!; try done. unfold in_order. simpl. by rewrite flat_map_heads.
  - intros Hn'. destruct (stream_step s s' Hp (inv_reachable _ Hr) Hst Hn') as [Hn Ho].
    destruct (IH Hn) as (k & em & Hk & Hl & Hem & Hx). destruct Ho as [E1 E2 E3|E1 E2 E3|o E1 E2 E3 E4 E5].
    + exists k, em. rewrite E1, E2. split_and!; try done. auto.
    + destruct em as [|o em]; [|by destruct E3; apply Hx]. exists (S k), []. rewrite app_nil_r in *.
      rewrite E1, E2, multiples_S, Hl, Hk. split_and!; try done. lia.
    + destruct em as [|o' em]; [|by destruct E4; apply Hx]. exists k, [o]. rewrite app_nil_r in *.
      rewrite E3, <- E1. split_and!; try done. by constructor.
Qed.

Lemma written_multiples (n : nat) log : Forall good log -> map offset log = multiples n ->
  written log = take (n * Z.to_nat size) file.
Proof.
  revert log. induction n as [|n IH]; intros log Hg Hl.
  - unfold multiples in Hl. simpl in Hl. by destruct log.
  - rewrite multiples_S in Hl. destruct log as [|b log _] using rev_ind; [by destruct (multiples n)|].
    rewrite map_app in Hl. apply app_inj_tail in Hl as [Hl Hb]. apply Forall_app in Hg as [Hg Hgb].
    apply Forall_cons in Hgb as [(H0 & Hd & _) _]. unfold written. rewrite map_app, concat_app. simpl. rewrite app_nil_r.
    fold (written log). rewrite (IH log Hg Hl), Hd, Hb. unfold part_of.
    replace (Z.to_nat (Z.of_nat n * size)) with (n * Z.to_nat size)%nat by lia.
    rewrite take_take_drop. f_equal. lia.
Qed.

Lemma stream_log s : par = false -> reachable s -> finished par s -> dl_error s = None -> written (dl_log s) = file.
Proof.
  intros Hp Hr Hf He. apply inv_reachable in Hr as Hs. destruct (finished_inv s Hs Hf He) as (Hn & Hq & Ht & Hend).
  destruct (stream_ordered s Hp Hr Hn) as (k & em & Hk & Hl & Hem & _). unfold in_order in Hl. rewrite Hq, Ht in Hl.
  simpl in Hl. rewrite app_nil_r in Hl.
  assert (Forall good (dl_log s)) as Hg by (pose proof (i_good _ Hs) as Hg; by rewrite Hq in Hg).
  set (n := length (dl_log s)). assert (map offset (dl_log s) = multiples n) as Hn'.
  { apply (f_equal (take n)) in Hl. rewrite take_app_length' in Hl by (by rewrite length_map). rewrite Hl.
    assert (n <= k)%nat. { apply (f_equal length) in Hl. subst n. rewrite length_map in Hl.
      rewrite length_take in Hl. unfold multiples in Hl. rewrite length_map, length_seq in Hl. lia. }
    unfold multiples. rewrite <- fmap_take, take_seq. do 2 f_equal. lia. }
  rewrite (written_multiples n) by done. apply take_ge. unfold zlen in *.
  destruct em as [|o em].
  - rewrite app_nil_r, Hn' in Hl. apply (f_equal length) in Hl. unfold multiples in Hl. rewrite !length_map, !length_seq in Hl. nia.
  - apply Forall_cons in Hem as [Ho _]. rewrite Hn' in Hl.
    apply (f_equal (fun l => l !! n)) in Hl.
    rewrite lookup_app_r in Hl by (unfold multiples; rewrite length_map, length_seq; lia).
    unfold multiples in Hl. rewrite length_map, length_seq, Nat.sub_diag in Hl. simpl in Hl.
    symmetry in Hl. apply list_lookup_fmap_Some in Hl as (j & -> & Hj). apply lookup_seq in Hj as [-> _]. nia.
Qed.
End Honest.

(** ** Any server: verified downloads, and progress *)

Section AnyServer.
Context (timeout : error -> bool) (chunk_answer : Z -> Z -> outcome chunk -> Prop)
        (hash_answer : Z -> outcome (list FileHash) -> Prop) (par : bool) (size : Z) (threads : nat).

Abbreviation step := (step timeout chunk_answer hash_answer par size).
Abbreviation reachable := (reachable timeout chunk_answer hash_answer par size threads).

(** A hash that the download was started with, or that a server has sent. *)
Definition known (hashes : list FileHash) (h : FileHash) : Prop :=
  h ∈ hashes \/ exists o hs, hash_answer o (Ok hs) /\ h ∈ hs.

Definition verified (hashes : list FileHash) (b : block) : Prop :=
  exists h, known hashes h /\ offset b = fh_Offset h /\ sha256 (data (b_chunk b)) = fh_Hash h.

Definition pc_verified (hashes : list FileHash) (p : pc) : Prop :=
  match p with
  | Fetch o _ h _ => exists h', h = Some h' /\ known hashes h' /\ o = fh_Offset h'
  | Sending b => verified hashes b
  | _ => True
  end.

Record inv_verified (hashes : list FileHash) (s : download) : Prop := {
  iv_reader : exists v, rd_verifier (dl_reader s) = Some v /\ Forall (known hashes) (v_hashes v);
  iv_threads : Forall (pc_verified hashes) (dl_threads s);
  iv_blocks : Forall (verified hashes) (dl_queue s ++ dl_log s) }.

Lemma pop_known hashes v h v' : Forall (known hashes) (v_hashes v) -> pop v = (h, v') ->
  Forall (known hashes) (v_hashes v') /\ (forall h', h = Some h' -> known hashes h').
Proof.
  unfold pop. destruct (v_hashes v) as [|h0 hs] eqn:E; intros Hv [= <- <-]; [by rewrite E|].
  apply Forall_cons in Hv as [? ?]. split; [done|]. by intros h' [= <-].
Qed.

Lemma update_known hashes v hs h v' o : Forall (known hashes) (v_hashes v) -> hash_answer o (Ok hs) ->
  update hs v = (h, v') -> Forall (known hashes) (v_hashes v') /\ (forall h', h = Some h' -> known hashes h').
Proof.
  intros Hv Ha. unfold update. destruct (last _) as [l|]; [|by intros [= <- <-]].
  destruct (_ =? _); [by intros [= <- <-]|]. apply pop_known. simpl. apply Forall_app. split; [done|].
  apply Forall_forall. intros x Hx. right. exists o, hs. split; [done|]. by rewrite Stable_perm in Hx.
Qed.

Lemma exit_verified hashes i err s : inv_verified hashes s -> inv_verified hashes (exit_thread par i err s).
Proof. intros []. unfold exit_thread. destruct par; split; simpl; try done; by apply Forall_insert. Qed.

Lemma stop_verified hashes t s : inv_verified hashes s -> inv_verified hashes (stop par t s).
Proof. intros []. unfold stop. by destruct par; split. Qed.

Lemma pc_verified_set hashes i p s : inv_verified hashes s -> pc_verified hashes p -> inv_verified hashes (set_pc i p s).
Proof. intros [] Hp. split; simpl; try done. by apply Forall_insert. Qed.

Lemma received_verified hashes i b s : inv_verified hashes s -> (data (b_chunk b) <> [] -> verified hashes b) ->
  inv_verified hashes (received par i b s).
Proof.
  intros Hs Hb. unfold received. destruct (Z.ltb_spec (zlen (data (b_chunk b))) 1).
  - by apply exit_verified, stop_verified.
  - apply pc_verified_set; [done|]. apply Hb. intros E. by rewrite E in *.
Qed.

Lemma reader_verified hashes o v l s : inv_verified hashes s -> Forall (known hashes) (v_hashes v) ->
  inv_verified hashes (set_reader (mkReader o (Some v) l) s).
Proof. intros [] Hv. split; simpl; try done. by exists v. Qed.

Lemma verified_same hashes s s' : inv_verified hashes s -> dl_reader s' = dl_reader s -> dl_threads s' = dl_threads s ->
  dl_queue s' ++ dl_log s' ⊆ dl_queue s ++ dl_log s -> inv_verified hashes s'.
Proof.
  intros [] Er Et Hq. split; rewrite ?Er, ?Et; try done. rewrite Forall_forall in iv_blocks0 |- *. auto.
Qed.

Lemma verified_step hashes s s' : inv_verified hashes s -> step s s' -> inv_verified hashes s'.
Proof.
  intros Hs Hst. destruct (iv_reader _ _ Hs) as (v0 & Hv0 & Hk). destruct Hst;
    try (match goal with H : rd_verifier (dl_reader s) = _ |- _ => rewrite Hv0 in H; first [discriminate H|injection H as <-] end);
    try (by apply exit_verified); try (by apply pc_verified_set).
  - match goal with H : pop _ = _ |- _ => destruct (pop_known _ _ _ _ Hk H) as [Hk' Hh] end. apply pc_verified_set; [by apply reader_verified|].
    exists h. split_and!; auto.
  - apply pc_verified_set; [by apply reader_verified|done].
  - match goal with H1 : hash_answer _ _, H2 : update _ _ = _ |- _ => destruct (update_known _ _ _ _ _ _ Hk H1 H2) as [Hk' Hh] end.
    destruct h as [h|].
    + apply pc_verified_set; [by apply reader_verified|]. exists h. split_and!; auto.
    + apply received_verified; [by apply reader_verified|done].
  - apply pc_verified_set; [|done]. by apply (verified_same _ s).
  - apply exit_verified. by apply reader_verified.
  - destruct (Forall_lookup_1 _ _ _ _ (iv_threads _ _ Hs) H) as (h' & -> & Hh & ->).
    unfold verify. case_bool_decide; [|by apply exit_verified]. apply received_verified; [done|].
    intros _. by exists h'.
  - pose proof (Forall_lookup_1 _ _ _ _ (iv_threads _ _ Hs) H) as Hp. apply pc_verified_set; [|done].
    by apply (verified_same _ s).
  - pose proof (Forall_lookup_1 _ _ _ _ (iv_threads _ _ Hs) H) as Hp.
    assert (inv_verified hashes (set_queue (dl_queue s ++ [b]) s)) as Hq.
    { destruct Hs. split; simpl; try done. rewrite <- app_assoc. apply Forall_app in iv_blocks0 as [? ?].
      apply Forall_app. split; [done|]. by constructor. }
    destruct (block_last b); [by apply exit_verified, stop_verified|by apply pc_verified_set].
  - by apply (verified_same _ s).
  - apply (verified_same _ s); try done. simpl. rewrite H0. set_solver.
  - apply (verified_same _ s); try done. simpl. rewrite H0. set_solver.
  - by apply (verified_same _ s).
  - by apply (verified_same _ s).
  - by apply (verified_same _ s).
Qed.

Lemma verified_reachable hashes s : reachable (Some hashes) s -> inv_verified hashes s.
Proof.
  induction 1 as [|s s' _ IH Hst]; [|by apply (verified_step _ s)]. split; simpl; [|by apply Forall_replicate|done].
  eexists. split; [done|]. simpl. apply Forall_forall. intros h Hh. left. by rewrite Stable_perm in Hh.
Qed.

(** *** Progress *)

(** Every request is answered at some time. *)
Definition answering : Prop :=
  (forall o l, exists r, chunk_answer o l r /\ r <> Panic) /\ (forall o, exists r, hash_answer o r /\ r <> Panic).

Definition is_exited (p : pc) : bool := match p with Exited _ => true | _ => false end.

Record inv_live (s : download) : Prop := {
  il_len : length (dl_threads s) = threads;
  il_lock i : rd_lock (dl_reader s) = Some i -> exists a, dl_threads s !! i = Some (Hashing a);
  il_hash i a : dl_threads s !! i = Some (Hashing a) -> rd_lock (dl_reader s) = Some i /\ rd_verifier (dl_reader s) <> None;
  il_closed i p : dl_closed s = true -> dl_threads s !! i = Some p -> is_exited p = true;
  il_writer : match dl_writer s with
              | Writing => True
              | WExited None => dl_closed s = true
              | WExited (Some _) => dl_error s <> None
              end;
  il_stream i e : par = false -> dl_threads s !! i = Some (Exited e) -> dl_closed s = true \/ dl_error s <> None }.

Context (Hthreads : (0 < threads)%nat) (Hstream : par = false -> threads = 1%nat).

(** A thread that is not at its end, and does not hold the lock of the verifier, moves. *)
Lemma live_pc i old p s : inv_live s -> dl_threads s !! i = Some old -> is_exited old = false ->
  (forall a, old <> Hashing a) -> (forall a, p <> Hashing a) -> is_exited p = false -> inv_live (set_pc i p s).
Proof.
  intros [] Hi Hold Hno Hnp Hp. split; simpl; try done.
  - by rewrite length_insert.
  - intros j Hj. destruct (il_lock0 j Hj) as [a Ha]. destruct (decide (j = i)) as [->|].
    + rewrite Hi in Ha. injection Ha as ->. by destruct (Hno a).
    + exists a. by rewrite list_lookup_insert_ne.
  - intros j a Hj. apply list_lookup_insert_Some in Hj as [(-> & Hpa & _)|(_ & Hj)]; [by destruct (Hnp a)|by apply (il_hash0 j a)].
  - intros j q Hc Hj. pose proof (il_closed0 i old Hc Hi). congruence.
  - intros j e Hpar Hj. apply list_lookup_insert_Some in Hj as [(-> & Hpa & _)|(_ & Hj)]; [by rewrite Hpa in Hp|by apply (il_stream0 j e)].
Qed.

Lemma live_same s s' : inv_live s -> dl_reader s' = dl_reader s -> dl_threads s' = dl_threads s -> dl_closed s' = dl_closed s ->
  (dl_error s <> None -> dl_error s' <> None) ->
  match dl_writer s' with
  | Writing => True
  | WExited None => dl_closed s = true
  | WExited (Some _) => dl_error s' <> None
  end -> inv_live s'.
Proof.
  intros [] Er Et Ec He Hw. split; rewrite ?Er, ?Et, ?Ec; try done.
  intros i e Hp Hi. destruct (il_stream0 i e Hp Hi); auto.
Qed.

(** What happens to the lock when thread [i] leaves [old]: only a thread that asked for
    hashes gives it back. *)
Definition unlocks (old : pc) (r r' : reader) : Prop :=
  rd_lock r' = (match old with Hashing _ => None | _ => rd_lock r end) /\
  (rd_verifier r <> None -> rd_verifier r' <> None).

Lemma live_unlock i old p r s : inv_live s -> dl_threads s !! i = Some old -> is_exited old = false ->
  unlocks old (dl_reader s) r -> (forall a, p <> Hashing a) -> is_exited p = false -> inv_live (set_pc i p (set_reader r s)).
Proof.
  intros [] Hi Hold [Hl Hv] Hnp Hp. split; simpl; try done.
  - by rewrite length_insert.
  - intros j Hj. rewrite Hl in Hj. destruct old; try done;
      destruct (il_lock0 j Hj) as [a Ha]; exists a; rewrite list_lookup_insert_ne; try done;
      intros ->; rewrite Hi in Ha; discriminate.
  - intros j a Hj. apply list_lookup_insert_Some in Hj as [(-> & Hpa & _)|(Hne & Hj)]; [by destruct (Hnp a)|].
    destruct (il_hash0 j a Hj) as [Hlj Hvj]. split; [|auto]. rewrite Hl.
    destruct old; try done. destruct (il_hash0 i _ Hi) as [Hli _]. congruence.
  - intros j q Hc Hj. pose proof (il_closed0 i old Hc Hi). congruence.
  - intros j e Hpar Hj. apply list_lookup_insert_Some in Hj as [(-> & Hpa & _)|(_ & Hj)]; [by rewrite Hpa in Hp|by apply (il_stream0 j e)].
Qed.

Lemma live_exit i old err r (st : option (option Z)) s : inv_live s -> dl_threads s !! i = Some old -> is_exited old = false ->
  unlocks old (dl_reader s) r -> (par = false -> err = None -> st <> None) ->
  inv_live (exit_thread par i err (match st with Some t => stop par t (set_reader r s) | None => set_reader r s end)).
Proof.
  intros Hs Hi Hold Hu Hst. pose proof (live_unlock i old Head r s Hs Hi Hold Hu ltac:(done) eq_refl) as Hs1.
  set (s1 := set_pc i Head (set_reader r s)) in *.
  assert (dl_closed s = false) as Hnc.
  { apply not_true_is_false. intros Hc. pose proof (il_closed _ Hs i old Hc Hi). congruence. }
  assert (forall p, <[i := p]> (dl_threads s1) = <[i := p]> (dl_threads s)) as Hins
    by (intros p; subst s1; simpl; by rewrite list_insert_insert_eq).
  set (s2 := exit_thread par i err _).
  assert (dl_reader s2 = r /\ dl_threads s2 = <[i := Exited err]> (dl_threads s) /\ dl_writer s2 = dl_writer s /\
    (dl_closed s2 = true -> par = false) /\ (dl_error s <> None -> dl_error s2 <> None) /\
    (par = false -> dl_closed s2 = true \/ dl_error s2 <> None)) as (Er & Et & Ew & Ec & Ee & Eo).
  { subst s2. unfold exit_thread, stop. destruct par; simpl; destruct st; simpl; rewrite ?Hnc; split_and!; try done;
      try (by destruct (dl_error s)); try (by auto).
    intros _. right. destruct (dl_error s); [done|]. destruct err; [done|]. by destruct Hst. }
  destruct Hs1. split; rewrite ?Er, ?Et, ?Ew.
  - rewrite length_insert. apply Hs.
  - intros j Hj. destruct (il_lock0 j Hj) as [a Ha]. exists a. rewrite <- Hins.
    rewrite list_lookup_insert_ne; [done|]. intros ->. subst s1. simpl in Ha.
    rewrite list_lookup_insert_eq in Ha by (by eapply lookup_lt_Some). done.
  - intros j a Hj. rewrite <- Hins in Hj. apply list_lookup_insert_Some in Hj as [(_ & ? & _)|(_ & Hj)]; [done|].
    by apply (il_hash0 j a).
  - intros j p Hc Hj. assert (length (dl_threads s) = 1%nat) as Hl1 by (rewrite (il_len _ Hs); by apply Hstream, Ec).
    apply list_lookup_insert_Some in Hj as [(_ & <- & _)|(Hne & Hj)]; [done|].
    apply lookup_lt_Some in Hi, Hj. lia.
  - pose proof (il_writer _ Hs) as Hw. destruct (dl_writer s) as [|[e|]]; [done|auto|congruence].
  - intros j e Hpar Hj. by apply Eo.
Qed.

Lemma unlocks_same old s : (forall a, old <> Hashing a) -> unlocks old (dl_reader s) (dl_reader s).
Proof. intros H. split; [|done]. destruct old; try done. by destruct (H attempt). Qed.

Lemma set_reader_same s : set_reader (dl_reader s) s = s.
Proof. by destruct s. Qed.

Lemma live_leave i old err s : inv_live s -> dl_threads s !! i = Some old -> is_exited old = false ->
  (forall a, old <> Hashing a) -> (par = false -> err = None -> False) -> inv_live (exit_thread par i err s).
Proof.
  intros Hs Hi Ho Hh He. pose proof (live_exit i old err _ None s Hs Hi Ho (unlocks_same old s Hh)) as H.
  rewrite set_reader_same in H. apply H. intros Hp Hn. by destruct He.
Qed.

Lemma live_stop i old t s : inv_live s -> dl_threads s !! i = Some old -> is_exited old = false ->
  (forall a, old <> Hashing a) -> inv_live (exit_thread par i None (stop par t s)).
Proof.
  intros Hs Hi Ho Hh. pose proof (live_exit i old None _ (Some t) s Hs Hi Ho (unlocks_same old s Hh)) as H.
  rewrite set_reader_same in H. by apply H.
Qed.

Lemma live_received i old b r s : inv_live s -> dl_threads s !! i = Some old -> is_exited old = false ->
  unlocks old (dl_reader s) r -> inv_live (received par i b (set_reader r s)).
Proof.
  intros Hs Hi Ho Hu. unfold received. destruct (_ <? 1).
  - by apply (live_exit i old None r (Some (tag (b_chunk b)))).
  - by apply (live_unlock i old).
Qed.

Lemma live_step s s' : inv_live s -> step s s' -> inv_live s'.
Proof.
  intros Hs Hst. destruct Hst.
  - by apply (live_leave i Head).
  - apply (live_leave i Head); try done. intros Hp _. by rewrite Hp in *.
  - by apply (live_pc i Head).
  - by apply (live_unlock i Take).
  - by apply (live_unlock i Take).
  - destruct Hs. split; simpl; try done.
    + by rewrite length_insert.
    + intros j [= <-]. exists 0. apply list_lookup_insert_eq. by eapply lookup_lt_Some.
    + intros j a Hj. apply list_lookup_insert_Some in Hj as [(-> & _ & _)|(_ & Hj)]; [done|].
      destruct (il_hash0 j a Hj) as [Hl _]. congruence.
    + intros j q Hc Hj. by pose proof (il_closed0 i Take Hc H).
    + intros j e Hpar Hj. apply list_lookup_insert_Some in Hj as [(_ & ? & _)|(_ & Hj)]; [done|by apply (il_stream0 j e)].
  - subst s'. destruct h as [h|].
    + by apply (live_unlock i (Hashing a)).
    + by apply (live_received i (Hashing a)).
  - pose proof Hs as []. split; simpl; try done.
    + by rewrite length_insert.
    + intros j Hj. destruct (il_hash0 i a H) as [Hl _]. rewrite Hl in Hj. injection Hj as <-.
      exists (a + 1). apply list_lookup_insert_eq. by eapply lookup_lt_Some.
    + intros j b Hj. apply list_lookup_insert_Some in Hj as [(-> & _ & _)|(_ & Hj)]; [by apply (il_hash0 j a)|by apply (il_hash0 j b)].
    + intros j q Hc Hj. by pose proof (il_closed0 i _ Hc H).
    + intros j e' Hpar Hj. apply list_lookup_insert_Some in Hj as [(_ & ? & _)|(_ & Hj)]; [done|by apply (il_stream0 j e')].
  - by apply (live_exit i (Hashing a) _ _ None).
  - subst b. set (b := mkBlock _ _ _). assert (inv_live (received par i b s)) as Hr.
    { rewrite <- (set_reader_same s) at 1. by apply (live_received i (Fetch o limit h a)), unlocks_same. }
    destruct h as [h|]; [|done]. destruct (verify h (data c)); [done|]. by apply (live_leave i (Fetch o limit (Some h) a)).
  - apply (live_pc i (Fetch o limit h a)); try done. by apply (live_same s); try apply Hs.
  - by apply (live_leave i (Fetch o limit h a)).
  - assert (inv_live s') as Hq by (by apply (live_same s); try apply Hs).
    destruct (block_last b); [by apply (live_stop i (Sending b))|by apply (live_pc i (Sending b))].
  - by apply (live_leave i (Sending b)).
  - destruct Hs. split; simpl; try done.
    + intros i p _ Hi. destruct (Forall_lookup_1 _ _ _ _ H1 Hi) as [e ->]. done.
    + destruct (dl_writer s) as [|[e|]]; [done| |done]. by destruct (dl_error s).
    + intros i e Hp. congruence.
  - by apply (live_same s).
  - apply (live_same s); try done; simpl; by destruct (dl_error s).
  - by apply (live_same s).
  - apply (live_same s); try done; simpl; by destruct (dl_error s).
  - apply (live_same s); try done; apply Hs.
Qed.

Lemma live_reachable hashes s : reachable hashes s -> inv_live s.
Proof.
  induction 1 as [|s s' _ IH Hst]; [|by apply (live_step s)].
  split; simpl; try done; [apply length_replicate|..]; intros i ?; [intros Hi|intros Hp Hi]; by apply lookup_replicate in Hi as [? _].
Qed.

(** Some step other than the end of the caller's context. *)
Definition moves (s : download) : Prop := exists s', step s s' /\ dl_parent s' = dl_parent s.

Lemma exit_parent i err s : dl_parent (exit_thread par i err s) = dl_parent s.
Proof. unfold exit_thread. by destruct par. Qed.
Lemma stop_parent t s : dl_parent (stop par t s) = dl_parent s.
Proof. unfold stop. by destruct par. Qed.
Lemma received_parent i b s : dl_parent (received par i b s) = dl_parent s.
Proof. unfold received. destruct (_ <? 1); [by rewrite exit_parent, stop_parent|done]. Qed.

Lemma hashing_moves i a s : answering -> inv_live s -> dl_threads s !! i = Some (Hashing a) -> moves s.
Proof.
  intros [_ Ha] Hs Hi. destruct (il_hash _ Hs i a Hi) as [_ Hv].
  destruct (rd_verifier (dl_reader s)) as [v|] eqn:Ev; [|done]. destruct (Ha (v_offset v)) as ([hs|e|] & Hr & Hp); [| |done].
  - destruct (update hs v) as [h v'] eqn:Eu. eexists. split; [by eapply step_hashes|].
    destruct h; [done|]. by rewrite received_parent.
  - destruct (transient timeout (inner_err s) e) eqn:Et.
    + eexists. split; [by eapply step_hashes_retry|done].
    + eexists. split; [by eapply step_hashes_fail|by rewrite exit_parent].
Qed.

Lemma fetch_moves i o l h a s : answering -> dl_threads s !! i = Some (Fetch o l h a) -> moves s.
Proof.
  intros [Ha _] Hi. destruct (Ha o l) as ([c|e|] & Hr & Hp); [| |done].
  - eexists. split; [by eapply step_chunk|]. destruct h as [h|]; [|by rewrite received_parent].
    destruct (verify _ _); [by rewrite received_parent|by rewrite exit_parent].
  - destruct (transient timeout (inner_err s) e) eqn:Et.
    + eexists. split; [by eapply step_chunk_retry|done].
    + eexists. split; [by eapply step_chunk_fail|by rewrite exit_parent].
Qed.

Lemma sending_moves i b s : inv_live s -> dl_threads s !! i = Some (Sending b) -> moves s.
Proof.
  intros Hs Hi. destruct (decide (length (dl_queue s) < capacity par s)%nat) as [Hc|Hc].
  { eexists. split; [by eapply step_send|]. destruct (block_last b); [by rewrite exit_parent, stop_parent|done]. }
  destruct (dl_writer s) as [|[e|]] eqn:Ew.
  - destruct (dl_queue s) as [|b' q] eqn:Eq; [|eexists; split; [by eapply step_write|done]].
    exfalso. apply Hc. unfold capacity. rewrite (il_len _ Hs). destruct par; simpl; lia.
  - pose proof (il_writer _ Hs) as Hw. rewrite Ew in Hw. destruct (dl_error s) as [e'|] eqn:Ee; [|done].
    assert (exists x, inner_err s = Some x) as [x Hx].
    { unfold inner_err, outer_err. rewrite Ee. destruct (dl_parent s); by eexists. }
    eexists. split; [by eapply step_send_ctx|by rewrite exit_parent].
  - pose proof (il_writer _ Hs) as Hw. rewrite Ew in Hw. by pose proof (il_closed _ Hs i _ Hw Hi).
Qed.

Lemma thread_moves i p s : answering -> inv_live s -> dl_threads s !! i = Some p -> is_exited p = false -> moves s.
Proof.
  intros Ha Hs Hi Hp. destruct p as [| |a|o l h a|b|e]; try done.
  - destruct (decide (par = true)) as [Ep|Ep].
    + destruct (inner_err s) as [e|] eqn:Ee; [|destruct (dl_ready s) eqn:Er].
      * eexists. split; [by eapply step_head_ctx|by rewrite exit_parent].
      * eexists. split; [by eapply step_head_ready|by rewrite exit_parent].
      * eexists. split; [by eapply step_head|done].
    + eexists. split; [by eapply step_head|done].
  - destruct (rd_verifier (dl_reader s)) as [v|] eqn:Ev; [|eexists; split; [by eapply step_plain|done]].
    destruct (rd_lock (dl_reader s)) as [j|] eqn:El.
    + destruct (il_lock _ Hs j El) as [a Ha']. by eapply hashing_moves.
    + destruct (pop v) as [[h|] v'] eqn:Ep; eexists; (split; [first [by eapply step_pop | by eapply step_lock]|done]).
  - by eapply hashing_moves.
  - by eapply fetch_moves.
  - by eapply sending_moves.
Qed.

Lemma live_moves s : answering -> inv_live s -> ~ finished par s -> moves s.
Proof.
  intros Ha Hs Hf. destruct (decide (Forall (fun p => is_exited p = true) (dl_threads s))) as [Hx|Hx].
  - assert (Forall (fun p => exists e, p = Exited e) (dl_threads s)) as Hx'.
    { eapply Forall_impl; [exact Hx|]. intros [] Hp; try done. by eexists. }
    destruct (dl_closed s) eqn:Ec.
    + destruct (dl_writer s) as [|e] eqn:Ew.
      * destruct (dl_queue s) as [|b q] eqn:Eq; eexists; (split; [first [by eapply step_write | by eapply step_writer_done]|done]).
      * destruct Hf. split_and!; [done|by exists e|done].
    + destruct (decide (par = true)) as [Ep|Ep]; [eexists; split; [by eapply step_close|done]|].
      apply not_true_is_false in Ep. destruct (dl_threads s) as [|p ps] eqn:Et; [pose proof (il_len _ Hs) as Hl; rewrite Et in Hl; simpl in Hl; lia|].
      apply Forall_cons in Hx' as [[e ->] _].
      destruct (il_stream _ Hs 0 e Ep) as [?|He]; [by rewrite Et|congruence|].
      destruct (dl_writer s) as [|w] eqn:Ew.
      * destruct (dl_error s) as [e'|] eqn:Ee; [|done].
        assert (exists x, outer_err s = Some x) as [x Hx0] by (unfold outer_err; rewrite Ee; destruct (dl_parent s); by eexists).
        eexists. split; [by eapply step_writer_ctx|done].
      * destruct Hf. split_and!; [|by exists w|by rewrite Ep].
        eapply Forall_impl; [rewrite Et; exact Hx|]. intros [] Hp; try done. by eexists.
  - apply not_Forall_Exists in Hx; [|apply _]. apply Exists_exists in Hx as (p & Hp & Hnx).
    apply list_elem_of_lookup in Hp as [i Hi]. apply (thread_moves i p s Ha Hs Hi). by apply not_true_is_false.
Qed.
End AnyServer.

(** ** The theorems *)

(** C10: A parallel download that ends without an error has written the file: in every
    interleaving of the threads and the writer, whatever transient errors were
    retried, and in whatever order the parts arrived. *)
Theorem download_parallel_complete (timeout : error -> bool) (chunk_answer : Z -> Z -> outcome chunk -> Prop)
    (hash_answer : Z -> outcome (list FileHash) -> Prop) (size : Z) (threads : nat) (file : list byte) (s : download) :
  honest chunk_answer file -> 0 < size -> (0 < threads)%nat ->
  zlen file + (Z.of_nat threads + 2) * size < 2 ^ 63 ->
  reachable timeout chunk_answer hash_answer true size threads None s -> finished true s -> dl_error s = None ->
  written_at (dl_log s) = file.
Proof. intros Hh Hs Ht Hf. by apply parallel_log. Qed.

(** A streamed download that ends without an error has written the file, in order. *)
Theorem download_stream_complete (timeout : error -> bool) (chunk_answer : Z -> Z -> outcome chunk -> Prop)
    (hash_answer : Z -> outcome (list FileHash) -> Prop) (size : Z) (file : list byte) (s : download) :
  honest chunk_answer file -> 0 < size -> zlen file + 3 * size < 2 ^ 63 ->
  reachable timeout chunk_answer hash_answer false size 1 None s -> finished false s -> dl_error s = None ->
  written (dl_log s) = file.
Proof. intros Hh Hs Hf. apply (stream_log timeout chunk_answer hash_answer false size 1 file); done || lia. Qed.

(** C24: with verification, whatever the servers send: every part that is written has the
    hash that was given for its offset. *)
Theorem download_verified (timeout : error -> bool) (chunk_answer : Z -> Z -> outcome chunk -> Prop)
    (hash_answer : Z -> outcome (list FileHash) -> Prop) (par : bool) (size : Z) (threads : nat)
    (hashes : list FileHash) (s : download) :
  reachable timeout chunk_answer hash_answer par size threads (Some hashes) s ->
  Forall (verified hash_answer hashes) (dl_log s).
Proof. intros Hr. apply verified_reachable, iv_blocks, Forall_app in Hr. apply Hr. Qed.

(** A download cannot get stuck: as long as requests are answered, some goroutine can
    move until all have returned, also after errors and when the channel is full. *)
Theorem download_progress (timeout : error -> bool) (chunk_answer : Z -> Z -> outcome chunk -> Prop)
    (hash_answer : Z -> outcome (list FileHash) -> Prop) (par : bool) (size : Z) (threads : nat)
    (hashes : option (list FileHash)) (s : download) :
  answering chunk_answer hash_answer -> (0 < threads)%nat -> (par = false -> threads = 1%nat) ->
  reachable timeout chunk_answer hash_answer par size threads hashes s -> ~ finished par s ->
  exists s', step timeout chunk_answer hash_answer par size s s' /\ dl_parent s' = dl_parent s.
Proof. intros Ha Ht Hs Hr Hf. apply (live_moves timeout chunk_answer hash_answer par size threads Ht Hs s Ha); [|done]. by eapply live_reachable. Qed.

Section Sample.
Definition sample_file : list byte := [Byte.x01; Byte.x02; Byte.x03; Byte.x04; Byte.x05].
Definition sample_chunks (o limit : Z) (r : outcome chunk) : Prop := r = Ok (mkChunk (part_of sample_file o limit) (Some 1)).
Definition sample_hash : FileHash := mkFileHash 0 5 (sha256 sample_file).
Definition sample_hashes (o : Z) (r : outcome (list FileHash)) : Prop := r = Ok [sample_hash].
Definition no_timeout (e : error) : bool := false.

(** One more step of a run. *)
Tactic Notation "run" hyp(H) uconstr(c) := eapply reach_step in H; [|eapply c; first [reflexivity|eassumption]]; vm_compute in H.

(** Two threads; the second part arrives and is written before the first one. *)
Lemma sample_parallel chunk_answer hash_answer :
  chunk_answer 0 4 (Ok (mkChunk [Byte.x01; Byte.x02; Byte.x03; Byte.x04] (Some 1))) ->
  chunk_answer 4 4 (Ok (mkChunk [Byte.x05] (Some 1))) -> exists s,
  reachable no_timeout chunk_answer hash_answer true 4 2 None s /\ finished true s /\ dl_error s = None /\
  map offset (dl_log s) = [4; 0].
Proof.
  intros C0 C1. generalize no_timeout as timeout. intros timeout.
  pose proof (reach_init timeout chunk_answer hash_answer true 4 2 None) as H. vm_compute in H.
  eapply reach_step in H; [|apply (step_head _ _ _ _ _ _ 0); [reflexivity|by intros _]]. vm_compute in H.
  run H (step_plain timeout chunk_answer hash_answer true 4 _ 0).
  eapply reach_step in H; [|apply (step_head _ _ _ _ _ _ 1); [reflexivity|by intros _]]. vm_compute in H.
  run H (step_plain timeout chunk_answer hash_answer true 4 _ 1).
  run H (step_chunk timeout chunk_answer hash_answer true 4 _ 1).
  run H (step_chunk timeout chunk_answer hash_answer true 4 _ 0).
  eapply reach_step in H; [|apply (step_send _ _ _ _ _ _ 1); [reflexivity|apply Nat.ltb_lt; reflexivity]]. vm_compute in H.
  eapply reach_step in H; [|apply (step_send _ _ _ _ _ _ 0); [reflexivity|apply Nat.ltb_lt; reflexivity]]. vm_compute in H.
  run H (step_head_ready timeout chunk_answer hash_answer true 4 _ 0).
  run H (step_write timeout chunk_answer hash_answer true 4).
  run H (step_write timeout chunk_answer hash_answer true 4).
  eapply reach_step in H; [|apply step_close; [done|reflexivity|repeat constructor; by eexists]]. vm_compute in H.
  run H (step_writer_done timeout chunk_answer hash_answer true 4).
  eexists. split; [exact H|]. split; [|done]. split; [repeat constructor; by eexists|]. split; [by eexists|done].
Qed.

Lemma sample_stream chunk_answer hash_answer :
  chunk_answer 0 5 (Ok (mkChunk sample_file (Some 1))) -> chunk_answer 5 5 (Ok (mkChunk [] (Some 1))) -> exists s,
  reachable no_timeout chunk_answer hash_answer false 5 1 None s /\ finished false s /\ dl_error s = None.
Proof.
  intros C0 C1. generalize no_timeout as timeout. intros timeout.
  pose proof (reach_init timeout chunk_answer hash_answer false 5 1 None) as H. vm_compute in H.
  eapply reach_step in H; [|apply (step_head _ _ _ _ _ _ 0); [reflexivity|done]]. vm_compute in H.
  run H (step_plain timeout chunk_answer hash_answer false 5 _ 0).
  run H (step_chunk timeout chunk_answer hash_answer false 5 _ 0).
  eapply reach_step in H; [|apply (step_send _ _ _ _ _ _ 0); [reflexivity|apply Nat.ltb_lt; reflexivity]]. vm_compute in H.
  eapply reach_step in H; [|apply (step_head _ _ _ _ _ _ 0); [reflexivity|done]]. vm_compute in H.
  run H (step_plain timeout chunk_answer hash_answer false 5 _ 0).
  run H (step_chunk timeout chunk_answer hash_answer false 5 _ 0).
  run H (step_write timeout chunk_answer hash_answer false 5).
  run H (step_writer_done timeout chunk_answer hash_answer false 5).
  eexists. split; [exact H|]. split; [|done]. split; [repeat constructor; by eexists|]. split; [by eexists|done].
Qed.

Lemma sample_honest : honest sample_chunks sample_file.
Proof. intros o limit c _ [= ->]. done. Qed.

Lemma download_parallel_complete_witness : exists s,
  reachable no_timeout sample_chunks sample_hashes true 4 2 None s /\ written_at (dl_log s) = sample_file.
Proof.
  destruct (sample_parallel sample_chunks sample_hashes eq_refl eq_refl) as (s & Hr & Hf & He & _). exists s. split; [exact Hr|].
  apply (download_parallel_complete no_timeout sample_chunks sample_hashes 4 2 sample_file s sample_honest);
    [reflexivity|apply Nat.ltb_lt; reflexivity|reflexivity|exact Hr|exact Hf|exact He].
Defined.

Lemma download_stream_complete_witness : exists s,
  reachable no_timeout sample_chunks sample_hashes false 5 1 None s /\ written (dl_log s) = sample_file.
Proof.
  destruct (sample_stream sample_chunks sample_hashes eq_refl eq_refl) as (s & Hr & Hf & He). exists s. split; [exact Hr|].
  apply (download_stream_complete no_timeout sample_chunks sample_hashes 5 sample_file s sample_honest);
    [reflexivity|reflexivity|exact Hr|exact Hf|exact He].
Defined.

(** A verified download of a file with one hash. *)
Lemma sample_verified : exists s,
  reachable no_timeout sample_chunks sample_hashes true 4 1 (Some [sample_hash]) s /\ length (dl_log s) = 1%nat.
Proof.
  pose proof (reach_init no_timeout sample_chunks sample_hashes true 4 1 (Some [sample_hash])) as H.
  eapply reach_step in H; [|apply (step_head _ _ _ _ _ _ 0); [reflexivity|by intros _]].
  eapply reach_step in H; [|eapply (step_pop _ _ _ _ _ _ 0); reflexivity].
  eapply reach_step in H; [|eapply (step_chunk _ _ _ _ _ _ 0); reflexivity]. cbv beta iota zeta in H.
  unfold verify in H at 1. rewrite bool_decide_eq_true_2 in H by reflexivity.
  eapply reach_step in H; [|eapply (step_send _ _ _ _ _ _ 0); [reflexivity|apply Nat.ltb_lt; reflexivity]].
  eapply reach_step in H; [|eapply step_write; reflexivity].
  eexists. split; [exact H|done].
Qed.

Lemma download_verified_witness : exists s,
  reachable no_timeout sample_chunks sample_hashes true 4 1 (Some [sample_hash]) s /\ length (dl_log s) = 1%nat /\
  Forall (verified sample_hashes [sample_hash]) (dl_log s).
Proof.
  destruct sample_verified as (s & Hr & Hl). exists s. split; [exact Hr|]. split; [exact Hl|].
  exact (download_verified no_timeout sample_chunks sample_hashes true 4 1 [sample_hash] s Hr).
Defined.

Lemma download_progress_witness : exists s',
  step no_timeout sample_chunks sample_hashes true 4 (init 2 None) s' /\ dl_parent s' = None.
Proof.
  apply (download_progress no_timeout sample_chunks sample_hashes true 4 2 None (init 2 None)).
  - split; [intros o l|intros o]; eexists; (split; [reflexivity|discriminate]).
  - apply Nat.ltb_lt. reflexivity.
  - discriminate.
  - apply reach_init.
  - intros ([[e He] _]%Forall_cons & _). discriminate.
Defined.
End Sample.
