(* ===== verification/Cdn.v ===== *)
(** * telegram/downloader: files on a CDN

    Model of src/telegram/downloader master.go, cdn.go, cdn_plan.go,
    cdn_state_machine.go, cdn_verify.go and of retryRequest (retry.go): the download
    schema that starts at the master data center and follows a redirection to a CDN,
    decrypts what the CDN sends and checks it against hashes.  The state is the one of
    the schema, with the events it reports, and the one of the servers.  The servers
    are a record of operations on their own state.  One goroutine runs at a time: the
    locks of the schema are left out, and with them the sharing of a window load
    between goroutines.  The block cipher of AES is a parameter. *)
From S2P Require Import Prelude Tgerr Hash Keys Exchange Tg Download.
From coqutil Require Z.BitOps.

(** ** client.go, master.go *)

(** upload.file, upload.fileCdnRedirect; upload.cdnFile, upload.cdnFileReuploadNeeded.
    The third constructor is any other type. *)
Inductive UploadFileClass : Type :=
| UploadFile (Bytes : list byte) (Type_ : Z) | UploadFileCDNRedirect (r : FileCDNRedirect) | UploadFileOther.
Inductive UploadCDNFileClass : Type :=
| UploadCDNFile (Bytes : list byte) | UploadCDNFileReuploadNeeded (RequestToken : list byte) | UploadCDNFileOther.

(** The servers, for one location: the master, the CDN through a client, the provider of
    clients, and the context of the download.  A client is a number; closing it is the
    effect of its closer. *)
Record Servers (E : Type) : Type := mkServers {
  UploadGetFile : Z -> Z -> GoM E UploadFileClass;
  UploadGetFileHashes : Z -> GoM E (list FileHash);
  UploadReuploadCDNFile : list byte -> list byte -> GoM E (list FileHash);
  UploadGetCDNFileHashes : list byte -> Z -> GoM E (list FileHash);
  ProvideCDN : Z -> Z -> GoM E (option nat);
  CloseCDN : nat -> E -> E;
  UploadGetCDNFile : nat -> list byte -> Z -> Z -> GoM E UploadCDNFileClass;
  ctx_Err : E -> option error * E }.
Arguments UploadGetFile {E}. Arguments UploadGetFileHashes {E}. Arguments UploadReuploadCDNFile {E}.
Arguments UploadGetCDNFileHashes {E}. Arguments ProvideCDN {E}. Arguments CloseCDN {E}.
Arguments UploadGetCDNFile {E}. Arguments ctx_Err {E}.

(** errors.As with a *RedirectError target *)
Fixpoint AsRedirect (err : error) : option FileCDNRedirect :=
  match err with
  | RedirectError r => Some r
  | Wrap e _ | ServerExchangeError _ e => AsRedirect e
  | MultiErr e1 e2 => match AsRedirect e1 with Some r => Some r | None => AsRedirect e2 end
  | _ => None
  end.

(** ** retry.go *)

Definition maxRetryAttempts : nat := 20.
Definition retryLimitErr (op : string) (err : error) : error := Wrap err (String.append op ": retry limit reached").
Definition isCDNFingerprintErr (err : error) : bool := Is err ErrKeyFingerprintNotFound.
Definition isCDNMasterFallbackErr (err : error) : bool :=
  IsOneOfTypes err [bytes_of_string "FILE_TOKEN_INVALID"; bytes_of_string "REQUEST_TOKEN_INVALID"].

(** ** cdn.go *)

Inductive cdnMode : Type := modeMaster | modeCDN.
#[export] Instance cdnMode_eq_dec : EqDecision cdnMode.
Proof. solve_decision. Defined.

Definition maxVerifiedWindowCache : nat := 16.

Record cdn : Type := mkCdn {
  mode : cdnMode; redirect : option FileCDNRedirect; client : option nat; clientDC : Z; rev : Z;
  hashes : gmap Z FileHash; hashOffsets : list Z; windows : gmap Z (list byte); windowsFIFO : list Z;
  events : list RetryEvent }.

Definition newCDNSchema : cdn := mkCdn modeMaster None None 0 0 ∅ [] ∅ [] [].

(** ** cdn_plan.go *)

Definition cdnMinChunk : Z := 4 * 1024.
Definition cdnMaxChunk : Z := 1024 * 1024.

(** The loop over the sizes; there are [size / 4096] of them. *)
Fixpoint largest_loop (fuel : nat) (size : Z) : Z :=
  match fuel with
  | O => 0
  | S fuel =>
      if size >=? cdnMinChunk then
        if Z.rem cdnMaxChunk size =? 0 then size else largest_loop fuel (size - cdnMinChunk)
      else 0
  end.
Definition largestCDNValidLimit (max : Z) : Z := largest_loop (Z.to_nat (max / cdnMinChunk + 1)) max.

(** Every iteration of the loop takes at least 4096 bytes. *)
Fixpoint plan_loop (fuel : nat) (current remaining : Z) : outcome (list (Z * Z)) :=
  match fuel with
  | O => Panic
  | S fuel =>
      if remaining >? 0 then
        let mbUsed := Z.rem current cdnMaxChunk in
        let mbLeft := cdnMaxChunk - mbUsed in
        let maxForStep := if remaining >? mbLeft then mbLeft else remaining in
        let step := largestCDNValidLimit maxForStep in
        if step =? 0 then Err (Errorf "unable to build CDN request plan")
        else
          match plan_loop fuel (current + step) (remaining - step) with
          | Ok plan => Ok ((current, step) :: plan)
          | r => r
          end
      else Ok []
  end.

Definition buildCDNRequestPlan (offset limit : Z) : outcome (list (Z * Z)) :=
  if limit <=? 0 then Err (Errorf "invalid CDN limit")
  else if offset <? 0 then Err (Errorf "invalid CDN offset")
  else if negb (Z.rem offset cdnMinChunk =? 0) then Err (Errorf "CDN offset must be divisible")
  else if negb (Z.rem limit cdnMinChunk =? 0) then Err (Errorf "CDN limit must be divisible")
  else plan_loop (Z.to_nat (limit / cdnMinChunk + 1)) offset limit.

(** ** cdn_verify.go: the caches *)

(** sort.Search: the first index in [lo, hi) at which [p] holds, by bisection. *)
Fixpoint search_loop (fuel : nat) (p : nat -> bool) (lo hi : nat) : nat :=
  match fuel with
  | O => lo
  | S fuel =>
      if (lo <? hi)%nat then
        let h := ((lo + hi) / 2)%nat in
        if p h then search_loop fuel p lo h else search_loop fuel p (S h) hi
      else lo
  end.
Definition Search (n : nat) (p : nat -> bool) : nat := search_loop (S n) p 0 n.

Definition offset_at (l : list Z) (i : nat) : Z := default 0 (l !! i).

(** The loop body of cacheHashes: the index of offsets stays sorted. *)
Definition cache_offset (o : Z) (known : gmap Z FileHash) (offsets : list Z) : list Z :=
  match known !! o with
  | Some _ => offsets
  | None =>
      let idx := Search (length offsets) (fun i => offset_at offsets i >=? o) in
      if (idx =? length offsets)%nat then offsets ++ [o]
      else if offset_at offsets idx =? o then offsets
      else take idx offsets ++ [o] ++ drop idx offsets
  end.

Definition cache_hash (c : gmap Z FileHash * list Z) (h : FileHash) : gmap Z FileHash * list Z :=
  if fh_Limit h <=? 0 then c
  else (<[fh_Offset h := h]> (fst c), cache_offset (fh_Offset h) (fst c) (snd c)).

Definition set_hashes (hs : gmap Z FileHash * list Z) (c : cdn) : cdn :=
  mkCdn (mode c) (redirect c) (client c) (clientDC c) (rev c) (fst hs) (snd hs) (windows c) (windowsFIFO c) (events c).
Definition set_windows (ws : gmap Z (list byte) * list Z) (c : cdn) : cdn :=
  mkCdn (mode c) (redirect c) (client c) (clientDC c) (rev c) (hashes c) (hashOffsets c) (fst ws) (snd ws) (events c).

Definition cacheHashes (hs : list FileHash) (c : cdn) : cdn :=
  set_hashes (fold_left cache_hash hs (hashes c, hashOffsets c)) c.

Definition resetHashes (c : cdn) : cdn := set_hashes (∅, []) c.
Definition resetWindows (c : cdn) : cdn := set_windows (∅, []) c.

Definition cachedWindow (h : FileHash) (c : cdn) : option (list byte) :=
  match windows c !! fh_Offset h with
  | Some d => if (zlen d =? 0) || (zlen d >? fh_Limit h) then None else Some d
  | None => None
  end.

(** The loop that evicts; it runs once per entry beyond the bound. *)
Fixpoint evict (fuel : nat) (ws : gmap Z (list byte)) (fifo : list Z) : gmap Z (list byte) * list Z :=
  match fuel, fifo with
  | S fuel, o :: fifo' =>
      if (maxVerifiedWindowCache <? length fifo)%nat then evict fuel (delete o ws) fifo' else (ws, fifo)
  | _, _ => (ws, fifo)
  end.

Definition cacheWindow (h : FileHash) (d : list byte) (c : cdn) : cdn :=
  if (fh_Limit h <=? 0) || (zlen d =? 0) || (zlen d >? fh_Limit h) then c
  else
    let fifo := match windows c !! fh_Offset h with
                | Some _ => windowsFIFO c
                | None => windowsFIFO c ++ [fh_Offset h]
                end in
    set_windows (evict (length fifo) (<[fh_Offset h := d]> (windows c)) fifo) c.

(** hash: the window at the offset, or the last one that starts before it. *)
Definition hash (o : Z) (c : cdn) : option FileHash :=
  match hashes c !! o with
  | Some h => Some h
  | None =>
      match Search (length (hashOffsets c)) (fun i => offset_at (hashOffsets c) i >? o) with
      | O => None
      | S idx =>
          match hashes c !! offset_at (hashOffsets c) idx with
          | None => None
          | Some candidate =>
              if fh_Limit candidate <=? 0 then None
              else if (o >=? fh_Offset candidate) && (o <? hash_end candidate) then Some candidate else None
          end
      end
  end.

(** ** The schema *)

Record world (E : Type) : Type := mkWorld { w_cdn : cdn; w_env : E }.
Arguments mkWorld {E}. Arguments w_cdn {E}. Arguments w_env {E}.

Section Schema.
Context {E : Type} (srv : Servers E) (timeout : error -> bool).
(** The AES block function: a key and a block of 16 bytes. *)
Context (aes_block : list byte -> list byte -> list byte).
(** cdn.max and cdn.verify *)
Context (max : Z) (verify : bool).
(** How often a request that keeps failing with a flood wait is sent again. *)
Context (fuel : nat).

Abbreviation M := (GoM (world E)).

Definition env {A} (m : GoM E A) : M A := fun w => let '(r, e) := m (w_env w) in (r, mkWorld (w_cdn w) e).
Definition cdn_state : M cdn := fun w => (Ok (w_cdn w), w).
Definition on_cdn (f : cdn -> cdn) : M unit := fun w => (Ok tt, mkWorld (f (w_cdn w)) (w_env w)).
Definition ctxErr : M (option error) := fun w => let '(r, e) := ctx_Err srv (w_env w) in (Ok r, mkWorld (w_cdn w) e).
(** The result of a call, for code that looks at its error. *)
Definition attempt {A} (m : M A) : M (A + error) := fun w =>
  match m w with
  | (Ok a, w) => (Ok (inl a), w)
  | (Err e, w) => (Ok (inr e), w)
  | (Panic, w) => (Panic, w)
  end.

Definition reportRetry (op : string) (n : Z) (e : error) : M unit :=
  on_cdn (fun c => mkCdn (mode c) (redirect c) (client c) (clientDC c) (rev c) (hashes c) (hashOffsets c) (windows c)
                     (windowsFIFO c) (events c ++ [mkEvent op n e])).

(** master.Chunk, master.Hashes *)
Definition master_Chunk (offset limit : Z) : M chunk :=
  let! r := env (UploadGetFile srv offset limit) in
  match r with
  | UploadFile bytes t => ret (mkChunk bytes (Some t))
  | UploadFileCDNRedirect r => fail (RedirectError r)
  | UploadFileOther => fail (Errorf "unexpected type")
  end.
Definition master_Hashes (offset : Z) : M (list FileHash) := env (UploadGetFileHashes srv offset).

(** retryRequest: [n] bounds the flood waits; the timeouts are bounded by the code. *)
Fixpoint retryRequest {A} (n : nat) (op event : string) (fn : M A) (timeoutRetries retryAttempt : nat) : M A :=
  match n with
  | O => fun w => (Panic, w)
  | S n =>
      let! done := ctxErr in
      match done with
      | Some e => fail e
      | None =>
          let! r := attempt fn in
          match r with
          | inl a => ret a
          | inr err =>
              let! done := (match AsFloodWait err with Some _ => ctxErr | None => ret None end) in
              let '(flood, waitErr, _) := FloodWait err done in
              if flood then
                let! ctx := ctxErr in
                match ctx with
                | Some e => fail e
                | None =>
                    reportRetry event (Z.of_nat (S retryAttempt)) waitErr ;;!
                    retryRequest n op event fn timeoutRetries (S retryAttempt)
                end
              else
                let! ctx := ctxErr in
                if isRetryableTimeout timeout ctx waitErr then
                  if (maxRetryAttempts <=? S timeoutRetries)%nat then fail (retryLimitErr op waitErr)
                  else
                    reportRetry event (Z.of_nat (S retryAttempt)) waitErr ;;!
                    retryRequest n op event fn (S timeoutRetries) (S retryAttempt)
                else fail waitErr
          end
      end
  end.

(** *** cdn.go *)

Definition set_client (cl : option nat) (dc : Z) (c : cdn) : cdn :=
  mkCdn (mode c) (redirect c) cl dc (rev c) (hashes c) (hashOffsets c) (windows c) (windowsFIFO c) (events c).
Definition set_mode (m : cdnMode) (r : option FileCDNRedirect) (c : cdn) : cdn :=
  mkCdn m r (client c) (clientDC c) ((rev c + 1) mod 2 ^ 64) (hashes c) (hashOffsets c) (windows c) (windowsFIFO c) (events c).

Definition closeClient : M unit := fun w =>
  let cl := client (w_cdn w) in
  (Ok tt, mkWorld (set_client None 0 (w_cdn w)) (match cl with Some h => CloseCDN srv h (w_env w) | None => w_env w end)).

Definition setRedirect (r : FileCDNRedirect) : M unit :=
  on_cdn (fun c => cacheHashes (FileHashes r) (resetWindows (resetHashes (set_mode modeCDN (Some r) c)))).
Definition setMaster : M unit := on_cdn (fun c => resetWindows (resetHashes (set_mode modeMaster None c))).

(** *** cdn_state_machine.go *)

Definition cdnRefreshProbeLimit : Z := 4 * 1024.

(** The second half of ensureClient: a new client. *)
Definition createClient (dcID : Z) : M nat :=
  closeClient ;;!
  let! r := env (ProvideCDN srv dcID max) in
  match r with
  | None => fail (Errorf "cdn provider returned nil client")
  | Some h => on_cdn (set_client (Some h) dcID) ;;! ret h
  end.

Definition ensureClient (dcID : Z) : M nat :=
  let! c := cdn_state in
  match client c with
  | Some h => if clientDC c =? dcID then ret h else createClient dcID
  | None => createClient dcID
  end.

Definition activateRedirect (r : FileCDNRedirect) : M unit :=
  ensureClient (DCID r) ;;! setRedirect r.

(** The errors of creating a client: [true] when the caller should try again. *)
Definition clientFailed (n : Z) (err : error) : M bool :=
  if Is err Canceled || Is err DeadlineExceeded then fail (Wrap err "create CDN client")
  else if isCDNFingerprintErr err then
    reportRetry "cdn.create_client" n err ;;! closeClient ;;! ret true
  else fail (Wrap err "create CDN client").

(** A chunk of the master, or nothing when the state was refreshed. *)
Definition refreshRedirect (offset limit prevRev : Z) (n : Z) : M (option chunk) :=
  let limit := if limit <=? 0 then cdnRefreshProbeLimit else limit in
  let! c := cdn_state in
  if negb (rev c =? prevRev) then ret None
  else
    let! r := attempt (retryRequest fuel "refresh CDN redirect" "cdn.refresh_redirect" (master_Chunk offset limit) 0 0) in
    match r with
    | inl ch => setMaster ;;! ret (Some ch)
    | inr err =>
        match AsRedirect err with
        | Some rd =>
            let! r := attempt (activateRedirect rd) in
            match r with
            | inl _ => ret None
            | inr err => clientFailed n err ;;! ret None
            end
        | None => fail (Wrap err "refresh CDN redirect")
        end
    end.

(** What recoverCDNControlError decides: [None] is an error it does not handle, a chunk
    of the master is returned, otherwise the request is tried again. *)
Definition recoverCDNControlError (err : error) (offset limit prevRev : Z) (n : Z) : M (option (option chunk)) :=
  if isCDNFingerprintErr err then closeClient ;;! ret (Some None)
  else if negb (isCDNMasterFallbackErr err) then ret None
  else
    let! r := refreshRedirect offset limit prevRev n in
    ret (Some r).

(** The loop of Hashes, [n] attempts of which [k] are left. *)
Fixpoint hashes_loop (k : nat) (n : Z) (offset : Z) : M (list FileHash) :=
  match k with
  | O => fail (retryLimitErr "cdn hashes" (Errorf "state loop"))
  | S k =>
      let! done := ctxErr in
      match done with
      | Some e => fail e
      | None =>
          let! c := cdn_state in
          match mode c with
          | modeMaster => wrapping "master hashes" (master_Hashes offset)
          | modeCDN =>
              match redirect c with
              | None => setMaster ;;! hashes_loop k (n + 1) offset
              | Some rd =>
                  let! r := attempt (env (UploadGetCDNFileHashes srv (FileToken rd) offset)) in
                  match r with
                  | inl hs => on_cdn (cacheHashes hs) ;;! ret hs
                  | inr err =>
                      let! rec := recoverCDNControlError err offset cdnRefreshProbeLimit (rev c) (n + 1) in
                      match rec with
                      | Some None =>
                          reportRetry "cdn.get_file_hashes" (n + 1) err ;;! hashes_loop k (n + 1) offset
                      | Some (Some _) => hashes_loop k (n + 1) offset
                      | None => fail (Wrap err "cdn hashes")
                      end
                  end
              end
          end
      end
  end.
Definition Hashes (offset : Z) : M (list FileHash) := hashes_loop maxRetryAttempts 0 offset.

(** *** cdn_verify.go *)

Fixpoint hashFor_loop (k : nat) (offset : Z) : M FileHash :=
  match k with
  | O => fail (retryLimitErr "cdn hash lookup" (Errorf "hash for offset not found"))
  | S k =>
      let! done := ctxErr in
      match done with
      | Some e => fail e
      | None =>
          let! hs := wrapping "load CDN hashes" (Hashes offset) in
          on_cdn (cacheHashes hs) ;;!
          let! c := cdn_state in
          match hash offset c with
          | Some h => ret h
          | None => hashFor_loop k offset
          end
      end
  end.

Definition hashForOffset (offset : Z) : M FileHash :=
  let! c := cdn_state in
  match hash offset c with
  | Some h => ret h
  | None => hashFor_loop maxRetryAttempts offset
  end.

Section Verify.
(** Chunk, which loads the windows that cross the borders of a chunk. *)
Context (Chunk : Z -> Z -> M chunk).

Definition loadAndVerifyWindow (h : FileHash) : M (list byte) :=
  let! c := cdn_state in
  match cachedWindow h c with
  | Some w => ret w
  | None =>
      let! full := wrapping "load full hash window" (Chunk (fh_Offset h) (fh_Limit h)) in
      let d := data full in
      if (zlen d =? 0) || (zlen d >? fh_Limit h) then fail (Errorf "invalid CDN window length")
      else if negb (bool_decide (sha256 d = fh_Hash h)) then fail (Wrap ErrHashMismatch "at offset")
      else on_cdn (cacheWindow h d) ;;! ret d
  end.

(** [copy(data[from:to], w)] *)
Definition splice (from : Z) (w d : list byte) : list byte :=
  take (Z.to_nat from) d ++ w ++ drop (Z.to_nat from + length w) d.

(** The loop of verifyChunk on the chunk [d] at [start]: it returns the chunk with the
    verified bytes written over it.  The windows it visits end later and later. *)
Fixpoint verify_loop (k : nat) (start : Z) (short : bool) (current : Z) (d : list byte) : M (list byte) :=
  match k with
  | O => fun w => (Panic, w)
  | S k =>
      let chunkEnd := start + zlen d in
      if current <? chunkEnd then
        let! h := hashForOffset current in
        if fh_Limit h <=? 0 then fail (Errorf "invalid CDN hash limit")
        else
          let windowStart := fh_Offset h in
          let windowEnd := hash_end h in
          if windowEnd <=? current then fail (Errorf "invalid CDN hash window")
          else if (windowStart >=? start) && (windowEnd <=? chunkEnd) then
            if negb (bool_decide (sha256 (slice (windowStart - start) (windowEnd - start) d) = fh_Hash h))
            then fail (Wrap ErrHashMismatch "at offset")
            else verify_loop k start short windowEnd d
          else if short && (windowStart >=? start) && (windowStart <? chunkEnd) && (windowEnd >? chunkEnd) then
            if negb (bool_decide (sha256 (drop (Z.to_nat (windowStart - start)) d) = fh_Hash h))
            then fail ErrHashMismatch
            else ret d
          else
            let! window := loadAndVerifyWindow h in
            let overlapStart := if windowStart >? start then windowStart else start in
            let windowDataEnd := windowStart + zlen window in
            let overlapEnd := if windowDataEnd <? chunkEnd then windowDataEnd else chunkEnd in
            if overlapEnd <=? overlapStart then fail (Errorf "invalid overlap for hash window")
            else
              verify_loop k start short windowEnd
                (splice (overlapStart - start) (slice (overlapStart - windowStart) (overlapEnd - windowStart) window) d)
      else ret d
  end.

Definition verifyChunk (offset requestedLimit : Z) (d : list byte) : M (list byte) :=
  if negb verify || (zlen d =? 0) then ret d
  else verify_loop (S (length d)) offset ((requestedLimit >? 0) && (zlen d <? requestedLimit)) offset d.
End Verify.

(** cipher.NewCTR(block, iv).XORKeyStream: the counter is the block as a number. *)
Definition keystream (key iv : list byte) (n : nat) : list byte :=
  concat (map (fun i => aes_block key (be_split 16 (be_combine iv + Z.of_nat i))) (seq 0 (n / 16 + 1))).
Definition ctr (key iv src : list byte) : list byte :=
  zip_with (fun x y => byte.of_Z (Z.lxor (byte.unsigned x) (byte.unsigned y))) src (keystream key iv (length src)).

Definition decrypt (src : list byte) (offset : Z) (rd : FileCDNRedirect) : outcome (list byte) :=
  match aes_NewCipher (EncryptionKey rd) with
  | Some e => Err (Wrap e "create cipher")
  | None =>
      if negb (zlen (EncryptionIv rd) =? 16) then Err (Errorf "invalid IV or key length")
      else Ok (ctr (EncryptionKey rd) (take 12 (EncryptionIv rd) ++ be_split 4 (u32 (offset `quot` 16))) src)
  end.

(** How the loop over the requests of a chunk ends: with data, with a chunk of the
    master, or to be tried again. *)
Inductive parts : Type := PartsData (d : list byte) | PartsReturn (c : chunk) | PartsRetry.

Definition lift {A} (r : outcome A) : M A := fun w => (r, w).

Fixpoint part_loop (plan : list (Z * Z)) (h : nat) (rd : FileCDNRedirect) (offset limit rev0 n : Z) (d : list byte) : M parts :=
  match plan with
  | [] => ret (PartsData d)
  | (o, l) :: plan =>
      let! r := attempt (env (UploadGetCDNFile srv h (FileToken rd) o l)) in
      match r with
      | inr err =>
          let! rec := recoverCDNControlError err offset limit rev0 n in
          match rec with
          | Some (Some c) => ret (PartsReturn c)
          | Some None => reportRetry "cdn.get_file" n err ;;! ret PartsRetry
          | None => fail (Wrap err "cdn chunk")
          end
      | inl (UploadCDNFile bytes) =>
          let! part := lift (decrypt bytes o rd) in
          if zlen part <? l then ret (PartsData (d ++ part))
          else part_loop plan h rd offset limit rev0 n (d ++ part)
      | inl (UploadCDNFileReuploadNeeded token) =>
          let! r := attempt (env (UploadReuploadCDNFile srv (FileToken rd) token)) in
          match r with
          | inr err =>
              let! rec := recoverCDNControlError err offset limit rev0 n in
              match rec with
              | Some (Some c) => ret (PartsReturn c)
              | Some None => reportRetry "cdn.reupload" n err ;;! ret PartsRetry
              | None => fail (Wrap err "cdn reupload")
              end
          | inl hs => on_cdn (cacheHashes hs) ;;! ret PartsRetry
          end
      | inl UploadCDNFileOther => fail (Errorf "unexpected type")
      end
  end.

(** The loop of Chunk; [recurse] is Chunk for the windows that verification loads. *)
Fixpoint chunk_loop (recurse : Z -> Z -> M chunk) (k : nat) (n : Z) (offset limit : Z) : M chunk :=
  match k with
  | O => fail (retryLimitErr "cdn chunk" (Errorf "state loop"))
  | S k =>
      let again := chunk_loop recurse k (n + 1) offset limit in
      let! done := ctxErr in
      match done with
      | Some e => fail e
      | None =>
          let! c := cdn_state in
          match mode c with
          | modeMaster =>
              let! r := attempt (master_Chunk offset limit) in
              match r with
              | inl ch => ret ch
              | inr err =>
                  match AsRedirect err with
                  | Some rd =>
                      let! r := attempt (activateRedirect rd) in
                      match r with
                      | inl _ => again
                      | inr err => clientFailed (n + 1) err ;;! again
                      end
                  | None => fail (Wrap err "master chunk")
                  end
              end
          | modeCDN =>
              match redirect c with
              | None => setMaster ;;! again
              | Some rd =>
                  let! cl := attempt (ensureClient (DCID rd)) in
                  match cl with
                  | inr err => clientFailed (n + 1) err ;;! again
                  | inl h =>
                      let! plan := wrapping "cdn request plan" (lift (buildCDNRequestPlan offset limit)) in
                      let! r := part_loop plan h rd offset limit (rev c) (n + 1) [] in
                      match r with
                      | PartsReturn ch => ret ch
                      | PartsRetry => again
                      | PartsData d =>
                          let! d := verifyChunk recurse offset limit d in
                          ret (mkChunk d None)
                      end
                  end
              end
          end
      end
  end.

(** Chunk with at most [depth] nested calls. *)
Fixpoint Chunk (depth : nat) (offset limit : Z) : M chunk :=
  match depth with
  | O => fun w => (Panic, w)
  | S depth => chunk_loop (Chunk depth) maxRetryAttempts 0 offset limit
  end.
End Schema.

(** ** Request plans *)

(** A plan that covers a range without gaps. *)
Fixpoint tiles (plan : list (Z * Z)) (offset limit : Z) : Prop :=
  match plan with
  | [] => limit = 0
  | (o, l) :: plan => o = offset /\ 0 < l /\ tiles plan (offset + l) (limit - l)
  end.

(** The requests that a CDN accepts: of whole blocks, of a size that divides a
    megabyte, and within one megabyte. *)
Definition acceptable (r : Z * Z) : Prop :=
  let '(o, l) := r in
  o mod 4096 = 0 /\ l mod 4096 = 0 /\ 2 ^ 20 mod l = 0 /\ o / 2 ^ 20 = (o + l - 1) / 2 ^ 20.

Lemma largest_loop_spec fuel size : size mod 4096 = 0 -> 4096 <= size -> size / 4096 <= Z.of_nat fuel ->
  let r := largest_loop fuel size in 4096 <= r <= size /\ r mod 4096 = 0 /\ 2 ^ 20 mod r = 0.
Proof.
  revert size. induction fuel as [|fuel IH]; intros size Hm Hs Hf.
  { pose proof (Z.div_le_mono 4096 size 4096 ltac:(lia) Hs). change (4096 / 4096) with 1 in *. lia. }
  cbn [largest_loop]. unfold cdnMinChunk, cdnMaxChunk. rewrite Z.geb_leb. replace (4 * 1024 <=? size) with true by lia.
  rewrite Z.rem_mod_nonneg by lia. destruct (Z.eqb_spec (1024 * 1024 mod size) 0) as [E|E]; [split_and!; [lia|lia|done|exact E]|].
  assert (size <> 4096) by (intros ->; done).
  assert (4096 <= size - 4096) by (pose proof (Z.div_mod size 4096); lia).
  change (4 * 1024) with 4096. destruct (IH (size - 4096)) as (H1 & H2 & H3); [| done| |].
  - rewrite Zminus_mod, Hm. done.
  - replace (size - 4096) with (size + (-1) * 4096) by lia. rewrite Z_div_plus_full by lia. lia.
  - cbv zeta. split; [lia|done].
Qed.

Lemma plan_loop_spec fuel current remaining :
  0 <= current -> current mod 4096 = 0 -> 0 <= remaining -> remaining mod 4096 = 0 -> remaining / 4096 < Z.of_nat fuel ->
  exists plan, plan_loop fuel current remaining = Ok plan /\ tiles plan current remaining /\ Forall acceptable plan.
Proof.
  revert current remaining. induction fuel as [|fuel IH]; intros current remaining Hc Hcm Hr Hrm Hf.
  { assert (0 <= remaining / 4096) by (apply Z.div_pos; lia). lia. }
  cbn [plan_loop]. rewrite Z.gtb_ltb. destruct (Z.ltb_spec 0 remaining); [|exists []; split_and!; [done|simpl; lia|done]].
  unfold cdnMaxChunk. change (1024 * 1024) with (2 ^ 20). rewrite Z.rem_mod_nonneg by lia.
  pose proof (Z.mod_pos_bound current (2 ^ 20) ltac:(lia)) as Hu.
  assert ((current mod 2 ^ 20) mod 4096 = 0) as Hum
    by (rewrite Z.mod_mod_divide; [done|exists 256; reflexivity]).
  set (m := if remaining >? _ then _ else _).
  assert (m mod 4096 = 0 /\ 4096 <= m <= remaining /\ m <= 2 ^ 20 - current mod 2 ^ 20) as (Hmm & Hmr & Hml).
  { assert (4096 <= remaining) by (pose proof (Z.div_mod remaining 4096); lia).
    assert ((2 ^ 20 - current mod 2 ^ 20) mod 4096 = 0) as Hlm by (rewrite Zminus_mod, Hum; done).
    assert (4096 <= 2 ^ 20 - current mod 2 ^ 20) by (pose proof (Z.div_mod (2 ^ 20 - current mod 2 ^ 20) 4096); lia).
    subst m. rewrite Z.gtb_ltb. destruct (Z.ltb_spec (2 ^ 20 - current mod 2 ^ 20) remaining); split_and!; try done; lia. }
  pose proof (largest_loop_spec (Z.to_nat (m / cdnMinChunk + 1)) m Hmm ltac:(lia)) as Hl. fold (largestCDNValidLimit m) in Hl.
  assert (0 <= m / 4096) by (apply Z.div_pos; lia).
  destruct Hl as (Hs1 & Hs2 & Hs3); [change cdnMinChunk with 4096; lia|].
  set (step := largestCDNValidLimit m) in *. replace (step =? 0) with false by lia.
  destruct (IH (current + step) (remaining - step)) as (plan & Hp & Ht & Ha); try lia.
  - rewrite Zplus_mod, Hcm, Hs2. done.
  - rewrite Zminus_mod, Hrm, Hs2. done.
  - assert ((remaining - step) / 4096 < remaining / 4096); [|lia].
    apply Z.div_lt_upper_bound; [lia|]. pose proof (Z.div_mod remaining 4096). lia.
  - exists ((current, step) :: plan). rewrite Hp. split_and!; [done|simpl; split_and!; [done|lia|done]|].
    constructor; [|done]. simpl. split_and!; try done.
    pose proof (Z.div_mod current (2 ^ 20)). apply (Z.div_unique_pos _ _ _ (current mod 2 ^ 20 + step - 1)); lia.
Qed.

(** A plan is made exactly for the ranges of whole blocks, and it covers them with
    requests that a CDN accepts. *)
Theorem cdn_plan_covers (offset limit : Z) :
  (0 <= offset /\ 0 < limit /\ offset mod 4096 = 0 /\ limit mod 4096 = 0 ->
   exists plan, buildCDNRequestPlan offset limit = Ok plan /\ tiles plan offset limit /\ Forall acceptable plan) /\
  (~ (0 <= offset /\ 0 < limit /\ offset mod 4096 = 0 /\ limit mod 4096 = 0) ->
   exists e, buildCDNRequestPlan offset limit = Err e).
Proof.
  unfold buildCDNRequestPlan. change cdnMinChunk with 4096. split.
  - intros (Ho & Hl & Hom & Hlm). replace (limit <=? 0) with false by lia. replace (offset <? 0) with false by lia.
    rewrite !Z.rem_mod_nonneg, Hom, Hlm by lia. cbn [negb Z.eqb]. apply plan_loop_spec; try lia.
  - intros Hn. destruct (Z.leb_spec limit 0); [by eexists|]. destruct (Z.ltb_spec offset 0); [by eexists|].
    rewrite !Z.rem_mod_nonneg by lia. destruct (Z.eqb_spec (offset mod 4096) 0); cbn [negb]; [|by eexists].
    destruct (Z.eqb_spec (limit mod 4096) 0); cbn [negb]; [|by eexists]. destruct Hn. lia.
Qed.

(** ** Decryption *)

Section Decrypt.
Context (aes_block : list byte -> list byte -> list byte).
(** A block cipher maps blocks of 16 bytes to blocks of 16 bytes. *)
Context (Hblock : forall key b, length (aes_block key b) = 16%nat).

Abbreviation xor x y := (byte.of_Z (Z.lxor (byte.unsigned x) (byte.unsigned y))).
Abbreviation ks_from key c n := (concat (map (fun i => aes_block key (be_split 16 (c + Z.of_nat i))) (seq 0 n))).

Lemma ks_length key c n : length (ks_from key c n) = (16 * n)%nat.
Proof.
  induction n as [|n IH]; [done|]. rewrite seq_S, map_app, concat_app, length_app, IH. simpl.
  rewrite app_nil_r, Hblock. lia.
Qed.

Lemma ks_app key c m n : ks_from key c (m + n) = ks_from key c m ++ ks_from key (c + Z.of_nat m) n.
Proof.
  rewrite seq_app, map_app, concat_app. f_equal. simpl. rewrite <- (Nat.add_0_r m) at 1. rewrite <- fmap_add_seq.
  rewrite <- list_fmap_compose. f_equal. apply list_fmap_ext. intros i x _. simpl. do 2 f_equal. lia.
Qed.

Lemma zip_xor_enough (src l k : list byte) : (length src <= length l)%nat ->
  zip_with (fun x y => xor x y) src (l ++ k) = zip_with (fun x y => xor x y) src l.
Proof.
  revert l. induction src as [|x src IH]; intros [|y l] Hl; simpl in *; try done; [lia|]. f_equal. apply IH. lia.
Qed.

(** The key stream may be taken longer than needed. *)
Lemma ctr_from key iv src n : (length src <= 16 * n)%nat ->
  ctr aes_block key iv src = zip_with (fun x y => xor x y) src (ks_from key (be_combine iv) n).
Proof.
  intros Hn. unfold ctr, keystream. set (m := (length src / 16 + 1)%nat).
  assert (length src <= 16 * m)%nat as Hm.
  { subst m. pose proof (Nat.div_mod (length src) 16 ltac:(lia)). pose proof (Nat.mod_upper_bound (length src) 16 ltac:(lia)). lia. }
  destruct (decide (m <= n)%nat) as [Hle|Hle].
  - replace n with (m + (n - m))%nat by lia. rewrite ks_app, zip_xor_enough; [done|]. rewrite ks_length. lia.
  - replace m with (n + (m - n))%nat by lia. rewrite ks_app, zip_xor_enough; [done|]. rewrite ks_length. lia.
Qed.

(** A counter that is [m] blocks further. *)
Lemma ctr_app key iv iv' a b m : length a = (16 * m)%nat -> be_combine iv' = be_combine iv + Z.of_nat m ->
  ctr aes_block key iv (a ++ b) = ctr aes_block key iv a ++ ctr aes_block key iv' b.
Proof.
  intros Ha Hiv. rewrite (ctr_from key iv (a ++ b) (m + (length b / 16 + 1))).
  2: { rewrite length_app, Ha. pose proof (Nat.div_mod (length b) 16 ltac:(lia)). pose proof (Nat.mod_upper_bound (length b) 16 ltac:(lia)). lia. }
  rewrite (ctr_from key iv a m) by lia. unfold ctr at 1, keystream. rewrite Hiv, ks_app.
  apply zip_with_app. by rewrite ks_length.
Qed.

Lemma ctr_length key iv src : length (ctr aes_block key iv src) = length src.
Proof.
  rewrite (ctr_from key iv src (length src)) by lia. rewrite length_zip_with, ks_length. lia.
Qed.

Lemma xor_xor x y : xor (xor x y) y = x.
Proof.
  assert (xor_bytes (xor_bytes [x] [y]) [y] = [x]) as H by (by apply xor_bytes_cancel). by injection H.
Qed.

Lemma ctr_involutive key iv src : ctr aes_block key iv (ctr aes_block key iv src) = src.
Proof.
  rewrite (ctr_from key iv (ctr aes_block key iv src) (length src)) by (rewrite ctr_length; lia).
  rewrite (ctr_from key iv src (length src)) by lia.
  assert (length src <= length (ks_from key (be_combine iv) (length src)))%nat as Hl by (rewrite ks_length; lia).
  revert Hl. generalize (ks_from key (be_combine iv) (length src)). clear. induction src as [|x src IH]; intros [|y l] Hl; simpl in *; try done; [lia|].
  f_equal; [apply xor_xor|apply IH; lia].
Qed.

(** The counter of an offset. *)
Definition counter (iv : list byte) (o : Z) : list byte := take 12 iv ++ be_split 4 (u32 (o `quot` 16)).

Lemma be_combine_app a b : be_combine (a ++ b) = be_combine a * 2 ^ (8 * zlen b) + be_combine b.
Proof.
  unfold be_combine, zlen. rewrite rev_app_distr, le_combine_app, length_rev.
  pose proof (le_combine_bound (List.rev b)) as Hb. rewrite length_rev in Hb.
  rewrite (Z.mul_comm (Z.of_nat _) 8). set (n := 8 * Z.of_nat (length b)) in *.
  rewrite BitOps.or_to_plus; [rewrite Z.shiftl_mul_pow2; lia|]. apply Z.bits_inj'. intros i Hi.
  rewrite Z.land_spec, Z.shiftl_spec, Z.bits_0 by lia. destruct (decide (i < n)).
  - rewrite (Z.testbit_neg_r _ (i - n)) by lia. apply andb_false_r.
  - rewrite <- (Z.mod_small (le_combine (List.rev b)) (2 ^ n)) by lia. by rewrite Z.mod_pow2_bits_high by lia.
Qed.

Lemma counter_step iv o m : 0 <= o -> o mod 16 = 0 -> (o + 16 * Z.of_nat m) / 16 < 2 ^ 32 ->
  be_combine (counter iv (o + 16 * Z.of_nat m)) = be_combine (counter iv o) + Z.of_nat m.
Proof.
  intros Ho Hm Hlt. unfold counter. rewrite !be_combine_app, !zlen_be_split.
  rewrite !Z.quot_div_nonneg by lia. replace ((o + 16 * Z.of_nat m) / 16) with (o / 16 + Z.of_nat m) in *
    by (rewrite (Z.mul_comm 16), Z_div_plus_full by lia; lia).
  assert (0 <= o / 16) by (apply Z.div_pos; lia).
  rewrite !uwrap_id by (unfold is_unsigned; lia). rewrite !be_combine_split by (unfold is_unsigned; change (Z.of_nat 4 * 8) with 32; lia).
  lia.
Qed.

(** Whether the keys of a redirection have the sizes that decryption asks for. *)
Definition keys_ok (rd : FileCDNRedirect) : Prop :=
  aes_NewCipher (EncryptionKey rd) = None /\ zlen (EncryptionIv rd) = 16.

Lemma decrypt_ok src o rd : keys_ok rd ->
  decrypt aes_block src o rd = Ok (ctr aes_block (EncryptionKey rd) (counter (EncryptionIv rd) o) src).
Proof. intros [Hk Hiv]. unfold decrypt. rewrite Hk, Hiv. done. Qed.

Lemma decrypt_app rd o a b : keys_ok rd -> 0 <= o -> o mod 16 = 0 -> zlen a mod 16 = 0 -> (o + zlen a) / 16 < 2 ^ 32 ->
  decrypt aes_block (a ++ b) o rd =
  Ok (ctr aes_block (EncryptionKey rd) (counter (EncryptionIv rd) o) a ++
      ctr aes_block (EncryptionKey rd) (counter (EncryptionIv rd) (o + zlen a)) b).
Proof.
  intros Hk Ho Hm Ha Hlt. rewrite decrypt_ok by done. f_equal.
  assert (zlen a = 16 * Z.of_nat (Z.to_nat (zlen a / 16))) as Hl.
  { pose proof (zlen_nonneg a). rewrite Z2Nat.id by (apply Z.div_pos; lia). pose proof (Z.div_mod (zlen a) 16). lia. }
  apply (ctr_app _ _ _ _ _ (Z.to_nat (zlen a / 16))); [unfold zlen in *; lia|].
  rewrite Hl at 1. apply counter_step; [done|done|]. by rewrite <- Hl.
Qed.

(** What a CDN stores for [file], as https://core.telegram.org/cdn describes it: the
    byte at position [i] is combined with byte [i mod 16] of the block of the key
    stream for [i / 16], the encryption of the first twelve bytes of the initial vector
    followed by that number. *)
Definition stream_block (rd : FileCDNRedirect) (j : nat) : list byte :=
  aes_block (EncryptionKey rd) (take 12 (EncryptionIv rd) ++ be_split 4 (Z.of_nat j)).
Definition stored (rd : FileCDNRedirect) (file : list byte) : list byte :=
  imap (fun i x => xor x (default Byte.x00 (stream_block rd (i / 16) !! (i mod 16)%nat))) file.

Lemma ks_lookup key c n i : (i < 16 * n)%nat ->
  ks_from key c n !! i = aes_block key (be_split 16 (c + Z.of_nat (i / 16))) !! (i mod 16)%nat.
Proof.
  intros Hi. pose proof (Nat.div_mod i 16 ltac:(lia)) as Hd. pose proof (Nat.mod_upper_bound i 16 ltac:(lia)) as Hm.
  set (q := (i / 16)%nat) in *. set (r := (i mod 16)%nat) in *.
  replace n with (q + S (n - q - 1))%nat by lia. rewrite ks_app, lookup_app_r by (rewrite ks_length; lia).
  rewrite ks_length. replace (i - 16 * q)%nat with r by lia. cbn [seq map concat].
  rewrite lookup_app_l by (rewrite Hblock; lia). by rewrite Z.add_0_r.
Qed.

(** The blocks of the file from an offset on, as the client counts them. *)
Lemma counter_block rd o i : zlen (EncryptionIv rd) = 16 -> 0 <= o -> o mod 16 = 0 -> o + Z.of_nat i < 2 ^ 36 ->
  aes_block (EncryptionKey rd) (be_split 16 (be_combine (counter (EncryptionIv rd) o) + Z.of_nat (i / 16))) =
  stream_block rd ((Z.to_nat o + i) / 16).
Proof.
  intros Hiv Ho Hm Hlt. unfold stream_block. f_equal.
  assert (o + 16 * Z.of_nat (i / 16) <= o + Z.of_nat i) as Hle
    by (pose proof (Nat.div_mod i 16 ltac:(lia)); lia).
  assert ((o + 16 * Z.of_nat (i / 16)) / 16 = Z.of_nat ((Z.to_nat o + i) / 16)) as Hq.
  { rewrite (Z.mul_comm 16), Z_div_plus_full by lia. rewrite !Nat2Z.inj_div, Nat2Z.inj_add, Z2Nat.id by lia.
    change (Z.of_nat 16) with 16. pose proof (Z.div_mod o 16 ltac:(lia)) as Hdo. rewrite Hm, Z.add_0_r in Hdo.
    rewrite Hdo at 2. by rewrite (Z.add_comm (16 * _)), (Z.mul_comm 16), Z_div_plus_full, Z.add_comm by lia. }
  assert ((o + 16 * Z.of_nat (i / 16)) / 16 < 2 ^ 32) as H32 by (apply Z.div_lt_upper_bound; lia).
  rewrite <- (counter_step _ o (i / 16)) by done. unfold counter. rewrite Z.quot_div_nonneg, Hq by lia.
  rewrite Hq in H32. rewrite uwrap_id by (unfold is_unsigned; lia).
  apply be_split_combine. rewrite length_app, length_take. unfold zlen in Hiv.
  pose proof (zlen_be_split 4 (Z.of_nat ((Z.to_nat o + i) / 16))) as Hz. unfold zlen in Hz. lia.
Qed.

(** A part of the stored file that starts at a block is decrypted to that part of the file. *)
Lemma decrypt_stored rd file o l : keys_ok rd -> 0 <= o -> o mod 16 = 0 -> zlen file <= 2 ^ 36 ->
  decrypt aes_block (part_of (stored rd file) o l) o rd = Ok (part_of file o l).
Proof.
  intros Hk Ho Hm Hz. rewrite decrypt_ok by done. f_equal. destruct Hk as [_ Hiv].
  set (src := part_of (stored rd file) o l). rewrite (ctr_from _ _ src (length src)) by lia.
  assert (length src = length (part_of file o l)) as Hlen.
  { subst src. unfold part_of, stored. by rewrite !length_take, !length_drop, length_imap. }
  apply list_eq_same_length with (length src); [done|by rewrite length_zip_with, ks_length; lia|].
  intros i x y Hi. rewrite lookup_zip_with_Some. intros (a & b & -> & Ha & Hb) Hy.
  assert (file !! (Z.to_nat o + i)%nat = Some y) as Hf.
  { unfold part_of in Hy. apply lookup_take_Some in Hy as [Hy _]. by rewrite lookup_drop in Hy. }
  assert (o + Z.of_nat i < 2 ^ 36) as Hlt by (apply lookup_lt_Some in Hf; unfold zlen in Hz; lia).
  assert (stored rd file !! (Z.to_nat o + i)%nat = Some a) as Hs.
  { subst src. unfold part_of in Ha. apply lookup_take_Some in Ha as [Ha _]. by rewrite lookup_drop in Ha. }
  rewrite ks_lookup in Hb by lia. rewrite counter_block in Hb by done.
  assert (((Z.to_nat o + i) mod 16)%nat = (i mod 16)%nat) as Hr.
  - symmetry. apply Nat2Z.inj. rewrite !Nat2Z.inj_mod, Nat2Z.inj_add, Z2Nat.id by lia. change (Z.of_nat 16) with 16.
    by rewrite Zplus_mod, Hm, Z.add_0_l, Zmod_mod.
  - unfold stored in Hs. rewrite list_lookup_imap, Hf, Hr in Hs. cbn [fmap option_fmap option_map] in Hs.
    rewrite Hb in Hs. apply (inj Some) in Hs. rewrite <- Hs. apply xor_xor.
Qed.
End Decrypt.

(** A file that was encrypted as a whole is decrypted in parts: with whole blocks before
    it, a part is decrypted with the counter of its offset, and decryption undoes the
    encryption, for files below 64 gigabytes. *)
Theorem cdn_decrypts_parts (aes_block : list byte -> list byte -> list byte) (rd : FileCDNRedirect) (file : list byte) (o : Z) :
  (forall key b, length (aes_block key b) = 16%nat) -> keys_ok rd ->
  0 <= o <= zlen file -> o mod 16 = 0 -> o / 16 < 2 ^ 32 ->
  exists encrypted, decrypt aes_block file 0 rd = Ok encrypted /\ zlen encrypted = zlen file /\
    decrypt aes_block (drop (Z.to_nat o) encrypted) o rd = Ok (drop (Z.to_nat o) file).
Proof.
  intros Hb Hk Ho Hm Hlt. set (a := take (Z.to_nat o) file). set (b := drop (Z.to_nat o) file).
  assert (zlen a = o) as Ha by (subst a; unfold zlen in *; rewrite length_take; lia).
  assert (file = a ++ b) as Hf by (subst a b; by rewrite take_drop).
  pose proof (decrypt_app aes_block Hb rd 0 a b Hk ltac:(lia) eq_refl ltac:(by rewrite Ha) ltac:(by rewrite Ha)) as Hd.
  rewrite <- Hf in Hd. eexists. split; [exact Hd|]. rewrite Ha in *. rewrite Z.add_0_l in *. split.
  - unfold zlen. rewrite length_app, !ctr_length by done. rewrite Hf, length_app. done.
  - rewrite drop_app_length' by (rewrite ctr_length by done; unfold zlen in Ha; lia).
    rewrite decrypt_ok by done. by rewrite ctr_involutive.
Qed.

(** ** The caches *)

(** Bisection finds the first index at which a monotone predicate holds. *)
Lemma search_loop_spec p n : (forall i j, (i <= j < n)%nat -> p i = true -> p j = true) ->
  forall fuel lo hi, (hi - lo < fuel)%nat -> (lo <= hi <= n)%nat ->
  (forall i, (i < lo)%nat -> p i = false) -> (forall i, (hi <= i < n)%nat -> p i = true) ->
  let r := search_loop fuel p lo hi in
  (lo <= r <= hi)%nat /\ (forall i, (i < r)%nat -> p i = false) /\ (forall i, (r <= i < n)%nat -> p i = true).
Proof.
  intros Hmono. induction fuel as [|fuel IH]; intros lo hi Hf Hle Hlo Hhi; [lia|]. cbn [search_loop].
  destruct (Nat.ltb_spec lo hi) as [Hlt|Hge].
  - set (h := ((lo + hi) / 2)%nat). assert (lo <= h < hi)%nat as Hh.
    { subst h. split; [apply Nat.div_le_lower_bound; lia|apply Nat.Div0.div_lt_upper_bound; lia]. }
    destruct (p h) eqn:Eh.
    + destruct (IH lo h) as (H1 & H2 & H3); try lia; try done.
      * intros i Hi. apply (Hmono h i); [lia|done].
      * cbv zeta. split; [lia|done].
    + destruct (IH (S h) hi) as (H1 & H2 & H3); try lia; try done.
      * intros i Hi. destruct (p i) eqn:Ei; [|done]. rewrite (Hmono i h) in Eh; [done|lia|done].
      * cbv zeta. split; [lia|done].
  - cbv zeta. replace hi with lo in * by lia. split; [lia|done].
Qed.

Lemma Search_spec n p : (forall i j, (i <= j < n)%nat -> p i = true -> p j = true) ->
  (Search n p <= n)%nat /\ (forall i, (i < Search n p)%nat -> p i = false) /\
  (forall i, (Search n p <= i < n)%nat -> p i = true).
Proof.
  intros Hm. destruct (search_loop_spec p n Hm (S n) 0 n) as (H1 & H2 & H3); try lia.
  unfold Search. split; [lia|done].
Qed.

(** The index is sorted and lists the windows of the map. *)
Record hashes_ok (hs : gmap Z FileHash) (os : list Z) : Prop := {
  ho_sorted : StronglySorted Z.lt os;
  ho_dom o : o ∈ os <-> is_Some (hs !! o) }.

Lemma sorted_lookup os i j x y : StronglySorted Z.lt os -> os !! i = Some x -> os !! j = Some y -> (i < j)%nat -> x < y.
Proof.
  intros Hs. revert i j. induction Hs as [|z os Hs IH Hz]; intros [|i] [|j] Hi Hj Hij; simpl in *; try done; try lia.
  - injection Hi as ->. rewrite Forall_forall in Hz. apply Hz. by eapply list_elem_of_lookup_2.
  - by apply (IH i j); [..|lia].
Qed.

Lemma offset_at_mono os i j : StronglySorted Z.lt os -> (i <= j < length os)%nat -> offset_at os i <= offset_at os j.
Proof.
  intros Hs Hij. unfold offset_at. destruct (lookup_lt_is_Some_2 os i) as [x Hx]; [lia|].
  destruct (lookup_lt_is_Some_2 os j) as [y Hy]; [lia|]. rewrite Hx, Hy. simpl.
  destruct (decide (i = j)) as [->|]; [rewrite Hx in Hy; injection Hy; lia|].
  pose proof (sorted_lookup os i j x y Hs Hx Hy). lia.
Qed.

Lemma sorted_insert os o idx : StronglySorted Z.lt os -> (forall i x, os !! i = Some x -> (i < idx)%nat -> x < o) ->
  (forall i x, os !! i = Some x -> (idx <= i)%nat -> o < x) -> StronglySorted Z.lt (take idx os ++ [o] ++ drop idx os).
Proof.
  intros Hs. revert idx. induction Hs as [|z os Hs IH Hz]; intros idx Hlo Hhi.
  - rewrite take_nil, drop_nil. repeat constructor.
  - destruct idx as [|idx]; simpl.
    + constructor; [by constructor|]. apply Forall_lookup. intros i x Hx. apply (Hhi i x Hx). lia.
    + constructor.
      * apply IH; intros i x Hx Hi; [apply (Hlo (S i) x Hx)|apply (Hhi (S i) x Hx)]; lia.
      * assert (z < o) by (apply (Hlo 0%nat z); [done|lia]). rewrite !Forall_app. split_and!.
        -- by apply Forall_take.
        -- constructor; [done|]. by apply Forall_drop.
Qed.

Lemma cache_offset_ok o h hs os : hashes_ok hs os -> hashes_ok (<[o := h]> hs) (cache_offset o hs os).
Proof.
  intros [Hs Hd]. unfold cache_offset. destruct (hs !! o) as [h'|] eqn:Eo.
  { split; [done|]. intros x. rewrite Hd. destruct (decide (x = o)) as [->|]; [|by rewrite lookup_insert_ne].
    rewrite lookup_insert_eq, Eo. split; by eexists. }
  assert (o ∉ os) as Hnot by (rewrite Hd, Eo; by intros [? ?]).
  set (p := fun i => offset_at os i >=? o).
  destruct (Search_spec (length os) p) as (Hr & Hlo & Hhi).
  { intros i j Hij. unfold p. rewrite !Z.geb_le. pose proof (offset_at_mono os i j Hs Hij). lia. }
  set (idx := Search (length os) p) in *.
  assert (forall i x, os !! i = Some x -> (i < idx)%nat -> x < o) as Hlo'.
  { intros i x Hx Hi. specialize (Hlo i Hi). unfold p, offset_at in Hlo. rewrite Hx in Hlo. simpl in Hlo. lia. }
  assert (forall i x, os !! i = Some x -> (idx <= i)%nat -> o < x) as Hhi'.
  { intros i x Hx Hi. apply lookup_lt_Some in Hx as Hil. specialize (Hhi i ltac:(lia)). unfold p, offset_at in Hhi.
    rewrite Hx in Hhi. simpl in Hhi. assert (x <> o) by (intros ->; apply Hnot; by eapply list_elem_of_lookup_2). lia. }
  assert (hashes_ok (<[o := h]> hs) (take idx os ++ [o] ++ drop idx os)) as Hins.
  { split; [by apply sorted_insert|]. intros x. rewrite !elem_of_app, list_elem_of_singleton.
    assert (x ∈ os <-> x ∈ take idx os \/ x ∈ drop idx os) as Hx by (rewrite <- elem_of_app, take_drop; done).
    destruct (decide (x = o)) as [->|].
    - rewrite lookup_insert_eq. split; [by eexists|auto].
    - rewrite lookup_insert_ne by done. rewrite <- Hd, Hx. naive_solver. }
  destruct (Nat.eqb_spec idx (length os)) as [->|Hne].
  { by rewrite take_ge, drop_ge, app_nil_r in Hins by lia. }
  destruct (Z.eqb_spec (offset_at os idx) o) as [E|]; [|done].
  exfalso. apply Hnot. rewrite <- E. unfold offset_at. destruct (lookup_lt_is_Some_2 os idx) as [x Hx]; [lia|].
  rewrite Hx. by eapply list_elem_of_lookup_2.
Qed.

Lemma cache_hashes_ok l hs os : hashes_ok hs os ->
  hashes_ok (fst (fold_left cache_hash l (hs, os))) (snd (fold_left cache_hash l (hs, os))).
Proof.
  revert hs os. induction l as [|h l IH]; intros hs os Hok; [done|]. cbn [fold_left]. unfold cache_hash at 2 4.
  destruct (fh_Limit h <=? 0); [by apply IH|]. cbn [fst snd]. by apply IH, cache_offset_ok.
Qed.

(** ** Downloads from honest servers *)

Section Honest.
Context {E : Type} (srv : Servers E) (timeout : error -> bool) (aes_block : list byte -> list byte -> list byte).
Context (max : Z) (verify : bool) (fuel : nat).
(** The file, the redirection to the CDN that has it, and the size of the windows that
    it is hashed in. *)
Context (file : list byte) (rd : FileCDNRedirect) (W : Z).

Definition true_hash (h : FileHash) : Prop :=
  exists i, 0 <= i /\ i * W < zlen file /\ h = mkFileHash (i * W) W (sha256 (part_of file (i * W) W)).

(** The master sends the file or redirects, the CDN sends the parts of the file as it is
    stored there, and the hashes are the ones of the file; a request for hashes is
    answered with the window of its offset.  The keys have the sizes of AES, and the
    counter of the key stream has room for the file. *)
Record honest_servers : Prop := {
  hs_block key b : length (aes_block key b) = 16%nat;
  hs_keys : keys_ok rd;
  hs_size : zlen file <= 2 ^ 36;
  hs_ctx e : fst (ctx_Err srv e) = None;
  hs_master o l e : 0 <= o ->
    (exists t, fst (UploadGetFile srv o l e) = Ok (UploadFile (part_of file o l) t)) \/
    fst (UploadGetFile srv o l e) = Ok (UploadFileCDNRedirect rd);
  hs_provide m e : exists h, fst (ProvideCDN srv (DCID rd) m e) = Ok (Some h);
  hs_cdn h o l e : 0 <= o -> 0 < l ->
    fst (UploadGetCDNFile srv h (FileToken rd) o l e) = Ok (UploadCDNFile (part_of (stored aes_block rd file) o l));
  hs_hashes o e : exists hs, fst (UploadGetCDNFileHashes srv (FileToken rd) o e) = Ok hs /\ Forall true_hash hs /\
    (0 <= o < zlen file -> exists h, h ∈ hs /\ fh_Offset h = o / W * W);
  hs_redirect : Forall true_hash (FileHashes rd) }.

Context (Hsrv : honest_servers) (HW : 0 < W) (HW4 : W mod 4096 = 0) (Hfits : zlen file + W < 2 ^ 63).

(** What the schema knows is true. *)
Record good_cdn (c : cdn) : Prop := {
  gc_mode : mode c = modeMaster \/ (mode c = modeCDN /\ redirect c = Some rd);
  gc_hashes k h : hashes c !! k = Some h -> k = fh_Offset h /\ true_hash h;
  gc_index : hashes_ok (hashes c) (hashOffsets c);
  gc_windows k d : windows c !! k = Some d -> d = part_of file k W }.

Lemma good_new : good_cdn newCDNSchema.
Proof.
  split; simpl; [by left| | |]; try (intros k ? Hk; by rewrite lookup_empty in Hk).
  split; [constructor|]. intros o. split; [by intros ?%not_elem_of_nil|]. intros [h Hh]. by rewrite lookup_empty in Hh.
Qed.

Lemma true_hash_facts h : true_hash h -> exists i, 0 <= i /\ i * W < zlen file /\ fh_Offset h = i * W /\ fh_Limit h = W /\
  hash_end h = i * W + W /\ fh_Hash h = sha256 (part_of file (i * W) W).
Proof.
  intros (i & Hi & Hl & ->). exists i. simpl. split_and!; try done. unfold hash_end. simpl.
  apply swrap_id; [lia|]. split; [nia|]. change (2 ^ (64 - 1)) with (2 ^ 63). lia.
Qed.

(** A window that is found contains the offset, and the window of an offset is found. *)
Lemma hash_sound o c h : good_cdn c -> hash o c = Some h -> true_hash h /\ fh_Offset h <= o < fh_Offset h + W.
Proof.
  intros Hc. unfold hash. destruct (hashes c !! o) as [h'|] eqn:Eo.
  - intros [= <-]. destruct (gc_hashes _ Hc _ _ Eo) as [-> Ht]. split; [done|lia].
  - destruct (Search _ _) as [|idx]; [done|]. destruct (hashes c !! offset_at _ _) as [cand|] eqn:Ec; [|done].
    destruct (gc_hashes _ Hc _ _ Ec) as [_ Ht]. destruct (true_hash_facts cand Ht) as (i & Hi & Hl & Ho & Hlim & Hend & _).
    destruct (fh_Limit cand <=? 0); [done|]. destruct (_ && _) eqn:Ein; [|done]. intros [= <-]. split; [done|]. lia.
Qed.

Lemma hash_complete o c h : good_cdn c -> 0 <= o -> hashes c !! (o / W * W) = Some h -> is_Some (hash o c).
Proof.
  intros Hc Ho Hh. unfold hash. destruct (hashes c !! o) as [h'|] eqn:Eo; [by eexists|].
  pose proof (gc_index _ Hc) as [Hs Hd]. set (os := hashOffsets c) in *.
  assert (o / W * W ∈ os) as Hin by (apply Hd; by eexists). apply list_elem_of_lookup in Hin as [ia Hia].
  set (p := fun i => offset_at os i >? o).
  destruct (Search_spec (length os) p) as (Hr & Hlo & Hhi).
  { intros i j Hij. unfold p. rewrite !Z.gtb_lt. pose proof (offset_at_mono os i j Hs Hij). lia. }
  assert (o / W * W <= o < o / W * W + W) as Hw
    by (pose proof (Z.div_mod o W); pose proof (Z.mod_pos_bound o W); lia).
  assert (p ia = false) as Hpa by (unfold p, offset_at; rewrite Hia; simpl; lia).
  assert (ia < Search (length os) p)%nat as Hlt.
  { destruct (decide (ia < Search (length os) p)%nat); [done|]. rewrite Hhi in Hpa; [done|].
    apply lookup_lt_Some in Hia. lia. }
  destruct (Search (length os) p) as [|idx] eqn:Es; [lia|].
  assert (offset_at os idx = o / W * W) as Heq.
  { assert (offset_at os ia <= offset_at os idx) as Hge by (apply offset_at_mono; [done|lia]).
    unfold offset_at at 1 in Hge. rewrite Hia in Hge. simpl in Hge.
    pose proof (Hlo idx ltac:(lia)) as Hpi. unfold p in Hpi.
    destruct (lookup_lt_is_Some_2 os idx) as [x Hx]; [lia|]. unfold offset_at in *. rewrite Hx in *. simpl in *.
    assert (is_Some (hashes c !! x)) as [hx Hhx] by (apply Hd; by eapply list_elem_of_lookup_2).
    destruct (gc_hashes _ Hc _ _ Hhx) as [-> Ht]. destruct (true_hash_facts hx Ht) as (i & Hi & _ & Hoi & _).
    rewrite Hoi in *. assert (i = o / W) by nia. by subst. }
  rewrite Heq, Hh. destruct (gc_hashes _ Hc _ _ Hh) as [Hk Ht].
  destruct (true_hash_facts h Ht) as (i & Hi & _ & Hoi & Hlim & Hend & _).
  rewrite Hlim, Hend, <- Hk. replace (W <=? 0) with false by lia. rewrite Hoi in Hk.
  replace ((o >=? o / W * W) && (o <? i * W + W)) with true by lia. by eexists.
Qed.

Lemma cache_hashes_true l c : good_cdn c -> Forall true_hash l -> good_cdn (cacheHashes l c).
Proof.
  intros [Hm Hh Hi Hw] Hl. unfold cacheHashes.
  pose proof (cache_hashes_ok l _ _ Hi) as Hok. split; simpl; try done. clear Hi Hok. revert Hh.
  generalize (hashes c) (hashOffsets c). induction Hl as [|h l Ht _ IH]; intros hs os Hh; [done|].
  cbn [fold_left]. unfold cache_hash at 2. destruct (fh_Limit h <=? 0); [by apply IH|]. apply IH. cbn [fst].
  intros k h' Hk. apply lookup_insert_Some in Hk as [[<- <-]|[_ Hk]]; [done|]. by apply Hh.
Qed.

Lemma cache_hashes_has l c h : h ∈ l -> Forall true_hash l -> is_Some (hashes (cacheHashes l c) !! fh_Offset h).
Proof.
  intros Hin Hl. unfold cacheHashes. simpl. generalize (hashes c) (hashOffsets c).
  assert (forall l hs os k, is_Some (hs !! k) -> is_Some (fst (fold_left cache_hash l (hs, os)) !! k)) as Hkeep.
  { clear. induction l as [|h l IH]; intros hs os k Hk; [done|]. cbn [fold_left]. unfold cache_hash at 2.
    destruct (fh_Limit h <=? 0); [by apply IH|]. apply IH. cbn [fst]. destruct (decide (k = fh_Offset h)) as [->|].
    - rewrite lookup_insert_eq. by eexists.
    - by rewrite lookup_insert_ne. }
  induction Hl as [|h' l Ht _ IH]; intros hs os; [by apply not_elem_of_nil in Hin|].
  cbn [fold_left]. apply elem_of_cons in Hin as [->|Hin]; [|unfold cache_hash at 2; destruct (fh_Limit h' <=? 0); by apply IH].
  unfold cache_hash at 2. destruct (true_hash_facts h' Ht) as (i & _ & _ & _ & Hlim & _). rewrite Hlim.
  replace (W <=? 0) with false by lia. apply Hkeep. cbn [fst]. rewrite lookup_insert_eq. by eexists.
Qed.

Lemma evict_subset n ws fifo k d : fst (evict n ws fifo) !! k = Some d -> ws !! k = Some d.
Proof.
  revert ws fifo. induction n as [|n IH]; intros ws [|o fifo]; simpl; try done.
  destruct (_ <? _)%nat; [|done]. intros H%IH. by apply lookup_delete_Some in H as [_ ?].
Qed.

Lemma cache_window_true h d c : good_cdn c -> d = part_of file (fh_Offset h) W -> good_cdn (cacheWindow h d c).
Proof.
  intros [Hm Hh Hi Hw] Hd. unfold cacheWindow. destruct (_ || _); [by split|]. split; simpl; try done.
  intros k x Hk. apply evict_subset in Hk. apply lookup_insert_Some in Hk as [[<- <-]|[_ Hk]]; [done|by apply Hw].
Qed.

(** *** The operations *)

Abbreviation never := (fun (_ : error) (_ : world E) => False).

(** The schema has learned something, and its mode is the same. *)
Definition learned (w w' : world E) : Prop :=
  good_cdn (w_cdn w') /\ mode (w_cdn w') = mode (w_cdn w) /\ redirect (w_cdn w') = redirect (w_cdn w) /\
  rev (w_cdn w') = rev (w_cdn w).

Lemma learned_refl w : good_cdn (w_cdn w) -> learned w w.
Proof. by unfold learned. Qed.
Lemma learned_trans w1 w2 w3 : learned w1 w2 -> learned w2 w3 -> learned w1 w3.
Proof. unfold learned. intros (_ & -> & -> & ->) (? & -> & -> & ->). done. Qed.
Lemma learned_same w w' : good_cdn (w_cdn w) -> w_cdn w' = w_cdn w -> learned w w'.
Proof. intros Hg Hw. unfold learned. by rewrite Hw. Qed.

Lemma post_ctx w : post (ctxErr srv) w (fun r w' => r = None /\ w_cdn w' = w_cdn w) never.
Proof. unfold post, ctxErr. pose proof (hs_ctx Hsrv (w_env w)). by destruct (ctx_Err srv (w_env w)). Qed.

Lemma post_env {A} (m : GoM E A) a w : fst (m (w_env w)) = Ok a ->
  post (env m) w (fun r w' => r = a /\ w_cdn w' = w_cdn w) never.
Proof. unfold post, env. destruct (m (w_env w)) as [r e]. simpl. by intros ->. Qed.

Lemma post_attempt {A} (m : GoM (world E) A) w Q : post m w Q never ->
  post (attempt m) w (fun r w' => exists a, r = inl a /\ Q a w') never.
Proof. unfold post, attempt. destruct (m w) as [[a|e|] w']; try done. intros H. by exists a. Qed.

Lemma post_fail_err {A} (m : GoM (world E) A) w e : fst (m w) = Err e ->
  post (attempt m) w (fun r w' => r = inr e /\ m w = (Err e, w')) never.
Proof. unfold post, attempt. destruct (m w) as [[a|e'|] w']; simpl; try done. by intros [= ->]. Qed.

Lemma set_client_good cl dc c : good_cdn c -> good_cdn (set_client cl dc c).
Proof. intros []. by split. Qed.

Lemma post_ensure w : good_cdn (w_cdn w) -> post (ensureClient srv max (DCID rd)) w (fun _ w' => learned w w') never.
Proof.
  intros Hg. assert (post (createClient srv max (DCID rd)) w (fun _ w' => learned w w') never) as Hc.
  { unfold createClient. apply post_bind. unfold post at 1, closeClient.
    set (w1 := mkWorld _ _). destruct (hs_provide Hsrv max (w_env w1)) as [h Hh].
    eapply post_seq; [by apply (post_env _ (Some h))|]. intros r w2 [-> Hw2]. cbv beta iota.
    apply post_bind. unfold post, on_cdn, ret, learned. rewrite Hw2. simpl. split; [|done].
    by do 2 apply set_client_good. }
  unfold ensureClient. apply post_bind. unfold post at 1, cdn_state. destruct (client (w_cdn w)); [|done].
  destruct (_ =? _); [|done]. by apply learned_refl.
Qed.

Definition in_cdn (w : world E) : Prop := good_cdn (w_cdn w) /\ mode (w_cdn w) = modeCDN /\ redirect (w_cdn w) = Some rd.

Lemma learned_in_cdn w w' : in_cdn w -> learned w w' -> in_cdn w'.
Proof. intros (_ & Hm & Hr) (Hg & Hm' & Hr' & _). unfold in_cdn. by rewrite Hm', Hr'. Qed.

Lemma on_cdn_learned w f : (good_cdn (w_cdn w) -> good_cdn (f (w_cdn w))) -> good_cdn (w_cdn w) ->
  mode (f (w_cdn w)) = mode (w_cdn w) -> redirect (f (w_cdn w)) = redirect (w_cdn w) -> rev (f (w_cdn w)) = rev (w_cdn w) ->
  post (on_cdn f) w (fun _ w' => learned w w' /\ w_cdn w' = f (w_cdn w)) never.
Proof. intros Hf Hg Hm Hr Hv. unfold post, on_cdn, learned. simpl. auto. Qed.

Lemma cacheHashes_mode l c : mode (cacheHashes l c) = mode c /\ redirect (cacheHashes l c) = redirect c /\ rev (cacheHashes l c) = rev c.
Proof. done. Qed.

Lemma post_Hashes o w : in_cdn w -> 0 <= o < zlen file ->
  post (Hashes srv timeout max fuel o) w
    (fun hs w' => learned w w' /\ Forall true_hash hs /\ exists h, h ∈ hs /\ fh_Offset h = o / W * W) never.
Proof.
  intros (Hg & Hm & Hr) Ho. unfold Hashes. change maxRetryAttempts with (S 19). generalize 19%nat. intros k. cbn [hashes_loop].
  eapply post_seq; [apply post_ctx|]. intros r w1 [-> Hw1]. cbv beta iota.
  apply post_bind. unfold post at 1, cdn_state. rewrite Hw1, Hm, Hr.
  destruct (hs_hashes Hsrv o (w_env w1)) as (hs & Hhs & Ht & Hin).
  eapply post_seq; [apply post_attempt; by apply (post_env _ hs)|]. intros r w2 (hs' & -> & -> & Hw2). cbv beta iota.
  eapply post_seq.
  { apply (on_cdn_learned w2 (cacheHashes hs)); [|by rewrite Hw2, Hw1|done..]. intros Hg2. by apply cache_hashes_true. }
  intros _ w3 [Hl3 _]. apply post_ret. split; [|by auto].
  eapply learned_trans; [|exact Hl3]. apply learned_same; [done|]. by rewrite Hw2.
Qed.

Lemma post_hashForOffset o w : in_cdn w -> 0 <= o < zlen file ->
  post (hashForOffset srv timeout max fuel o) w
    (fun h w' => learned w w' /\ true_hash h /\ fh_Offset h <= o < fh_Offset h + W) never.
Proof.
  intros Hw Ho. unfold hashForOffset. apply post_bind. unfold post at 1, cdn_state.
  destruct (hash o (w_cdn w)) as [h|] eqn:Eh.
  { apply post_ret. split; [by apply learned_refl, Hw|]. apply (hash_sound o (w_cdn w)); [apply Hw|done]. }
  change maxRetryAttempts with (S 19). generalize 19%nat. intros k. cbn [hashFor_loop].
  eapply post_seq; [apply post_ctx|]. intros r w1 [-> Hw1]. cbv beta iota.
  assert (learned w w1) as Hl1 by (apply learned_same; [apply Hw|done]).
  eapply post_seq.
  { apply post_wrapping. apply post_Hashes; [|done]. by apply (learned_in_cdn w). }
  intros hs w2 (Hl2 & Ht & h0 & Hin & Hh0). assert (learned w w2) as Hl by (by eapply learned_trans).
  eapply post_seq.
  { apply (on_cdn_learned w2 (cacheHashes hs)); [|apply Hl|done..]. intros. by apply cache_hashes_true. }
  intros _ w3 [Hl3 Hc3]. apply post_bind. unfold post at 1, cdn_state.
  assert (is_Some (hash o (w_cdn w3))) as [h Hh].
  { destruct (cache_hashes_has hs (w_cdn w2) h0 Hin Ht) as [h1 Hh1]. rewrite Hh0, <- Hc3 in Hh1.
    by apply (hash_complete o (w_cdn w3) h1); [apply Hl3|lia|]. }
  rewrite Hh. apply post_ret. split; [by eapply learned_trans|]. apply (hash_sound o (w_cdn w3)); [apply Hl3|done].
Qed.

(** *** The parts of a chunk *)

Lemma zlen_part o l : 0 <= o -> 0 <= l -> zlen (part_of file o l) = Z.max 0 (Z.min l (zlen file - o)).
Proof. intros. unfold part_of, zlen. rewrite length_take, length_drop. lia. Qed.

Lemma part_of_app o l1 l2 : 0 <= o -> 0 <= l1 -> 0 <= l2 ->
  part_of file o (l1 + l2) = part_of file o l1 ++ part_of file (o + l1) l2.
Proof.
  intros. unfold part_of. rewrite !Z2Nat.inj_add by lia. rewrite <- drop_drop.
  set (x := drop (Z.to_nat o) file). rewrite <- (take_drop (Z.to_nat l1) x) at 1.
  destruct (decide (Z.to_nat l1 <= length x)%nat).
  - rewrite take_app, firstn_firstn, Nat.min_r by lia. f_equal. rewrite length_take. f_equal. lia.
  - rewrite (drop_ge x) by lia. rewrite app_nil_r, !take_nil, app_nil_r. rewrite firstn_firstn, Nat.min_r by lia. done.
Qed.

Lemma part_of_short o l l' : 0 <= o -> 0 <= l <= l' -> zlen (part_of file o l) < l -> part_of file o l' = part_of file o l.
Proof.
  intros Ho Hl Hs. unfold part_of, zlen in *. rewrite length_take, length_drop in Hs.
  rewrite !take_ge; [done|rewrite length_drop; lia..].
Qed.

(** A part of a part of the file *)
Lemma part_of_slice o l a b : 0 <= o -> 0 <= a -> o + a + b <= o + l \/ zlen file <= o + l -> 0 <= b ->
  take (Z.to_nat b) (drop (Z.to_nat a) (part_of file o l)) = part_of file (o + a) b.
Proof.
  intros Ho Ha Hl Hb. unfold part_of. rewrite Z2Nat.inj_add by lia. rewrite <- (drop_drop file).
  rewrite skipn_firstn_comm, firstn_firstn. destruct Hl as [Hl|Hl]; [f_equal; lia|].
  destruct (decide (Z.to_nat b <= Z.to_nat l - Z.to_nat a)%nat) as [|Hn]; [f_equal; lia|].
  unfold zlen in Hl. rewrite !take_ge; [done|rewrite !length_drop; lia..].
Qed.

Lemma tiles_nonneg plan o l : tiles plan o l -> 0 <= l.
Proof. revert o l. induction plan as [|[o' l'] plan IH]; simpl; intros o l; [lia|]. intros (_ & Hl & H%IH). lia. Qed.

Lemma post_parts plan h off lim r n : forall o l d w, 0 <= o -> tiles plan o l -> Forall acceptable plan ->
  post (part_loop srv timeout aes_block max fuel plan h rd off lim r n d) w
    (fun r w' => r = PartsData (d ++ part_of file o l) /\ w_cdn w' = w_cdn w) never.
Proof.
  induction plan as [|[o' l'] plan IH]; intros o l d w Ho Ht Hacc; cbn [part_loop]; simpl in Ht.
  { subst l. apply post_ret. split; [|reflexivity]. unfold part_of. by rewrite take_0, app_nil_r. }
  destruct Ht as (-> & Hl' & Ht). pose proof (tiles_nonneg _ _ _ Ht) as Hl.
  apply Forall_cons in Hacc as [(Hom & _) Hacc].
  pose proof (hs_cdn Hsrv h o l' (w_env w) Ho Hl') as Hb.
  assert (o mod 16 = 0) as Ho16.
  { apply Z.mod_divide; [lia|]. apply Z.mod_divide in Hom as [q ->]; [|lia]. exists (q * 256). lia. }
  pose proof (decrypt_stored aes_block (hs_block Hsrv) rd file o l' (hs_keys Hsrv) Ho Ho16 (hs_size Hsrv)) as Hd.
  eapply post_seq; [apply post_attempt; by apply (post_env _ _ w Hb)|].
  intros r' w2 (a & -> & -> & Hw2). cbv beta iota. rewrite Hd. apply post_bind. unfold post at 1, lift.
  destruct (Z.ltb_spec (zlen (part_of file o l')) l') as [Hs|Hs].
  - apply post_ret. split; [|exact Hw2]. by rewrite (part_of_short o l' l) by lia.
  - eapply post_mono; [apply (IH (o + l') (l - l')); [lia|done|done]| |auto].
    intros r2 w3 [-> Hw3]. split; [|by rewrite Hw3]. rewrite <- app_assoc, <- part_of_app by lia. do 2 f_equal. f_equal. lia.
Qed.

(** *** Verification of a chunk *)

Section VerifyHonest.
Context (rec : Z -> Z -> GoM (world E) chunk).

(** Windows that are loaded are the ones of the file. *)
Definition loads_windows : Prop := forall i w, in_cdn w -> 0 <= i -> i * W < zlen file ->
  post (rec (i * W) W) w (fun c w' => learned w w' /\ data c = part_of file (i * W) W) never.

Lemma post_load h w : loads_windows -> in_cdn w -> true_hash h ->
  post (loadAndVerifyWindow rec h) w (fun d w' => learned w w' /\ d = part_of file (fh_Offset h) W) never.
Proof.
  intros Hrec Hw Ht. destruct (true_hash_facts h Ht) as (i & Hi & Hl & Ho & Hlim & _ & Hh).
  unfold loadAndVerifyWindow. apply post_bind. unfold post at 1, cdn_state.
  destruct (cachedWindow h (w_cdn w)) as [d|] eqn:Ec.
  { apply post_ret. split; [by apply learned_refl, Hw|]. unfold cachedWindow in Ec.
    destruct (windows (w_cdn w) !! fh_Offset h) as [d'|] eqn:Ew; [|discriminate Ec].
    destruct (_ || _); [discriminate Ec|]. injection Ec as ->. by apply (gc_windows _ (proj1 Hw)). }
  rewrite Ho, Hlim, Hh. eapply post_seq; [apply post_wrapping, (Hrec i w Hw Hi Hl)|].
  intros c w1 [Hl1 ->]. pose proof (zlen_part (i * W) W ltac:(nia) ltac:(lia)) as Hz.
  replace ((zlen (part_of file (i * W) W) =? 0) || (zlen (part_of file (i * W) W) >? W)) with false by lia.
  rewrite bool_decide_true by reflexivity. cbv beta iota zeta delta [negb].
  eapply post_seq; [apply (on_cdn_learned w1 (cacheWindow h (part_of file (i * W) W)))|].
  - intros Hg. apply cache_window_true; [exact Hg|by rewrite Ho].
  - apply Hl1.
  - unfold cacheWindow. by destruct (_ || _).
  - unfold cacheWindow. by destruct (_ || _).
  - unfold cacheWindow. by destruct (_ || _).
  - intros _ w2 [Hl2 _]. apply post_ret. split; [by eapply learned_trans|reflexivity].
Qed.

Lemma splice_same a b d : 0 <= a -> splice a (take b (drop (Z.to_nat a) d)) d = d.
Proof.
  intros _. unfold splice. rewrite <- drop_drop. set (x := drop (Z.to_nat a) d).
  assert (take b x ++ drop (length (take b x)) x = x) as Hx.
  { rewrite <- (take_drop b x) at 4. f_equal. rewrite length_take.
    destruct (decide (b <= length x)%nat); [f_equal; lia|]. rewrite !drop_ge; [done|lia..]. }
  rewrite Hx. apply take_drop.
Qed.

(** The data is the one of the file: every window agrees, and what is written over it
    is what was there. *)
Lemma post_verify_loop off lim k : 0 <= off -> 0 < lim ->
  ((exists i, off = i * W) /\ lim = W \/ loads_windows) ->
  let d := part_of file off lim in
  forall cur w, in_cdn w -> off <= cur -> (0 < k)%nat -> zlen d < Z.of_nat k + (cur - off) ->
  post (verify_loop srv timeout max fuel rec k off (zlen d <? lim) cur d) w (fun r w' => learned w w' /\ r = d) never.
Proof.
  intros Hoff Hlim Hrec d. pose proof (zlen_part off lim Hoff ltac:(lia)) as Hd. fold d in Hd.
  induction k as [|k IH]; intros cur w Hw Hcur Hk0 Hk; [lia|]. cbn [verify_loop].
  destruct (Z.ltb_spec cur (off + zlen d)) as [Hlt|]; [|apply post_ret; split; [by apply learned_refl, Hw|reflexivity]].
  eapply post_seq; [apply (post_hashForOffset cur w Hw); lia|]. intros h w1 (Hl1 & Ht & Hin).
  assert (in_cdn w1) as Hw1 by (by eapply learned_in_cdn).
  destruct (true_hash_facts h Ht) as (i & Hi & Hl & Ho & Hhl & He & Hh). rewrite Ho in Hin.
  rewrite Ho, Hhl, He, Hh. replace (W <=? 0) with false by lia. replace (i * W + W <=? cur) with false by lia.
  assert (forall w2, learned w1 w2 -> post (verify_loop srv timeout max fuel rec k off (zlen d <? lim) (i * W + W) d) w2
            (fun r w' => learned w w' /\ r = d) never) as Hnext.
  { intros w2 Hl2. eapply post_mono; [apply IH; [by eapply learned_in_cdn|lia..]| |auto].
    intros r w3 [Hl3 ->]. split; [|reflexivity]. eapply learned_trans; [exact Hl1|]. by eapply learned_trans. }
  destruct ((i * W >=? off) && (i * W + W <=? off + zlen d)) eqn:Efull.
  { replace (slice (i * W - off) (i * W + W - off) d) with (part_of file (i * W) W).
    - rewrite bool_decide_true by reflexivity. apply Hnext, learned_refl, Hw1.
    - unfold slice. replace (i * W + W - off - (i * W - off)) with W by lia. subst d.
      rewrite part_of_slice by lia. f_equal. lia. }
  destruct ((zlen d <? lim) && (i * W >=? off) && (i * W <? off + zlen d) && (i * W + W >? off + zlen d)) eqn:Eshort.
  { replace (drop (Z.to_nat (i * W - off)) d) with (part_of file (i * W) W).
    - rewrite bool_decide_true by reflexivity. apply post_ret. split; [exact Hl1|reflexivity].
    - replace (part_of file (i * W) W) with (part_of file (off + (i * W - off)) W) by (f_equal; lia).
      rewrite <- (part_of_slice off lim (i * W - off) W) by lia. fold d. rewrite take_ge; [done|].
      rewrite length_drop. unfold zlen in *. lia. }
  destruct Hrec as [[[j Hj] HlimW]|Hrec].
  { exfalso. assert (i = j) by nia. subst i. lia. }
  eapply post_seq; [by apply (post_load h w1)|]. intros win w2 [Hl2 ->]. rewrite Ho.
  pose proof (zlen_part (i * W) W ltac:(nia) ltac:(lia)) as Hz.
  set (a := if i * W >? off then i * W else off). set (b := if _ <? _ then _ else _).
  assert (a = Z.max (i * W) off) as Ha by (subst a; destruct (Z.gtb_spec (i * W) off); lia).
  assert (b = Z.min (i * W + zlen (part_of file (i * W) W)) (off + zlen d)) as Hb by (subst b; case_bool; lia).
  replace (b <=? a) with false by lia.
  replace (splice _ _ d) with d; [by apply Hnext|].
  unfold slice. replace (b - i * W - (a - i * W)) with (b - a) by lia.
  rewrite part_of_slice by lia. replace (i * W + (a - i * W)) with (off + (a - off)) by lia.
  rewrite <- (part_of_slice off lim) by lia. fold d. rewrite splice_same by lia. done.
Qed.

Lemma post_verifyChunk off lim w : 0 <= off -> 0 < lim -> ((exists i, off = i * W) /\ lim = W \/ loads_windows) ->
  in_cdn w -> let d := part_of file off lim in
  post (verifyChunk srv timeout max verify fuel rec off lim d) w (fun r w' => learned w w' /\ r = d) never.
Proof.
  intros Hoff Hlim Hrec Hw d. unfold verifyChunk. destruct (_ || _).
  { apply post_ret. split; [by apply learned_refl, Hw|reflexivity]. }
  replace (lim >? 0) with true by lia. rewrite andb_true_l.
  apply post_verify_loop; [done|done|done|done|reflexivity|lia|]. fold d. unfold zlen. lia.
Qed.

Lemma post_cdn_chunk k n off lim w : 0 <= off -> off mod 4096 = 0 -> 0 < lim -> lim mod 4096 = 0 ->
  ((exists i, off = i * W) /\ lim = W \/ loads_windows) -> in_cdn w ->
  post (chunk_loop srv timeout aes_block max verify fuel rec (S k) n off lim) w
    (fun c w' => learned w w' /\ data c = part_of file off lim) never.
Proof.
  intros Hoff Hoffm Hlim Hlimm Hrec Hw. cbn [chunk_loop].
  eapply post_seq; [apply post_ctx|]. intros r w1 [-> Hw1]. cbv beta iota.
  apply post_bind. unfold post at 1, cdn_state. rewrite Hw1. destruct Hw as (Hg & Hm & Hr). rewrite Hm, Hr.
  assert (learned w w1) as Hl1 by (by apply learned_same).
  eapply post_seq; [apply post_attempt, post_ensure; by rewrite Hw1|]. intros r w2 (h & -> & Hl2). cbv beta iota.
  destruct (plan_loop_spec (Z.to_nat (lim / cdnMinChunk + 1)) off lim) as (plan & Hp & Ht & Hacc); try done; [lia|..].
  { change cdnMinChunk with 4096. assert (0 <= lim / 4096) by (apply Z.div_pos; lia). lia. }
  eapply post_seq.
  { apply post_wrapping. instantiate (1 := fun p w' => p = plan /\ w' = w2). unfold post, lift, buildCDNRequestPlan.
    change cdnMinChunk with 4096 in *. replace (lim <=? 0) with false by lia. replace (off <? 0) with false by lia.
    rewrite !Z.rem_mod_nonneg, Hoffm, Hlimm by lia. cbn [negb Z.eqb]. rewrite Hp. split; reflexivity. }
  intros p w2' [-> ->]. eapply post_seq; [by apply (post_parts plan h off lim (rev (w_cdn w)) (n + 1) off lim [] w2)|].
  intros r w3 [-> Hw3]. cbv beta iota. rewrite app_nil_l.
  assert (learned w w2) as Hl12 by (by eapply learned_trans).
  assert (learned w w3) as Hl3.
  { destruct Hl12 as (? & ? & ? & ?). unfold learned. rewrite Hw3. split_and!; assumption. }
  eapply post_seq; [apply post_verifyChunk; try done|].
  { apply (learned_in_cdn w); [|done]. unfold in_cdn. split_and!; assumption. }
  intros d w4 [Hl4 ->]. apply post_ret. split; [by eapply learned_trans|reflexivity].
Qed.
End VerifyHonest.

Lemma Chunk_S depth off lim : Chunk srv timeout aes_block max verify fuel (S depth) off lim =
  chunk_loop srv timeout aes_block max verify fuel (Chunk srv timeout aes_block max verify fuel depth) maxRetryAttempts 0 off lim.
Proof. reflexivity. Qed.

Lemma chunk_loads_windows depth : loads_windows (Chunk srv timeout aes_block max verify fuel (S depth)).
Proof.
  intros i w Hw Hi Hl. rewrite Chunk_S. change maxRetryAttempts with (S 19). generalize 19%nat. intros k.
  apply post_cdn_chunk; [nia| |lia|done|left; split; [by exists i|done]|done].
  by rewrite Z.mul_comm, Zmult_mod, HW4.
Qed.

Lemma good_redirect c : good_cdn c ->
  good_cdn (cacheHashes (FileHashes rd) (resetWindows (resetHashes (set_mode modeCDN (Some rd) c)))).
Proof.
  intros _. apply cache_hashes_true; [|apply (hs_redirect Hsrv)]. split; simpl; [by right| | |];
    try (intros k ? Hk; by rewrite lookup_empty in Hk).
  split; [constructor|]. intros o. split; [by intros ?%not_elem_of_nil|]. intros [h Hh]. by rewrite lookup_empty in Hh.
Qed.

Lemma post_Chunk depth off lim w : 0 <= off -> off mod 4096 = 0 -> 0 < lim -> lim mod 4096 = 0 -> good_cdn (w_cdn w) ->
  post (Chunk srv timeout aes_block max verify fuel (S (S depth)) off lim) w
    (fun c w' => data c = part_of file off lim /\ good_cdn (w_cdn w')) never.
Proof.
  intros Hoff Hoffm Hlim Hlimm Hg. rewrite Chunk_S.
  set (rec := Chunk srv timeout aes_block max verify fuel (S depth)).
  assert (loads_windows rec) as Hrec by apply chunk_loads_windows.
  assert (forall k n w, in_cdn w -> post (chunk_loop srv timeout aes_block max verify fuel rec (S k) n off lim) w
    (fun c w' => data c = part_of file off lim /\ good_cdn (w_cdn w')) never) as Hcdn.
  { intros k n w' Hw'. eapply post_mono; [apply (post_cdn_chunk rec k n off lim w'); try done; by right| |auto].
    intros c w2 [Hl ->]. split; [reflexivity|apply Hl]. }
  assert (exists k, maxRetryAttempts = S (S k)) as [k ->] by (exists 18%nat; reflexivity). remember (S k) as k1 eqn:Ek.
  destruct (gc_mode _ Hg) as [Hm|[Hm Hr]]; [|apply Hcdn; split_and!; done].
  cbn [chunk_loop]. eapply post_seq; [apply post_ctx|]. intros r w1 [-> Hw1]. cbv beta iota.
  apply post_bind. unfold post at 1, cdn_state. rewrite Hw1, Hm.
  destruct (hs_master Hsrv off lim (w_env w1) Hoff) as [[t Ht]|Ht].
  - eapply post_seq.
    { apply post_attempt. unfold master_Chunk. eapply post_seq; [by apply (post_env _ _ w1 Ht)|].
      intros r w2 [-> Hw2]. apply post_ret. instantiate (1 := fun c w' => data c = part_of file off lim /\ w_cdn w' = w_cdn w1). by split. }
    intros r w2 (c & -> & Hc & Hw2). apply post_ret. split; [exact Hc|]. by rewrite Hw2, Hw1.
  - eapply post_seq.
    { apply (post_fail_err _ _ (RedirectError rd)). unfold master_Chunk, bind, env.
      destruct (UploadGetFile srv off lim (w_env w1)) as [r e]. simpl in Ht. by subst r. }
    intros r w2 [-> Hw2]. cbv beta iota. cbn [AsRedirect].
    assert (w_cdn w2 = w_cdn w) as Hc2.
    { revert Hw2. unfold master_Chunk, bind, env. destruct (UploadGetFile srv off lim (w_env w1)) as [r e]. simpl in Ht. subst r.
      intros [= <-]. exact Hw1. }
    eapply post_seq.
    { apply post_attempt. unfold activateRedirect. eapply post_seq; [apply post_ensure; by rewrite Hc2|].
      intros h w3 Hl3. instantiate (1 := fun _ w' => in_cdn w'). unfold post, setRedirect, on_cdn, in_cdn. cbn [w_cdn].
      split; [apply good_redirect, Hl3|]. split; reflexivity. }
    intros r w3 (u & -> & Hw3). rewrite Ek. by apply Hcdn.
Qed.
End Honest.

(** C12: A chunk of whole blocks is downloaded from servers that are honest, whether the
    master sends it or redirects to a CDN, which has it encrypted in counter mode, with
    or without verification, whatever part size crosses the windows of the hashes: no
    request fails, the data is the one of the file (up to 64 GB, what the counter of the
    key stream allows), and what the schema has cached stays true for the chunks that follow.  Two
    nested calls are enough: a chunk that is a window loads no other window. *)
Theorem cdn_chunk_honest {E} (srv : Servers E) timeout aes_block (max : Z) (verify : bool) (fuel depth : nat)
    (file : list byte) (rd : FileCDNRedirect) (W offset limit : Z) (w : world E) :
  honest_servers srv aes_block file rd W -> 0 < W -> W mod 4096 = 0 -> zlen file + W < 2 ^ 63 ->
  0 <= offset -> offset mod 4096 = 0 -> 0 < limit -> limit mod 4096 = 0 -> good_cdn file rd W (w_cdn w) ->
  exists c w', Chunk srv timeout aes_block max verify fuel (S (S depth)) offset limit w = (Ok c, w') /\
    data c = part_of file offset limit /\ good_cdn file rd W (w_cdn w').
Proof.
  intros Hs HW HWm Hf Ho Hom Hl Hlm Hg.
  apply post_ok. by apply (post_Chunk srv timeout aes_block max verify fuel file rd W).
Qed.

(** A file of 5000 bytes in windows of 4096 bytes, with chunks that cross them. *)
Module Sample.
Definition file : list byte := replicate 5000 Byte.x61.
Definition W : Z := 4096.
Definition window (i : Z) : FileHash := mkFileHash (i * W) W (sha256 (part_of file (i * W) W)).
Definition rd : FileCDNRedirect := mkRedirect 203 [Byte.x07] (replicate 16 Byte.x00) (replicate 16 Byte.x00) [window 0].
(** A block cipher that leaves its blocks as they are. *)
Definition plain_block (key b : list byte) : list byte := resize 16 Byte.x00 b.
Definition servers : Servers unit := {|
  UploadGetFile o l := ret (UploadFileCDNRedirect rd);
  UploadGetFileHashes o := ret [];
  UploadReuploadCDNFile t r := ret [];
  UploadGetCDNFileHashes t o := ret [window 0; window 1];
  ProvideCDN dc m := ret (Some 0%nat);
  CloseCDN h e := e;
  UploadGetCDNFile h t o l := ret (UploadCDNFile (part_of (stored plain_block rd file) o l));
  ctx_Err e := (None, e) |}.

Lemma window_true i : 0 <= i < 2 -> true_hash file W (window i).
Proof. intros Hi. exists i. split; [lia|]. split; [|reflexivity]. change (zlen file) with 5000. unfold W. lia. Qed.

Lemma honest : honest_servers servers plain_block file rd W.
Proof.
  split.
  - intros. apply length_resize.
  - split; reflexivity.
  - change (zlen file) with 5000. lia.
  - reflexivity.
  - intros. right. reflexivity.
  - intros. by exists 0%nat.
  - reflexivity.
  - intros o e. exists [window 0; window 1]. split; [reflexivity|]. split.
    + repeat constructor; apply window_true; lia.
    + intros Ho. change (zlen file) with 5000 in Ho. exists (window (o / W)). unfold W in *. split; [|reflexivity].
      assert (o / 4096 = 0 \/ o / 4096 = 1) as [-> | ->] by (Z.div_mod_to_equations; lia);
        [apply list_elem_of_here|apply list_elem_of_further, list_elem_of_here].
  - repeat constructor. apply window_true. lia.
Qed.
End Sample.

Lemma cdn_chunk_honest_witness : exists c w',
  Chunk Sample.servers (fun _ => false) Sample.plain_block 1 true 1 2 0 8192 (mkWorld newCDNSchema tt) = (Ok c, w') /\
  data c = Sample.file.
Proof.
  destruct (cdn_chunk_honest Sample.servers (fun _ => false) Sample.plain_block 1 true 1 0 Sample.file Sample.rd Sample.W 0 8192
              (mkWorld newCDNSchema tt)) as (c & w' & Hc & Hd & _).
  - exact Sample.honest.
  - reflexivity.
  - reflexivity.
  - vm_compute. reflexivity.
  - lia.
  - reflexivity.
  - lia.
  - reflexivity.
  - apply good_new.
  - exists c, w'. split; [exact Hc|]. rewrite Hd. vm_compute. reflexivity.
Defined.

Lemma cdn_plan_covers_witness : exists plan, buildCDNRequestPlan 4096 1048576 = Ok plan /\ tiles plan 4096 1048576.
Proof.
  destruct (proj1 (cdn_plan_covers 4096 1048576)) as (plan & Hp & Ht & _); [split_and!; try reflexivity; lia|].
  exists plan. split; [exact Hp|exact Ht].
Defined.

Lemma cdn_decrypts_parts_witness : exists encrypted, decrypt Sample.plain_block Sample.file 0 Sample.rd = Ok encrypted /\
  decrypt Sample.plain_block (drop 4096 encrypted) 4096 Sample.rd = Ok (drop 4096 Sample.file).
Proof.
  destruct (cdn_decrypts_parts Sample.plain_block Sample.rd Sample.file 4096) as (x & Hx & _ & Hd).
  - intros. apply length_resize.
  - split; reflexivity.
  - vm_compute. split; intros H; discriminate H.
  - reflexivity.
  - reflexivity.
  - exists x. split; [exact Hx|exact Hd].
Defined.

(** ** The tail of a chunk that no hash covers *)

Module Tail.
Definition file : list byte := [Byte.x01; Byte.x02; Byte.x03; Byte.x04; Byte.x05].
Definition rd : FileCDNRedirect :=
  mkRedirect 203 [Byte.x07] (replicate 16 Byte.x00) (replicate 16 Byte.x00) [mkFileHash 0 8192 (sha256 file)].
Definition forged : list byte := replicate 4096 Byte.x66.

(** The master redirects; the CDN sends the file when a whole window is asked for, and
    forged bytes for a part of it. *)
Definition servers : Servers unit := {|
  UploadGetFile o l := ret (UploadFileCDNRedirect rd);
  UploadGetFileHashes o := ret [];
  UploadReuploadCDNFile t r := ret [];
  UploadGetCDNFileHashes t o := ret [];
  ProvideCDN dc m := ret (Some 0%nat);
  CloseCDN h e := e;
  UploadGetCDNFile h t o l := ret (UploadCDNFile (if l =? 4096 then forged else file));
  ctx_Err e := (None, e) |}.

(** A block cipher that leaves the data as it is. *)
Definition plain_block (key b : list byte) : list byte := replicate 16 Byte.x00.

End Tail.


(** The whole download: the first five bytes are the ones of the file, the rest is forged. *)
Example cdn_tail_forged : exists chunk,
  fst (Chunk Tail.servers (fun _ => false) Tail.plain_block 1 true 1 2 0 4096 (mkWorld newCDNSchema tt)) = Ok chunk /\
  FileHashes Tail.rd = [mkFileHash 0 8192 (sha256 Tail.file)] /\
  data chunk = Tail.file ++ replicate 4091 Byte.x66.
Proof. eexists. split; [vm_compute; reflexivity|]. split; vm_compute; reflexivity. Qed.


