(* ===== verification/Upload.v ===== *)
(** * telegram/uploader: uploads in parts

    Model of src/telegram/uploader part.go, upload.go, small.go, big.go, uploader.go,
    progress.go and of helpers.go without the file system: a small file is sent part by
    part with its MD5 checksum, a big one, or a stream of unknown size, by one goroutine
    that reads and several that send.  The state is the one of the upload; the parts
    that the server has taken are recorded beside it.  The buffers of the pool are
    values.  crypto/md5 and encoding/hex are the ones of Go's standard library. *)
From S2P Require Import Prelude Io Tgerr Hash.

(** ** crypto/md5 and encoding/hex *)

Module Md5.
Import Words.
(** The integer parts of [2^32 * abs (sin i)]. *)
Definition K : list Z := [
  0xd76aa478; 0xe8c7b756; 0x242070db; 0xc1bdceee; 0xf57c0faf; 0x4787c62a; 0xa8304613; 0xfd469501;
  0x698098d8; 0x8b44f7af; 0xffff5bb1; 0x895cd7be; 0x6b901122; 0xfd987193; 0xa679438e; 0x49b40821;
  0xf61e2562; 0xc040b340; 0x265e5a51; 0xe9b6c7aa; 0xd62f105d; 0x02441453; 0xd8a1e681; 0xe7d3fbc8;
  0x21e1cde6; 0xc33707d6; 0xf4d50d87; 0x455a14ed; 0xa9e3e905; 0xfcefa3f8; 0x676f02d9; 0x8d2a4c8a;
  0xfffa3942; 0x8771f681; 0x6d9d6122; 0xfde5380c; 0xa4beea44; 0x4bdecfa9; 0xf6bb4b60; 0xbebfbc70;
  0x289b7ec6; 0xeaa127fa; 0xd4ef3085; 0x04881d05; 0xd9d4d039; 0xe6db99e5; 0x1fa27cf8; 0xc4ac5665;
  0xf4292244; 0x432aff97; 0xab9423a7; 0xfc93a039; 0x655b59c3; 0x8f0ccc92; 0xffeff47d; 0x85845dd1;
  0x6fa87e4f; 0xfe2ce6e0; 0xa3014314; 0x4e0811a1; 0xf7537e82; 0xbd3af235; 0x2ad7d2bb; 0xeb86d391].
Definition shifts : list Z := [7; 12; 17; 22; 5; 9; 14; 20; 4; 11; 16; 23; 6; 10; 15; 21].

Record st : Type := mkSt { a : Z; b : Z; c : Z; d : Z }.
Definition init : st := mkSt 0x67452301 0xefcdab89 0x98badcfe 0x10325476.

Definition pad (m : list byte) : list byte :=
  m ++ [Byte.x80] ++ zeros ((55 - zlen m) mod 64) ++ le_split 8 (8 * zlen m).

Definition round (block : list Z) (ts : nat * st) (k : Z) : nat * st :=
  let '(i, s) := ts in
  let '(f, g) :=
    match (i / 16)%nat with
    | O => (Z.lor (Z.land (b s) (c s)) (Z.land (not (b s)) (d s)), i)
    | 1%nat => (Z.lor (Z.land (d s) (b s)) (Z.land (not (d s)) (c s)), (5 * i + 1) mod 16)%nat
    | 2%nat => (Z.lxor (Z.lxor (b s) (c s)) (d s), (3 * i + 5) mod 16)%nat
    | _ => (Z.lxor (c s) (Z.lor (b s) (not (d s))), (7 * i) mod 16)%nat
    end in
  let x := add (add f (a s)) (add k (nth g block 0)) in
  (S i, mkSt (d s) (add (b s) (rotl (nth (4 * (i / 16) + i mod 4) shifts 0) x)) (b s) (c s)).

Definition compress (s : st) (block : list byte) : st :=
  let '(_, s') := fold_left (round (le_combine <$> chunks 16 4 block)) K (O, s) in
  mkSt (add (a s) (a s')) (add (b s) (b s')) (add (c s) (c s')) (add (d s) (d s')).

Definition Sum (m : list byte) : list byte :=
  let p := pad m in
  let s := fold_left compress (chunks (length p) 64 p) init in
  le_split 4 (a s) ++ le_split 4 (b s) ++ le_split 4 (c s) ++ le_split 4 (d s).
End Md5.
Abbreviation md5 := Md5.Sum.

Definition hex_digit (n : Z) : byte := byte.of_Z (if n <? 10 then 48 + n else 87 + n).
Definition EncodeToString (src : list byte) : list byte :=
  flat_map (fun x => [hex_digit (byte.unsigned x / 16); hex_digit (byte.unsigned x mod 16)]) src.

Example md5_empty : EncodeToString (md5 []) = bytes_of_string "d41d8cd98f00b204e9800998ecf8427e".
Proof. vm_compute. reflexivity. Qed.
Example md5_alphabet : EncodeToString (md5 (bytes_of_string "abcdefghijklmnopqrstuvwxyz")) =
  bytes_of_string "c3fcd3d76192e4007dfb496cca67e13b".
Proof. vm_compute. reflexivity. Qed.
Example md5_two_blocks : EncodeToString (md5 (replicate 64 Byte.x61)) = bytes_of_string "014842d480b571495a4a0363793f7367".
Proof. vm_compute. reflexivity. Qed.

(** ** part.go *)

Definition bigFileLimit : Z := 10 * 1024 * 1024.
Definition partsLimit : Z := 3999.
Definition defaultPartSize : Z := 128 * 1024.
Definition paddingPartSize : Z := 1024.
Definition MaximumPartSize : Z := 524288.

Definition checkPartSize (partSize : Z) : option error :=
  if partSize =? 0 then Some (Errorf "is equal to zero")
  else if negb (Z.rem partSize paddingPartSize =? 0) then Some (Errorf "is not divisible by")
  else if negb (Z.rem MaximumPartSize partSize =? 0) then Some (Errorf "is not divisible by")
  else None.

Definition computeParts (partSize total : Z) : Z :=
  if total <=? 0 then 0
  else
    let parts := total `quot` partSize in
    if negb (Z.rem total partSize =? 0) then parts + 1 else parts.

(** Two doublings reach the maximum. *)
Fixpoint grow (fuel : nat) (partSize total : Z) : Z :=
  match fuel with
  | O => partSize
  | S fuel =>
      if (partSize <? MaximumPartSize) && (computeParts partSize total >? partsLimit)
      then grow fuel (partSize * 2) total else partSize
  end.
Definition computePartSize (total : Z) : Z := grow 2 defaultPartSize total.

(** ** upload.go, progress.go *)

Record Upload : Type := mkUpload {
  id : Z; sentParts : Z; confirmedParts : Z; confirmedBytes : Z; totalParts : Z; partSize : Z; big : bool;
  totalBytes : Z; name : list byte; from : Stream }.

Definition NewUpload (name : list byte) (from : Stream) (total : Z) : Upload :=
  mkUpload 0 0 0 0 0 (-1) false total name from.

Record ProgressState : Type := mkProgress {
  ps_ID : Z; ps_Name : list byte; ps_Part : Z; ps_PartSize : Z; ps_Uploaded : Z; ps_Total : Z }.

Definition set_init (i ps tp : Z) (b : bool) (u : Upload) : Upload :=
  mkUpload i (sentParts u) (confirmedParts u) (confirmedBytes u) tp ps b (totalBytes u) (name u) (from u).
Definition set_total (b : bool) (tp : Z) (u : Upload) : Upload :=
  mkUpload (id u) (sentParts u) (confirmedParts u) (confirmedBytes u) tp (partSize u) b (totalBytes u) (name u) (from u).
Definition set_from (r : Stream) (u : Upload) : Upload :=
  mkUpload (id u) (sentParts u) (confirmedParts u) (confirmedBytes u) (totalParts u) (partSize u) (big u) (totalBytes u) (name u) r.
Definition inc_sent (u : Upload) : Upload :=
  mkUpload (id u) (i64 (sentParts u + 1)) (confirmedParts u) (confirmedBytes u) (totalParts u) (partSize u) (big u) (totalBytes u) (name u) (from u).
Definition set_confirmed (parts bytes : Z) (u : Upload) : Upload :=
  mkUpload (id u) (sentParts u) parts bytes (totalParts u) (partSize u) (big u) (totalBytes u) (name u) (from u).

Definition confirmLocked (part bytes : Z) (u : Upload) : ProgressState * Upload :=
  let u := set_confirmed (confirmedParts u) (i64 (confirmedBytes u + bytes)) u in
  (mkProgress (id u) (name u) part (partSize u) (confirmedBytes u) (totalBytes u), u).
Definition confirmSmall (bytes : Z) (u : Upload) : ProgressState * Upload :=
  let u := set_confirmed (i64 (confirmedParts u + 1)) (confirmedBytes u) u in
  confirmLocked (confirmedParts u) bytes u.
Definition confirm (part bytes : Z) (u : Upload) : ProgressState * Upload := confirmLocked part bytes u.

(** ** uploader.go *)

(** The server, the generator of identifiers, the progress callback, the context. *)
Record Client (E : Type) : Type := mkClient {
  UploadSaveFilePart : Z -> Z -> list byte -> GoM E bool;
  gen_id : GoM E Z;
  progress : option (ProgressState -> GoM E unit);
  ctx_Err : E -> option error * E }.
Arguments UploadSaveFilePart {E}. Arguments gen_id {E}. Arguments progress {E}. Arguments ctx_Err {E}.

Record Uploader : Type := mkUploader { u_partSize : Z; autoPartSize : bool; threads : nat }.
Definition NewUploader : Uploader := mkUploader defaultPartSize true 1.
Definition WithThreads (n : Z) (u : Uploader) : Uploader :=
  if n >? 0 then mkUploader (u_partSize u) (autoPartSize u) (Z.to_nat n) else u.
Definition WithPartSize (p : Z) (u : Uploader) : Uploader := mkUploader p false (threads u).

Inductive InputFileClass : Type :=
| InputFile (ID Parts : Z) (Name MD5Checksum : list byte)
| InputFileBig (ID Parts : Z) (Name : list byte).

(** The upload, the parts that the server has taken, and the state of the server. *)
Record world (E : Type) : Type := mkWorld { upload : Upload; saved : list (Z * list byte); w_env : E }.
Arguments mkWorld {E}. Arguments upload {E}. Arguments saved {E}. Arguments w_env {E}.

Section Small.
Context {E : Type} (cl : Client E) (u : Uploader).
(** How often a part is sent that the server refuses or answers with a flood wait. *)
Context (attempts : nat).

Abbreviation M := (GoM (world E)).

Definition env {A} (m : GoM E A) : M A := fun w => let '(r, e) := m (w_env w) in (r, mkWorld (upload w) (saved w) e).
Definition ctxErr : M (option error) := fun w => let '(r, e) := ctx_Err cl (w_env w) in (Ok r, mkWorld (upload w) (saved w) e).
Definition on_upload (f : Upload -> Upload) : M unit := fun w => (Ok tt, mkWorld (f (upload w)) (saved w) (w_env w)).
Definition the_upload : M Upload := fun w => (Ok (upload w), w).
Definition took (part : Z) (bytes : list byte) : M unit := fun w => (Ok tt, mkWorld (upload w) (saved w ++ [(part, bytes)]) (w_env w)).
Definition attempt {A} (m : M A) : M (A + error) := fun w =>
  match m w with
  | (Ok a, w) => (Ok (inl a), w)
  | (Err e, w) => (Ok (inr e), w)
  | (Panic, w) => (Panic, w)
  end.

Definition callback (st : ProgressState) : M unit :=
  match progress cl with Some f => env (f st) | None => ret tt end.

(** *** small.go *)

(** The upload loop of a part. *)
Fixpoint save_part (n : nat) (read : list byte) : M unit :=
  match n with
  | O => fun w => (Panic, w)
  | S n =>
      let! up := the_upload in
      let part := Z.rem (sentParts up) partsLimit in
      let! r := attempt (env (UploadSaveFilePart cl (id up) part read)) in
      match r with
      | inr err =>
          let! done := (match AsFloodWait err with Some _ => ctxErr | None => ret None end) in
          let '(flood, err, _) := FloodWait err done in
          if flood then save_part n read else fail (Wrap err "send upload RPC")
      | inl false => save_part n read
      | inl true => took part read
      end
  end.

(** A part was read: it is sent and confirmed. *)
Definition sent_part (read : list byte) : M unit :=
  save_part attempts read ;;!
  on_upload inc_sent ;;!
  let! up := the_upload in
  let '(st, up') := confirmSmall (zlen read) up in
  on_upload (fun _ => up') ;;!
  wrapping "progress callback" (callback st).

(** Every turn of the loop reads at least a byte, or ends it.  [h] is what the hash has
    been given. *)
Fixpoint small_loop (fuel : nat) (h : list byte) : M (list byte) :=
  match fuel with
  | O => fun w => (Panic, w)
  | S fuel =>
      let! up := the_upload in
      let '(read, err, r) := ReadFull (partSize up) (from up) in
      on_upload (set_from r) ;;!
      let h := h ++ read in
      match err with
      | Some e =>
          if Is e ErrUnexpectedEOF then sent_part read ;;! ret h
          else if Is e EOF then ret h
          else fail (Wrap e "read source")
      | None => sent_part read ;;! small_loop fuel h
      end
  end.
Definition smallLoop : M (list byte) :=
  let! up := the_upload in small_loop (S (length (incoming (from up)))) [].

Definition uploadSmall : M InputFileClass :=
  let! h := smallLoop in
  let! up := the_upload in
  ret (InputFile (id up) (sentParts up) (name up) (EncodeToString (md5 h))).

(** *** Upload *)

Definition initUpload (size : Z) : M unit :=
  let! up := the_upload in
  let isBig := totalBytes up >? bigFileLimit in
  let total := computeParts size (totalBytes up) in
  if negb isBig && (total >? partsLimit) then fail (Errorf "part size is too small")
  else if id up =? 0 then
    let! i := wrapping "id generation" (env (gen_id cl)) in
    on_upload (set_init i size total isBig)
  else if negb (partSize up =? size) then fail (Errorf "previous upload has part size")
  else on_upload (set_total isBig total).

Definition effectivePartSize (up : Upload) : Z :=
  if autoPartSize u && (totalBytes up >? 0) then computePartSize (totalBytes up) else u_partSize u.

(** [bigLoop] is the loop of big.go, which starts goroutines. *)
Definition Upload_ (bigLoop : M unit) : M InputFileClass :=
  let! up := the_upload in
  let size := effectivePartSize up in
  match checkPartSize size with
  | Some e => fail (Wrap e "invalid part size")
  | None =>
      initUpload size ;;!
      (if totalBytes up =? -1 then on_upload (set_total true (-1)) else ret tt) ;;!
      let! up := the_upload in
      if negb (big up) then uploadSmall
      else
        bigLoop ;;!
        let! up := the_upload in
        ret (InputFileBig (id up) (sentParts up) (name up))
  end.
End Small.

(** helpers.go *)
Definition FromBytes (name b : list byte) : Upload := NewUpload name (mkStream b EOF) (zlen b).
Definition FromReader (name : list byte) (r : Stream) : Upload := NewUpload name r (-1).

(** ** Part sizes *)

Lemma computeParts_ceil p total : 0 < p -> 0 <= total -> computeParts p total = (total + p - 1) / p.
Proof.
  intros Hp Ht. unfold computeParts. destruct (Z.leb_spec total 0).
  { replace total with 0 by lia. symmetry. apply Z.div_small. lia. }
  rewrite Z.quot_div_nonneg, Z.rem_mod_nonneg by lia. pose proof (Z.div_mod total p). pose proof (Z.mod_pos_bound total p).
  destruct (Z.eqb_spec (total mod p) 0); cbn [negb].
  - apply (Z.div_unique_pos _ _ _ (p - 1)); lia.
  - apply (Z.div_unique_pos _ _ _ (total mod p - 1)); lia.
Qed.

Lemma computeParts_bounds p total : 0 < p -> 0 <= total ->
  0 <= computeParts p total /\ computeParts p total * p - p < total <= computeParts p total * p.
Proof.
  intros Hp Ht. rewrite computeParts_ceil by lia. pose proof (Z.div_mod (total + p - 1) p ltac:(lia)).
  pose proof (Z.mod_pos_bound (total + p - 1) p Hp). split; [apply Z.div_pos; lia|]. nia.
Qed.

(** The divisors of 512 are the powers of two. *)
Lemma divisors_512 m : 0 < m -> 512 mod m = 0 -> exists k, 0 <= k <= 9 /\ m = 2 ^ k.
Proof.
  intros Hm Hd. assert (m <= 512) as Hle by (apply Z.mod_divide in Hd; [apply Z.divide_pos_le in Hd; lia|lia]).
  assert (Forall (fun m => negb (512 mod m =? 0) || bool_decide (Exists (fun k => m = 2 ^ k) (seqZ 0 10)) = true) (seqZ 1 512)) as H
    by (apply (bool_decide_unpack _); vm_compute; reflexivity).
  rewrite Forall_forall in H. specialize (H m ltac:(apply elem_of_seqZ; lia)). rewrite Hd in H. cbn [negb Z.eqb orb] in H.
  apply bool_decide_eq_true, Exists_exists in H as (k & Hk%elem_of_seqZ & ->). exists k. split; [lia|done].
Qed.

Lemma checkPartSize_iff p : checkPartSize p = None <-> exists k, 0 <= k <= 9 /\ Z.abs p = 1024 * 2 ^ k.
Proof.
  unfold checkPartSize, paddingPartSize, MaximumPartSize. split.
  - destruct (Z.eqb_spec p 0); [done|]. destruct (Z.eqb_spec (Z.rem p 1024) 0) as [H1|]; [|done].
    destruct (Z.eqb_spec (Z.rem 524288 p) 0) as [H2|]; [|done]. intros _.
    rewrite <- Z.rem_abs_r in H2 by lia. rewrite Z.rem_mod_nonneg in H2 by lia.
    apply Z.rem_divide in H1 as [q Hq]; [|lia]. subst p. rewrite Z.abs_mul in H2. change (Z.abs 1024) with 1024 in H2.
    change 524288 with (512 * 1024) in H2. rewrite Z.mul_mod_distr_r in H2 by lia.
    destruct (divisors_512 (Z.abs q)) as (k & Hk & Hqk); [lia|lia|]. exists k. split; [done|]. rewrite Z.abs_mul, Hqk. lia.
  - intros (k & Hk & Hp). assert (0 < 2 ^ k) by (apply Z.pow_pos_nonneg; lia).
    destruct (Z.eqb_spec p 0); [lia|].
    assert (Z.rem p 1024 = 0) as ->.
    { apply Z.rem_divide; [lia|]. apply Z.divide_abs_r. rewrite Hp. exists (2 ^ k). lia. }
    assert (Z.rem 524288 p = 0) as ->; [|done].
    rewrite <- Z.rem_abs_r by lia. rewrite Hp. apply Z.rem_divide; [lia|]. exists (2 ^ (9 - k)).
    change 524288 with (2 ^ 9 * 1024). replace 9 with ((9 - k) + k) at 1 by lia. rewrite Z.pow_add_r by lia. lia.
Qed.

Lemma grow_cases total : 0 <= total -> let p := computePartSize total in
  (p = 131072 \/ (p = 262144 /\ partsLimit < computeParts 131072 total) \/
   (p = 524288 /\ partsLimit < computeParts 131072 total /\ partsLimit < computeParts 262144 total)) /\
  (p <> 524288 -> computeParts p total <= partsLimit).
Proof.
  intros Ht. unfold computePartSize, grow, defaultPartSize, MaximumPartSize.
  change (128 * 1024 <? 524288) with true. change (128 * 1024 * 2 <? 524288) with true.
  change (128 * 1024 * 2 * 2) with 524288. change (128 * 1024 * 2) with 262144. change (128 * 1024) with 131072. cbn [andb].
  destruct (Z.gtb_spec (computeParts 131072 total) partsLimit); [|split; [by left|done]].
  destruct (Z.gtb_spec (computeParts 262144 total) partsLimit); split; auto. done.
Qed.

(** The part sizes that are accepted are, up to their sign, the powers of two from a
    kilobyte to 512 kilobytes.  The part size that is computed is one of them; it keeps
    the number of parts within the limit for every file for which any size does, and it
    is the smallest from the default size on that does. *)
Theorem upload_part_size :
  (forall p, checkPartSize p = None <-> exists k, 0 <= k <= 9 /\ Z.abs p = 1024 * 2 ^ k) /\
  (forall total, 0 <= total -> let p := computePartSize total in
    checkPartSize p = None /\ defaultPartSize <= p /\
    (computeParts p total <= partsLimit <-> total <= partsLimit * MaximumPartSize) /\
    (forall q, checkPartSize q = None -> defaultPartSize <= q < p -> partsLimit < computeParts q total)).
Proof.
  split; [exact checkPartSize_iff|]. intros total Ht p. destruct (grow_cases total Ht) as [Hp Hl]. fold p in Hp, Hl.
  assert (p = 131072 \/ p = 262144 \/ p = 524288) as Hv by (destruct Hp as [?|[[? _]|[? _]]]; auto).
  assert (0 < p <= 524288) as Hp0 by lia. pose proof (computeParts_bounds p total ltac:(lia) Ht) as [Hb0 Hb].
  unfold defaultPartSize, partsLimit, MaximumPartSize in *. split_and!; [|lia| |].
  - apply checkPartSize_iff. destruct Hv as [-> | [-> | ->]]; [exists 7|exists 8|exists 9]; (split; [lia|reflexivity]).
  - split; [nia|]. intros Hm. destruct (Z.eq_dec p 524288) as [E|E]; [rewrite E in *; lia|by apply Hl].
  - intros q Hq Hr. apply checkPartSize_iff in Hq as (k & Hk & Hqk).
    assert (q = 131072 \/ q = 262144) as Hq.
    { rewrite Z.abs_eq in Hqk by lia. assert (k ∈ seqZ 0 10) as Hin by (apply elem_of_seqZ; lia).
      change (seqZ 0 10) with [0; 1; 2; 3; 4; 5; 6; 7; 8; 9] in Hin.
      repeat (apply elem_of_cons in Hin as [->|Hin]; [cbn in Hqk; lia|]). by apply not_elem_of_nil in Hin. }
    destruct Hp as [?|[[? ?]|(? & ? & ?)]]; destruct Hq as [-> | ->]; lia.
Qed.

(** ** Small files *)

(** The part [i] of a file. *)
Definition nth_part (p : Z) (file : list byte) (i : Z) : list byte := take (Z.to_nat p) (drop (Z.to_nat (i * p)) file).
(** The first [n] parts with their numbers. *)
Definition parts_of (p : Z) (file : list byte) (n : Z) : list (Z * list byte) :=
  (fun i => (i, nth_part p file i)) <$> seqZ 0 n.

Lemma parts_of_S p file n : 0 <= n -> parts_of p file (n + 1) = parts_of p file n ++ [(n, nth_part p file n)].
Proof. intros Hn. unfold parts_of. rewrite seqZ_app by lia. rewrite fmap_app. simpl. by rewrite Z.add_0_l. Qed.

Lemma zlen_nth_part p file i : 0 <= i -> 0 <= p -> zlen (nth_part p file i) = Z.max 0 (Z.min p (zlen file - i * p)).
Proof. intros. unfold nth_part, zlen. rewrite length_take, length_drop. nia. Qed.

(** The parts of a file make up the file. *)
Lemma concat_parts p file n : 0 < p -> 0 <= n -> concat (map snd (parts_of p file n)) = take (Z.to_nat (n * p)) file.
Proof.
  intros Hp Hn. pattern n. apply natlike_ind; [|clear n Hn; intros n Hn IH|done].
  { unfold parts_of. simpl. by rewrite take_0. }
  rewrite <- Z.add_1_r, parts_of_S by done. rewrite map_app, concat_app, IH. simpl. rewrite app_nil_r. unfold nth_part.
  replace (Z.to_nat ((n + 1) * p)) with (Z.to_nat (n * p) + Z.to_nat p)%nat by (rewrite Z.mul_add_distr_r, Z2Nat.inj_add by nia; lia).
  rewrite <- (take_drop (Z.to_nat (n * p)) (take (Z.to_nat (n * p) + Z.to_nat p) file)).
  rewrite firstn_firstn, skipn_firstn_comm. do 2 f_equal; lia.
Qed.

Section SmallFile.
Context {E : Type} (cl : Client E) (attempts : nat).

(** The server takes a part within [n] attempts, the others of which it refuses or
    answers with a flood wait that is slept. *)
Fixpoint takes (n : nat) (i part : Z) (bytes : list byte) (e : E) : Prop :=
  match n with
  | O => False
  | S n =>
      match UploadSaveFilePart cl i part bytes e with
      | (Ok true, _) => True
      | (Ok false, e) => takes n i part bytes e
      | (Err err, e) => is_Some (AsFloodWait err) /\ fst (ctx_Err cl e) = None /\ takes n i part bytes (snd (ctx_Err cl e))
      | (Panic, _) => False
      end
  end.

Record willing : Prop := {
  wl_takes i part bytes e : takes attempts i part bytes e;
  wl_progress f st e : progress cl = Some f -> fst (f st e) = Ok tt }.

Context (Hcl : willing).
Abbreviation never := (fun (_ : error) (_ : world E) => False).

Lemma post_save n read w :
  takes n (id (upload w)) (Z.rem (sentParts (upload w)) partsLimit) read (w_env w) ->
  post (save_part cl n read) w
    (fun _ w' => upload w' = upload w /\ saved w' = saved w ++ [(Z.rem (sentParts (upload w)) partsLimit, read)]) never.
Proof.
  revert w. induction n as [|n IH]; intros w Ht; [done|]. cbn [save_part]. apply post_bind. unfold post at 1, the_upload.
  apply post_bind. unfold post at 1, attempt, env. simpl in Ht.
  destruct (UploadSaveFilePart cl _ _ _ _) as [[[]|err|] e]; [| | |done].
  - by split.
  - exact (IH (mkWorld (upload w) (saved w) e) Ht).
  - destruct Ht as ([d Hd] & Hc & Ht). rewrite Hd. apply post_bind. unfold post at 1, ctxErr. cbn [w_env].
    destruct (ctx_Err cl e) as [r e']. simpl in Hc, Ht. subst r. unfold FloodWait. rewrite Hd. cbv beta iota.
    exact (IH (mkWorld (upload w) (saved w) e') Ht).
Qed.

(** What an upload keeps while its parts are sent. *)
Definition same_upload (u u' : Upload) : Prop :=
  id u' = id u /\ name u' = name u /\ partSize u' = partSize u /\ totalBytes u' = totalBytes u.

Lemma post_callback st w : post (callback cl st) w (fun _ w' => upload w' = upload w /\ saved w' = saved w) never.
Proof.
  unfold callback. destruct (progress cl) as [f|] eqn:Ef; [|by split]. unfold post, env.
  pose proof (wl_progress Hcl f st (w_env w) Ef) as Hp. destruct (f st (w_env w)) as [r e]. simpl in Hp. subst r. by split.
Qed.

Lemma post_sent_part read w : 0 <= sentParts (upload w) < 2 ^ 63 - 1 ->
  post (sent_part cl attempts read) w
    (fun _ w' => same_upload (upload w) (upload w') /\ sentParts (upload w') = sentParts (upload w) + 1 /\
       from (upload w') = from (upload w) /\
       saved w' = saved w ++ [(Z.rem (sentParts (upload w)) partsLimit, read)]) never.
Proof.
  intros Hs. unfold sent_part. eapply post_seq; [apply post_save, (wl_takes Hcl)|]. intros _ w1 [Hu Hsv].
  apply post_bind. unfold post at 1, on_upload. apply post_bind. unfold post at 1, the_upload. cbn [upload].
  unfold confirmSmall, confirmLocked. apply post_bind. unfold post at 1. apply post_wrapping. rewrite Hu, Hsv.
  assert (i64 (sentParts (upload w) + 1) = sentParts (upload w) + 1) as Hi
    by (apply swrap_id; [lia|]; unfold is_signed; change (2 ^ (64 - 1)) with (2 ^ 63); lia).
  set (w2 := mkWorld _ _ _). eapply (post_mono _ _ (fun _ w' => upload w' = upload w2 /\ saved w' = saved w2)).
  - apply (post_callback _ w2).
  - intros _ w' [-> ->]. unfold same_upload. simpl. by rewrite Hi.
  - done.
Qed.

Lemma post_small_loop (file : list byte) (p : Z) : 0 < p -> computeParts p (zlen file) <= partsLimit ->
  forall fuel k w, 0 <= k -> k * p <= zlen file -> (length (drop (Z.to_nat (k * p)) file) < fuel)%nat ->
  partSize (upload w) = p -> sentParts (upload w) = k -> from (upload w) = mkStream (drop (Z.to_nat (k * p)) file) EOF ->
  saved w = parts_of p file k ->
  post (small_loop cl attempts fuel (take (Z.to_nat (k * p)) file)) w
    (fun h w' => h = file /\ same_upload (upload w) (upload w') /\ sentParts (upload w') = computeParts p (zlen file) /\
       saved w' = parts_of p file (computeParts p (zlen file))) never.
Proof.
  intros Hp Hlim. pose proof (computeParts_bounds p (zlen file) Hp (zlen_nonneg file)) as [Hn0 Hn]. set (n := computeParts p (zlen file)) in *.
  induction fuel as [|fuel IH]; intros k w Hk Hkp Hf Hps Hsp Hfrom Hsv; [lia|]. cbn [small_loop].
  apply post_bind. unfold post at 1, the_upload. rewrite Hps, Hfrom. unfold ReadFull. cbn [incoming ending].
  change (take (Z.to_nat p) (drop (Z.to_nat (k * p)) file)) with (nth_part p file k).
  pose proof (zlen_nth_part p file k Hk ltac:(lia)) as Hz.
  assert (take (Z.to_nat (k * p)) file ++ nth_part p file k = take (Z.to_nat ((k + 1) * p)) file) as Htake.
  { rewrite <- !concat_parts, parts_of_S by lia. rewrite map_app, concat_app. simpl. by rewrite app_nil_r. }
  assert (Z.rem k partsLimit = k \/ k = n) as Hrem.
  { unfold partsLimit in *. destruct (Z.eq_dec k n); [by right|left]. apply Z.rem_small. nia. }
  destruct (Z.eqb_spec (zlen (nth_part p file k)) p) as [Hfull|Hshort]; [|destruct (Z.eqb_spec (zlen (nth_part p file k)) 0)].
  - (* a whole part *)
    assert (k < n) as Hkn by nia. destruct Hrem as [Hrem|?]; [|lia].
    apply post_bind. unfold post at 1, on_upload. set (w1 := mkWorld _ _ _).
    eapply post_seq; [apply post_sent_part; subst w1; simpl; rewrite Hsp; unfold partsLimit in *; lia|].
    intros _ w2 (Hsame & Hs2 & Hf2 & Hsv2). subst w1. cbn [upload saved] in *. unfold set_from in *. cbn [sentParts] in *. rewrite Hsp in *.
    rewrite Htake. eapply post_mono; [apply (IH (k + 1)); try lia| |done].
    + rewrite length_drop in *. unfold zlen in *. nia.
    + destruct Hsame as (_ & _ & -> & _). done.
    + rewrite Hf2. cbn [from]. f_equal. rewrite drop_drop. f_equal. rewrite Z.mul_add_distr_r, Z2Nat.inj_add by nia. lia.
    + rewrite Hsv2, Hsv, Hrem, parts_of_S by lia. done.
    + intros h w3 (-> & Hs3 & ? & ?). split; [done|]. split; [|done].
      unfold same_upload in *. simpl in *. destruct Hsame as (? & ? & ? & ?), Hs3 as (? & ? & ? & ?). split_and!; congruence.
  - (* the end *)
    apply post_bind. unfold post at 1, on_upload. cbn -[app]. assert (k = n) as -> by nia.
    assert (nth_part p file n = []) as -> by (apply nil_length_inv; unfold zlen in *; lia). rewrite app_nil_r.
    apply post_ret. split; [apply take_ge; unfold zlen in *; lia|]. split; [by split_and!|]. done.
  - (* the last part *)
    apply post_bind. unfold post at 1, on_upload. set (w1 := mkWorld _ _ _).
    change (Is ErrUnexpectedEOF ErrUnexpectedEOF) with true. cbv beta iota.
    assert (n = k + 1) as Hnk by nia. destruct Hrem as [Hrem|?]; [|lia].
    eapply post_seq; [apply post_sent_part; subst w1; simpl; rewrite Hsp; unfold partsLimit in *; lia|].
    intros _ w2 (Hsame & Hs2 & Hf2 & Hsv2). subst w1. cbn [upload saved] in *. unfold set_from in *. cbn [sentParts] in *. rewrite Hsp in *.
    apply post_ret. rewrite Htake. split; [apply take_ge; unfold zlen in *; nia|]. split; [exact Hsame|].
    rewrite Hnk. split; [done|]. rewrite Hsv2, Hsv, Hrem, parts_of_S by lia. done.
Qed.
End SmallFile.

(** A small file is uploaded: the server has the parts of the file, numbered from zero,
    which make up the file, and the result has their number and the checksum of the
    file.  The server may refuse parts or ask to wait as long as it takes each within
    the attempts. *)
Theorem upload_small {E} (cl : Client E) (u : Uploader) (attempts : nat) (bigLoop : GoM (world E) unit)
    (name file : list byte) (e : E) (i : Z) :
  let up := FromBytes name file in
  let size := effectivePartSize u up in
  willing cl attempts -> fst (gen_id cl e) = Ok i ->
  checkPartSize size = None -> 0 < size -> zlen file <= bigFileLimit -> computeParts size (zlen file) <= partsLimit ->
  exists w', Upload_ cl u attempts bigLoop (mkWorld up [] e) =
      (Ok (InputFile i (computeParts size (zlen file)) name (EncodeToString (md5 file))), w') /\
    saved w' = parts_of size file (computeParts size (zlen file)) /\ concat (map snd (saved w')) = file.
Proof.
  intros up size Hcl Hid Hcheck Hsize Hsmall Hparts.
  pose proof (computeParts_bounds size (zlen file) Hsize (zlen_nonneg file)) as [Hn0 Hn].
  assert (post (Upload_ cl u attempts bigLoop) (mkWorld up [] e) (fun r w' =>
    r = InputFile i (computeParts size (zlen file)) name (EncodeToString (md5 file)) /\
    saved w' = parts_of size file (computeParts size (zlen file))) (fun _ _ => False)) as Hpost.
  { unfold Upload_. apply post_bind. unfold post at 1, the_upload. cbn [upload]. fold size. rewrite Hcheck.
    unfold initUpload. apply post_bind. apply post_bind. unfold post at 1, the_upload. cbn [upload].
    change (totalBytes up) with (zlen file). replace (zlen file >? bigFileLimit) with false by lia.
    replace (computeParts size (zlen file) >? partsLimit) with false by lia. cbn [negb andb].
    change (id up =? 0) with true. cbv beta iota. eapply post_seq.
    { apply post_wrapping. instantiate (1 := fun j w' => j = i /\ upload w' = up /\ saved w' = []).
      unfold post, env. cbn [w_env]. destruct (gen_id cl e) as [r e']. simpl in Hid. by subst r. }
    intros j w1 (-> & Hu & Hs). unfold post at 1, on_upload. rewrite Hu, Hs.
    replace (zlen file =? -1) with false by (pose proof (zlen_nonneg file); lia).
    apply post_bind. unfold post at 1, ret. apply post_bind. unfold post at 1, the_upload.
    change (negb (big _)) with true. cbv beta iota. unfold uploadSmall, smallLoop. apply post_bind.
    apply post_bind. unfold post at 1, the_upload.
    eapply post_mono; [apply (post_small_loop cl attempts Hcl file size Hsize Hparts _ 0);
      [lia|pose proof (zlen_nonneg file); lia|rewrite drop_0; apply Nat.lt_succ_diag_r|reflexivity..]| |done].
    intros h w2 (-> & (Hi & Hnm & _) & Hsp & Hsv). apply post_bind. unfold post at 1, the_upload. apply post_ret.
    simpl in Hi, Hnm. rewrite Hi, Hnm, Hsp. done. }
  unfold post in Hpost. destruct (Upload_ _ _ _ _ _) as [[r|?|] w']; [|done|done]. destruct Hpost as [-> Hsv].
  exists w'. split; [done|]. split; [done|]. rewrite Hsv, concat_parts by done. apply take_ge. unfold zlen in *. nia.
Qed.

(** A server that refuses every part once. *)
Module SmallSample.
Definition client : Client nat := {|
  UploadSaveFilePart i part bytes n := (Ok (Nat.odd n), S n);
  gen_id n := (Ok 77, n);
  progress := Some (fun st n => (Ok tt, n));
  ctx_Err n := (None, n) |}.
Definition uploader : Uploader := WithPartSize 1024 NewUploader.
Definition file : list byte := replicate 2500 Byte.x61.

Lemma client_willing : willing client 2.
Proof.
  split; [|by intros f st e [= <-]]. intros i part bytes e. cbn -[Nat.odd]. destruct (Nat.odd e) eqn:Eo; [done|].
  cbn -[Nat.odd]. by rewrite Nat.odd_succ, <- Nat.negb_odd, Eo.
Qed.
End SmallSample.

Lemma upload_small_witness : exists w',
  Upload_ SmallSample.client SmallSample.uploader 2 (ret tt) (mkWorld (FromBytes [] SmallSample.file) [] 0%nat) =
    (Ok (InputFile 77 3 [] (EncodeToString (md5 SmallSample.file))), w') /\ concat (map snd (saved w')) = SmallSample.file.
Proof.
  destruct (upload_small SmallSample.client SmallSample.uploader 2 (ret tt) [] SmallSample.file 0%nat 77) as (w' & H & _ & Hc).
  - exact SmallSample.client_willing.
  - reflexivity.
  - reflexivity.
  - reflexivity.
  - vm_compute. intros H. discriminate H.
  - vm_compute. intros H. discriminate H.
  - exists w'. split; [exact H|exact Hc].
Defined.

(** A source that breaks off with io.ErrUnexpectedEOF, as the body of an HTTP response
    does, ends an upload as if it were complete: the file that is returned is cut, and
    no one compares its length with the one that was announced. *)
Theorem upload_cut_source : exists w',
  let cut := replicate 1500 Byte.x61 in
  let up := NewUpload [] (mkStream cut ErrUnexpectedEOF) 2500 in
  Upload_ SmallSample.client SmallSample.uploader 2 (ret tt) (mkWorld up [] 0%nat) =
    (Ok (InputFile 77 2 [] (EncodeToString (md5 cut))), w') /\
  computeParts 1024 (totalBytes up) = 3 /\ confirmedBytes (upload w') = 1500.
Proof. eexists. cbv zeta. split; [vm_compute; reflexivity|]. split; vm_compute; reflexivity. Qed.

(** ** big.go: the goroutines of a big upload *)

Record part : Type := mkPart { p_id : Z; p_buf : list byte }.

(** Where the reader is: before io.ReadFull, at the channel, or at its end. *)
Inductive rpc : Type := Reading | Offering (p : part) (last : bool) | RExited (err : option error).

(** Where a sender is: at the channel, at the request for a part, before the
    confirmation, at the callback, or at its end. *)
Inductive spc : Type :=
| Waiting | Saving (p : part) (attempt : nat) | Confirming (p : part) | Reporting (st : ProgressState)
| SExited (err : option error).

(** [bg_saved] are the parts that the server has taken, with the total number of parts
    that was sent with them; [bg_stream] is totalStreamSize. *)
Record bigState : Type := mkBig {
  bg_upload : Upload; bg_stream : Z; bg_reader : rpc; bg_queue : list part; bg_closed : bool; bg_senders : list spc;
  bg_error : option error; bg_parent : option error; bg_saved : list (Z * Z * list byte); bg_progress : list ProgressState }.

Definition bg_set_reader (u : Upload) (n : Z) (r : rpc) (s : bigState) : bigState :=
  mkBig u n r (bg_queue s) (bg_closed s) (bg_senders s) (bg_error s) (bg_parent s) (bg_saved s) (bg_progress s).
Definition bg_set_queue (q : list part) (s : bigState) : bigState :=
  mkBig (bg_upload s) (bg_stream s) (bg_reader s) q (bg_closed s) (bg_senders s) (bg_error s) (bg_parent s) (bg_saved s) (bg_progress s).
Definition bg_close (s : bigState) : bigState :=
  mkBig (bg_upload s) (bg_stream s) (bg_reader s) (bg_queue s) true (bg_senders s) (bg_error s) (bg_parent s) (bg_saved s) (bg_progress s).
Definition bg_set_sender (i : nat) (p : spc) (s : bigState) : bigState :=
  mkBig (bg_upload s) (bg_stream s) (bg_reader s) (bg_queue s) (bg_closed s) (<[i := p]> (bg_senders s)) (bg_error s) (bg_parent s)
    (bg_saved s) (bg_progress s).
Definition bg_set_upload (u : Upload) (s : bigState) : bigState := bg_set_reader u (bg_stream s) (bg_reader s) s.
Definition bg_fail (e : option error) (s : bigState) : bigState :=
  mkBig (bg_upload s) (bg_stream s) (bg_reader s) (bg_queue s) (bg_closed s) (bg_senders s)
    (match bg_error s with Some e => Some e | None => e end) (bg_parent s) (bg_saved s) (bg_progress s).
Definition bg_took (x : Z * Z * list byte) (s : bigState) : bigState :=
  mkBig (bg_upload s) (bg_stream s) (bg_reader s) (bg_queue s) (bg_closed s) (bg_senders s) (bg_error s) (bg_parent s)
    (bg_saved s ++ [x]) (bg_progress s).
Definition bg_report (st : ProgressState) (s : bigState) : bigState :=
  mkBig (bg_upload s) (bg_stream s) (bg_reader s) (bg_queue s) (bg_closed s) (bg_senders s) (bg_error s) (bg_parent s)
    (bg_saved s) (bg_progress s ++ [st]).
Definition bg_cancel (e : error) (s : bigState) : bigState :=
  mkBig (bg_upload s) (bg_stream s) (bg_reader s) (bg_queue s) (bg_closed s) (bg_senders s) (bg_error s) (Some e)
    (bg_saved s) (bg_progress s).

(** The context of the group ends with the caller's, or with the first error. *)
Definition bg_ctx (s : bigState) : option error :=
  match bg_parent s with Some e => Some e | None => match bg_error s with Some _ => Some Canceled | None => None end end.

(** A goroutine returns. *)
Definition reader_exit (err : option error) (s : bigState) : bigState :=
  bg_fail err (bg_set_reader (bg_upload s) (bg_stream s) (RExited err) s).
Definition sender_exit (i : nat) (err : option error) (s : bigState) : bigState :=
  bg_fail err (bg_set_sender i (SExited err) s).

(** The read error that ends a part: [last] and the total number of parts of a stream. *)
Definition last_total (u : Upload) (stream : Z) : Upload :=
  if totalParts u =? -1 then set_total (big u) ((stream + partSize u - 1) `quot` partSize u) u else u.

Section Big.
(** What the server may answer to a part (FileID, FilePart, FileTotalParts, Bytes), and
    the progress callback. *)
Context (save_answer : Z -> Z -> Z -> list byte -> outcome bool -> Prop) (progress_answer : ProgressState -> outcome unit -> Prop).

Inductive big_step : bigState -> bigState -> Prop :=
(* the reader *)
| big_read s got r :
    bg_reader s = Reading -> let u := bg_upload s in ReadFull (partSize u) (from u) = (got, None, r) ->
    big_step s (bg_set_reader (set_from r u) (bg_stream s + zlen got) (Offering (mkPart (sentParts u) got) false) s)
| big_read_last s got e r :
    bg_reader s = Reading -> let u := bg_upload s in ReadFull (partSize u) (from u) = (got, Some e, r) ->
    Is e ErrUnexpectedEOF = true ->
    let n := bg_stream s + zlen got in
    big_step s (bg_set_reader (last_total (set_from r u) n) n (Offering (mkPart (sentParts u) got) true) s)
| big_read_eof s got e r :
    bg_reader s = Reading -> let u := bg_upload s in ReadFull (partSize u) (from u) = (got, Some e, r) ->
    Is e ErrUnexpectedEOF = false -> Is e EOF = true ->
    big_step s (bg_close (reader_exit None (bg_set_upload (set_from r u) s)))
| big_read_fail s got e r :
    bg_reader s = Reading -> let u := bg_upload s in ReadFull (partSize u) (from u) = (got, Some e, r) ->
    Is e ErrUnexpectedEOF = false -> Is e EOF = false ->
    big_step s (reader_exit (Some (Wrap e "read source")) (bg_set_upload (set_from r u) s))
| big_offer s p last :
    bg_reader s = Offering p last -> (length (bg_queue s) < length (bg_senders s))%nat ->
    let s' := bg_set_upload (inc_sent (bg_upload s)) (bg_set_queue (bg_queue s ++ [p]) s) in
    big_step s (if last then bg_close (reader_exit None s') else bg_set_reader (bg_upload s') (bg_stream s') Reading s')
| big_offer_ctx s p last e :
    bg_reader s = Offering p last -> bg_ctx s = Some e -> big_step s (reader_exit (Some e) s)
(* a sender *)
| big_take s i p q :
    bg_senders s !! i = Some Waiting -> bg_queue s = p :: q ->
    big_step s (bg_set_sender i (Saving p 0) (bg_set_queue q s))
| big_done s i :
    bg_senders s !! i = Some Waiting -> bg_queue s = [] -> bg_closed s = true -> big_step s (sender_exit i None s)
| big_take_ctx s i e :
    bg_senders s !! i = Some Waiting -> bg_ctx s = Some e -> big_step s (sender_exit i (Some e) s)
| big_saved s i p a :
    bg_senders s !! i = Some (Saving p a) -> let u := bg_upload s in
    save_answer (id u) (p_id p) (totalParts u) (p_buf p) (Ok true) ->
    big_step s (bg_set_sender i (Confirming p) (bg_took (p_id p, totalParts u, p_buf p) s))
| big_refused s i p a :
    bg_senders s !! i = Some (Saving p a) -> let u := bg_upload s in
    save_answer (id u) (p_id p) (totalParts u) (p_buf p) (Ok false) -> big_step s (bg_set_sender i (Saving p (S a)) s)
| big_flood s i p a e e' d :
    bg_senders s !! i = Some (Saving p a) -> let u := bg_upload s in
    save_answer (id u) (p_id p) (totalParts u) (p_buf p) (Err e) -> FloodWait e (bg_ctx s) = (true, e', d) ->
    big_step s (bg_set_sender i (Saving p (S a)) s)
| big_save_fail s i p a e e' d :
    bg_senders s !! i = Some (Saving p a) -> let u := bg_upload s in
    save_answer (id u) (p_id p) (totalParts u) (p_buf p) (Err e) -> FloodWait e (bg_ctx s) = (false, e', d) ->
    big_step s (sender_exit i (Some (Wrap (Wrap e' "send upload part RPC") "upload part")) s)
| big_confirm s i p :
    bg_senders s !! i = Some (Confirming p) -> let '(st, u) := confirm (p_id p) (zlen (p_buf p)) (bg_upload s) in
    big_step s (bg_set_sender i (Reporting st) (bg_set_upload u s))
| big_report s i st :
    bg_senders s !! i = Some (Reporting st) -> progress_answer st (Ok tt) ->
    big_step s (bg_set_sender i Waiting (bg_report st s))
| big_report_fail s i st e :
    bg_senders s !! i = Some (Reporting st) -> progress_answer st (Err e) ->
    big_step s (sender_exit i (Some (Wrap e "progress callback")) s)
(* the context of the caller ends *)
| big_cancel s e : bg_parent s = None -> big_step s (bg_cancel e s).

(** The start of bigLoop. *)
Definition big_init (threads : nat) (u : Upload) : bigState :=
  mkBig u 0 Reading [] false (replicate threads Waiting) None None [] [].

Inductive big_reachable (threads : nat) (u : Upload) : bigState -> Prop :=
| big_reach_init : big_reachable threads u (big_init threads u)
| big_reach_step s s' : big_reachable threads u s -> big_step s s' -> big_reachable threads u s'.

(** [g.Wait()] has returned. *)
Definition big_finished (s : bigState) : Prop :=
  (exists e, bg_reader s = RExited e) /\ Forall (fun p => exists e, p = SExited e) (bg_senders s).
End Big.

(** ** Big files are uploaded completely *)

Section BigFile.
Context (save_answer : Z -> Z -> Z -> list byte -> outcome bool -> Prop) (progress_answer : ProgressState -> outcome unit -> Prop).
Context (threads : nat) (u0 : Upload) (file : list byte).
Abbreviation p := (partSize u0).
Abbreviation n := (computeParts p (zlen file)).
(** The total that is sent with the last part. *)
Definition final_total : Z := if totalParts u0 =? -1 then n else totalParts u0.

Context (Hthreads : (0 < threads)%nat) (Hp : 0 < p) (Hfrom : from u0 = mkStream file EOF)
        (Hsent : sentParts u0 = 0) (Hconf : confirmedBytes u0 = 0) (Hfits : zlen file + p < 2 ^ 63).

Definition without_total (x : Z * Z * list byte) : Z * list byte := let '(i, _, b) := x in (i, b).
Definition of_part (q : part) : Z * list byte := (p_id q, p_buf q).
Definition pending (c : spc) : list (Z * list byte) := match c with Saving q _ => [of_part q] | _ => [] end.
Definition confirming (c : spc) : Z := match c with Confirming q => zlen (p_buf q) | _ => 0 end.
Definition zsum (l : list Z) : Z := foldr Z.add 0 l.
Definition sizes (l : list (Z * list byte)) : Z := zsum (map (fun x => zlen (snd x)) l).

(** A total that may be sent. *)
Definition total_ok (t : Z) : Prop := t = totalParts u0 \/ (t = final_total /\ zlen file mod p <> 0).

Definition reader_ok (s : bigState) : Prop :=
  let k := sentParts (bg_upload s) in
  match bg_reader s with
  | Reading => from (bg_upload s) = mkStream (drop (Z.to_nat (k * p)) file) EOF /\ bg_stream s = k * p /\ k * p <= zlen file /\
      bg_closed s = false
  | Offering q false => q = mkPart k (nth_part p file k) /\ k * p < zlen file /\ bg_closed s = false /\
      from (bg_upload s) = mkStream (drop (Z.to_nat ((k + 1) * p)) file) EOF /\ bg_stream s = (k + 1) * p /\ (k + 1) * p <= zlen file
  | Offering q true => q = mkPart k (nth_part p file k) /\ k * p < zlen file < (k + 1) * p /\ bg_closed s = false
  | RExited None => bg_closed s = true /\ k = n
  | RExited (Some _) => bg_error s <> None /\ bg_closed s = false
  end.

(** What holds as long as no goroutine has failed. *)
Record no_error_ok (s : bigState) : Prop := {
  ne_parts : map without_total (bg_saved s) ++ flat_map pending (bg_senders s) ++ map of_part (bg_queue s)
             ≡ₚ parts_of p file (sentParts (bg_upload s));
  ne_totals i t b : (i, t, b) ∈ bg_saved s -> zlen file < (i + 1) * p -> t = final_total;
  ne_exited e : SExited e ∈ bg_senders s -> bg_queue s = [] /\ bg_closed s = true;
  ne_bytes : 0 <= confirmedBytes (bg_upload s) /\
    confirmedBytes (bg_upload s) + zsum (map confirming (bg_senders s)) = sizes (map without_total (bg_saved s)) }.

Record big_inv (s : bigState) : Prop := {
  bi_same : same_upload u0 (bg_upload s);
  bi_k : 0 <= sentParts (bg_upload s) <= n;
  bi_reader : reader_ok s;
  bi_total : total_ok (totalParts (bg_upload s));
  bi_last : zlen file < sentParts (bg_upload s) * p \/ (exists q, bg_reader s = Offering q true) ->
            totalParts (bg_upload s) = final_total;
  bi_saved i t b : (i, t, b) ∈ bg_saved s -> total_ok t;
  bi_threads : length (bg_senders s) = threads;
  bi_failed e : SExited (Some e) ∈ bg_senders s -> bg_error s <> None;
  bi_good : bg_error s = None -> no_error_ok s }.

Lemma n_bounds : 0 <= n /\ n * p - p < zlen file <= n * p.
Proof. apply computeParts_bounds; [done|apply zlen_nonneg]. Qed.

Lemma big_inv_init : big_inv (big_init threads u0).
Proof.
  pose proof n_bounds. split; simpl.
  - by split_and!.
  - rewrite Hsent. lia.
  - unfold reader_ok. simpl. rewrite Hfrom, Hsent. pose proof (zlen_nonneg file). split_and!; simpl; try done; lia.
  - by left.
  - rewrite Hsent. intros [?|[q ?]]; [pose proof (zlen_nonneg file); lia|done].
  - by intros i t b ?%not_elem_of_nil.
  - apply length_replicate.
  - by intros e [? ?]%elem_of_replicate.
  - intros _. split; simpl.
    + rewrite Hsent, app_nil_r. unfold parts_of. simpl. clear. induction threads as [|m IH]; simpl; [done|]. done.
    + by intros i t b ?%not_elem_of_nil.
    + by intros e [? ?]%elem_of_replicate.
    + rewrite Hconf. clear. split; [done|]. unfold sizes, zsum. induction threads as [|m IH]; simpl in *; lia.
Qed.

Lemma elem_of_insert {A} (l : list A) i x y : x ∈ <[i := y]> l -> x = y \/ x ∈ l.
Proof.
  intros [j Hj]%list_elem_of_lookup. apply list_lookup_insert_Some in Hj as [(_ & -> & _)|[_ Hj]]; [by left|right].
  by eapply list_elem_of_lookup_2.
Qed.

Lemma zsum_insert {A} (f : A -> Z) (l : list A) i x old : l !! i = Some old ->
  zsum (map f (<[i := x]> l)) = zsum (map f l) - f old + f x.
Proof.
  unfold zsum. revert i. induction l as [|y l IH]; intros [|i] Hi; simpl in *; [done..| |].
  - injection Hi as ->. lia.
  - rewrite (IH i Hi). lia.
Qed.

Lemma sizes_app l k : sizes (l ++ k) = sizes l + sizes k.
Proof. unfold sizes, zsum. rewrite map_app. induction l as [|x l IH]; simpl in *; lia. Qed.

(** *** Steps of a sender *)

Lemma bg_fail_none s : bg_fail None s = s.
Proof. destruct s as [? ? ? ? ? ? [] ? ? ?]; done. Qed.

Lemma inv_sender_fail s i e : big_inv s -> big_inv (sender_exit i (Some e) s).
Proof.
  intros [Hsame Hk Hr Ht Hl Hs Hth Hf Hg]. unfold sender_exit.
  assert (bg_error (bg_fail (Some e) (bg_set_sender i (SExited (Some e)) s)) <> None) as He by (simpl; by destruct (bg_error s)).
  split; try done.
  - revert Hr. unfold reader_ok. simpl. destruct (bg_reader s) as [|? []|[]]; try done. intros [_ ?]. by split.
  - simpl. by rewrite length_insert.
Qed.

Lemma inv_sender_done s i : big_inv s -> bg_senders s !! i = Some Waiting -> bg_queue s = [] -> bg_closed s = true ->
  big_inv (sender_exit i None s).
Proof.
  intros [Hsame Hk Hr Ht Hl Hs Hth Hf Hg] Hi Hq Hc. unfold sender_exit. rewrite bg_fail_none.
  split; simpl; try done.
  - by rewrite length_insert.
  - intros e [?|?]%elem_of_insert; [done|by eapply Hf].
  - intros He. destruct (Hg He) as [Hparts Htot Hex Hby]. split; simpl; try done.
    + pose proof (flat_map_insert pending _ i (SExited None) _ Hi) as Hins. simpl in Hins. by rewrite Hins.
    + rewrite (zsum_insert _ _ _ _ _ Hi). simpl. lia.
Qed.

(** A sender goes on with the part that it holds, or holds none. *)
Lemma inv_sender s i c c' : big_inv s -> bg_senders s !! i = Some c -> (forall e, c' <> SExited e) ->
  pending c' = pending c -> confirming c' = confirming c -> big_inv (bg_set_sender i c' s).
Proof.
  intros [Hsame Hk Hr Ht Hl Hs Hth Hf Hg] Hi Hne Hpe Hco. unfold bg_set_sender. split; simpl; try done.
  - by rewrite length_insert.
  - intros e [<-|?]%elem_of_insert; [by destruct (Hne (Some e))|by eapply Hf].
  - intros He. destruct (Hg He) as [Hparts Htot Hex Hby]. split; simpl; try done.
    + pose proof (flat_map_insert pending _ i c' _ Hi) as Hins. rewrite Hpe in Hins.
      apply Permutation_app_inv_l in Hins. by rewrite Hins.
    + intros e [<-|?]%elem_of_insert; [by destruct (Hne e)|by eapply Hex].
    + rewrite (zsum_insert _ _ _ _ _ Hi). lia.
Qed.

Lemma inv_take_part s i q l : big_inv s -> bg_senders s !! i = Some Waiting -> bg_queue s = q :: l ->
  big_inv (bg_set_sender i (Saving q 0) (bg_set_queue l s)).
Proof.
  intros [Hsame Hk Hr Ht Hl Hs Hth Hf Hg] Hi Hq. unfold bg_set_sender, bg_set_queue. split; simpl; try done.
  - by rewrite length_insert.
  - intros e [?|?]%elem_of_insert; [done|by eapply Hf].
  - intros He. destruct (Hg He) as [Hparts Htot Hex Hby]. split; simpl; try done.
    + pose proof (flat_map_insert pending _ i (Saving q 0) _ Hi) as Hins. simpl in Hins. rewrite Hins, <- Hparts, Hq. simpl.
      f_equiv. apply Permutation_middle.
    + intros e [?|Hin]%elem_of_insert; [done|]. destruct (Hex e Hin) as [E _]. by rewrite E in Hq.
    + rewrite (zsum_insert _ _ _ _ _ Hi). simpl. lia.
Qed.

Lemma inv_saved s i q a : big_inv s -> bg_senders s !! i = Some (Saving q a) ->
  big_inv (bg_set_sender i (Confirming q) (bg_took (p_id q, totalParts (bg_upload s), p_buf q) s)).
Proof.
  intros [Hsame Hk Hr Ht Hl Hs Hth Hf Hg] Hi. unfold bg_set_sender, bg_took. split; simpl; try done.
  - intros j t b [Hin|[= -> -> ->]%list_elem_of_singleton]%elem_of_app; [by eapply Hs|done].
  - by rewrite length_insert.
  - intros e [?|?]%elem_of_insert; [done|by eapply Hf].
  - intros He. destruct (Hg He) as [Hparts Htot Hex Hby]. split; simpl; try done.
    + pose proof (flat_map_insert pending _ i (Confirming q) _ Hi) as Hins. simpl in Hins.
      rewrite <- Hparts, <- Hins, map_app, <- app_assoc. simpl. done.
    + intros j t b [Hin|[= -> -> ->]%list_elem_of_singleton]%elem_of_app; [by eapply Htot|]. intros Hlast. apply Hl. left.
      assert ((p_id q, p_buf q) ∈ parts_of p file (sentParts (bg_upload s))) as Hin.
      { rewrite <- Hparts, !elem_of_app. right. left. apply list_elem_of_In, in_flat_map. exists (Saving q a).
        split; [by apply list_elem_of_In; eapply list_elem_of_lookup_2|by left]. }
      apply list_elem_of_fmap in Hin as (x & [= Hx _] & [_ Hxk]%elem_of_seqZ). rewrite Hx in Hlast. nia.
    + intros e [?|?]%elem_of_insert; [done|by eapply Hex].
    + rewrite (zsum_insert _ _ _ _ _ Hi), map_app, sizes_app. unfold sizes at 2, zsum at 2. simpl. lia.
Qed.

Lemma sizes_concat l : sizes l = zlen (concat (map snd l)).
Proof. unfold sizes, zsum. induction l as [|x l IH]; simpl; [done|]. rewrite zlen_app. lia. Qed.

#[local] Instance sizes_perm : Proper (Permutation ==> eq) sizes.
Proof. intros l k H. unfold sizes, zsum. induction H; simpl in *; lia. Qed.

Lemma zsum_nonneg {A} (f : A -> Z) l : (forall x, 0 <= f x) -> 0 <= zsum (map f l).
Proof. intros Hf. unfold zsum. induction l as [|x l IH]; simpl; [lia|]. specialize (Hf x). lia. Qed.

Lemma zsum_elem {A} (f : A -> Z) l i c : (forall x, 0 <= f x) -> l !! i = Some c -> f c <= zsum (map f l).
Proof.
  intros Hf. revert i. induction l as [|x l IH]; intros [|i] Hi; simpl in *; [done..| |]; unfold zsum in *; simpl.
  - injection Hi as ->. pose proof (zsum_nonneg f l Hf). unfold zsum in *. lia.
  - specialize (IH i Hi). specialize (Hf x). lia.
Qed.

(** What was saved is not more than the file. *)
Lemma saved_sizes s : no_error_ok s -> 0 <= sentParts (bg_upload s) -> sizes (map without_total (bg_saved s)) <= zlen file.
Proof.
  intros [Hparts _ _ _] Hk.
  assert (sizes (map without_total (bg_saved s)) <= sizes (parts_of p file (sentParts (bg_upload s)))) as Hle.
  { rewrite <- Hparts, sizes_app. assert (forall l, 0 <= sizes l) as H0 by (intros l; apply zsum_nonneg; intros; apply zlen_nonneg).
    pose proof (H0 (flat_map pending (bg_senders s) ++ map of_part (bg_queue s))). lia. }
  rewrite (sizes_concat (parts_of _ _ _)), concat_parts in Hle by done. unfold zlen in *. rewrite length_take in Hle. lia.
Qed.

Lemma inv_confirm s i q : big_inv s -> bg_senders s !! i = Some (Confirming q) ->
  let '(st, u) := confirm (p_id q) (zlen (p_buf q)) (bg_upload s) in big_inv (bg_set_sender i (Reporting st) (bg_set_upload u s)).
Proof.
  intros [Hsame Hk Hr Ht Hl Hs Hth Hf Hg] Hi. unfold confirm, confirmLocked. split; simpl; try done.
  - by rewrite length_insert.
  - intros e [?|?]%elem_of_insert; [done|by eapply Hf].
  - intros He. pose proof (Hg He) as Hgood. pose proof (saved_sizes s Hgood (proj1 Hk)) as Hle.
    destruct Hgood as [Hparts Htot Hex Hby]. split; simpl; try done.
    + pose proof (flat_map_insert pending _ i (Reporting (mkProgress (id (bg_upload s)) (name (bg_upload s)) (p_id q) (partSize (bg_upload s))
         (i64 (confirmedBytes (bg_upload s) + zlen (p_buf q))) (totalBytes (bg_upload s)))) _ Hi) as Hins. simpl in Hins. by rewrite Hins.
    + intros e [?|?]%elem_of_insert; [done|by eapply Hex].
    + rewrite (zsum_insert _ _ _ _ _ Hi). cbn [confirming].
      assert (zlen (p_buf q) <= zsum (map confirming (bg_senders s))) as Hq.
      { apply (zsum_elem confirming _ i (Confirming q)); [intros []; simpl; try lia; apply zlen_nonneg|done]. }
      pose proof (zlen_nonneg (p_buf q)). rewrite swrap_id; [lia|lia|]. unfold is_signed. change (2 ^ (64 - 1)) with (2 ^ 63). lia.
Qed.

(** *** Steps of the reader *)

(** The reader moves on, and closes the channel when [c]. *)
Definition moved (u : Upload) (m : Z) (r : rpc) (c : bool) (s : bigState) : bigState :=
  mkBig u m r (bg_queue s) (c || bg_closed s) (bg_senders s) (bg_error s) (bg_parent s) (bg_saved s) (bg_progress s).

Lemma inv_moved u m r c s : big_inv s -> same_upload u0 u -> sentParts u = sentParts (bg_upload s) ->
  confirmedBytes u = confirmedBytes (bg_upload s) -> total_ok (totalParts u) ->
  (zlen file < sentParts u * p \/ (exists q, r = Offering q true) -> totalParts u = final_total) ->
  reader_ok (moved u m r c s) -> big_inv (moved u m r c s).
Proof.
  intros [Hsame Hk Hr Ht Hl Hs Hth Hf Hg] Hu Hsp Hcb Htu Hlu Hru. split; simpl; try done; [by rewrite Hsp|].
  intros He. destruct (Hg He) as [Hparts Htot Hex Hby]. split; simpl; [by rewrite Hsp|done| |by rewrite Hcb].
  intros e Hin. destruct (Hex e Hin) as [Hq Hc]. split; [done|]. rewrite Hc. by destruct c.
Qed.

Lemma inv_reader_fail s u e : big_inv s -> same_upload u0 u -> sentParts u = sentParts (bg_upload s) ->
  totalParts u = totalParts (bg_upload s) -> bg_closed s = false ->
  big_inv (reader_exit (Some e) (bg_set_upload u s)).
Proof.
  intros [Hsame Hk Hr Ht Hl Hs Hth Hf Hg] Hu Hsp Htp Hc.
  assert (bg_error (reader_exit (Some e) (bg_set_upload u s)) <> None) as He by (simpl; by destruct (bg_error s)).
  split; simpl; try done.
  - by rewrite Hsp.
  - by rewrite Htp.
  - rewrite Hsp, Htp. intros [?|[? ?]]; [apply Hl; by left|done].
Qed.

Lemma open_reader s : big_inv s -> (forall e, bg_reader s <> RExited e) -> bg_closed s = false.
Proof.
  intros Hinv Hne. pose proof (bi_reader _ Hinv) as Hr. unfold reader_ok in Hr.
  destruct (bg_reader s) as [|? []|e]; [naive_solver..|]. by destruct (Hne e).
Qed.

(** What the reader reads. *)
Lemma read_cases s got err r : big_inv s -> bg_reader s = Reading ->
  ReadFull (partSize (bg_upload s)) (from (bg_upload s)) = (got, err, r) ->
  let k := sentParts (bg_upload s) in
  got = nth_part p file k /\ r = mkStream (drop (Z.to_nat ((k + 1) * p)) file) EOF /\
  ((err = None /\ (k + 1) * p <= zlen file /\ zlen got = p) \/ (err = Some EOF /\ k * p = zlen file) \/
   (err = Some ErrUnexpectedEOF /\ k * p < zlen file < (k + 1) * p /\ zlen got = zlen file - k * p)).
Proof.
  intros Hinv Hread. destruct (bi_same _ Hinv) as (_ & _ & -> & _). pose proof (bi_reader _ Hinv) as Hr. unfold reader_ok in Hr.
  rewrite Hread in Hr. destruct Hr as (-> & _ & Hkp & _). pose proof (bi_k _ Hinv) as Hk. set (k := sentParts (bg_upload s)) in *.
  unfold ReadFull. cbn [incoming ending]. fold (nth_part p file k). pose proof (zlen_nth_part p file k ltac:(lia) ltac:(lia)) as Hz.
  assert (drop (Z.to_nat p) (drop (Z.to_nat (k * p)) file) = drop (Z.to_nat ((k + 1) * p)) file) as ->.
  { rewrite drop_drop. f_equal. rewrite Z.mul_add_distr_r, Z2Nat.inj_add by nia. lia. }
  destruct (Z.eqb_spec (zlen (nth_part p file k)) p); [|destruct (Z.eqb_spec (zlen (nth_part p file k)) 0); [|rewrite decide_True by done]];
    intros [= <- <- <-]; (split; [done|]; split; [done|]).
  - left. split; [done|]. split; [|done]. lia.
  - right. left. split; [done|]. lia.
  - right. right. split; [done|]. lia.
Qed.

Lemma last_number k : 0 <= k -> k * p < zlen file <= (k + 1) * p -> n = k + 1.
Proof. intros Hk Hb. pose proof n_bounds. nia. Qed.

Lemma inv_read s got r : big_inv s -> bg_reader s = Reading ->
  ReadFull (partSize (bg_upload s)) (from (bg_upload s)) = (got, None, r) ->
  big_inv (bg_set_reader (set_from r (bg_upload s)) (bg_stream s + zlen got)
             (Offering (mkPart (sentParts (bg_upload s)) got) false) s).
Proof.
  intros Hinv Hread Hrf. pose proof (open_reader s Hinv ltac:(by rewrite Hread)) as Hopen.
  destruct (read_cases s got None r Hinv Hread Hrf) as (-> & -> & [(_ & Hle & Hz)|[[? _]|[? _]]]); [|done..].
  pose proof (bi_reader _ Hinv) as Hr. unfold reader_ok in Hr. rewrite Hread in Hr. destruct Hr as (_ & Hst & _ & _).
  apply (inv_moved _ _ _ false); simpl; try done; try apply Hinv.
  - intros [Hb|[q ?]]; [|done]. apply (bi_last _ Hinv). by left.
  - unfold reader_ok. simpl. rewrite Hst, Hz. split_and!; try done; lia.
Qed.

Lemma inv_read_last s got e r : big_inv s -> bg_reader s = Reading ->
  ReadFull (partSize (bg_upload s)) (from (bg_upload s)) = (got, Some e, r) -> Is e ErrUnexpectedEOF = true ->
  big_inv (bg_set_reader (last_total (set_from r (bg_upload s)) (bg_stream s + zlen got)) (bg_stream s + zlen got)
             (Offering (mkPart (sentParts (bg_upload s)) got) true) s).
Proof.
  intros Hinv Hread Hrf He. pose proof (open_reader s Hinv ltac:(by rewrite Hread)) as Hopen.
  destruct (read_cases s got (Some e) r Hinv Hread Hrf) as (-> & -> & [[? _]|[[[= ->] _]|([= ->] & Hle & Hz)]]); [done..|].
  pose proof (bi_reader _ Hinv) as Hr. unfold reader_ok in Hr. rewrite Hread in Hr. destruct Hr as (_ & Hst & _ & _).
  pose proof (bi_k _ Hinv) as Hk. set (k := sentParts (bg_upload s)) in *.
  destruct (bi_same _ Hinv) as (Hi & Hn & Hps & Htb).
  pose proof (last_number k ltac:(lia) ltac:(lia)) as Hnk.
  assert (zlen file mod p <> 0) as Hmod.
  { intros [q Hq]%Z.mod_divide; [|lia]. rewrite Hq in Hle. assert (k < q) by nia. assert (q < k + 1) by nia. lia. }
  assert (totalParts (last_total (set_from (mkStream (drop (Z.to_nat ((k + 1) * p)) file) EOF) (bg_upload s)) (bg_stream s + zlen (nth_part p file k)))
          = final_total) as Htot.
  { unfold last_total. simpl. rewrite Hst, Hz, Hps. replace (k * p + (zlen file - k * p) + p - 1) with (zlen file + p - 1) by lia.
    destruct (bi_total _ Hinv) as [Hc|[Hc _]]; rewrite Hc; unfold final_total in *;
      destruct (Z.eqb_spec (totalParts u0) (-1)) as [E|E]; simpl; try done.
    - rewrite Z.quot_div_nonneg by lia. by rewrite computeParts_ceil by (pose proof (zlen_nonneg file); lia).
    - destruct (Z.eqb_spec n (-1)); [lia|done].
    - destruct (Z.eqb_spec (totalParts u0) (-1)); [lia|done]. }
  apply (inv_moved _ _ _ false); try done; unfold last_total in *; simpl in *.
  - by destruct (_ =? -1).
  - by destruct (_ =? -1).
  - by destruct (_ =? -1).
  - right. done.
  - unfold reader_ok. simpl. destruct (_ =? -1); simpl; split_and!; try done; lia.
Qed.

Lemma inv_eof s got e r : big_inv s -> bg_reader s = Reading ->
  ReadFull (partSize (bg_upload s)) (from (bg_upload s)) = (got, Some e, r) -> Is e ErrUnexpectedEOF = false ->
  big_inv (bg_close (reader_exit None (bg_set_upload (set_from r (bg_upload s)) s))).
Proof.
  intros Hinv Hread Hrf He.
  destruct (read_cases s got (Some e) r Hinv Hread Hrf) as (-> & -> & [[? _]|[([= ->] & Hk)|[[= ->] _]]]); [done| |done].
  unfold reader_exit. rewrite bg_fail_none. apply (inv_moved (set_from _ (bg_upload s)) (bg_stream s) (RExited None) true s);
    [done|apply Hinv|done|done|apply Hinv| |]; simpl.
  - intros [Hb|[q ?]]; [|done]. lia.
  - unfold reader_ok. simpl. split; [done|]. pose proof (bi_k _ Hinv). pose proof n_bounds. nia.
Qed.

Lemma inv_offer s q last : big_inv s -> bg_reader s = Offering q last ->
  let s' := bg_set_upload (inc_sent (bg_upload s)) (bg_set_queue (bg_queue s ++ [q]) s) in
  big_inv (if last then bg_close (reader_exit None s') else bg_set_reader (bg_upload s') (bg_stream s') Reading s').
Proof.
  intros Hinv Hoff s'. pose proof (open_reader s Hinv ltac:(by rewrite Hoff)) as Hopen.
  pose proof (bi_reader _ Hinv) as Hr. unfold reader_ok in Hr. rewrite Hoff in Hr.
  pose proof (bi_k _ Hinv) as Hk. pose proof n_bounds as Hn. set (k := sentParts (bg_upload s)) in *.
  assert (q = mkPart k (nth_part p file k) /\ k * p < zlen file /\ (last = true -> zlen file < (k + 1) * p)) as (Hq & Hkp & Hlast)
    by (destruct last; naive_solver).
  assert (i64 (k + 1) = k + 1) as Hi by (apply swrap_id; [lia|]; unfold is_signed; change (2 ^ (64 - 1)) with (2 ^ 63); nia).
  assert (k + 1 <= n) as Hkn by nia.
  assert (bg_error s = None -> map without_total (bg_saved s) ++ flat_map pending (bg_senders s) ++ map of_part (bg_queue s ++ [q])
            ≡ₚ parts_of p file (k + 1)) as Hparts.
  { intros He. pose proof (ne_parts _ (bi_good _ Hinv He)) as Hpp. fold k in Hpp. rewrite parts_of_S, <- Hpp by lia. rewrite map_app, !app_assoc. by rewrite Hq. }
  assert (forall e, bg_error s = None -> SExited e ∈ bg_senders s -> False) as Hnex.
  { intros e He Hin. destruct (ne_exited _ (bi_good _ Hinv He) e Hin) as [_ Hc]. by rewrite Hopen in Hc. }
  destruct last; subst s'; unfold reader_exit; rewrite ?bg_fail_none; (split; simpl; fold k; rewrite ?Hi; try apply Hinv; try lia).
  - unfold reader_ok. simpl. fold k. rewrite Hi. split; [done|]. symmetry. apply last_number; lia.
  - intros _. apply (bi_last _ Hinv). right. by exists q.
  - intros He. split; simpl; fold k; rewrite ?Hi; [by apply Hparts|apply (bi_good _ Hinv He)|intros e Hin; by destruct (Hnex e)|apply (bi_good _ Hinv He)].
  - destruct Hr as (_ & _ & _ & Hfr & Hst & Hle). unfold reader_ok. simpl. fold k. rewrite Hi. done.
  - destruct Hr as (_ & _ & _ & _ & _ & Hle). intros [Hb|[? ?]]; [lia|done].
  - intros He. split; simpl; fold k; rewrite ?Hi; [by apply Hparts|apply (bi_good _ Hinv He)|intros e Hin; by destruct (Hnex e)|apply (bi_good _ Hinv He)].
Qed.

Lemma inv_big_step s s' : big_inv s -> big_step save_answer progress_answer s s' -> big_inv s'.
Proof.
  intros Hinv Hstep. destruct Hstep.
  - by apply inv_read.
  - by eapply inv_read_last.
  - by eapply inv_eof.
  - exfalso. destruct (read_cases _ _ _ _ Hinv H H0) as (_ & _ & [[? _]|[[[= ->] _]|[[= ->] _]]]); done.
  - by apply inv_offer.
  - apply (inv_reader_fail s (bg_upload s)); [done|apply Hinv|done|done|]. apply (open_reader s Hinv). by rewrite H.
  - by apply inv_take_part.
  - by apply inv_sender_done.
  - by apply inv_sender_fail.
  - by eapply inv_saved.
  - by eapply inv_sender.
  - by eapply inv_sender.
  - by apply inv_sender_fail.
  - by apply inv_confirm.
  - assert (big_inv (bg_report st s)) as Hi by (destruct Hinv as [? ? ? ? ? ? ? ? Hg]; split; try done; intros He; by destruct (Hg He); split).
    by eapply inv_sender.
  - by apply inv_sender_fail.
  - destruct Hinv as [? ? ? ? ? ? ? ? Hg]; split; try done. intros He. by destruct (Hg He); split.
Qed.

Lemma big_reachable_inv s : big_reachable save_answer progress_answer threads u0 s -> big_inv s.
Proof. induction 1; [apply big_inv_init|by eapply inv_big_step]. Qed.

(** No sender holds a part when all have ended. *)
Lemma exited_nothing l : Forall (fun c => exists e, c = SExited e) l -> flat_map pending l = [] /\ zsum (map confirming l) = 0.
Proof. induction 1 as [|c l [e ->] _ [IH1 IH2]]; simpl; [done|]. split; [done|]. unfold zsum in *. simpl. lia. Qed.

Lemma big_finished_ok s : big_inv s -> big_finished s -> bg_error s = None ->
  map without_total (bg_saved s) ≡ₚ parts_of p file n /\ sentParts (bg_upload s) = n /\ confirmedBytes (bg_upload s) = zlen file.
Proof.
  intros Hinv [[e He] Hall] Hne. destruct (bi_good _ Hinv Hne) as [Hparts _ Hex Hby].
  destruct (exited_nothing _ Hall) as [Hpend Hconfm].
  assert (bg_queue s = []) as Hq.
  { pose proof (bi_threads _ Hinv). destruct (bg_senders s) as [|c l] eqn:El; [simpl in *; lia|].
    apply Forall_cons in Hall as [[e' ->] _]. apply (Hex e'). by left. }
  pose proof (bi_reader _ Hinv) as Hr. unfold reader_ok in Hr. rewrite He in Hr.
  destruct e as [e|]; [by destruct Hr|]. destruct Hr as [_ Hk].
  rewrite Hpend, Hq, Hk in Hparts. simpl in Hparts. rewrite app_nil_r in Hparts. rewrite Hconfm in Hby.
  split; [done|]. split; [done|]. pose proof n_bounds as Hn.
  rewrite Hparts, sizes_concat, concat_parts in Hby by lia. rewrite take_ge in Hby; [lia|]. unfold zlen in *. lia.
Qed.

(** *** No deadlock *)

(** Every request and every callback is answered, if only with an error. *)
Definition answered : Prop :=
  (forall i j t b, exists r, save_answer i j t b r /\ r <> Panic) /\ (forall st, exists r, progress_answer st r /\ r <> Panic).

Abbreviation moves s := (exists s', big_step save_answer progress_answer s s' /\ bg_parent s' = bg_parent s).

Lemma sender_moves s i c : answered -> bg_senders s !! i = Some c -> (forall e, c <> SExited e) -> c <> Waiting -> moves s.
Proof.
  intros [Hsave Hprog] Hi Hne Hw. destruct c as [|q a|q|st|e]; [done| | | |by destruct (Hne e)].
  - destruct (Hsave (id (bg_upload s)) (p_id q) (totalParts (bg_upload s)) (p_buf q)) as ([[]|e|] & Hr & Hnp); [| | |done].
    + eexists. split; [by eapply big_saved|done].
    + eexists. split; [by eapply big_refused|done].
    + destruct (FloodWait e (bg_ctx s)) as [[[] e'] d] eqn:Ef; eexists; (split; [first [by eapply big_flood|by eapply big_save_fail]|done]).
  - eexists. split; [by apply (big_confirm _ _ s i q)|done].
  - destruct (Hprog st) as ([[]|e|] & Hr & Hnp); [| |done].
    + eexists. split; [by eapply big_report|done].
    + eexists. split; [by eapply big_report_fail|done].
Qed.

Lemma exited_or (l : list spc) : Forall (fun c => exists e, c = SExited e) l \/
  exists i c, l !! i = Some c /\ forall e, c <> SExited e.
Proof.
  induction l as [|c l [IH|(i & x & Hi & Hx)]]; [by left| |right; by exists (S i), x].
  destruct c as [| | | |e]; try (right; exists 0%nat; by eexists). left. constructor; [by eexists|done].
Qed.

Lemma waiting_or c : c = Waiting \/ c <> Waiting.
Proof. destruct c; [by left|by right..]. Qed.

Lemma big_moves s : answered -> big_inv s -> ~ big_finished s -> moves s.
Proof.
  intros Hans Hinv Hfin. pose proof (bi_reader _ Hinv) as Hr. unfold reader_ok in Hr.
  pose proof (bi_threads _ Hinv) as Hth. destruct (bg_reader s) as [|q last|err] eqn:Er.
  - destruct (ReadFull (partSize (bg_upload s)) (from (bg_upload s))) as [[got [e|]] r] eqn:Erf; [|eexists; split; [by eapply big_read|done]].
    destruct (Is e ErrUnexpectedEOF) eqn:Eu; [eexists; split; [by eapply big_read_last|done]|].
    destruct (Is e EOF) eqn:Ee; eexists; (split; [first [by eapply big_read_eof|by eapply big_read_fail]|done]).
  - destruct (decide (length (bg_queue s) < length (bg_senders s))%nat) as [Hq|Hq].
    { eexists. split; [by eapply big_offer|]. by destruct last. }
    destruct (exited_or (bg_senders s)) as [Hall|(i & c & Hi & Hc)].
    + destruct (bg_error s) as [e0|] eqn:Ee.
      * assert (exists e, bg_ctx s = Some e) as [e He] by (unfold bg_ctx; rewrite Ee; destruct (bg_parent s); by eexists).
        eexists. split; [by eapply big_offer_ctx|done].
      * exfalso. destruct (bg_senders s) as [|c l] eqn:El; [simpl in *; lia|]. apply Forall_cons in Hall as [[e ->] _].
        destruct (ne_exited _ (bi_good _ Hinv Ee) e) as [Hq0 _]; [rewrite El; by left|]. rewrite Hq0 in Hq. simpl in Hq. lia.
    + destruct (waiting_or c) as [->|Hw]; [|by eapply sender_moves].
      destruct (bg_queue s) as [|q' l] eqn:El; [simpl in *; lia|]. eexists. split; [by eapply big_take|done].
  - destruct (exited_or (bg_senders s)) as [Hall|(i & c & Hi & Hc)]; [destruct Hfin; split; [by eexists|done]|].
    destruct (waiting_or c) as [->|Hw]; [|by eapply sender_moves].
    destruct (bg_queue s) as [|q' l] eqn:El; [|eexists; split; [by eapply big_take|done]].
    destruct err as [e|]; [|destruct Hr as [Hc' _]; eexists; split; [by eapply big_done|done]].
    destruct Hr as [He _]. destruct (bg_error s) as [e0|] eqn:Ee; [|done].
    assert (exists e, bg_ctx s = Some e) as [e' He'] by (unfold bg_ctx; rewrite Ee; destruct (bg_parent s); by eexists).
    eexists. split; [by eapply big_take_ctx|done].
Qed.
End BigFile.

(** C11: A big upload that ends without an error has sent the whole file, whatever the
    interleaving of the goroutines and the refusals of the server: the server has taken
    every part exactly once, under its number, the parts make up the file, and the number
    of parts that is returned and the number of bytes that was confirmed are right. *)
Theorem upload_big_complete save_answer progress_answer (threads : nat) (u : Upload) (file : list byte) (s : bigState) :
  (0 < threads)%nat -> 0 < partSize u -> from u = mkStream file EOF -> sentParts u = 0 -> confirmedBytes u = 0 ->
  zlen file + partSize u < 2 ^ 63 ->
  big_reachable save_answer progress_answer threads u s -> big_finished s -> bg_error s = None ->
  let n := computeParts (partSize u) (zlen file) in
  map without_total (bg_saved s) ≡ₚ parts_of (partSize u) file n /\ concat (map snd (parts_of (partSize u) file n)) = file /\
  sentParts (bg_upload s) = n /\ confirmedBytes (bg_upload s) = zlen file.
Proof.
  intros Hth Hp Hfrom Hsent Hconf Hfits Hr Hfin He n. pose proof (n_bounds u file Hp) as Hn.
  destruct (big_finished_ok threads u file Hth Hp s) as (H1 & H2 & H3); [by eapply big_reachable_inv|done|done|].
  split; [exact H1|]. split; [|split; [exact H2|exact H3]]. rewrite concat_parts by (subst n; lia). apply take_ge.
  subst n. unfold zlen in *. lia.
Qed.

(** The total number of parts that is sent with a part: the number of a file whose size
    is known; for a stream minus one, or the number of its parts, and the number with
    the last part when that part is shorter than the others. *)
Theorem upload_big_totals save_answer progress_answer (threads : nat) (u : Upload) (file : list byte) (s : bigState) i t b :
  (0 < threads)%nat -> 0 < partSize u -> from u = mkStream file EOF -> sentParts u = 0 -> confirmedBytes u = 0 ->
  zlen file + partSize u < 2 ^ 63 ->
  big_reachable save_answer progress_answer threads u s -> (i, t, b) ∈ bg_saved s ->
  (totalParts u <> -1 -> t = totalParts u) /\
  (totalParts u = -1 -> t = -1 \/ t = computeParts (partSize u) (zlen file)) /\
  (totalParts u = -1 -> bg_error s = None -> zlen file < (i + 1) * partSize u -> t = computeParts (partSize u) (zlen file)).
Proof.
  intros Hth Hp Hfrom Hsent Hconf Hfits Hr Hin.
  assert (big_inv threads u file s) as Hinv by (by eapply big_reachable_inv).
  pose proof (bi_saved _ _ _ _ Hinv i t b Hin) as Ht. unfold total_ok, final_total in *. split_and!.
  - intros Hne. destruct Ht as [?|[Ht _]]; [done|]. destruct (Z.eqb_spec (totalParts u) (-1)); [done|done].
  - intros Eq. rewrite Eq in Ht. cbn in Ht. destruct Ht as [?|[? _]]; auto.
  - intros Eq He Hl. rewrite (ne_totals _ _ _ (bi_good _ _ _ _ Hinv He) i t b Hin Hl). unfold final_total. by rewrite Eq.
Qed.

(** The total number of parts of a stream is never sent when the length of the stream
    is a multiple of the part size: every part carries minus one. *)
Theorem upload_stream_total_missing save_answer progress_answer (threads : nat) (u : Upload) (file : list byte) (s : bigState) i t b :
  (0 < threads)%nat -> 0 < partSize u -> from u = mkStream file EOF -> sentParts u = 0 -> confirmedBytes u = 0 ->
  zlen file + partSize u < 2 ^ 63 -> totalParts u = -1 -> zlen file mod partSize u = 0 ->
  big_reachable save_answer progress_answer threads u s -> (i, t, b) ∈ bg_saved s -> t = -1.
Proof.
  intros Hth Hp Hfrom Hsent Hconf Hfits Ht Hm Hr Hin.
  assert (big_inv threads u file s) as Hinv by (by eapply big_reachable_inv).
  destruct (bi_saved _ _ _ _ Hinv i t b Hin) as [?|[_ ?]]; congruence.
Qed.

(** C37: as long as a big upload has not ended, and every request is answered if only with an
    error, one of its goroutines can take a step: the channel never blocks all of them. *)
Theorem upload_big_progress save_answer progress_answer (threads : nat) (u : Upload) (file : list byte) (s : bigState) :
  (0 < threads)%nat -> 0 < partSize u -> from u = mkStream file EOF -> sentParts u = 0 -> confirmedBytes u = 0 ->
  zlen file + partSize u < 2 ^ 63 -> answered save_answer progress_answer ->
  big_reachable save_answer progress_answer threads u s -> ~ big_finished s ->
  exists s', big_step save_answer progress_answer s s' /\ bg_parent s' = bg_parent s.
Proof.
  intros Hth Hp Hfrom Hsent Hconf Hfits Hans Hr Hfin. eapply (big_moves _ _ threads u file); try done. by eapply big_reachable_inv.
Qed.

(** A stream of three bytes in parts of two, and one of two bytes. *)
Module BigSample.
Definition yes (i j t : Z) (b : list byte) (r : outcome bool) : Prop := r = Ok true.
Definition fine (st : ProgressState) (r : outcome unit) : Prop := r = Ok tt.
Definition file : list byte := [Byte.x01; Byte.x02; Byte.x03].
Definition start (f : list byte) : Upload := mkUpload 77 0 0 0 (-1) 2 true (-1) [] (mkStream f EOF).

(** A step, after which the state is evaluated; one part goes through its sender. *)
Ltac stepping H tac :=
  eapply big_reach_step in H; [|tac];
  match type of H with big_reachable _ _ _ _ ?s => let s' := eval vm_compute in s in change s with s' in H end.
Ltac one_part H :=
  stepping H ltac:(eapply big_offer; [reflexivity|apply Nat.ltb_lt; reflexivity]);
  stepping H ltac:(eapply (big_take _ _ _ 0); reflexivity);
  stepping H ltac:(eapply (big_saved _ _ _ 0); reflexivity);
  stepping H ltac:(eapply (big_confirm _ _ _ 0); reflexivity);
  stepping H ltac:(eapply (big_report _ _ _ 0); reflexivity).

Lemma run : exists s, big_reachable yes fine 1 (start file) s /\ big_finished s /\ bg_error s = None /\
  bg_saved s = [(0, -1, [Byte.x01; Byte.x02]); (1, 2, [Byte.x03])].
Proof.
  pose proof (big_reach_init yes fine 1 (start file)) as H.
  stepping H ltac:(eapply big_read; reflexivity). one_part H.
  stepping H ltac:(eapply big_read_last; reflexivity). one_part H.
  stepping H ltac:(eapply (big_done _ _ _ 0); reflexivity).
  eexists. split; [exact H|]. split; [|split; reflexivity]. split; [by eexists|]. repeat constructor. by eexists.
Qed.

Lemma run_even : exists s b, big_reachable yes fine 1 (start [Byte.x01; Byte.x02]) s /\ (0, -1, b) ∈ bg_saved s.
Proof.
  pose proof (big_reach_init yes fine 1 (start [Byte.x01; Byte.x02])) as H.
  stepping H ltac:(eapply big_read; reflexivity). one_part H.
  do 2 eexists. split; [exact H|]. by left.
Qed.
End BigSample.

Lemma upload_big_complete_witness : exists s, big_reachable BigSample.yes BigSample.fine 1 (BigSample.start BigSample.file) s /\
  map without_total (bg_saved s) ≡ₚ [(0, [Byte.x01; Byte.x02]); (1, [Byte.x03])] /\ sentParts (bg_upload s) = 2.
Proof.
  destruct BigSample.run as (s & Hr & Hf & He & _). exists s. split; [exact Hr|].
  destruct (upload_big_complete BigSample.yes BigSample.fine 1 (BigSample.start BigSample.file) BigSample.file s) as (H1 & _ & H2 & _);
    [apply Nat.ltb_lt; reflexivity|reflexivity..|exact Hr|exact Hf|exact He|]. split; [exact H1|exact H2].
Defined.

Lemma upload_big_totals_witness : exists s, big_reachable BigSample.yes BigSample.fine 1 (BigSample.start BigSample.file) s /\
  (1, 2, [Byte.x03]) ∈ bg_saved s /\ (2 = -1 \/ 2 = computeParts 2 3).
Proof.
  destruct BigSample.run as (s & Hr & _ & _ & Hs). exists s. split; [exact Hr|].
  assert ((1, 2, [Byte.x03]) ∈ bg_saved s) as Hin by (rewrite Hs; right; left). split; [exact Hin|].
  apply (upload_big_totals BigSample.yes BigSample.fine 1 (BigSample.start BigSample.file) BigSample.file s 1 2 [Byte.x03]);
    [apply Nat.ltb_lt; reflexivity|reflexivity..|exact Hr|exact Hin|reflexivity].
Defined.

Lemma upload_stream_total_missing_witness : exists s b,
  big_reachable BigSample.yes BigSample.fine 1 (BigSample.start [Byte.x01; Byte.x02]) s /\ (0, -1, b) ∈ bg_saved s /\
  (forall t, (0, t, b) ∈ bg_saved s -> t = -1).
Proof.
  destruct BigSample.run_even as (s & b & Hr & Hin). exists s, b. split; [exact Hr|]. split; [exact Hin|]. intros t Ht.
  apply (upload_stream_total_missing BigSample.yes BigSample.fine 1 (BigSample.start [Byte.x01; Byte.x02]) [Byte.x01; Byte.x02] s 0 t b);
    [apply Nat.ltb_lt; reflexivity|reflexivity..|exact Hr|exact Ht].
Defined.

Lemma upload_big_progress_witness : exists s',
  big_step BigSample.yes BigSample.fine (big_init 1 (BigSample.start BigSample.file)) s' /\ bg_parent s' = None.
Proof.
  apply (upload_big_progress BigSample.yes BigSample.fine 1 (BigSample.start BigSample.file) BigSample.file
           (big_init 1 (BigSample.start BigSample.file))).
  - apply Nat.ltb_lt. reflexivity.
  - reflexivity.
  - reflexivity.
  - reflexivity.
  - reflexivity.
  - reflexivity.
  - split; [intros i j t b|intros st]; eexists; (split; [reflexivity|discriminate]).
  - apply big_reach_init.
  - intros [[e He] _]. discriminate He.
Defined.
