(* ===== verification/Mtproxy.v ===== *)
(** * mtproxy: obfuscated connections

    Model of src/mtproxy: secrets (secret.go), the obfuscated2 protocol
    (obfuscated2/*.go), the imitation of TLS (faketls/*.go) and their composition
    (obfuscator/*.go).  A connection is an instance of the class [ReadWriter], as
    io.ReadWriter is an interface in the code, and the obfuscations are connections over
    connections.  The class [Reliable] says what a connection promises: what is written
    is sent, and what comes is read in pieces.  The obfuscations keep the promise, so
    the theorems hold for every stack of them.  Parameters: the AES block function and
    the ClientHello that the library uTLS makes. *)
From S2P Require Import Prelude Io Bin Tgerr Hash Keys Exchange Codec.

(** ** secret.go *)

Inductive SecretType : Type := Simple | Secured | TLS.
Record Secret : Type := mkSecret { s_Secret : list byte; s_Tag : byte; s_CloakHost : list byte; s_Type : SecretType }.

Definition known_tag (t : byte) : option detected :=
  if bool_decide (Some t = head AbridgedClientStart) then Some DAbridged
  else if bool_decide (Some t = head IntermediateClientStart) then Some DIntermediate
  else if bool_decide (Some t = head PaddedIntermediateClientStart) then Some DPaddedIntermediate
  else None.
Definition ExpectedCodec (s : Secret) : option detected := known_tag (s_Tag s).

Definition ParseSecret (secret : list byte) : outcome Secret :=
  let simpleLength := 16 in
  let tagged r := match known_tag (s_Tag r) with Some _ => Ok r | None => Err (Errorf "unknown tag") end in
  let t := default Byte.x00 (head secret) in
  if zlen secret =? 1 + simpleLength then tagged (mkSecret (slice 0 simpleLength (drop 1 secret)) t [] Secured)
  else if zlen secret >? simpleLength then
    tagged (mkSecret (slice 0 simpleLength (drop 1 secret)) t (drop (Z.to_nat simpleLength) (drop 1 secret)) TLS)
  else if zlen secret =? simpleLength then Ok (mkSecret secret Byte.x00 [] Simple)
  else Err (Errorf "invalid secret").

(** ** Connections *)

(** io.ReadWriter: a read returns some bytes, at most as many as asked for, or an error. *)
Class ReadWriter (C : Type) : Type := { rw_Write : list byte -> GoM C unit; rw_Read : Z -> GoM C (list byte) }.

(** io.ReadFull: every read returns a byte or an error. *)
Fixpoint full_loop {C} `{ReadWriter C} (fuel : nat) (n : Z) (got : list byte) : GoM C (list byte) :=
  match fuel with
  | O => fun c => (Panic, c)
  | S fuel =>
      if zlen got <? n then fun c =>
        match rw_Read (n - zlen got) c with
        | (Ok b, c) => full_loop fuel n (got ++ b) c
        | (Err e, c) => (Err (if negb (zlen got =? 0) && bool_decide (e = EOF) then ErrUnexpectedEOF else e), c)
        | (Panic, c) => (Panic, c)
        end
      else ret got
  end.
Definition rw_ReadFull {C} `{ReadWriter C} (n : Z) : GoM C (list byte) := full_loop (S (Z.to_nat n)) n [].

(** A socket: the segments that arrive, the error after them, and what was sent. *)
Record Pipe : Type := mkPipe { segments : list (list byte); p_ending : error; p_sent : list byte }.

Fixpoint next_segment (n : nat) (segs : list (list byte)) : option (list byte * list (list byte)) :=
  match segs with
  | [] => None
  | [] :: segs => next_segment n segs
  | s :: segs => Some (take n s, drop n s :: segs)
  end.

#[export] Instance pipe_rw : ReadWriter Pipe := {|
  rw_Write b c := (Ok tt, mkPipe (segments c) (p_ending c) (p_sent c ++ b));
  rw_Read n c :=
    match next_segment (Z.to_nat n) (segments c) with
    | Some (got, segs) => (Ok got, mkPipe segs (p_ending c) (p_sent c))
    | None => (Err (p_ending c), c)
    end |}.

(** ** obfuscated2 *)

(** cipher.Stream in counter mode: the key, the first counter block, and how many bytes
    were used. *)
Record CTR : Type := mkCTR { ct_key : list byte; ct_iv : list byte; ct_pos : nat }.

Section Obfuscated2.
Context (aes_block : list byte -> list byte -> list byte).

Definition ks_byte (s : CTR) (i : nat) : byte :=
  nth (i mod 16) (aes_block (ct_key s) (be_split 16 (be_combine (ct_iv s) + Z.of_nat (i / 16)))) Byte.x00.
Definition xor_byte (x y : byte) : byte := byte.of_Z (Z.lxor (byte.unsigned x) (byte.unsigned y)).
Definition xor_at (s : CTR) (pos : nat) (src : list byte) : list byte :=
  imap (fun i x => xor_byte x (ks_byte s (pos + i))) src.
Definition advance (n : nat) (s : CTR) : CTR := mkCTR (ct_key s) (ct_iv s) (ct_pos s + n).
Definition XORKeyStream (src : list byte) (s : CTR) : list byte * CTR :=
  (xor_at s (ct_pos s) src, advance (length src) s).

(** keys_util.go *)

Definition createCTR (key iv : list byte) : outcome CTR :=
  match aes_NewCipher key with Some e => Err e | None => Ok (mkCTR key iv 0) end.

Definition getDecryptInit (init : list byte) : list byte := List.rev (slice 8 56 init).

(** The starts that belong to other protocols. *)
Definition reserved_first : list Z :=
  [0x44414548; 0x54534f50; 0x20544547; 0x4954504f; 0x02010316; 0xdddddddd; 0xeeeeeeee].
Definition bad_init (init : list byte) : bool :=
  bool_decide (head init = Some Byte.xef) || bool_decide (le_combine (slice 0 4 init) ∈ reserved_first) ||
  (le_combine (slice 4 8 init) =? 0).

(** Every turn reads 64 bytes of randomness. *)
Fixpoint init_loop (fuel : nat) : GoM Stream (list byte) :=
  match fuel with
  | O => fun r => (Panic, r)
  | S fuel =>
      let! init := must_read 64 in
      if bad_init init then init_loop fuel else ret init
  end.
Definition generateInit : GoM Stream (list byte) := fun r => init_loop (S (length (incoming r))) r.

(** keys.go *)

Record keys : Type := mkKeys { header : list byte; encrypt : CTR; decrypt : CTR }.

Definition createStreams (init secret : list byte) : outcome (CTR * CTR) :=
  let encryptKey := slice 8 40 init in
  let encryptIV := slice 40 56 init in
  let initRev := getDecryptInit init in
  let decryptKey := slice 0 32 initRev in
  let decryptIV := slice 32 48 initRev in
  if (0 <? zlen secret) && (zlen secret <? 16) then Err (Errorf "invalid secret size")
  else
    let mix key := if 0 <? zlen secret then sha256 (key ++ slice 0 16 secret) else key in
    match createCTR (mix encryptKey) encryptIV with
    | Ok e => match createCTR (mix decryptKey) decryptIV with Ok d => Ok (e, d) | Err x => Err x | Panic => Panic end
    | Err x => Err x
    | Panic => Panic
    end.

Definition lift {S A} (r : outcome A) : GoM S A := fun s => (r, s).

Definition generateKeys (protocol secret : list byte) (dc : Z) : GoM Stream keys :=
  let! init := generateInit in
  let! streams := lift (createStreams init secret) in
  let '(e, d) := streams in
  let init := take 56 init ++ protocol ++ le_split 2 (uwrap 16 dc) ++ drop 62 init in
  let '(encryptedInit, e) := XORKeyStream init e in
  ret (mkKeys (take 56 init ++ slice 56 64 encryptedInit) e d).

(** obfuscated2.go, server.go *)

(** The keys are nil before the handshake. *)
Record Obfuscated2 (C : Type) : Type := mkObfs { o_rand : Stream; o_conn : C; o_keys : option keys }.
Arguments mkObfs {C}. Arguments o_rand {C}. Arguments o_conn {C}. Arguments o_keys {C}.
Definition NewObfuscated2 {C} (r : Stream) (c : C) : Obfuscated2 C := mkObfs r c None.

Record Metadata : Type := mkMetadata { md_Protocol : list byte; md_DC : Z }.

Section Conn.
Context {C : Type} `{ReadWriter C}.

Definition obfs_Handshake (protocol : list byte) (dc : Z) (s : Secret) : GoM (Obfuscated2 C) unit := fun o =>
  match generateKeys protocol (s_Secret s) dc (o_rand o) with
  | (Ok k, r) =>
      match rw_Write (header k) (o_conn o) with
      | (Ok _, c) => (Ok tt, mkObfs r c (Some k))
      | (Err e, c) => (Err (Wrap e "write obfuscated header"), mkObfs r c (Some k))
      | (Panic, c) => (Panic, mkObfs r c (Some k))
      end
  | (Err e, r) => (Err (Wrap e "generate keys"), mkObfs r (o_conn o) (o_keys o))
  | (Panic, r) => (Panic, mkObfs r (o_conn o) (o_keys o))
  end.

Definition obfs_Write (b : list byte) : GoM (Obfuscated2 C) unit := fun o =>
  match o_keys o with
  | None => (Panic, o)
  | Some k =>
      let '(x, e) := XORKeyStream b (encrypt k) in
      let '(r, c) := rw_Write x (o_conn o) in
      (r, mkObfs (o_rand o) c (Some (mkKeys (header k) e (decrypt k))))
  end.

Definition obfs_Read (n : Z) : GoM (Obfuscated2 C) (list byte) := fun o =>
  match rw_Read n (o_conn o) with
  | (Ok b, c) =>
      if zlen b >? 0 then
        match o_keys o with
        | None => (Panic, mkObfs (o_rand o) c None)
        | Some k =>
            let '(x, d) := XORKeyStream b (decrypt k) in
            (Ok x, mkObfs (o_rand o) c (Some (mkKeys (header k) (encrypt k) d)))
        end
      else (Ok b, mkObfs (o_rand o) c (o_keys o))
  | (Err e, c) => (Err e, mkObfs (o_rand o) c (o_keys o))
  | (Panic, c) => (Panic, mkObfs (o_rand o) c (o_keys o))
  end.

#[export] Instance obfs_rw : ReadWriter (Obfuscated2 C) := {| rw_Write := obfs_Write; rw_Read := obfs_Read |}.

(** Accept: the connection of the server, and what the header says. *)
Definition Accept (secret : list byte) : GoM C (keys * Metadata) :=
  let! buf := rw_ReadFull 64 in
  let! streams := lift (createStreams buf secret) in
  let '(e, d) := streams in
  let '(e, d) := (d, e) in
  let '(decrypted, d) := XORKeyStream buf d in
  ret (mkKeys [] e d, mkMetadata (slice 56 60 decrypted) (le_combine (slice 60 62 decrypted))).
End Conn.
End Obfuscated2.
Arguments mkObfs {C}. Arguments o_rand {C}. Arguments o_conn {C}. Arguments o_keys {C}.

(** ** faketls *)

(** tls.go *)
Definition RecordTypeChangeCipherSpec : Z := 0x14.
Definition RecordTypeAlert : Z := 0x15.
Definition RecordTypeHandshake : Z := 0x16.
Definition RecordTypeApplication : Z := 0x17.
Definition RecordTypeHeartbeat : Z := 0x18.
Definition Version10Bytes : list byte := [Byte.x03; Byte.x01].
Definition Version11Bytes : list byte := [Byte.x03; Byte.x02].
Definition Version12Bytes : list byte := [Byte.x03; Byte.x03].
Definition Version13Bytes : list byte := [Byte.x03; Byte.x04].

(** crypto/hmac with SHA-256 *)
Module Hmac.
Definition block_key (key : list byte) : list byte :=
  let k := if 64 <? zlen key then sha256 key else key in k ++ zeros (64 - zlen k).
Definition padded (pad : Z) (key : list byte) : list byte :=
  (fun x => byte.of_Z (Z.lxor (byte.unsigned x) pad)) <$> block_key key.
Definition Sum (key msg : list byte) : list byte := sha256 (padded 0x5c key ++ sha256 (padded 0x36 key ++ msg)).
End Hmac.
Abbreviation hmac := Hmac.Sum.

Example hmac_jefe : be_combine (hmac (bytes_of_string "Jefe") (bytes_of_string "what do ya want for nothing?")) =
  0x5bdcc146bf60754e6a042426089575c75a003f089d2739839dec58b964ec3843.
Proof. vm_compute. reflexivity. Qed.

(** record.go *)
Record record : Type := mkRecord { r_Type : Z; r_Version : list byte; r_Data : list byte }.

Definition known_version (v : list byte) : bool :=
  bool_decide (v ∈ [Version13Bytes; Version12Bytes; Version11Bytes; Version10Bytes]).

(** server_hello.go *)
Definition maxHandshakeRecords : nat := 16.
(** client_hello.go *)
Definition clientRandomOffset : Z := 11.
Definition clientRandomLength : Z := 32.

(** [rand], [clock], [version] do not change; [ft_first] is firstPacket. *)
Record FakeTLS (C : Type) : Type := mkFake { ft_conn : C; ft_first : bool; ft_buf : list byte }.
Arguments mkFake {C}. Arguments ft_conn {C}. Arguments ft_first {C}. Arguments ft_buf {C}.
Definition NewFakeTLS {C} (c : C) : FakeTLS C := mkFake c false [].
Definition ft_version : list byte := Version12Bytes.

Section Fake.
Context {C : Type} `{ReadWriter C}.

(** The record and the bytes that were read for it. *)
Definition readRecord : GoM C (record * list byte) :=
  let! buf := rw_ReadFull 5 in
  if negb (known_version (slice 1 3 buf)) then fail (Errorf "unknown protocol version")
  else
    let! data := rw_ReadFull (be_combine (slice 3 5 buf)) in
    ret (mkRecord (le_combine (slice 0 1 buf)) (slice 1 3 buf) data, buf ++ data).

Definition writeRecord (r : record) : GoM C unit :=
  wrapping "type and version" (rw_Write (byte.of_Z (r_Type r) :: r_Version r)) ;;!
  wrapping "data length" (rw_Write (be_split 2 (uwrap 16 (zlen (r_Data r))))) ;;!
  wrapping "data" (rw_Write (r_Data r)).

(** A call on the connection below. *)
Definition below {A} (m : GoM C A) : GoM (FakeTLS C) A := fun o =>
  let '(r, c) := m (ft_conn o) in (r, mkFake c (ft_first o) (ft_buf o)).

Definition fake_Write (b : list byte) : GoM (FakeTLS C) unit :=
  (fun o =>
     if negb (ft_first o) then
       (wrapping "write first TLS packet" (below (writeRecord (mkRecord RecordTypeChangeCipherSpec ft_version [Byte.x01]))) ;;!
        (fun o => (Ok tt, mkFake (ft_conn o) true (ft_buf o)))) o
     else (Ok tt, o)) ;;!
  wrapping "write TLS record" (below (writeRecord (mkRecord RecordTypeApplication ft_version b))).

(** The loop of Read; [fuel] bounds the records without data that are skipped. *)
Fixpoint fake_read_loop (fuel : nat) (n : Z) : GoM (FakeTLS C) (list byte) :=
  match fuel with
  | O => fun o => (Panic, o)
  | S fuel => fun o =>
      if 0 <? zlen (ft_buf o) then
        (Ok (take (Z.to_nat n) (ft_buf o)), mkFake (ft_conn o) (ft_first o) (drop (Z.to_nat n) (ft_buf o)))
      else
        (let! rec := wrapping "read TLS record" (below readRecord) in
         let rec := fst rec in
         if r_Type rec =? RecordTypeChangeCipherSpec then fake_read_loop fuel n
         else if r_Type rec =? RecordTypeApplication then
           (fun o => (Ok tt, mkFake (ft_conn o) (ft_first o) (ft_buf o ++ r_Data rec))) ;;! fake_read_loop fuel n
         else if r_Type rec =? RecordTypeHandshake then fail (Errorf "unexpected record type handshake")
         else fail (Errorf "unsupported record type")) o
  end.

(** server_hello.go: the records before ChangeCipherSpec, and the bytes they had. *)
Fixpoint change_cipher_loop (k : nat) (packet : list byte) : GoM C (list byte) :=
  match k with
  | O => fail (Errorf "unexpected record type")
  | S k =>
      let! rec := wrapping "change cipher record" readRecord in
      let '(rec, raw) := rec in
      if r_Type rec =? RecordTypeHandshake then change_cipher_loop k (packet ++ raw)
      else if r_Type rec =? RecordTypeChangeCipherSpec then ret (packet ++ raw)
      else fail (Errorf "unexpected record type")
  end.

(** The packet with zeros in place of the 32 bytes of its random. *)
Definition without_random (packet : list byte) : list byte :=
  take 11 packet ++ zeros 32 ++ drop 43 packet.

Definition readServerHello (clientRandom secret : list byte) : GoM C unit :=
  let! rec := wrapping "handshake record" readRecord in
  let '(handshake, packet) := rec in
  if negb (r_Type handshake =? RecordTypeHandshake) then fail (Errorf "unexpected record type")
  else if zlen packet <? 43 then fail (Errorf "handshake record is too short")
  else
    let! packet := change_cipher_loop maxHandshakeRecords packet in
    let! rec := wrapping "cert record" readRecord in
    let '(cert, raw) := rec in
    if negb (r_Type cert =? RecordTypeApplication) then fail (Errorf "unexpected record type")
    else
      let packet := packet ++ raw in
      if negb (bool_decide (hmac secret (clientRandom ++ without_random packet) = slice 11 43 packet))
      then fail (Errorf "hmac digest mismatch") else ret tt.

(** client_hello.go: [hello] is the handshake message that uTLS has built. *)
Definition generateClientHello (hello : outcome (list byte)) : outcome (list byte) :=
  match hello with
  | Ok h => Ok ([byte.of_Z RecordTypeHandshake] ++ Version10Bytes ++ be_split 2 (uwrap 16 (zlen h)) ++ h)
  | Err e => Err (Wrap e "build handshake state")
  | Panic => Panic
  end.

Definition writeClientHello (hello : outcome (list byte)) (now : Z) (secret : list byte) : GoM C (list byte) :=
  match generateClientHello hello with
  | Ok record =>
      if zlen record <? clientRandomOffset + clientRandomLength then fail (Errorf "ClientHello is too short")
      else
        let mac := hmac secret (without_random record) in
        let last := Z.lxor (le_combine (drop 28 mac)) (u32 now) in
        let random := take 28 mac ++ le_split 4 last in
        rw_Write (take 11 record ++ random ++ drop 43 record) ;;! ret random
  | Err e => fail (Wrap e "generate ClientHello")
  | Panic => fun c => (Panic, c)
  end.

Definition fake_Handshake (hello : outcome (list byte)) (now : Z) (s : Secret) : GoM (FakeTLS C) unit :=
  (fun o => (Ok tt, mkFake (ft_conn o) (ft_first o) [])) ;;!
  let! clientDigest := wrapping "send ClientHello" (below (writeClientHello hello now (s_Secret s))) in
  wrapping "receive ServerHello" (below (readServerHello clientDigest (s_Secret s))).
End Fake.

(** Reads that skip at most [fuel] records. *)
Definition fake_rw {C} `{ReadWriter C} (fuel : nat) : ReadWriter (FakeTLS C) :=
  {| rw_Write := fake_Write; rw_Read := fake_read_loop fuel |}.

(** ** obfuscator.go: obfuscated2 over fake TLS *)

(** Write and Read of tls are those of [obfs_rw] over [fake_rw].  [hello] is what uTLS makes
    of the randomness before the part that is left in [o_rand]. *)
Section Tls.
Context (aes_block : list byte -> list byte -> list byte) {C : Type} `{ReadWriter C} (fuel : nat).
Definition newTLS (r : Stream) (c : C) : Obfuscated2 (FakeTLS C) := NewObfuscated2 r (NewFakeTLS c).
Definition tls_Handshake (hello : outcome (list byte)) (now : Z) (protocol : list byte) (dc : Z) (s : Secret)
    : GoM (Obfuscated2 (FakeTLS C)) unit :=
  wrapping "faketls handshake" (fun o => let '(r, c) := fake_Handshake hello now s (o_conn o) in (r, mkObfs (o_rand o) c (o_keys o))) ;;!
  wrapping "obfs2 handshake" (obfs_Handshake (H := fake_rw fuel) aes_block protocol dc s).
End Tls.

(** ** What a connection promises *)

(** [rel_sent] is what was written, [rel_coming] what will be read; a write of a payload
    that fits is sent whole, a read returns the next bytes that come. *)
Class Reliable (C : Type) `{ReadWriter C} : Type := {
  rel_wf : C -> Prop;
  rel_fits : list byte -> Prop;
  rel_sent : C -> list byte;
  rel_coming : C -> list byte;
  rel_write c b : rel_wf c -> rel_fits b -> exists c', rw_Write b c = (Ok tt, c') /\ rel_wf c' /\
    rel_sent c' = rel_sent c ++ b /\ rel_coming c' = rel_coming c;
  rel_read c n : rel_wf c -> 0 < n -> rel_coming c <> [] -> exists b c', rw_Read n c = (Ok b, c') /\ rel_wf c' /\
    b <> [] /\ zlen b <= n /\ rel_coming c = b ++ rel_coming c' /\ rel_sent c' = rel_sent c }.

(** A sequence of io.ReadFull calls, and of writes. *)
Fixpoint reads {C} `{ReadWriter C} (ns : list Z) : GoM C (list (list byte)) :=
  match ns with
  | [] => ret []
  | n :: ns => let! b := rw_ReadFull n in let! bs := reads ns in ret (b :: bs)
  end.
Fixpoint writes {C} `{ReadWriter C} (bs : list (list byte)) : GoM C unit :=
  match bs with
  | [] => ret tt
  | b :: bs => rw_Write b ;;! writes bs
  end.

Section Reliable.
Context {C : Type} {rw : ReadWriter C} {rel : Reliable C}.

Lemma nil_or_cons (l : list byte) : l = [] \/ 0 < zlen l.
Proof. destruct l; [by left|right]. unfold zlen. simpl. lia. Qed.

Lemma full_loop_ok fuel n got bs rest c : rel_wf c -> rel_coming c = bs ++ rest -> zlen got + zlen bs = n ->
  (length bs < fuel)%nat ->
  exists c', full_loop fuel n got c = (Ok (got ++ bs), c') /\ rel_wf c' /\ rel_coming c' = rest /\ rel_sent c' = rel_sent c.
Proof.
  revert got bs c. induction fuel as [|fuel IH]; intros got bs c Hwf Hc Hn Hf; [lia|]. cbn [full_loop].
  destruct (Z.ltb_spec (zlen got) n) as [Hlt|Hge].
  - destruct (nil_or_cons bs) as [->|Hbs]; [rewrite zlen_nil in Hn; lia|].
    destruct (rel_read c (n - zlen got) Hwf) as (b & c1 & Hr & Hwf1 & Hb & Hle & Hco & Hs); [lia| |].
    { rewrite Hc. destruct bs; [unfold zlen in Hbs; simpl in Hbs; lia|done]. }
    rewrite Hr. assert (exists bs', bs = b ++ bs' /\ rel_coming c1 = bs' ++ rest) as (bs' & -> & Hc1).
    { exists (drop (length b) bs). rewrite Hc in Hco. assert (length b <= length bs)%nat as Hlb by (unfold zlen in *; lia).
      split.
      - rewrite <- (take_drop (length b) bs) at 1. f_equal. apply (f_equal (take (length b))) in Hco.
        rewrite take_app_length, take_app_le in Hco by done. done.
      - apply (f_equal (drop (length b))) in Hco. rewrite drop_app_length, drop_app_le in Hco by done. done. }
    destruct (IH (got ++ b) bs' c1 Hwf1 Hc1) as (c' & Hfl & Hwf' & Hc' & Hs').
    + rewrite zlen_app in *. lia.
    + rewrite length_app in Hf. assert (length b <> 0%nat) by (by destruct b). lia.
    + exists c'. rewrite Hfl, <- app_assoc. split_and!; try done. congruence.
  - destruct (nil_or_cons bs) as [->|Hbs]; [|lia]. exists c. rewrite app_nil_r. done.
Qed.

Lemma ReadFull_ok n bs rest c : rel_wf c -> rel_coming c = bs ++ rest -> zlen bs = n ->
  exists c', rw_ReadFull n c = (Ok bs, c') /\ rel_wf c' /\ rel_coming c' = rest /\ rel_sent c' = rel_sent c.
Proof.
  intros Hwf Hc Hn. unfold rw_ReadFull. apply (full_loop_ok _ n []); [done|done|exact Hn|]. unfold zlen in Hn. lia.
Qed.

(** Writes are sent in order. *)
Lemma writes_ok bs c : rel_wf c -> Forall rel_fits bs -> exists c', writes bs c = (Ok tt, c') /\ rel_wf c' /\
  rel_sent c' = rel_sent c ++ concat bs /\ rel_coming c' = rel_coming c.
Proof.
  intros Hwf Hbs. revert c Hwf. induction Hbs as [|b bs Hb _ IH]; intros c Hwf; cbn [writes].
  { exists c. simpl. by rewrite app_nil_r. }
  destruct (rel_write c b Hwf Hb) as (c1 & H1 & Hwf1 & Hs1 & Hc1). destruct (IH c1 Hwf1) as (c2 & H2 & Hwf2 & Hs2 & Hc2).
  exists c2. unfold bind. rewrite H1, H2. split_and!; try done; [|congruence]. rewrite Hs2, Hs1, <- app_assoc. done.
Qed.

(** Reads return what comes, in order, in the pieces that are asked for. *)
Lemma reads_ok pieces rest c : rel_wf c -> rel_coming c = concat pieces ++ rest -> exists c',
  reads (zlen <$> pieces) c = (Ok pieces, c') /\ rel_wf c' /\ rel_coming c' = rest /\ rel_sent c' = rel_sent c.
Proof.
  revert c. induction pieces as [|b pieces IH]; intros c Hwf Hc; cbn [reads fmap list_fmap]; [by exists c|].
  simpl in Hc. rewrite <- app_assoc in Hc.
  destruct (ReadFull_ok (zlen b) b _ c Hwf Hc eq_refl) as (c1 & H1 & Hwf1 & Hc1 & Hs1).
  destruct (IH c1 Hwf1 Hc1) as (c2 & H2 & Hwf2 & Hc2 & Hs2). exists c2. unfold bind. rewrite H1. fold (zlen <$> pieces). rewrite H2.
  split_and!; try done. congruence.
Qed.
End Reliable.

(** ** A socket *)

Lemma next_segment_ok n segs : (0 < n)%nat -> concat segs <> [] -> exists got segs',
  next_segment n segs = Some (got, segs') /\ got <> [] /\ (length got <= n)%nat /\ concat segs = got ++ concat segs'.
Proof.
  intros Hn. induction segs as [|[|x s] segs IH]; intros Hne; [done|by apply IH|].
  exists (take n (x :: s)), (drop n (x :: s) :: segs). cbn [next_segment]. split; [done|]. split; [by destruct n; [lia|]|].
  split; [rewrite length_take; lia|]. simpl concat. by rewrite app_assoc, take_drop.
Qed.

#[export] Program Instance pipe_reliable : Reliable Pipe := {|
  rel_wf _ := True; rel_fits _ := True; rel_sent := p_sent; rel_coming c := concat (segments c) |}.
Next Obligation. intros c b _ _. eexists. by split_and!. Qed.
Next Obligation.
  intros c n _ Hn Hc. destruct (next_segment_ok (Z.to_nat n) (segments c) ltac:(lia) Hc) as (got & segs & Hs & Hg & Hl & Hco).
  exists got, (mkPipe segs (p_ending c) (p_sent c)). simpl. rewrite Hs. split_and!; try done. unfold zlen. lia.
Qed.

(** ** obfuscated2 keeps the promise *)

Section ObfsReliable.
Context (aes_block : list byte -> list byte -> list byte).
Context {C : Type} {rw : ReadWriter C} {rel : Reliable C}.
Abbreviation xor_at := (xor_at aes_block).
#[local] Existing Instance obfs_rw.

Lemma xor_byte_twice x y : xor_byte (xor_byte x y) y = x.
Proof. assert (xor_bytes (xor_bytes [x] [y]) [y] = [x]) as H by (by apply xor_bytes_cancel). by injection H. Qed.

Lemma xor_at_twice s pos b : xor_at s pos (xor_at s pos b) = b.
Proof.
  unfold Mtproxy.xor_at. apply list_eq. intros i. rewrite !list_lookup_imap. destruct (b !! i) as [x|]; simpl; [|done].
  by rewrite xor_byte_twice.
Qed.

Lemma length_xor_at s pos b : length (xor_at s pos b) = length b.
Proof. apply length_imap. Qed.

Lemma xor_at_app s pos a b : xor_at s pos (a ++ b) = xor_at s pos a ++ xor_at s (pos + length a) b.
Proof.
  unfold Mtproxy.xor_at. rewrite imap_app. f_equal. apply imap_ext. intros i x _. simpl. do 2 f_equal. lia.
Qed.

Lemma xor_at_advance n s pos b : xor_at (advance n s) pos b = xor_at s pos b.
Proof. done. Qed.

(** What was sent, deciphered from where the stream began. *)
Definition obfs_sent (o : Obfuscated2 C) : list byte :=
  match o_keys o with
  | Some k => let s := rel_sent (o_conn o) in xor_at (encrypt k) 0 (drop (length s - ct_pos (encrypt k)) s)
  | None => []
  end.
Definition obfs_coming (o : Obfuscated2 C) : list byte :=
  match o_keys o with Some k => xor_at (decrypt k) (ct_pos (decrypt k)) (rel_coming (o_conn o)) | None => [] end.
Definition obfs_wf (o : Obfuscated2 C) : Prop :=
  rel_wf (o_conn o) /\ exists k, o_keys o = Some k /\ (ct_pos (encrypt k) <= length (rel_sent (o_conn o)))%nat.

#[export] Program Instance obfs_reliable : Reliable (Obfuscated2 C) (H := obfs_rw aes_block) := {|
  rel_wf := obfs_wf; rel_fits b := forall x, length x = length b -> rel_fits x;
  rel_sent := obfs_sent; rel_coming := obfs_coming |}.
Next Obligation.
  intros [r c ok] b (Hwf & k & Hk & Hpos) Hfit. simpl in *. subst ok. unfold obfs_Write. simpl.
  destruct (rel_write c (xor_at (encrypt k) (ct_pos (encrypt k)) b) Hwf) as (c' & Hw & Hwf' & Hs & Hc).
  { apply Hfit, length_xor_at. }
  rewrite Hw. eexists. split; [done|]. unfold obfs_wf, obfs_sent, obfs_coming. simpl. rewrite Hs, Hc.
  rewrite length_app, length_xor_at. split_and!; try done.
  - eexists. split; [done|]. simpl. lia.
  - rewrite xor_at_advance. replace (length (rel_sent c) + length b - (ct_pos (encrypt k) + length b))%nat
      with (length (rel_sent c) - ct_pos (encrypt k))%nat by lia.
    rewrite drop_app_le by lia. rewrite xor_at_app, length_drop.
    replace (0 + (length (rel_sent c) - (length (rel_sent c) - ct_pos (encrypt k))))%nat with (ct_pos (encrypt k)) by lia.
    by rewrite xor_at_twice.
Qed.
Next Obligation.
  intros [r c ok] n (Hwf & k & Hk & Hpos) Hn Hne. simpl in *. subst ok. unfold obfs_coming in Hne. simpl in Hne.
  destruct (rel_read c n Hwf Hn) as (b & c' & Hr & Hwf' & Hb & Hle & Hc & Hs).
  { intros E. rewrite E in Hne. done. }
  unfold obfs_Read. simpl. rewrite Hr. 
  destruct (nil_or_cons b) as [->|Hb0]; [done|]. replace (zlen b >? 0) with true by lia.
  eexists _, _. split; [done|]. unfold obfs_wf, obfs_sent, obfs_coming. simpl. rewrite Hs, Hc. split_and!; try done.
  - by eexists.
  - intros E. apply Hb. apply nil_length_inv. by rewrite <- (length_xor_at (decrypt k) (ct_pos (decrypt k))), E.
  - unfold zlen. rewrite length_xor_at. done.
  - rewrite xor_at_app. done.
Qed.
End ObfsReliable.

(** ** The handshake of obfuscated2 *)

Section Session.
Context (aes_block : list byte -> list byte -> list byte).
Abbreviation xor_at := (xor_at aes_block).

(** Randomness: blocks that are skipped, and one that is used. *)
Definition randomness (r : Stream) (init : list byte) : Prop :=
  exists bads rest, incoming r = concat bads ++ init ++ rest /\ Forall (fun b => zlen b = 64 /\ bad_init b = true) bads /\
    zlen init = 64 /\ bad_init init = false.

Lemma generateInit_ok r init : randomness r init -> exists r', generateInit r = (Ok init, r').
Proof.
  intros (bads & rest & Hin & Hbad & Hz & Hgood). unfold generateInit.
  assert (length bads < S (length (incoming r)))%nat as Hf.
  { rewrite Hin, length_app. assert (length bads <= length (concat bads))%nat; [|lia]. clear -Hbad.
    induction Hbad as [|b bads [Hb _] _ IH]; simpl; [lia|]. rewrite length_app. unfold zlen in Hb. lia. }
  revert Hin Hf. destruct r as [inc e]. cbn [incoming]. generalize (S (length inc)). intros fuel. revert inc fuel.
  induction Hbad as [|b bads [Hb Hbb] _ IH]; intros inc fuel Hin Hf; (destruct fuel as [|fuel]; [lia|]); cbn [init_loop]; unfold bind; rewrite Hin.
  - cbn [concat app]. rewrite must_read_app by done. rewrite Hgood. by eexists.
  - cbn [concat]. rewrite <- app_assoc, must_read_app by done. rewrite Hbb. apply IH; [done|]. simpl in Hf. lia.
Qed.

Lemma init_loop_good fuel r init r' : init_loop fuel r = (Ok init, r') -> zlen init = 64 /\ bad_init init = false.
Proof.
  revert r. induction fuel as [|fuel IH]; intros r; cbn [init_loop]; [done|]. intros Hb. apply bind_inv_ok in Hb as (b & r1 & Hr & Hb).
  apply must_read_inv in Hr as (_ & Hz & _); [|lia]. destruct (bad_init b) eqn:Ebad; [by eapply IH|]. injection Hb as -> ->. done.
Qed.

Lemma slice_prefix (a b : list byte) lo hi : 0 <= lo <= hi -> hi <= zlen a -> slice lo hi (a ++ b) = slice lo hi a.
Proof.
  intros Hlo Hhi. unfold slice, zlen in *. rewrite drop_app_le by lia. rewrite take_app_le; [done|]. rewrite length_drop. lia.
Qed.

(** The streams depend on the first 56 bytes. *)
Lemma createStreams_prefix a b b' secret : zlen a = 56 -> createStreams (a ++ b) secret = createStreams (a ++ b') secret.
Proof.
  intros Ha. unfold createStreams, getDecryptInit. by rewrite !(slice_prefix a) by lia.
Qed.

Definition secret_ok (secret : list byte) : Prop := zlen secret = 0 \/ 16 <= zlen secret.

Lemma createStreams_ok init secret : zlen init = 64 -> secret_ok secret -> exists e d,
  createStreams init secret = Ok (e, d) /\ ct_pos e = 0%nat /\ ct_pos d = 0%nat.
Proof.
  intros Hz Hs. unfold createStreams, createCTR.
  replace ((0 <? zlen secret) && (zlen secret <? 16)) with false by (unfold secret_ok in Hs; lia).
  assert (forall key, zlen key = 32 -> aes_NewCipher (if 0 <? zlen secret then sha256 (key ++ slice 0 16 secret) else key) = None) as Hkey.
  { intros key Hk. unfold aes_NewCipher. rewrite bool_decide_true; [done|]. right. right. destruct (0 <? _); [apply zlen_sha256|done]. }
  assert (zlen (getDecryptInit init) = 48) as Hrev
    by (unfold getDecryptInit, zlen; rewrite length_rev; fold (zlen (slice 8 56 init)); rewrite zlen_slice; lia).
  rewrite !Hkey by (rewrite zlen_slice; lia). by eexists _, _.
Qed.

(** The header, and what it means to who reads it. *)
Lemma generateKeys_ok r init protocol secret dc : randomness r init -> secret_ok secret -> zlen protocol = 4 ->
  exists e d k r', createStreams init secret = Ok (e, d) /\ ct_pos e = 0%nat /\ ct_pos d = 0%nat /\
    generateKeys aes_block protocol secret dc r = (Ok k, r') /\ encrypt k = advance 64 e /\ decrypt k = d /\
    zlen (header k) = 64 /\ createStreams (header k) secret = Ok (e, d) /\ take 56 (header k) = take 56 init /\
    drop 56 (xor_at e 0 (header k)) = protocol ++ le_split 2 (uwrap 16 dc) ++ drop 62 init.
Proof.
  intros Hr Hs Hp. destruct (generateInit_ok r init Hr) as [r' Hgen]. destruct Hr as (_ & _ & _ & _ & Hz & _).
  destruct (createStreams_ok init secret Hz Hs) as (e & d & Hcs & He & Hd).
  set (tail := protocol ++ le_split 2 (uwrap 16 dc) ++ drop 62 init).
  assert (zlen (take 56 init) = 56) as Ha by (unfold zlen in *; rewrite length_take; lia).
  assert (zlen tail = 8) as Ht by (subst tail; rewrite !zlen_app, zlen_le_split; unfold zlen in *; rewrite length_drop; lia).
  assert (length (take 56 init) = 56%nat) as Ha' by (unfold zlen in Ha; lia).
  assert (slice 56 64 (xor_at e 0 (take 56 init ++ tail)) = xor_at e 56 tail) as Hsl.
  { rewrite xor_at_app, Ha'. unfold slice. rewrite drop_app_length' by (by rewrite length_xor_at).
    apply take_ge. rewrite length_xor_at. unfold zlen in Ht. change (Z.to_nat (64 - 56)) with 8%nat. lia. }
  exists e, d, (mkKeys (take 56 init ++ xor_at e 56 tail) (advance 64 e) d), r'. split_and!; try done.
  - unfold generateKeys, bind, lift. rewrite Hgen, Hcs. unfold XORKeyStream. rewrite He.
    rewrite <- Hsl. fold tail. rewrite take_app_length' by done. unfold ret. do 3 f_equal.
    unfold advance. f_equal. rewrite length_app. unfold zlen in *. lia.
  - cbn [header]. rewrite zlen_app. unfold zlen in *. rewrite length_xor_at. lia.
  - cbn [header]. rewrite <- (take_drop 56 init) in Hcs. rewrite <- Hcs. by apply createStreams_prefix.
  - cbn [header]. by rewrite take_app_length' by done.
  - cbn [header]. rewrite xor_at_app, Ha'. rewrite drop_app_length' by (by rewrite length_xor_at). by rewrite xor_at_twice.
Qed.

#[local] Instance orw {C} {rw : ReadWriter C} : ReadWriter (Obfuscated2 C) := obfs_rw aes_block.
#[local] Instance orel {C} {rw : ReadWriter C} {rel : Reliable C} : Reliable (Obfuscated2 C) := obfs_reliable aes_block.

(** The server reads the header. *)
Lemma Accept_ok {C} {rw : ReadWriter C} {rel : Reliable C} r init protocol secret dc k e d c cipher :
  createStreams (header k) secret = Ok (e, d) -> ct_pos e = 0%nat -> zlen (header k) = 64 -> zlen protocol = 4 ->
  randomness r init -> drop 56 (xor_at e 0 (header k)) = protocol ++ le_split 2 (uwrap 16 dc) ++ drop 62 init ->
  rel_wf c -> rel_coming c = header k ++ cipher ->
  exists c', Accept aes_block secret c = (Ok (mkKeys [] d (advance 64 e), mkMetadata protocol (uwrap 16 dc)), c') /\
    rel_wf c' /\ rel_coming c' = cipher /\ rel_sent c' = rel_sent c.
Proof.
  intros Hcs He Hz Hp (_ & _ & _ & _ & Hzi & _) Hd Hwf Hc. unfold Accept, bind.
  destruct (ReadFull_ok 64 (header k) cipher c Hwf Hc Hz) as (c' & Hr & Hwf' & Hc' & Hs').
  rewrite Hr. unfold lift. rewrite Hcs. unfold XORKeyStream, ret. rewrite He. exists c'. split; [|done]. do 2 f_equal.
  assert (forall lo hi, 56 <= lo -> slice lo hi (xor_at e 0 (header k)) = slice (lo - 56) (hi - 56) (drop 56 (xor_at e 0 (header k)))) as Hsl.
  { intros lo hi Hlo. unfold slice. rewrite drop_drop. f_equal; [lia|]. f_equal. lia. }
  rewrite !Hsl, Hd by lia. change (60 - 56) with 4. change (56 - 56) with 0. change (62 - 56) with 6.
  rewrite slice_0_app by done. f_equal.
  - f_equal. unfold advance. f_equal. unfold zlen in Hz. lia.
  - f_equal. unfold slice. rewrite drop_zlen_app by done. change (Z.to_nat (6 - 4)) with 2%nat.
    rewrite take_app_length' by (by rewrite length_le_split). apply le_combine_split_unsigned. apply uwrap_range. lia.
Qed.

(** Writes send the cipher of what is written. *)
Lemma obfs_writes {C} {rw : ReadWriter C} {rel : Reliable C} r k payloads (c : C) :
  rel_wf c -> Forall (rel_fits (C := Obfuscated2 C)) payloads -> exists c',
    writes payloads (mkObfs r c (Some k)) =
      (Ok tt, mkObfs r c' (Some (mkKeys (header k) (advance (length (concat payloads)) (encrypt k)) (decrypt k)))) /\
    rel_wf c' /\ rel_sent c' = rel_sent c ++ xor_at (encrypt k) (ct_pos (encrypt k)) (concat payloads) /\
    rel_coming c' = rel_coming c.
Proof.
  intros Hwf Hpay. revert k c Hwf. induction Hpay as [|b payloads Hb _ IH]; intros k c Hwf.
  { exists c. cbn [writes concat]. rewrite app_nil_r. split_and!; try done. destruct k as [h [ek ei ep] dd]. unfold advance, ret. simpl.
    do 4 f_equal. f_equal. lia. }
  destruct (rel_write c (xor_at (encrypt k) (ct_pos (encrypt k)) b) Hwf) as (c1 & Hw & Hwf1 & Hs1 & Hc1).
  { apply Hb, length_xor_at. }
  destruct (IH (mkKeys (header k) (advance (length b) (encrypt k)) (decrypt k)) c1 Hwf1) as (c2 & Hws & Hwf2 & Hs2 & Hc2).
  exists c2. cbn [writes concat]. unfold bind. cbn [rw_Write orw obfs_rw]. unfold obfs_Write. cbn [o_keys o_conn o_rand XORKeyStream].
  unfold XORKeyStream. rewrite Hw, Hws. split_and!; try done.
  - do 4 f_equal. unfold advance. cbn [encrypt ct_key ct_iv ct_pos]. rewrite length_app. f_equal. lia.
  - rewrite Hs2, Hs1, <- app_assoc. f_equal. rewrite xor_at_app. f_equal.
  - congruence.
Qed.

(** Reads decipher what comes. *)
Lemma obfs_reads {C} {rw : ReadWriter C} {rel : Reliable C} r k pieces plain (c : C) :
  rel_wf c -> (ct_pos (encrypt k) <= length (rel_sent c))%nat ->
  rel_coming c = xor_at (decrypt k) (ct_pos (decrypt k)) plain -> concat pieces = plain ->
  exists o, reads (zlen <$> pieces) (mkObfs r c (Some k)) = (Ok pieces, o).
Proof.
  intros Hwf Hpos Hc <-. destruct (reads_ok pieces [] (mkObfs r c (Some k))) as (o & Hr & _); [..|by exists o].
  - split; [done|]. by exists k.
  - rewrite app_nil_r. cbn [rel_coming orel obfs_reliable obfs_coming o_keys o_conn]. unfold obfs_coming. cbn [o_keys o_conn].
    rewrite Hc. apply xor_at_twice.
Qed.

Lemma obfs_session_ok {C1 C2} {rw1 : ReadWriter C1} {rel1 : Reliable C1} {rw2 : ReadWriter C2} {rel2 : Reliable C2}
    r init protocol dc s (c1 : C1) payloads :
  randomness r init -> secret_ok (s_Secret s) -> zlen protocol = 4 -> rel_wf c1 ->
  (forall b, length b = 64%nat -> rel_fits (C := C1) b) -> Forall (rel_fits (C := Obfuscated2 C1)) payloads ->
  exists o1 o2, obfs_Handshake aes_block protocol dc s (NewObfuscated2 r c1) = (Ok tt, o1) /\ writes payloads o1 = (Ok tt, o2) /\ rel_wf (o_conn o2) /\
  rel_coming (o_conn o2) = rel_coming c1 /\
  forall c2 : C2, rel_wf c2 -> rel_sent (o_conn o2) = rel_sent c1 ++ rel_coming c2 ->
  exists k c2', Accept aes_block (s_Secret s) c2 = (Ok (k, mkMetadata protocol (uwrap 16 dc)), c2') /\
    (forall r2 pieces, concat pieces = concat payloads -> exists srv, reads (zlen <$> pieces) (mkObfs r2 c2' (Some k)) = (Ok pieces, srv)) /\
    (forall r2 answers, Forall (rel_fits (C := Obfuscated2 C2)) answers -> exists srv,
       writes answers (mkObfs r2 c2' (Some k)) = (Ok tt, srv) /\ rel_wf (o_conn srv) /\
       forall (c1' : C1) pieces, rel_wf c1' -> rel_sent c1' = rel_sent (o_conn o2) ->
         rel_sent (o_conn srv) = rel_sent c2 ++ rel_coming c1' -> concat pieces = concat answers ->
         exists o3, reads (zlen <$> pieces) (mkObfs (o_rand o2) c1' (o_keys o2)) = (Ok pieces, o3)).
Proof.
  intros Hr Hs Hp Hwf Hfit Hpay. destruct (generateKeys_ok r init protocol (s_Secret s) dc Hr Hs Hp)
    as (e & d & k & r' & _ & He & Hd & Hgk & Hke & Hkd & Hz & Hcs & _ & Hdrop).
  destruct (rel_write c1 (header k) Hwf) as (c1a & Hw & Hwfa & Hsa & Hca); [apply Hfit; unfold zlen in Hz; lia|].
  set (o1 := mkObfs r' c1a (Some k)).
  destruct (obfs_writes r' k payloads c1a Hwfa Hpay) as (c1b & Hws & Hwfb & Hsb & Hcb). rewrite Hke in Hws, Hsb.
  eexists o1, _. split; [unfold obfs_Handshake, NewObfuscated2; cbn [o_rand o_conn o_keys]; by rewrite Hgk, Hw|].
  split; [exact Hws|]. cbn [o_conn o_rand o_keys]. split; [exact Hwfb|]. split; [by rewrite Hcb|]. intros c2 Hwfc2 Hnet.
  rewrite Hsb, Hsa, <- !app_assoc in Hnet. apply app_inv_head in Hnet. unfold advance in Hnet. cbn [ct_pos] in Hnet.
  rewrite He in Hnet. cbn in Hnet.
  destruct (Accept_ok r init protocol (s_Secret s) dc k e d c2 _ Hcs He Hz Hp Hr Hdrop Hwfc2 (eq_sym Hnet)) as (c2' & Hacc & Hwf2' & Hc2' & Hs2').
  eexists _, c2'. split; [exact Hacc|]. split.
  - intros r2 pieces Hpieces. eapply obfs_reads; [done| | |exact Hpieces]; cbn [encrypt decrypt].
    + rewrite Hd. lia.
    + rewrite Hc2'. unfold advance. cbn [ct_pos]. by rewrite He.
  - intros r2 answers Hans. destruct (obfs_writes r2 (mkKeys [] d (advance 64 e)) answers c2' Hwf2' Hans) as (c2b & Hws2 & Hwf2b & Hsb2 & _).
    eexists. split; [exact Hws2|]. split; [exact Hwf2b|]. cbn [o_conn encrypt decrypt] in *. intros c1' pieces Hwf1' Hs1' Hnet2 Hpieces.
    rewrite Hsb2, Hs2' in Hnet2. apply app_inv_head in Hnet2. eapply obfs_reads; [done| | |exact Hpieces]; cbn [encrypt decrypt].
    + rewrite Hs1', Hsb, length_app, length_xor_at, Hsa, length_app. unfold advance. cbn [ct_pos]. rewrite He. unfold zlen in Hz. lia.
    + rewrite Hkd. by rewrite <- Hnet2.
Qed.
End Session.

(** ** FakeTLS keeps the promise *)

(** The bytes of a record. *)
Definition encode_record (r : record) : list byte :=
  byte.of_Z (r_Type r) :: r_Version r ++ be_split 2 (uwrap 16 (zlen (r_Data r))) ++ r_Data r.

Record record_ok (r : record) : Prop := {
  ro_type : 0 <= r_Type r < 256;
  ro_version : r_Version r ∈ [Version13Bytes; Version12Bytes; Version11Bytes; Version10Bytes];
  ro_data : zlen (r_Data r) < 65536 }.

Definition is_app (r : record) : bool := r_Type r =? RecordTypeApplication.
(** What the application records carry. *)
Definition payload (rs : list record) : list byte := concat (r_Data <$> filter (fun r => is_app r = true) rs).

(** The records of a byte stream. *)
Fixpoint records (fuel : nat) (bs : list byte) : list record :=
  match fuel with
  | O => []
  | S fuel =>
      if zlen bs <? 5 then []
      else
        let n := be_combine (slice 3 5 bs) in
        mkRecord (le_combine (slice 0 1 bs)) (slice 1 3 bs) (slice 5 (5 + n) bs) :: records fuel (drop (Z.to_nat (5 + n)) bs)
  end.
Definition records_of (bs : list byte) : list record := records (length bs) bs.

Lemma version_length r : record_ok r -> zlen (r_Version r) = 2.
Proof.
  intros [_ Hv _]. repeat (apply elem_of_cons in Hv as [->|Hv]; [reflexivity|]). by apply not_elem_of_nil in Hv.
Qed.

(** The head of a record. *)
Definition record_head (r : record) : list byte := byte.of_Z (r_Type r) :: r_Version r ++ be_split 2 (uwrap 16 (zlen (r_Data r))).

Lemma encode_head r : encode_record r = record_head r ++ r_Data r.
Proof. unfold encode_record, record_head. simpl. by rewrite <- app_assoc. Qed.

Lemma head_fields r : 0 <= r_Type r < 256 -> zlen (r_Version r) = 2 -> zlen (record_head r) = 5 /\
  le_combine (slice 0 1 (record_head r)) = r_Type r /\ slice 1 3 (record_head r) = r_Version r /\
  be_combine (slice 3 5 (record_head r)) = uwrap 16 (zlen (r_Data r)).
Proof.
  intros Ht Hv. unfold record_head. destruct (r_Version r) as [|v1 [|v2 [|? ?]]]; try (unfold zlen in Hv; simpl in Hv; lia).
  set (l := be_split 2 _). assert (zlen l = 2) as Hl by apply zlen_be_split.
  assert (exists x y, l = [x; y]) as (x & y & E).
  { destruct l as [|x [|y [|? ?]]]; try (unfold zlen in Hl; simpl in Hl; lia). by exists x, y. }
  rewrite E. split; [done|]. split; [|split; [done|]].
  - change (slice 0 1 _) with [byte.of_Z (r_Type r)]. rewrite le_combine_1. apply unsigned_of_Z_small. lia.
  - change (slice 3 5 _) with [x; y]. rewrite <- E. subst l. apply be_combine_split. apply uwrap_range. lia.
Qed.

Lemma data_length r : zlen (r_Data r) < 65536 -> uwrap 16 (zlen (r_Data r)) = zlen (r_Data r).
Proof. intros Hd. apply uwrap_id. unfold is_unsigned. pose proof (zlen_nonneg (r_Data r)). lia. Qed.

Lemma records_encode rs fuel : Forall record_ok rs -> (length rs <= fuel)%nat ->
  records fuel (concat (encode_record <$> rs)) = rs.
Proof.
  intros Hrs. revert fuel. induction Hrs as [|r rs Hr _ IH]; intros [|fuel] Hf; simpl in Hf; try lia; [done..|].
  cbn [fmap list_fmap concat records]. rewrite encode_head, <- app_assoc.
  destruct (head_fields r (ro_type r Hr) (version_length r Hr)) as (Hz & Ht & Hv & Hl).
  rewrite data_length in Hl by apply Hr. pose proof (zlen_nonneg (r_Data r)) as Hd0.
  replace (zlen _ <? 5) with false by (rewrite zlen_app, Hz; pose proof (zlen_nonneg (r_Data r ++ concat (encode_record <$> rs))); lia).
  rewrite (slice_prefix _ _ 0 1), (slice_prefix _ _ 1 3), (slice_prefix _ _ 3 5) by lia. rewrite Ht, Hv, Hl. destruct r as [ty ve da]. cbn [r_Data r_Type r_Version] in *. f_equal.
  - f_equal. unfold slice. rewrite drop_zlen_app by done. apply take_zlen_app. lia.
  - replace (drop (Z.to_nat (5 + zlen da)) _) with (concat (encode_record <$> rs)); [apply IH; lia|].
    rewrite app_assoc. symmetry. apply drop_zlen_app. rewrite zlen_app. lia.
Qed.

Lemma records_of_encode rs : Forall record_ok rs -> records_of (concat (encode_record <$> rs)) = rs.
Proof.
  intros Hrs. unfold records_of. apply records_encode; [done|]. clear -rs. induction rs as [|r rs IH]; [simpl; lia|].
  cbn [fmap list_fmap concat]. rewrite length_app. unfold encode_record at 1. cbn [length]. lia.
Qed.

Section FakeReliable.
Context {C : Type} {rw : ReadWriter C} {rel : Reliable C}.
(** The connection below takes payloads of every size. *)
Context (Hall : forall b, rel_fits (C := C) b).

Lemma readRecord_ok r rest (c : C) : record_ok r -> rel_wf c -> rel_coming c = encode_record r ++ rest -> exists c',
  readRecord c = (Ok (r, encode_record r), c') /\ rel_wf c' /\ rel_coming c' = rest /\ rel_sent c' = rel_sent c.
Proof.
  intros Hr Hwf Hc. rewrite encode_head, <- app_assoc in Hc.
  destruct (head_fields r (ro_type r Hr) (version_length r Hr)) as (Hz & Ht & Hv & Hl). rewrite data_length in Hl by apply Hr.
  destruct (ReadFull_ok 5 _ _ c Hwf Hc Hz) as (c1 & H1 & Hwf1 & Hc1 & Hs1).
  destruct (ReadFull_ok (zlen (r_Data r)) _ _ c1 Hwf1 Hc1 eq_refl) as (c2 & H2 & Hwf2 & Hc2 & Hs2).
  exists c2. unfold readRecord, bind. rewrite H1, Hv. unfold known_version. rewrite bool_decide_true by apply Hr. cbn [negb].
  rewrite Hl, H2. unfold ret. rewrite Ht, encode_head. destruct r. split_and!; try done. congruence.
Qed.

Lemma writeRecord_ok r (c : C) : rel_wf c -> exists c',
  writeRecord r c = (Ok tt, c') /\ rel_wf c' /\ rel_coming c' = rel_coming c /\ rel_sent c' = rel_sent c ++ encode_record r.
Proof.
  intros Hwf. unfold writeRecord, bind, wrapping.
  destruct (rel_write c (byte.of_Z (r_Type r) :: r_Version r) Hwf (Hall _)) as (c1 & -> & Hwf1 & Hs1 & Hc1).
  destruct (rel_write c1 (be_split 2 (uwrap 16 (zlen (r_Data r)))) Hwf1 (Hall _)) as (c2 & -> & Hwf2 & Hs2 & Hc2).
  destruct (rel_write c2 (r_Data r) Hwf2 (Hall _)) as (c3 & -> & Hwf3 & Hs3 & Hc3).
  exists c3. split_and!; try done; [congruence|]. rewrite Hs3, Hs2, Hs1, <- !app_assoc. done.
Qed.

Lemma payload_app rs rs' : payload (rs ++ rs') = payload rs ++ payload rs'.
Proof. unfold payload. by rewrite filter_app, fmap_app, concat_app. Qed.

Lemma payload_cons r rs : payload (r :: rs) = (if is_app r then r_Data r else []) ++ payload rs.
Proof. unfold payload. rewrite filter_cons. destruct (is_app r) eqn:E; [by rewrite decide_True by done|by rewrite decide_False by done]. Qed.

Definition data_record (r : record) : Prop := r_Type r = RecordTypeChangeCipherSpec \/ r_Type r = RecordTypeApplication.
(** What was sent by the handshake. *)
Context (pre : list byte).
(** The records that come, and the ones that are sent after the handshake, are skipped
    or carry data. *)
Definition incoming_records (c : C) (ins : list record) : Prop :=
  rel_coming c = concat (encode_record <$> ins) /\ Forall record_ok ins /\ Forall data_record ins.
Definition outgoing_records (c : C) (outs : list record) : Prop :=
  rel_sent c = pre ++ concat (encode_record <$> outs) /\ Forall record_ok outs /\ Forall data_record outs.

Lemma fake_read_ok fuel n ins (o : FakeTLS C) : 0 < n -> rel_wf (ft_conn o) -> incoming_records (ft_conn o) ins ->
  (length ins < fuel)%nat -> ft_buf o ++ payload ins <> [] ->
  exists b o' ins', fake_read_loop fuel n o = (Ok b, o') /\ rel_wf (ft_conn o') /\ incoming_records (ft_conn o') ins' /\
    (length ins' <= length ins)%nat /\ b <> [] /\ zlen b <= n /\ ft_buf o ++ payload ins = b ++ ft_buf o' ++ payload ins' /\
    rel_sent (ft_conn o') = rel_sent (ft_conn o).
Proof.
  intros Hn. revert ins o. induction fuel as [|fuel IH]; intros ins o Hwf Hin Hf Hne; [lia|]. cbn [fake_read_loop].
  destruct (nil_or_cons (ft_buf o)) as [E|Hbuf].
  2: { replace (0 <? zlen (ft_buf o)) with true by lia. eexists _, _, ins. split; [done|]. cbn [ft_conn ft_buf].
       split_and!; try done; try apply Hin.
       - destruct (ft_buf o); [unfold zlen in Hbuf; simpl in Hbuf; lia|]. by destruct (Z.to_nat n) eqn:En; [lia|].
       - unfold zlen. rewrite length_take. lia.
       - by rewrite app_assoc, take_drop. }
  rewrite E in *. change (0 <? zlen []) with false. cbv iota. destruct ins as [|r ins]; [done|].
  destruct Hin as (Hc & [Hr Hrs]%Forall_cons & [Hd Hds]%Forall_cons). cbn [fmap list_fmap concat] in Hc.
  destruct (readRecord_ok r _ (ft_conn o) Hr Hwf Hc) as (c1 & H1 & Hwf1 & Hc1 & Hs1).
  unfold bind at 1, wrapping, below. rewrite H1. cbn [fst]. rewrite payload_cons in *. unfold is_app in *.
  destruct Hd as [Ety|Ety]; rewrite Ety in *; cbn -[fake_read_loop app] in *.
  - destruct (IH ins (mkFake c1 (ft_first o) (ft_buf o)) Hwf1) as (b & o' & ins' & Hl & Hwf' & Hin' & Hle & Hb & Hbn & Heq & Hs');
      [done|lia|by rewrite E|]. exists b, o', ins'. rewrite Hl. split_and!; try done; [lia| |by rewrite Hs'].
    cbn [ft_buf] in Heq. by rewrite E in Heq.
  - unfold bind. destruct (IH ins (mkFake c1 (ft_first o) (ft_buf o ++ r_Data r)) Hwf1) as (b & o' & ins' & Hl & Hwf' & Hin' & Hle & Hb & Hbn & Heq & Hs');
      [done|lia|cbn [ft_buf]; by rewrite E|]. exists b, o', ins'. cbn [ft_conn ft_first ft_buf] in *. rewrite Hl. split_and!; try done; [lia| |by rewrite Hs'].
    by rewrite E in Heq.
Qed.

Definition fake_sent (o : FakeTLS C) : list byte := payload (records_of (drop (length pre) (rel_sent (ft_conn o)))).
Definition fake_coming (o : FakeTLS C) : list byte := ft_buf o ++ payload (records_of (rel_coming (ft_conn o))).
Definition fake_wf (fuel : nat) (o : FakeTLS C) : Prop :=
  rel_wf (ft_conn o) /\ (exists ins, incoming_records (ft_conn o) ins /\ (length ins < fuel)%nat) /\
  exists outs, outgoing_records (ft_conn o) outs.

Lemma outgoing_snoc (c c' : C) outs r : outgoing_records c outs -> record_ok r -> data_record r -> rel_sent c' = rel_sent c ++ encode_record r ->
  outgoing_records c' (outs ++ [r]).
Proof.
  intros (Hs & Hok & Hd) Hr Hdr Hs'. split; [|by split; apply Forall_app; (split; [|constructor])]. rewrite Hs', Hs, fmap_app, concat_app. simpl.
  by rewrite app_nil_r, app_assoc.
Qed.

Lemma app_record_ok b : zlen b < 65536 -> record_ok (mkRecord RecordTypeApplication ft_version b).
Proof. intros Hb. split; [done|unfold ft_version; simpl; set_solver|done]. Qed.

Lemma fake_write_ok b (o : FakeTLS C) outs : zlen b < 65536 -> rel_wf (ft_conn o) -> outgoing_records (ft_conn o) outs ->
  exists o' outs', fake_Write b o = (Ok tt, o') /\ rel_wf (ft_conn o') /\ outgoing_records (ft_conn o') outs' /\
    payload outs' = payload outs ++ b /\ rel_coming (ft_conn o') = rel_coming (ft_conn o) /\ ft_buf o' = ft_buf o.
Proof.
  intros Hb Hwf Hout. set (ccs := mkRecord RecordTypeChangeCipherSpec ft_version [Byte.x01]).
  set (app := mkRecord RecordTypeApplication ft_version b). pose proof (app_record_ok b Hb) as Happ. fold app in Happ.
  assert (record_ok ccs) as Hccs by (split; [done|unfold ft_version; simpl; set_solver|done]).
  assert (exists o1 outs1, (if negb (ft_first o) then
       (wrapping "write first TLS packet" (below (writeRecord ccs)) ;;! (fun o => (Ok tt, mkFake (ft_conn o) true (ft_buf o)))) o
     else (Ok tt, o)) = (Ok tt, o1) /\ rel_wf (ft_conn o1) /\ outgoing_records (ft_conn o1) outs1 /\ payload outs1 = payload outs /\
     rel_coming (ft_conn o1) = rel_coming (ft_conn o) /\ ft_buf o1 = ft_buf o) as (o1 & outs1 & H1 & Hwf1 & Hout1 & Hp1 & Hc1 & Hb1).
  { destruct (ft_first o); cbn [negb]; [by exists o, outs|].
    destruct (writeRecord_ok ccs (ft_conn o) Hwf) as (c1 & Hw & Hwf1 & Hc1 & Hs1).
    unfold bind, wrapping, below. rewrite Hw. eexists _, (outs ++ [ccs]). split; [done|]. cbn [ft_conn ft_buf]. split_and!; try done.
    - eapply outgoing_snoc; [done|done|by left|done].
    - rewrite payload_app. apply app_nil_r. }
  destruct (writeRecord_ok app (ft_conn o1) Hwf1) as (c2 & Hw & Hwf2 & Hc2 & Hs2).
  exists (mkFake c2 (ft_first o1) (ft_buf o1)), (outs1 ++ [app]). cbn [ft_conn ft_buf]. split_and!; try done.
  - unfold fake_Write. rewrite (bind_ok _ _ tt o o1 H1). unfold wrapping, below. fold app. by rewrite Hw.
  - eapply outgoing_snoc; [done|done|by right|done].
  - rewrite payload_app, Hp1. f_equal. unfold payload. simpl. apply app_nil_r.
  - congruence.
Qed.

#[export] Program Instance fake_reliable (fuel : nat) : Reliable (FakeTLS C) (H := fake_rw fuel) := {|
  rel_wf := fake_wf fuel; rel_fits b := zlen b < 65536; rel_sent := fake_sent; rel_coming := fake_coming |}.
Next Obligation.
  intros fuel o b (Hwf & (ins & Hin & Hf) & outs & Hout) Hb.
  destruct (fake_write_ok b o outs Hb Hwf Hout) as (o' & outs' & Hw & Hwf' & Hout' & Hp & Hc & Hbuf).
  exists o'. split; [done|]. split; [split; [done|]; split; [|by exists outs']; exists ins; split; [|done]; by unfold incoming_records; rewrite Hc|].
  unfold fake_sent, fake_coming. rewrite Hc, Hbuf. split; [|done]. destruct Hout as (-> & Hok & _), Hout' as (-> & Hok' & _).
  by rewrite !drop_app_length, !records_of_encode by done.
Qed.
Next Obligation.
  intros fuel o n (Hwf & (ins & Hin & Hf) & outs & Hout) Hn Hne. unfold fake_coming in Hne.
  assert (records_of (rel_coming (ft_conn o)) = ins) as Hri by (destruct Hin as (-> & Hok & _); by apply records_of_encode).
  rewrite Hri in Hne.
  destruct (fake_read_ok fuel n ins o Hn Hwf Hin Hf Hne) as (b & o' & ins' & Hr & Hwf' & Hin' & Hle & Hb & Hbn & Heq & Hs).
  exists b, o'. split; [done|]. split.
  { split; [done|]. split; [exists ins'; split; [done|lia]|]. exists outs. unfold outgoing_records. by rewrite Hs. }
  split_and!; try done.
  - unfold fake_coming. rewrite Hri. destruct Hin' as (-> & Hok & _). by rewrite records_of_encode by done.
  - unfold fake_sent. by rewrite Hs.
Qed.
End FakeReliable.

(** ** Sessions *)

(** A session of obfuscated2 over connections that keep their promise: the handshake
    succeeds, the server reads from the header the protocol and the data center that the
    client named, and then each side reads what the other writes, whatever the sizes of
    the writes and of the reads.  The streams of the two directions do not mix. *)
Theorem obfs_session (aes_block : list byte -> list byte -> list byte)
    {C1 C2} {rw1 : ReadWriter C1} {rel1 : Reliable C1} {rw2 : ReadWriter C2} {rel2 : Reliable C2}
    (r : Stream) (init protocol : list byte) (dc : Z) (s : Secret) (c1 : C1) (payloads : list (list byte)) :
  randomness r init -> secret_ok (s_Secret s) -> zlen protocol = 4 -> rel_wf c1 ->
  (forall b, length b = 64%nat -> rel_fits (C := C1) b) ->
  Forall (fun b => forall x, length x = length b -> rel_fits (C := C1) x) payloads ->
  exists o1 o2, obfs_Handshake aes_block protocol dc s (NewObfuscated2 r c1) = (Ok tt, o1) /\
  writes (H := obfs_rw aes_block) payloads o1 = (Ok tt, o2) /\ rel_wf (o_conn o2) /\
  rel_coming (o_conn o2) = rel_coming c1 /\
  forall c2 : C2, rel_wf c2 -> rel_sent (o_conn o2) = rel_sent c1 ++ rel_coming c2 ->
  exists k c2', Accept aes_block (s_Secret s) c2 = (Ok (k, mkMetadata protocol (uwrap 16 dc)), c2') /\
    (forall r2 pieces, concat pieces = concat payloads ->
       exists srv, reads (H := obfs_rw aes_block) (zlen <$> pieces) (mkObfs r2 c2' (Some k)) = (Ok pieces, srv)) /\
    (forall r2 answers, Forall (fun b => forall x, length x = length b -> rel_fits (C := C2) x) answers ->
       exists srv, writes (H := obfs_rw aes_block) answers (mkObfs r2 c2' (Some k)) = (Ok tt, srv) /\ rel_wf (o_conn srv) /\
       forall (c1' : C1) pieces, rel_wf c1' -> rel_sent c1' = rel_sent (o_conn o2) ->
         rel_sent (o_conn srv) = rel_sent c2 ++ rel_coming c1' -> concat pieces = concat answers ->
         exists o3, reads (H := obfs_rw aes_block) (zlen <$> pieces) (mkObfs (o_rand o2) c1' (o_keys o2)) = (Ok pieces, o3)).
Proof. intros Hr Hs Hp Hwf Hfit Hpay. by apply (obfs_session_ok aes_block r init protocol dc s c1 payloads). Qed.

Lemma encode_count rs : (length rs <= length (concat (encode_record <$> rs)))%nat.
Proof.
  induction rs as [|r rs IH]; [simpl; lia|]. cbn [fmap list_fmap concat]. rewrite length_app. unfold encode_record at 1. cbn [length]. lia.
Qed.

Lemma pipe_wf (c : Pipe) : rel_wf c.
Proof. exact I. Qed.

Lemma pipe_fits_all (b : list byte) : rel_fits (C := Pipe) b.
Proof. done. Qed.

(** What goes through a FakeTLS connection in writes below 64 kilobytes is read at the
    other end, over any connections that keep their promise, in whatever pieces it is
    read; the records that carry no data are skipped. *)
Theorem faketls_delivers {C1 C2} {rw1 : ReadWriter C1} {rel1 : Reliable C1} {rw2 : ReadWriter C2} {rel2 : Reliable C2}
    (fuel : nat) (c1 : C1) (bs pieces : list (list byte)) :
  (forall b, rel_fits (C := C1) b) -> rel_wf c1 -> rel_sent c1 = [] -> rel_coming c1 = [] -> (0 < fuel)%nat ->
  Forall (fun b => zlen b < 65536) bs -> concat pieces = concat bs ->
  exists o1, writes (H := fake_rw fuel) bs (NewFakeTLS c1) = (Ok tt, o1) /\
  forall (c2 : C2) fuel2, (forall b, rel_fits (C := C2) b) -> rel_wf c2 -> rel_sent c2 = [] ->
    rel_coming c2 = rel_sent (ft_conn o1) -> (length (rel_coming c2) < fuel2)%nat ->
    exists o2, reads (H := fake_rw fuel2) (zlen <$> pieces) (NewFakeTLS c2) = (Ok pieces, o2).
Proof.
  intros Hfit1 Hwf1 Hs1 Hc1 Hf Hbs Hp. pose (rl1 := fake_reliable Hfit1 [] fuel).
  destruct (writes_ok (rel := rl1) bs (NewFakeTLS c1)) as (o1 & Hw & (_ & _ & outs & Hout & Hok & Hd) & Hsent & _).
  { split; [done|]. split; [exists []; by split_and!|]. exists []. by split_and!. }
  { done. }
  rewrite app_nil_l in Hout.
  exists o1. split; [done|]. intros c2 fuel2 Hfit2 Hwf2 Hs2 Hc2 Hf2. pose (rl2 := fake_reliable Hfit2 [] fuel2).
  destruct (reads_ok (rel := rl2) pieces [] (NewFakeTLS c2)) as (o2 & Hr & _); [| |by exists o2].
  - split; [done|]. split; [|exists []; by split_and!]. exists outs. split; [split_and!; try done; by rewrite <- Hout|].
    pose proof (encode_count outs) as Hn. rewrite <- Hout, <- Hc2 in Hn. simpl. lia.
  - change (fake_sent [] o1 = fake_sent [] (NewFakeTLS c1) ++ concat bs) in Hsent.
    change (fake_coming (NewFakeTLS c2) = concat pieces ++ []). unfold fake_coming, fake_sent in *.
    cbn [NewFakeTLS ft_conn ft_buf length] in *. rewrite !drop_0, Hs1 in Hsent. by rewrite Hc2, Hsent, app_nil_r, Hp.
Qed.

(** C35: A write of 64 kilobytes or more is reported as written, but the length of its record
    is cut to 16 bits: the reader takes the bytes up to the length modulo 65536 for the
    whole payload, and the others for the records that follow. *)
Theorem faketls_long_write_cut (b : list byte) (e : error) : 65536 <= zlen b ->
  exists o rec raw c', fake_Write b (mkFake (mkPipe [] e []) true []) = (Ok tt, o) /\
    readRecord (mkPipe [p_sent (ft_conn o)] e []) = (Ok (rec, raw), c') /\
    r_Data rec = take (Z.to_nat (zlen b mod 65536)) b /\ r_Data rec <> b /\
    concat (segments c') = drop (Z.to_nat (zlen b mod 65536)) b.
Proof.
  intros Hb. set (r := mkRecord RecordTypeApplication ft_version b).
  destruct (writeRecord_ok pipe_fits_all r (mkPipe [] e []) (pipe_wf _)) as (c1 & Hw & _ & _ & Hs).
  set (n := zlen b mod 65536). assert (0 <= n < 65536) as Hn by (apply Z.mod_pos_bound; lia).
  destruct (head_fields r) as (Hz & Ht & Hv & Hl); [unfold r; simpl; unfold RecordTypeApplication; lia|reflexivity|].
  change (uwrap 16 (zlen (r_Data r))) with n in Hl.
  assert (rel_coming (mkPipe [p_sent c1] e []) = record_head r ++ take (Z.to_nat n) b ++ drop (Z.to_nat n) b) as Hc.
  { cbn [rel_coming pipe_reliable segments concat]. rewrite app_nil_r, take_drop. change (p_sent c1) with (rel_sent c1).
    rewrite Hs. apply encode_head. }
  destruct (ReadFull_ok 5 _ _ (mkPipe [p_sent c1] e []) (pipe_wf _) Hc Hz) as (c2 & H2 & _ & Hc2 & _).
  destruct (ReadFull_ok n _ _ c2 (pipe_wf _) Hc2) as (c3 & H3 & _ & Hc3 & _); [unfold zlen in *; rewrite length_take; lia|].
  eexists (mkFake c1 true []), _, _, c3. split_and!.
  - unfold fake_Write, bind, wrapping, below. cbn [ft_first negb ft_conn ft_buf]. fold r. by rewrite Hw.
  - cbn [ft_conn]. unfold readRecord, bind. rewrite H2, Hv, Hl.
    change (negb (known_version (r_Version r))) with false. cbv beta iota. rewrite H3. reflexivity.
  - done.
  - cbn [r_Data]. intros E. apply (f_equal length) in E. rewrite length_take in E. unfold zlen in *. lia.
  - exact Hc3.
Qed.

(** ** The handshake of FakeTLS *)

Lemma change_cipher_ok {C} {rw : ReadWriter C} {rel : Reliable C} k extras ccs packet rest (c : C) :
  Forall record_ok extras -> Forall (fun r => r_Type r = RecordTypeHandshake) extras -> (length extras < k)%nat ->
  record_ok ccs -> r_Type ccs = RecordTypeChangeCipherSpec -> rel_wf c ->
  rel_coming c = concat (encode_record <$> extras) ++ encode_record ccs ++ rest ->
  exists c', change_cipher_loop k packet c = (Ok (packet ++ concat (encode_record <$> extras) ++ encode_record ccs), c') /\
    rel_wf c' /\ rel_coming c' = rest /\ rel_sent c' = rel_sent c.
Proof.
  intros Hok. revert k packet c. induction Hok as [|r extras Hr _ IH]; intros k packet c Hty Hk Hccs Htc Hwf Hc;
    (destruct k as [|k]; [simpl in Hk; lia|]); cbn [change_cipher_loop fmap list_fmap concat app] in *; unfold bind, wrapping.
  - destruct (readRecord_ok ccs rest c Hccs Hwf Hc) as (c' & -> & Hwf' & Hc' & Hs'). rewrite Htc. exists c'. by split_and!.
  - rewrite <- app_assoc in Hc. destruct (readRecord_ok r _ c Hr Hwf Hc) as (c1 & -> & Hwf1 & Hc1 & Hs1).
    apply Forall_cons in Hty as [Htr Hty]. rewrite Htr. cbn [Z.eqb RecordTypeHandshake Pos.eqb].
    change (RecordTypeHandshake =? RecordTypeHandshake) with true. cbv iota.
    destruct (IH k (packet ++ encode_record r) c1 Hty ltac:(simpl in Hk; lia) Hccs Htc Hwf1 Hc1) as (c' & -> & Hwf' & Hc' & Hs').
    exists c'. split_and!; try done; [by rewrite <- !app_assoc|congruence].
Qed.

(** What a proxy that has the secret answers to a ClientHello with [clientRandom]: a
    handshake record, up to fifteen others, the change of the cipher, and a record of
    data; the 32 bytes of its random are the HMAC under the secret of the client's random
    and of the answer with the random set to zero. *)
Definition server_hello (clientRandom secret reply : list byte) : Prop :=
  exists hello extras ccs cert,
    reply = concat (encode_record <$> hello :: extras ++ [ccs; cert]) /\
    Forall record_ok (hello :: ccs :: cert :: extras) /\ (length extras < 16)%nat /\
    r_Type hello = RecordTypeHandshake /\ 38 <= zlen (r_Data hello) /\ Forall (fun r => r_Type r = RecordTypeHandshake) extras /\
    r_Type ccs = RecordTypeChangeCipherSpec /\ r_Type cert = RecordTypeApplication /\
    hmac secret (clientRandom ++ without_random reply) = slice 11 43 reply.

Lemma concat_answer hello extras ccs cert :
  concat (encode_record <$> hello :: extras ++ [ccs; cert]) =
  (encode_record hello ++ concat (encode_record <$> extras) ++ encode_record ccs) ++ encode_record cert.
Proof. cbn [fmap list_fmap concat]. rewrite fmap_app, concat_app. cbn [fmap list_fmap concat]. by rewrite app_nil_r, <- !app_assoc. Qed.

Lemma encode_record_length r : record_ok r -> zlen (encode_record r) = 5 + zlen (r_Data r).
Proof.
  intros Hr. rewrite encode_head, zlen_app. by destruct (head_fields r (ro_type _ Hr) (version_length _ Hr)) as [-> _].
Qed.

(** Such an answer is accepted, and exactly it is taken from the connection. *)
Lemma server_hello_accepted {C} {rw : ReadWriter C} {rel : Reliable C} (clientRandom secret reply rest : list byte) (c : C) :
  server_hello clientRandom secret reply -> rel_wf c -> rel_coming c = reply ++ rest ->
  exists c', readServerHello clientRandom secret c = (Ok tt, c') /\ rel_wf c' /\ rel_coming c' = rest /\ rel_sent c' = rel_sent c.
Proof.
  intros (hello & extras & ccs & cert & Hpk & Hok & Hk & Hth & Hlen & Hte & Htc & Hta & Hmac) Hwf Hc.
  rewrite concat_answer in Hpk.
  apply Forall_cons in Hok as [Hh Hok]. apply Forall_cons in Hok as [Hccs Hok]. apply Forall_cons in Hok as [Hcert Hex].
  rewrite Hpk, <- !app_assoc in Hc.
  destruct (readRecord_ok hello _ c Hh Hwf Hc) as (c1 & H1 & Hwf1 & Hc1 & Hs1).
  destruct (change_cipher_ok maxHandshakeRecords extras ccs (encode_record hello) _ c1 Hex Hte Hk Hccs Htc Hwf1 Hc1) as (c2 & H2 & Hwf2 & Hc2 & Hs2).
  destruct (readRecord_ok cert rest c2 Hcert Hwf2 Hc2) as (c3 & H3 & Hwf3 & Hc3 & Hs3).
  assert ((zlen (encode_record hello) <? 43) = false) as Hlong by (rewrite encode_record_length by done; lia).
  unfold readServerHello, bind, wrapping. rewrite H1, Hth. change (negb (RecordTypeHandshake =? RecordTypeHandshake)) with false. cbv iota.
  rewrite Hlong, H2, H3, Hta. change (negb (RecordTypeApplication =? RecordTypeApplication)) with false. cbv iota zeta.
  rewrite <- Hpk, bool_decide_true by exact Hmac. exists c3. split_and!; try done. congruence.
Qed.

(** *** Whatever the socket delivers *)

(** The bytes [b] were read from the socket. *)
Definition took (b : list byte) (c c' : Pipe) : Prop :=
  concat (segments c) = b ++ concat (segments c') /\ p_sent c' = p_sent c.

Lemma took_trans a b c1 c2 c3 : took a c1 c2 -> took b c2 c3 -> took (a ++ b) c1 c3.
Proof. intros [H1 H2] [H3 H4]. split; [by rewrite H1, H3, app_assoc|congruence]. Qed.

Lemma next_segment_inv n segs got segs' : (0 < n)%nat -> next_segment n segs = Some (got, segs') ->
  got <> [] /\ (length got <= n)%nat /\ concat segs = got ++ concat segs'.
Proof.
  intros Hn H. destruct (decide (concat segs = [])) as [E|E].
  - exfalso. revert H. induction segs as [|[|x s] segs IH]; [done|by apply IH|done].
  - destruct (next_segment_ok n segs Hn E) as (g & l & Hg & H1 & H2 & H3). rewrite Hg in H. by injection H as <- <-.
Qed.

Lemma pipe_full_loop fuel n got (c : Pipe) : zlen got <= n -> n - zlen got < Z.of_nat fuel ->
  post (full_loop fuel n got) c (fun bs c' => exists b, bs = got ++ b /\ zlen bs = n /\ took b c c')
    (fun _ c' => p_sent c' = p_sent c).
Proof.
  revert got c. induction fuel as [|fuel IH]; intros got c Hle Hf; [lia|]. unfold post. cbn [full_loop].
  destruct (Z.ltb_spec (zlen got) n) as [Hlt|Hge].
  2: { exists []. rewrite app_nil_r. split; [done|]. split; [lia|done]. }
  cbn [rw_Read pipe_rw]. destruct (next_segment _ _) as [[b segs]|] eqn:E; [|done].
  apply next_segment_inv in E as (Hb & Hbl & Hc); [|lia].
  assert (0 < zlen b) by (destruct b; [done|unfold zlen; simpl; lia]).
  specialize (IH (got ++ b) (mkPipe segs (p_ending c) (p_sent c))). rewrite zlen_app in IH. unfold zlen in *.
  specialize (IH ltac:(lia) ltac:(lia)). unfold post in IH. destruct (full_loop _ _ _ _) as [[bs|e|] c']; [|done|done].
  destruct IH as (b' & -> & Hz & Ht). exists (b ++ b'). split; [by rewrite app_assoc|]. split; [done|].
  by apply (took_trans b b' c (mkPipe segs (p_ending c) (p_sent c)) c').
Qed.

Lemma pipe_ReadFull n (c : Pipe) : 0 <= n ->
  post (rw_ReadFull n) c (fun bs c' => zlen bs = n /\ took bs c c') (fun _ c' => p_sent c' = p_sent c).
Proof.
  intros Hn. eapply post_mono; [apply (pipe_full_loop (S (Z.to_nat n)) n []); rewrite zlen_nil; lia| |done].
  intros bs c' (b & -> & Hz & Ht). done.
Qed.

Lemma bytes_of_slices (buf : list byte) : zlen buf = 5 ->
  buf = slice 0 1 buf ++ slice 1 3 buf ++ slice 3 5 buf /\ zlen (slice 0 1 buf) = 1 /\ zlen (slice 3 5 buf) = 2.
Proof.
  intros Hz. destruct buf as [|b0 [|b1 [|b2 [|b3 [|b4 [|? ?]]]]]]; try (unfold zlen in Hz; simpl in Hz; lia). done.
Qed.

(** A record that was read is well formed, and its bytes were taken. *)
Lemma pipe_readRecord (c : Pipe) :
  post readRecord c (fun x c' => record_ok (fst x) /\ snd x = encode_record (fst x) /\ took (snd x) c c')
    (fun _ c' => p_sent c' = p_sent c).
Proof.
  unfold readRecord. eapply post_seq; [by apply (pipe_ReadFull 5)|]. intros buf c1 (Hz & Ht1).
  destruct (known_version (slice 1 3 buf)) eqn:Hv; cbn [negb]; [|apply post_fail, Ht1].
  destruct (bytes_of_slices buf Hz) as (Hbuf & H1 & H2).
  assert (0 <= be_combine (slice 3 5 buf) < 65536) as Hlen.
  { unfold be_combine. pose proof (le_combine_bound (List.rev (slice 3 5 buf))) as Hb. rewrite length_rev in Hb.
    unfold zlen in H2. replace (length (slice 3 5 buf)) with 2%nat in Hb by lia. exact Hb. }
  eapply post_seq.
  { eapply post_mono; [apply (pipe_ReadFull (be_combine (slice 3 5 buf))); lia|intros a s' Ha; exact Ha|].
    intros e c2 Hs. rewrite Hs. apply Ht1. }
  intros data c2 (Hd & Ht2). apply post_ret. cbn [fst snd].
  assert (exists b, slice 0 1 buf = [b]) as [b Hb0].
  { destruct (slice 0 1 buf) as [|b [|? ?]]; try (unfold zlen in H1; simpl in H1; lia). by exists b. }
  split; [|split; [|by eapply took_trans]].
  - split; cbn [r_Type r_Version r_Data]; [|by apply bool_decide_eq_true in Hv|lia].
    rewrite Hb0, le_combine_1. apply byte.unsigned_range.
  - unfold encode_record. cbn [r_Type r_Version r_Data]. rewrite Hb0, le_combine_1, byte.of_Z_unsigned.
    rewrite Hd, uwrap_id by (unfold is_unsigned; lia). rewrite be_split_combine by (unfold zlen in H2; lia).
    rewrite Hbuf at 1. by rewrite Hb0, <- !app_assoc.
Qed.

Lemma pipe_change_cipher k packet (c : Pipe) :
  post (change_cipher_loop k packet) c
    (fun pk c' => exists extras ccs, pk = packet ++ concat (encode_record <$> extras) ++ encode_record ccs /\
       Forall record_ok (ccs :: extras) /\ Forall (fun r => r_Type r = RecordTypeHandshake) extras /\
       r_Type ccs = RecordTypeChangeCipherSpec /\ (length extras < k)%nat /\
       took (concat (encode_record <$> extras) ++ encode_record ccs) c c')
    (fun _ c' => p_sent c' = p_sent c).
Proof.
  revert packet c. induction k as [|k IH]; intros packet c; cbn [change_cipher_loop]; [done|].
  eapply post_seq; [apply post_wrapping, pipe_readRecord|]. intros [r raw] c1 (Hr & Hraw & Ht). cbn [fst snd] in *.
  destruct (Z.eqb_spec (r_Type r) RecordTypeHandshake) as [E|E].
  - eapply post_mono; [apply IH| |intros e c2 Hs; rewrite Hs; apply Ht].
    intros pk c2 (extras & ccs & -> & [Hccs Hok]%Forall_cons & Hty & Hc & Hk & Ht2). exists (r :: extras), ccs.
    cbn [fmap list_fmap concat]. rewrite Hraw in *. split_and!; try done; [by rewrite <- !app_assoc|by constructor; [|constructor]|by constructor|simpl; lia|].
    rewrite <- app_assoc. by eapply took_trans.
  - destruct (Z.eqb_spec (r_Type r) RecordTypeChangeCipherSpec) as [E2|E2]; [|apply post_fail, Ht].
    apply post_ret. exists [], r. rewrite Hraw in *. cbn. split_and!; try done; [by constructor|lia].
Qed.

Lemma pipe_readServerHello (clientRandom secret : list byte) (c : Pipe) :
  post (readServerHello clientRandom secret) c
    (fun _ c' => exists reply, server_hello clientRandom secret reply /\ took reply c c')
    (fun _ c' => p_sent c' = p_sent c).
Proof.
  unfold readServerHello. eapply post_seq; [apply post_wrapping, pipe_readRecord|].
  intros [hello raw] c1 (Hh & Hraw & Ht1). cbn [fst snd] in *.
  destruct (Z.eqb_spec (r_Type hello) RecordTypeHandshake) as [Hty|]; cbn [negb]; [|apply post_fail, Ht1].
  destruct (Z.ltb_spec (zlen raw) 43) as [|Hlen]; [apply post_fail, Ht1|].
  eapply post_seq.
  { eapply post_mono; [apply pipe_change_cipher|intros a s' Ha; exact Ha|intros e c2 Hs; rewrite Hs; apply Ht1]. }
  intros pk c2 (extras & ccs & -> & [Hccs Hok]%Forall_cons & Htys & Hcc & Hk & Ht2).
  pose proof (took_trans _ _ _ _ _ Ht1 Ht2) as Ht12.
  eapply post_seq.
  { apply post_wrapping. eapply post_mono; [apply pipe_readRecord|intros a s' Ha; exact Ha|intros e c3 Hs; rewrite Hs; apply Ht12]. }
  intros [cert raw2] c3 (Hcert & Hraw2 & Ht3). cbn [fst snd] in *. pose proof (took_trans _ _ _ _ _ Ht12 Ht3) as Ht.
  destruct (Z.eqb_spec (r_Type cert) RecordTypeApplication) as [Hca|]; cbn [negb]; [|apply post_fail, Ht].
  destruct (bool_decide _) eqn:Hmac; cbn [negb]; [|apply post_fail, Ht]. apply bool_decide_eq_true in Hmac.
  apply post_ret. eexists. split; [|exact Ht]. exists hello, extras, ccs, cert. rewrite Hraw, Hraw2 in *.
  split; [by rewrite concat_answer|]. split; [by constructor; [|constructor; [|constructor]]|]. split; [exact Hk|]. split; [done|].
  split; [|by split_and!]. rewrite encode_record_length in Hlen by done. lia.
Qed.

Lemma lxor_range w a b : 0 <= w -> is_unsigned w a -> is_unsigned w b -> is_unsigned w (Z.lxor a b).
Proof.
  unfold is_unsigned. intros Hw Ha Hb. split; [apply Z.lxor_nonneg; lia|].
  destruct (Z.eq_dec (Z.lxor a b) 0) as [->|Hne]; [lia|]. assert (0 < w) by (destruct (Z.eq_dec w 0) as [->|]; [|lia];
    assert (a = 0) as -> by lia; assert (b = 0) as -> by lia; done).
  apply Z.log2_lt_pow2; [pose proof (proj2 (Z.lxor_nonneg a b)); lia|].
  pose proof (Z.log2_lxor a b ltac:(lia) ltac:(lia)) as Hl.
  assert (forall x, 0 <= x < 2 ^ w -> Z.log2 x < w) as Hlog.
  { intros x Hx. destruct (Z.eq_dec x 0) as [->|]; [done|]. apply Z.log2_lt_pow2; lia. }
  pose proof (Hlog a Ha). pose proof (Hlog b Hb). lia.
Qed.

(** The random of a ClientHello: its first 28 bytes are the ones of the HMAC of the record
    with the random set to zero, and the proxy gets the time of the client from the
    others. *)
Definition hello_digest (secret : list byte) (now : Z) (packet : list byte) : Prop :=
  let random := slice 11 43 packet in
  let mac := hmac secret (without_random packet) in
  take 28 random = take 28 mac /\ Z.lxor (le_combine (drop 28 random)) (le_combine (drop 28 mac)) = u32 now.

(** The ClientHello is the same on every connection, and its random is what the answer is
    checked with. *)
Lemma client_hello_sent (h secret : list byte) (now : Z) : 38 <= zlen h < 65536 ->
  exists packet, zlen packet = 5 + zlen h /\ slice 3 5 packet = be_split 2 (zlen h) /\ hello_digest secret now packet /\
  forall C (rw : ReadWriter C) (rel : Reliable C) (c : C), rel_wf c -> (forall b, rel_fits (C := C) b) ->
    exists c', writeClientHello (Ok h) now secret c = (Ok (slice 11 43 packet), c') /\ rel_wf c' /\
      rel_sent c' = rel_sent c ++ packet /\ rel_coming c' = rel_coming c.
Proof.
  intros Hh. set (record := [byte.of_Z RecordTypeHandshake] ++ Version10Bytes ++ be_split 2 (uwrap 16 (zlen h)) ++ h).
  assert (zlen record = 5 + zlen h) as Hz by (subst record; rewrite !zlen_app, zlen_be_split; change (zlen [byte.of_Z RecordTypeHandshake]) with 1; change (zlen Version10Bytes) with 2; lia).
  set (mac := hmac secret (without_random record)). assert (zlen mac = 32) as Hmac by apply zlen_sha256.
  set (random := take 28 mac ++ le_split 4 (Z.lxor (le_combine (drop 28 mac)) (u32 now))).
  assert (length mac = 32%nat) as Hmac' by (unfold zlen in Hmac; lia).
  assert (length random = 32%nat) as Hrnd by (subst random; rewrite length_app, length_take, length_le_split, Hmac'; done).
  assert (length (take 11 record) = 11%nat) as H11 by (rewrite length_take; unfold zlen in Hz, Hh; lia).
  set (packet := take 11 record ++ random ++ drop 43 record).
  assert (without_random packet = without_random record) as Hwr.
  { unfold without_random. subst packet. rewrite take_app_length' by done. do 2 f_equal.
    rewrite app_assoc, drop_app_length' by (rewrite length_app; lia). done. }
  assert (slice 11 43 packet = random) as Hslice.
  { unfold slice. subst packet. rewrite drop_app_length' by (rewrite H11; done). apply take_app_length'. by rewrite Hrnd. }
  exists packet. rewrite Hslice. split_and!.
  - subst packet. unfold zlen in *. rewrite !length_app, H11, Hrnd, length_drop. lia.
  - subst packet. rewrite slice_prefix by (unfold zlen; rewrite ?H11; lia). subst record.
    rewrite uwrap_id by (unfold is_unsigned; lia).
    assert (exists x y, be_split 2 (zlen h) = [x; y]) as (x & y & E).
    { pose proof (zlen_be_split 2 (zlen h)) as Hl. destruct (be_split 2 (zlen h)) as [|x [|y [|? ?]]]; try (unfold zlen in Hl; simpl in Hl; lia). by exists x, y. }
    by rewrite E.
  - unfold hello_digest. cbv zeta. rewrite Hslice, Hwr. fold mac. split; subst random.
    + rewrite take_app_length'; [done|]. rewrite length_take. lia.
    + rewrite drop_app_length' by (rewrite length_take; lia). rewrite (le_combine_split_unsigned 4).
      * rewrite Z.lxor_comm, <- Z.lxor_assoc, Z.lxor_nilpotent. apply Z.lxor_0_l.
      * apply lxor_range; [lia|apply (le_combine_range 4); rewrite length_drop; lia|apply uwrap_range; lia].
  - intros C rw rel c Hwf Hfit. destruct (rel_write c packet Hwf (Hfit _)) as (c' & Hw & Hwf' & Hs & Hc).
    exists c'. split_and!; try done. unfold writeClientHello, generateClientHello. fold record.
    replace (zlen record <? clientRandomOffset + clientRandomLength) with false
      by (unfold clientRandomOffset, clientRandomLength; lia).
    unfold bind. fold mac. fold random. fold packet. by rewrite Hw.
Qed.

(** What a handshake over a socket does: [r] and [o'] are its end when it starts from [o]
    and sends [packet]. *)
Record handshaken (secret packet : list byte) (o : FakeTLS Pipe) (r : outcome unit) (o' : FakeTLS Pipe) : Prop := {
  hk_sent : p_sent (ft_conn o') = p_sent (ft_conn o) ++ packet;
  hk_first : ft_first o' = ft_first o /\ ft_buf o' = [];
  hk_ends : r = Ok tt \/ exists e, r = Err e;
  hk_only : r = Ok tt -> exists reply, server_hello (slice 11 43 packet) secret reply /\
    concat (segments (ft_conn o)) = reply ++ concat (segments (ft_conn o'));
  hk_accepts reply rest : server_hello (slice 11 43 packet) secret reply ->
    concat (segments (ft_conn o)) = reply ++ rest -> r = Ok tt /\ concat (segments (ft_conn o')) = rest }.

Lemma handshake_pipe (h : list byte) (now : Z) (s : Secret) : 38 <= zlen h < 65536 ->
  exists packet, zlen packet = 5 + zlen h /\ hello_digest (s_Secret s) now packet /\
  forall o : FakeTLS Pipe, exists r o', fake_Handshake (Ok h) now s o = (r, o') /\ handshaken (s_Secret s) packet o r o'.
Proof.
  intros Hh. destruct (client_hello_sent h (s_Secret s) now Hh) as (packet & Hz & _ & Hdig & Hsend).
  exists packet. split; [done|]. split; [done|]. intros o.
  destruct (Hsend Pipe _ _ (ft_conn o) (pipe_wf _) pipe_fits_all) as (c1 & Hw & _ & Hs1 & Hc1).
  pose proof (pipe_readServerHello (slice 11 43 packet) (s_Secret s) c1) as Hread.
  destruct (readServerHello (slice 11 43 packet) (s_Secret s) c1) as [r c2] eqn:Er. unfold post in Hread. rewrite Er in Hread.
  exists (match r with Err e => Err (Wrap e "receive ServerHello") | x => x end), (mkFake c2 (ft_first o) []).
  cbn [rel_coming rel_sent pipe_reliable] in Hs1, Hc1.
  assert (p_sent c2 = p_sent c1) as Hs2 by (destruct r; [by destruct Hread as (? & _ & _ & ->)|done|done]).
  split; [|split; cbn [ft_conn ft_buf ft_first]; [|done| | |]].
  - unfold fake_Handshake, bind, wrapping, below. cbn [ft_conn ft_first ft_buf]. rewrite Hw. cbn [ft_conn ft_first ft_buf].
    rewrite Er. by destruct r.
  - by rewrite Hs2, Hs1.
  - destruct r as [[]|e|]; [by left|right; by eexists|done].
  - intros Hr. destruct r as [[]|e|]; [|done|done].
    destruct Hread as (reply & Hreply & Ht & _). exists reply. rewrite <- Hc1. done.
  - intros reply rest Hreply Hco. rewrite <- Hc1 in Hco.
    destruct (server_hello_accepted _ _ reply rest c1 Hreply (pipe_wf _) Hco) as (c2' & Hr & _ & Hc2 & _).
    rewrite Er in Hr. by injection Hr as -> ->.
Qed.

(** C25: the handshake of FakeTLS with whatever a socket delivers, in segments of any size
    and with any error at its end.  The client sends a ClientHello whose random is the
    HMAC of the message, mixed with the time; it accepts exactly when the bytes that come
    begin with an answer of a proxy that has the secret and answers this ClientHello, and
    then exactly this answer is taken from the socket; otherwise it returns an error. *)
Theorem server_hello_checked (h : list byte) (now : Z) (s : Secret) (o : FakeTLS Pipe) :
  38 <= zlen h < 65536 ->
  exists packet r o', fake_Handshake (Ok h) now s o = (r, o') /\
    p_sent (ft_conn o') = p_sent (ft_conn o) ++ packet /\ zlen packet = 5 + zlen h /\ hello_digest (s_Secret s) now packet /\
    (r = Ok tt \/ exists e, r = Err e) /\
    (r = Ok tt -> exists reply, server_hello (slice 11 43 packet) (s_Secret s) reply /\
       concat (segments (ft_conn o)) = reply ++ concat (segments (ft_conn o')) /\ ft_buf o' = []) /\
    (forall reply rest, server_hello (slice 11 43 packet) (s_Secret s) reply ->
       concat (segments (ft_conn o)) = reply ++ rest -> r = Ok tt /\ concat (segments (ft_conn o')) = rest).
Proof.
  intros Hh. destruct (handshake_pipe h now s Hh) as (packet & Hz & Hdig & Hrun).
  destruct (Hrun o) as (r & o' & Hr & [Hs [_ Hbuf] He Ho Ha]). exists packet, r, o'. split_and!; try done.
  intros Hok. destruct (Ho Hok) as (reply & ? & ?). by exists reply.
Qed.

(** *** A session over fake TLS *)

(** More bytes arrive at the socket below. *)
Definition arrived (segs : list (list byte)) (o : Obfuscated2 (FakeTLS Pipe)) : Obfuscated2 (FakeTLS Pipe) :=
  let f := o_conn o in let p := ft_conn f in
  mkObfs (o_rand o) (mkFake (mkPipe segs (p_ending p) (p_sent p)) (ft_first f) (ft_buf f)) (o_keys o).

Lemma fake_wf_pipe pre fuel segs e first buf outs ins :
  concat segs = concat (encode_record <$> ins) -> Forall record_ok ins -> Forall data_record ins -> (length (concat segs) < fuel)%nat ->
  Forall record_ok outs -> Forall data_record outs ->
  fake_wf (C := Pipe) pre fuel (mkFake (mkPipe segs e (pre ++ concat (encode_record <$> outs))) first buf).
Proof.
  intros Hs Hok Hd Hf Hoko Hdo. split; [done|]. split.
  - exists ins. split; [by split_and!|]. pose proof (encode_count ins). rewrite <- Hs in *. lia.
  - exists outs. by split_and!.
Qed.

(** C13: a session over fake TLS and obfuscated2, over sockets that deliver the bytes in
    segments of any size: when the proxy answers the ClientHello that was sent, the
    handshake succeeds; behind the ClientHello the proxy reads from the header the
    protocol and the data center that the client named, and then what the client wrote;
    and the client reads what the proxy writes behind its answer.  Each write is below 64
    kilobytes (longer ones are cut, C35); the reads may have any sizes.  The fuel of the
    reads is enough when it exceeds the number of bytes. *)
Theorem tls_session (aes_block : list byte -> list byte -> list byte) (fuel1 fuel2 : nat) (e : error)
    (r : Stream) (init protocol h : list byte) (now dc : Z) (s : Secret) (payloads answers : list (list byte)) :
  randomness r init -> secret_ok (s_Secret s) -> zlen protocol = 4 -> 38 <= zlen h < 65536 -> (0 < fuel1)%nat ->
  Forall (fun b => zlen b < 65536) payloads -> Forall (fun b => zlen b < 65536) answers ->
  let rw1 := fake_rw fuel1 in let rw2 := fake_rw fuel2 in
  exists packet, hello_digest (s_Secret s) now packet /\
  (forall segs, p_sent (ft_conn (snd (fake_Handshake (Ok h) now s (NewFakeTLS (mkPipe segs e []))))) = packet) /\
  forall reply segs0, server_hello (slice 11 43 packet) (s_Secret s) reply -> concat segs0 = reply ->
  exists o1 o2, tls_Handshake aes_block fuel1 (Ok h) now protocol dc s (newTLS r (mkPipe segs0 e [])) = (Ok tt, o1) /\
  writes (H := obfs_rw (H := rw1) aes_block) payloads o1 = (Ok tt, o2) /\
  packet `prefix_of` p_sent (ft_conn (o_conn o2)) /\
  forall segs, packet ++ concat segs = p_sent (ft_conn (o_conn o2)) -> (length (concat segs) < fuel2)%nat ->
  exists k c2', Accept (H := rw2) aes_block (s_Secret s) (mkFake (mkPipe segs e reply) false []) =
      (Ok (k, mkMetadata protocol (uwrap 16 dc)), c2') /\
    (forall r2 pieces, concat pieces = concat payloads ->
      exists srv, reads (H := obfs_rw (H := rw2) aes_block) (zlen <$> pieces) (mkObfs r2 c2' (Some k)) = (Ok pieces, srv)) /\
    (forall r2, exists srv, writes (H := obfs_rw (H := rw2) aes_block) answers (mkObfs r2 c2' (Some k)) = (Ok tt, srv) /\
      forall segs' pieces, reply ++ concat segs' = p_sent (ft_conn (o_conn srv)) -> (length (concat segs') < fuel1)%nat ->
        concat pieces = concat answers ->
        exists o3, reads (H := obfs_rw (H := rw1) aes_block) (zlen <$> pieces) (arrived segs' o2) = (Ok pieces, o3)).
Proof.
  intros Hr Hs Hp Hh Hf1 Hpay Hans rw1 rw2.
  destruct (handshake_pipe h now s Hh) as (packet & _ & Hdig & Hrun).
  exists packet. split; [exact Hdig|]. split.
  { intros segs. destruct (Hrun (NewFakeTLS (mkPipe segs e []))) as (r' & o' & -> & [Hs0 _ _ _ _]). exact Hs0. }
  intros reply segs0 Hreply Hseg.
  destruct (Hrun (NewFakeTLS (mkPipe segs0 e []))) as (r' & f0 & Hhs & [Hs2 [_ Hb0] _ _ Hacc0]).
  destruct (Hacc0 reply [] Hreply) as [-> Hc2]; [cbn; by rewrite Hseg, app_nil_r|]. cbn [NewFakeTLS ft_conn p_sent app] in Hs2.
  pose (rel1 := fake_reliable (C := Pipe) pipe_fits_all packet fuel1). pose (rel2 := fake_reliable (C := Pipe) pipe_fits_all reply fuel2).
  assert (fake_wf (C := Pipe) packet fuel1 f0) as Hwf.
  { split; [done|]. split; [exists []; by split_and!|]. exists []. split_and!; try done. by rewrite app_nil_r. }
  destruct (obfs_session_ok aes_block (rw1 := rw1) (rel1 := rel1) (rw2 := rw2) (rel2 := rel2) r init protocol dc s f0 payloads)
    as (o1 & o2 & H1 & H2 & (_ & _ & outs & Hout & Hok & Hd) & Hco & Hrest); try done.
  { intros b Hb. cbn. unfold zlen. lia. }
  { eapply Forall_impl; [exact Hpay|]. intros b Hb x Hx. cbn in *. unfold zlen in *. lia. }
  change (p_sent (ft_conn (o_conn o2)) = packet ++ concat (encode_record <$> outs)) in Hout.
  assert (fake_sent packet f0 = []) as Hsent0.
  { unfold fake_sent. change (rel_sent (ft_conn f0)) with (p_sent (ft_conn f0)). by rewrite Hs2, drop_all. }
  assert (ft_buf (o_conn o2) = []) as Hbuf.
  { change (fake_coming (o_conn o2) = fake_coming f0) in Hco. unfold fake_coming in Hco.
    change (rel_coming (ft_conn f0)) with (concat (segments (ft_conn f0))) in Hco. rewrite Hc2, Hb0 in Hco. by apply app_eq_nil in Hco as [? _]. }
  exists o1, o2. split; [|split; [exact H2|split]].
  { unfold tls_Handshake, newTLS, NewObfuscated2, bind at 1, wrapping at 1. cbn [o_conn o_rand o_keys].
    rewrite Hhs. cbv beta iota. unfold wrapping. unfold NewObfuscated2 in H1. subst rw1. by rewrite H1. }
  { rewrite Hout. by eexists. }
  intros segs Hsegs Hf2. rewrite Hout in Hsegs. apply app_inv_head in Hsegs.
  set (c2s := mkFake (mkPipe segs e reply) false []).
  assert (fake_wf (C := Pipe) reply fuel2 c2s) as Hwf2.
  { split; [done|]. split; [|exists []; split_and!; try done; cbn; by rewrite app_nil_r]. exists outs. split; [by split_and!|].
    pose proof (encode_count outs). rewrite <- Hsegs in *. cbn. lia. }
  assert (fake_sent reply c2s = []) as Hsent2 by (unfold fake_sent; cbn; by rewrite drop_all).
  destruct (Hrest c2s Hwf2) as (k & c2' & Hacc & Hread2 & Hans2).
  { change (fake_sent packet (o_conn o2) = fake_sent packet f0 ++ fake_coming c2s). rewrite Hsent0.
    unfold fake_sent, fake_coming. change (rel_sent (ft_conn (o_conn o2))) with (p_sent (ft_conn (o_conn o2))).
    rewrite Hout, drop_app_length. cbn [c2s ft_buf ft_conn app]. by rewrite <- Hsegs. }
  exists k, c2'. split; [exact Hacc|]. split; [exact Hread2|]. intros r2.
  destruct (Hans2 r2 answers) as (srv & Hws & (_ & _ & outs2 & Hout2 & Hok2 & Hd2) & Hcl).
  { eapply Forall_impl; [exact Hans|]. intros b Hb x Hx. cbn in *. unfold zlen in *. lia. }
  exists srv. split; [exact Hws|]. intros segs' pieces Hsegs' Hf1' Hpieces.
  change (p_sent (ft_conn (o_conn srv)) = reply ++ concat (encode_record <$> outs2)) in Hout2.
  rewrite Hout2 in Hsegs'. apply app_inv_head in Hsegs'.
  apply (Hcl (o_conn (arrived segs' o2)) pieces); [|done| |exact Hpieces].
  - split; [done|]. split; [|by exists outs]. exists outs2. split; [by split_and!|].
    pose proof (encode_count outs2). rewrite <- Hsegs' in *. cbn. lia.
  - change (fake_sent reply (o_conn srv) = fake_sent reply c2s ++ fake_coming (o_conn (arrived segs' o2))). rewrite Hsent2.
    unfold fake_sent, fake_coming. change (rel_sent (ft_conn (o_conn srv))) with (p_sent (ft_conn (o_conn srv))).
    rewrite Hout2, drop_app_length. cbn [arrived o_conn ft_buf ft_conn app]. rewrite Hbuf.
    change (rel_coming (mkPipe segs' (p_ending (ft_conn (o_conn o2))) (p_sent (ft_conn (o_conn o2))))) with (concat segs').
    by rewrite <- Hsegs'.
Qed.

(** ** Headers and secrets *)

(** The header of obfuscated2 does not look like the start of a plain transport: a server
    that detects the transport by its first bytes takes none of the tagged codecs for it,
    and the words that proxies and other protocols reserve do not occur. *)
Theorem obfs_header_disguised (aes_block : list byte -> list byte -> list byte) {C} {rw : ReadWriter C} {rel : Reliable C}
    (r : Stream) (protocol : list byte) (dc : Z) (s : Secret) (c : C) (o : Obfuscated2 C) :
  zlen protocol = 4 -> rel_wf c -> (forall b, rel_fits (C := C) b) ->
  obfs_Handshake aes_block protocol dc s (NewObfuscated2 r c) = (Ok tt, o) ->
  exists hdr, zlen hdr = 64 /\ rel_sent (o_conn o) = rel_sent c ++ hdr /\
    (le_combine (slice 0 4 hdr) ∉ reserved_first) /\ le_combine (slice 4 8 hdr) <> 0 /\
    forall rest e, exists st, detectCodec (mkStream (hdr ++ rest) e) = Ok (DFull, st).
Proof.
  intros Hp Hwf Hfit. unfold obfs_Handshake, NewObfuscated2. cbn [o_rand o_conn o_keys].
  destruct (generateKeys aes_block protocol (s_Secret s) dc r) as [[k|?|] r'] eqn:Egk; [|done|done].
  destruct (rel_write c (header k) Hwf (Hfit _)) as (c' & -> & _ & Hs & _). intros [= <-]. exists (header k).
  unfold generateKeys in Egk. apply bind_inv_ok in Egk as (init & r1 & Hinit & Egk).
  apply init_loop_good in Hinit as [Hz Hgood]. apply bind_inv_ok in Egk as ([e d] & r2 & _ & Egk). unfold XORKeyStream, ret in Egk.
  injection Egk as <- _. cbn [header o_conn].
  assert (length init = 64%nat) as Hz' by (unfold zlen in Hz; lia).
  set (tail := protocol ++ le_split 2 (uwrap 16 dc) ++ drop 62 init) in *.
  assert (length (take 56 init) = 56%nat) as H56 by (rewrite length_take; lia).
  assert (length tail = 8%nat) as Ht.
  { subst tail. rewrite !length_app, length_le_split, length_drop. unfold zlen in Hp. lia. }
  cbn [header] in Hs. rewrite take_app_length' in Hs by done. rewrite take_app_length' by done. set (enc := slice 56 64 _) in *.
  assert (length enc = 8%nat) as He.
  { subst enc. unfold slice. rewrite length_take, length_drop, length_xor_at, length_app. lia. }
  assert (forall lo hi, 0 <= lo <= hi -> hi <= 56 -> slice lo hi (take 56 init ++ enc) = slice lo hi init) as Hsl.
  { intros lo hi Hlo Hhi. transitivity (slice lo hi (take 56 init)); [|symmetry; rewrite <- (take_drop 56 init) at 1];
      apply slice_prefix; unfold zlen; lia. }
  unfold bad_init in Hgood. apply orb_false_iff in Hgood as [[Hg1 Hg2]%orb_false_iff Hg3].
  apply bool_decide_eq_false in Hg1, Hg2. apply Z.eqb_neq in Hg3. cbn [o_conn] in *.
  split_and!; [unfold zlen; rewrite length_app; lia|done|by rewrite Hsl by lia|by rewrite Hsl by lia|].
  intros rest err. destruct init as [|x0 [|x1 [|x2 [|x3 init]]]]; try (simpl in Hz'; lia). cbn [take app] in *.
  set (more := take 52 init ++ enc ++ rest). assert (more = (take 52 init ++ enc) ++ rest) as Hm by (subst more; by rewrite app_assoc).
  unfold detectCodec. change (x0 :: x1 :: x2 :: x3 :: (take 52 init ++ enc) ++ rest) with ([x0] ++ [x1; x2; x3] ++ (take 52 init ++ enc) ++ rest).
  rewrite ReadFull_app by done. rewrite decide_False by (intros [= E]; apply Hg1; by rewrite E).
  rewrite ReadFull_app by done. cbn [app]. change (slice 0 4 (x0 :: x1 :: x2 :: x3 :: init)) with [x0; x1; x2; x3] in Hg2.
  rewrite !decide_False; [by eexists|..]; intros E; apply Hg2; rewrite E; unfold reserved_first;
    (apply (bool_decide_unpack _); vm_compute; reflexivity).
Qed.

(** A secret of 16 bytes is a simple one without a codec; a longer one is a tag, a secret
    of 16 bytes and a host name, which is empty for a secured secret, and it is accepted
    exactly when the tag is the one of a codec, which is then the expected codec; shorter
    ones are refused. *)
Theorem secret_parsed :
  (forall s, zlen s = 16 -> exists r, ParseSecret s = Ok r /\ s_Secret r = s /\ s_Type r = Simple /\ ExpectedCodec r = None) /\
  (forall t s host, zlen s = 16 ->
     match known_tag t with
     | Some d => exists r, ParseSecret (t :: s ++ host) = Ok r /\ s_Secret r = s /\ s_CloakHost r = host /\
         s_Type r = match host with [] => Secured | _ => TLS end /\ ExpectedCodec r = Some d
     | None => exists e, ParseSecret (t :: s ++ host) = Err e
     end) /\
  (forall s, zlen s < 16 -> exists e, ParseSecret s = Err e).
Proof.
  split_and!.
  - intros s Hs. unfold ParseSecret. rewrite Hs. by eexists.
  - intros t s host Hs. unfold ParseSecret. rewrite zlen_cons, zlen_app, Hs.
    change (drop 1 (t :: s ++ host)) with (s ++ host). change (default Byte.x00 (head (t :: s ++ host))) with t.
    rewrite (slice_prefix s) by lia. assert (slice 0 16 s = s) as -> by (unfold slice; rewrite drop_0; apply take_ge; unfold zlen in Hs; lia).
    rewrite drop_zlen_app by done. destruct (nil_or_cons host) as [->|Hh].
    + unfold ExpectedCodec. cbn -[known_tag]. destruct (known_tag t) eqn:Et; [|by eexists]. eexists. by split_and!.
    + replace (1 + (16 + zlen host) =? 1 + 16) with false by lia. replace (1 + (16 + zlen host) >? 16) with true by lia.
      unfold ExpectedCodec. cbn [s_Tag]. destruct (known_tag t) eqn:Et; [|by eexists]. eexists. split; [done|]. cbn. split_and!; try done.
      by destruct host; [unfold zlen in Hh; simpl in Hh; lia|].
  - intros s Hs. unfold ParseSecret. replace (zlen s =? 1 + 16) with false by lia. replace (zlen s >? 16) with false by lia.
    replace (zlen s =? 16) with false by lia. by eexists.
Qed.

(** ** Witnesses *)

Module ProxySample.
Definition block (key b : list byte) : list byte := b.
Definition init : list byte := replicate 64 Byte.x01.
Definition rand : Stream := mkStream init EOF.
Definition protocol : list byte := replicate 4 Byte.xee.
Definition secret : Secret := mkSecret (replicate 16 Byte.x05) Byte.xee (bytes_of_string "host") TLS.
Definition payloads : list (list byte) := [[Byte.x01; Byte.x02]; [Byte.x03]].
Definition pieces : list (list byte) := [[Byte.x01]; [Byte.x02; Byte.x03]].
Definition pipe (segs : list (list byte)) : Pipe := mkPipe segs EOF [].

Lemma random : randomness rand init.
Proof. exists [], []. split_and!; [reflexivity|constructor|reflexivity|reflexivity]. Qed.

(** The random of the client's message, and the answer of a proxy with the HMAC in its place. *)
Definition client_hello : list byte := replicate 38 Byte.x01.
Definition client_random : list byte :=
  slice 11 43 (p_sent (snd (writeClientHello (Ok client_hello) 1700000000 (s_Secret secret) (pipe [])))).
Definition hello_with (random : list byte) : record := mkRecord RecordTypeHandshake Version12Bytes (replicate 6 Byte.x00 ++ random).
Definition ccs : record := mkRecord RecordTypeChangeCipherSpec Version12Bytes [Byte.x01].
Definition cert : record := mkRecord RecordTypeApplication Version12Bytes [Byte.x09].

Definition answer (random : list byte) : list byte := concat (encode_record <$> [hello_with random; ccs; cert]).
Definition digest : list byte := Eval vm_compute in hmac (s_Secret secret) (client_random ++ answer (zeros 32)).
Definition reply : list byte := answer digest.

Lemma reply_valid : server_hello client_random (s_Secret secret) reply.
Proof.
  assert (Version12Bytes ∈ [Version13Bytes; Version12Bytes; Version11Bytes; Version10Bytes]) as Hv by (right; left).
  exists (hello_with digest), [], ccs, cert. split; [reflexivity|]. split.
  { repeat constructor; simpl; unfold RecordTypeHandshake, RecordTypeChangeCipherSpec, RecordTypeApplication; try lia; exact Hv. }
  split; [simpl; lia|]. split; [reflexivity|]. split; [vm_compute; discriminate|]. split; [constructor|].
  split; [reflexivity|]. split; [reflexivity|]. vm_compute. reflexivity.
Qed.
End ProxySample.

Lemma obfs_session_witness : exists o2 k c2' srv,
  Accept ProxySample.block (s_Secret ProxySample.secret) (ProxySample.pipe [p_sent o2]) = (Ok (k, mkMetadata ProxySample.protocol 2), c2') /\
  reads (H := obfs_rw ProxySample.block) (zlen <$> ProxySample.pieces) (mkObfs ProxySample.rand c2' (Some k)) = (Ok ProxySample.pieces, srv).
Proof.
  destruct (obfs_session (C1 := Pipe) (C2 := Pipe) ProxySample.block ProxySample.rand ProxySample.init ProxySample.protocol 2 ProxySample.secret
    (ProxySample.pipe []) ProxySample.payloads) as (o1 & o2 & _ & _ & _ & _ & Hsrv).
  - exact ProxySample.random.
  - right. vm_compute. intros H. discriminate H.
  - reflexivity.
  - exact I.
  - intros b _. exact I.
  - repeat constructor.
  - destruct (Hsrv (ProxySample.pipe [p_sent (o_conn o2)])) as (k & c2' & Hacc & Hread & _).
    + exact I.
    + cbn. rewrite app_nil_r. reflexivity.
    + destruct (Hread ProxySample.rand ProxySample.pieces eq_refl) as [srv Hr]. exists (o_conn o2), k, c2', srv. split; [exact Hacc|exact Hr].
Defined.

Lemma tls_session_witness : exists o1 o2 segs k c2' srv,
  tls_Handshake ProxySample.block 200 (Ok ProxySample.client_hello) 1700000000 ProxySample.protocol 2 ProxySample.secret
    (newTLS ProxySample.rand (ProxySample.pipe [ProxySample.reply])) = (Ok tt, o1) /\
  writes (H := obfs_rw (H := fake_rw 200) ProxySample.block) ProxySample.payloads o1 = (Ok tt, o2) /\
  Accept (H := fake_rw 200) ProxySample.block (s_Secret ProxySample.secret)
    (mkFake (mkPipe segs EOF ProxySample.reply) false []) = (Ok (k, mkMetadata ProxySample.protocol 2), c2') /\
  reads (H := obfs_rw (H := fake_rw 200) ProxySample.block) (zlen <$> ProxySample.pieces) (mkObfs ProxySample.rand c2' (Some k)) =
    (Ok ProxySample.pieces, srv).
Proof.
  destruct (tls_session ProxySample.block 200 200 EOF ProxySample.rand ProxySample.init ProxySample.protocol ProxySample.client_hello
    1700000000 2 ProxySample.secret ProxySample.payloads ProxySample.payloads) as (packet & _ & Hsent & Hrun).
  - exact ProxySample.random.
  - right. vm_compute. intros H. discriminate H.
  - reflexivity.
  - vm_compute. split; [intros H; discriminate H|reflexivity].
  - apply Nat.ltb_lt. reflexivity.
  - repeat constructor.
  - repeat constructor.
  - assert (slice 11 43 packet = ProxySample.client_random) as Hrnd by (rewrite <- (Hsent []); vm_compute; reflexivity).
    destruct (Hrun ProxySample.reply [ProxySample.reply]) as (o1 & o2 & H1 & H2 & [tail Ht] & Hsrv).
    + rewrite Hrnd. exact ProxySample.reply_valid.
    + apply app_nil_r.
    + destruct (Hsrv [tail]) as (k & c2' & Hacc & Hread & _).
      * cbn [concat]. rewrite app_nil_r. symmetry. exact Ht.
      * assert ((length (p_sent (ft_conn (o_conn o2))) <? 200)%nat = true) as Hlen.
        { pose proof H1 as E1. pose proof H2 as E2. vm_compute in E1. injection E1 as <-. vm_compute in E2. injection E2 as <-. vm_compute. reflexivity. }
        apply Nat.ltb_lt in Hlen. rewrite Ht, length_app in Hlen. cbn [concat]. rewrite app_nil_r. lia.
      * destruct (Hread ProxySample.rand ProxySample.pieces eq_refl) as [srv Hr].
        exists o1, o2, [tail], k, c2', srv. split; [exact H1|]. split; [exact H2|]. split; [exact Hacc|exact Hr].
Defined.

Lemma faketls_delivers_witness : exists o1, writes (H := fake_rw 1) ProxySample.payloads (NewFakeTLS (ProxySample.pipe [])) = (Ok tt, o1).
Proof.
  destruct (faketls_delivers (C1 := Pipe) (C2 := Pipe) 1 (ProxySample.pipe []) ProxySample.payloads ProxySample.pieces) as (o1 & H1 & _);
    [intros b; exact I|exact I|reflexivity|reflexivity|apply Nat.ltb_lt; reflexivity|repeat constructor|reflexivity|].
  exists o1. exact H1.
Defined.

Lemma faketls_long_write_cut_witness : exists o, fake_Write (replicate (Z.to_nat 65537) Byte.x01) (mkFake (mkPipe [] EOF []) true []) = (Ok tt, o).
Proof.
  destruct (faketls_long_write_cut (replicate (Z.to_nat 65537) Byte.x01) EOF) as (o & _ & _ & _ & Hw & _).
  - vm_compute. intros H. discriminate H.
  - exists o. exact Hw.
Defined.

Lemma server_hello_checked_witness : exists packet o' reply,
  fake_Handshake (Ok ProxySample.client_hello) 1700000000 ProxySample.secret
    (NewFakeTLS (ProxySample.pipe [ProxySample.reply])) = (Ok tt, o') /\
  p_sent (ft_conn o') = packet /\ server_hello (slice 11 43 packet) (s_Secret ProxySample.secret) reply /\
  ProxySample.reply = reply ++ concat (segments (ft_conn o')).
Proof.
  destruct (server_hello_checked ProxySample.client_hello 1700000000 ProxySample.secret
    (NewFakeTLS (ProxySample.pipe [ProxySample.reply]))) as (packet & r & o' & Hr & Hs & _ & _ & _ & Hback & _).
  - vm_compute. split; [intros H; discriminate H|reflexivity].
  - assert (r = Ok tt) as -> by (apply (f_equal fst) in Hr; cbn [fst] in Hr; rewrite <- Hr; vm_compute; reflexivity).
    destruct (Hback eq_refl) as (reply & H1 & H2 & _). exists packet, o', reply. split; [exact Hr|]. split; [exact Hs|].
    split; [exact H1|]. cbn [NewFakeTLS ft_conn ProxySample.pipe segments concat] in H2. rewrite app_nil_r in H2. exact H2.
Defined.

Lemma obfs_header_disguised_witness : exists hdr, zlen hdr = 64 /\ le_combine (slice 4 8 hdr) <> 0.
Proof.
  destruct (obfs_header_disguised (C := Pipe) ProxySample.block ProxySample.rand ProxySample.protocol 2 ProxySample.secret (ProxySample.pipe [])
    (snd (obfs_Handshake ProxySample.block ProxySample.protocol 2 ProxySample.secret (NewObfuscated2 ProxySample.rand (ProxySample.pipe [])))))
    as (hdr & Hz & _ & _ & Hn & _).
  - reflexivity.
  - exact I.
  - intros b. exact I.
  - vm_compute. reflexivity.
  - exists hdr. split; [exact Hz|exact Hn].
Defined.

Lemma secret_parsed_witness : exists r, ParseSecret (Byte.xee :: replicate 16 Byte.x05 ++ bytes_of_string "host") = Ok r /\ s_Type r = TLS.
Proof.
  destruct (proj1 (proj2 secret_parsed) Byte.xee (replicate 16 Byte.x05) (bytes_of_string "host") eq_refl) as (r & Hr & _ & _ & Ht & _).
  exists r. split; [exact Hr|exact Ht].
Defined.
