(* ===== verification/Pool.v ===== *)
(** * pool: connections to a data center

    Model of src/pool pool.go, req_map.go, pool_conn.go and session.go, and of Ready and
    ResetReady of src/tdsync: callers that acquire and release connections, the goroutines
    of the connections, and the requests that wait for a free one, as interleaved steps.
    A section under the mutex of the pool is one step, but for the one of release, which
    hands a connection to a waiting request: there the map of requests is updated before
    the connection is sent, and a request that gives up may run in between.  What a
    connection does with an invocation is not modelled beyond its outcome. *)
From S2P Require Import Prelude Keys.

(** ** session.go *)

Record Session : Type := mkSession { ss_DC : Z; ss_AuthKey : AuthKey; ss_Salt : Z }.
Definition Store (data : Session) (s : Session) : Session := data.
Definition Migrate (dc : Z) (s : Session) : Session := mkSession dc (mkAuthKey (zeros 256) (zeros 8)) 0.
Definition Load (s : Session) : Session := s.
(** The fields of mtproto.Options that are read or written. *)
Record Options : Type := mkOptions { op_EnablePFS : bool; op_PermKey : AuthKey; op_Key : AuthKey; op_Salt : Z }.
Definition session_Options (opts : Options) (s : Session) : Options * Session :=
  (if op_EnablePFS opts
   then mkOptions true (ss_AuthKey s) (mkAuthKey (zeros 256) (zeros 8)) (ss_Salt s)
   else mkOptions false (op_PermKey opts) (ss_AuthKey s) (ss_Salt s), s).

(** ** pool_conn.go *)

Inductive conn_pc : Type := Running | Dying | Gone.
(** [k_ready], [k_dead]: the channels Ready() and Dead() are closed. *)
Record poolConn : Type := mkPoolConn { k_ready : bool; k_deleted : bool; k_dead : bool; k_pc : conn_pc }.

(** ** pool.go *)

(** Where a caller of Invoke is.  A connection and a request are numbers. *)
Inductive caller : Type :=
| Idle
| Acquire                              (* at the lock of acquire *)
| Popped (r : nat)                     (* a free connection, before the test of Dead *)
| Creating                             (* total is raised *)
| WaitConn (r : nat)                   (* a new connection, not ready yet *)
| Requested (k : nat)                  (* before stuck.Ready() is called *)
| Blocked (k : nat) (gen : nat)        (* at the select of the third case *)
| Unblocking (k : nat) | Checking (k : nat)
| Cancelling (k : nat) | Cancelled (k : nat)
| Holding (r : nat)                    (* at conn.Invoke *)
| Killing (r : nat)                    (* in dead, before the lock *)
| Releasing (r : nat)                  (* at the lock of release *)
| Sending (k : nat) (r : nat).         (* in transfer, the request is deleted *)

(** [d_gen] counts the resets of stuck; [d_chans] are the channels of the requests,
    [d_requests] the keys in the map; [d_mu] holds the mutex between steps. *)
Record DC : Type := mkDC {
  d_conns : list poolConn; d_free : list nat; d_total : Z; d_requests : list nat; d_chans : list (option nat);
  d_gen : nat; d_mu : option nat; d_closed : bool; d_callers : list caller; d_cancelled : list nat }.

Definition NewDC (callers : nat) : DC := mkDC [] [] 0 [] [] 0 None false (replicate callers Idle) [].

Definition set_caller (i : nat) (c : caller) (s : DC) : DC :=
  mkDC (d_conns s) (d_free s) (d_total s) (d_requests s) (d_chans s) (d_gen s) (d_mu s) (d_closed s) (<[i := c]> (d_callers s)) (d_cancelled s).
Definition set_free (f : list nat) (s : DC) : DC :=
  mkDC (d_conns s) f (d_total s) (d_requests s) (d_chans s) (d_gen s) (d_mu s) (d_closed s) (d_callers s) (d_cancelled s).
Definition set_total (t : Z) (s : DC) : DC :=
  mkDC (d_conns s) (d_free s) t (d_requests s) (d_chans s) (d_gen s) (d_mu s) (d_closed s) (d_callers s) (d_cancelled s).
Definition set_conns (l : list poolConn) (s : DC) : DC :=
  mkDC l (d_free s) (d_total s) (d_requests s) (d_chans s) (d_gen s) (d_mu s) (d_closed s) (d_callers s) (d_cancelled s).
Definition set_requests (m : list nat) (ch : list (option nat)) (s : DC) : DC :=
  mkDC (d_conns s) (d_free s) (d_total s) m ch (d_gen s) (d_mu s) (d_closed s) (d_callers s) (d_cancelled s).
Definition set_mu (o : option nat) (s : DC) : DC :=
  mkDC (d_conns s) (d_free s) (d_total s) (d_requests s) (d_chans s) (d_gen s) o (d_closed s) (d_callers s) (d_cancelled s).
Definition bump_gen (s : DC) : DC :=
  mkDC (d_conns s) (d_free s) (d_total s) (d_requests s) (d_chans s) (S (d_gen s)) (d_mu s) (d_closed s) (d_callers s) (d_cancelled s).
Definition set_env (closed : bool) (cancelled : list nat) (s : DC) : DC :=
  mkDC (d_conns s) (d_free s) (d_total s) (d_requests s) (d_chans s) (d_gen s) (d_mu s) closed (d_callers s) cancelled.

Definition mark_deleted (c : poolConn) : poolConn := mkPoolConn (k_ready c) true (k_dead c) (k_pc c).
Definition mark_dead (c : poolConn) : poolConn := mkPoolConn (k_ready c) (k_deleted c) true (k_pc c).
Definition mark_ready (c : poolConn) : poolConn := mkPoolConn true (k_deleted c) (k_dead c) (k_pc c).
Definition mark_pc (p : conn_pc) (c : poolConn) : poolConn := mkPoolConn (k_ready c) (k_deleted c) (k_dead c) p.

(** pop: the last free connection *)
Definition pop (s : DC) : option (nat * DC) :=
  match last (d_free s) with
  | Some r => Some (r, set_free (take (length (d_free s) - 1) (d_free s)) s)
  | None => None
  end.

(** reqMap.request, transfer up to the send, delete *)
Definition request (s : DC) : nat * DC :=
  let k := length (d_chans s) in (k, set_requests (k :: d_requests s) (d_chans s ++ [None]) s).
Definition delete (k : nat) (s : DC) : DC :=
  set_requests (filter (fun k' => k' <> k) (d_requests s)) (d_chans s) s.

(** The last index of the connection in the free list, which is deleted. *)
Fixpoint last_index (r : nat) (l : list nat) (i : nat) (idx : option nat) : option nat :=
  match l with
  | [] => idx
  | x :: l => last_index r l (S i) (if Nat.eqb x r then Some i else idx)
  end.
Definition delete_free (r : nat) (l : list nat) : list nat :=
  match last_index r l 0 None with Some i => take i l ++ drop (S i) l | None => l end.

(** dead under the lock; ResetReady.Reset closes the channel of the waiting requests and
    makes a new one. *)
Definition dead_locked (r : nat) (s : DC) : DC :=
  let s := set_free (delete_free r (d_free s)) (set_total (d_total s - 1) s) in
  bump_gen (set_conns (alter mark_dead r (d_conns s)) s).

(** [deleted.Swap(true)]: whether the connection was deleted before. *)
Definition swap_deleted (r : nat) (s : DC) : option bool * DC :=
  (k_deleted <$> d_conns s !! r, set_conns (alter mark_deleted r (d_conns s)) s).

(** The context of the caller or the one of the pool has ended. *)
Definition ctx_done (i : nat) (s : DC) : bool := d_closed s || bool_decide (i ∈ d_cancelled s).

Section Pool.
(** c.max *)
Context (max : Z).

(** A caller enters dead for [r] and tries again: at once when it was deleted. *)
Definition kill (i r : nat) (s : DC) : DC :=
  match swap_deleted r s with
  | (Some true, s) => set_caller i Acquire s
  | (_, s) => set_caller i (Killing r) s
  end.

Inductive pool_step : DC -> DC -> Prop :=
(* Invoke *)
| pool_invoke s i : d_callers s !! i = Some Idle -> d_closed s = false -> pool_step s (set_caller i Acquire s)
(* acquire *)
| pool_pop s i r s' : d_callers s !! i = Some Acquire -> d_mu s = None -> pop s = Some (r, s') ->
    pool_step s (set_caller i (Popped r) s')
| pool_popped_dead s i r c : d_callers s !! i = Some (Popped r) -> d_conns s !! r = Some c -> k_dead c = true ->
    pool_step s (kill i r s)
| pool_popped s i r c : d_callers s !! i = Some (Popped r) -> d_conns s !! r = Some c -> k_dead c = false ->
    pool_step s (set_caller i (Holding r) s)
| pool_create s i : d_callers s !! i = Some Acquire -> d_mu s = None -> pop s = None -> (max <? 1) || (d_total s <? max) = true ->
    pool_step s (set_caller i Creating (set_total (d_total s + 1) s))
| pool_created s i : d_callers s !! i = Some Creating ->
    pool_step s (set_caller i (WaitConn (length (d_conns s))) (set_conns (d_conns s ++ [mkPoolConn false false false Running]) s))
| pool_conn_ready s i r c : d_callers s !! i = Some (WaitConn r) -> d_conns s !! r = Some c -> k_ready c = true ->
    pool_step s (set_caller i (Holding r) s)
| pool_conn_dead s i r c : d_callers s !! i = Some (WaitConn r) -> d_conns s !! r = Some c -> k_dead c = true ->
    pool_step s (kill i r s)
| pool_conn_ctx s i r : d_callers s !! i = Some (WaitConn r) -> ctx_done i s = true -> pool_step s (set_caller i Idle s)
| pool_request s i k s' : d_callers s !! i = Some Acquire -> d_mu s = None -> pop s = None ->
    (max <? 1) || (d_total s <? max) = false -> request s = (k, s') ->
    pool_step s (set_caller i (Requested k) s')
| pool_block s i k : d_callers s !! i = Some (Requested k) -> pool_step s (set_caller i (Blocked k (d_gen s)) s)
| pool_got s i k g r : d_callers s !! i = Some (Blocked k g) -> d_chans s !! k = Some (Some r) ->
    pool_step s (set_caller i (Holding r) (set_requests (d_requests s) (<[k := None]> (d_chans s)) s))
| pool_stuck s i k g : d_callers s !! i = Some (Blocked k g) -> (g < d_gen s)%nat -> pool_step s (set_caller i (Unblocking k) s)
| pool_unblock s i k : d_callers s !! i = Some (Unblocking k) -> pool_step s (set_caller i (Checking k) (delete k s))
| pool_check_got s i k r : d_callers s !! i = Some (Checking k) -> d_chans s !! k = Some (Some r) ->
    pool_step s (set_caller i (Holding r) (set_requests (d_requests s) (<[k := None]> (d_chans s)) s))
| pool_check_none s i k : d_callers s !! i = Some (Checking k) -> d_chans s !! k = Some None ->
    pool_step s (set_caller i Acquire s)
| pool_ctx s i k g : d_callers s !! i = Some (Blocked k g) -> ctx_done i s = true -> pool_step s (set_caller i (Cancelling k) s)
| pool_cancel_delete s i k : d_callers s !! i = Some (Cancelling k) -> pool_step s (set_caller i (Cancelled k) (delete k s))
| pool_cancel_got s i k r : d_callers s !! i = Some (Cancelled k) -> d_chans s !! k = Some (Some r) ->
    pool_step s (set_caller i (Releasing r) (set_requests (d_requests s) (<[k := None]> (d_chans s)) s))
| pool_cancel_none s i k : d_callers s !! i = Some (Cancelled k) -> d_chans s !! k = Some None -> pool_step s (set_caller i Idle s)
(* the outcomes of conn.Invoke *)
| pool_done s i r : d_callers s !! i = Some (Holding r) -> pool_step s (set_caller i (Releasing r) s)
| pool_retry s i r c : d_callers s !! i = Some (Holding r) -> d_conns s !! r = Some c -> bool_decide (i ∈ d_cancelled s) = false ->
    pool_step s (kill i r s)
(* release *)
| pool_release s i r : d_callers s !! i = Some (Releasing r) -> d_mu s = None -> d_requests s = [] ->
    pool_step s (set_caller i Idle (set_free (d_free s ++ [r]) s))
| pool_transfer s i r k : d_callers s !! i = Some (Releasing r) -> d_mu s = None -> k ∈ d_requests s ->
    pool_step s (set_caller i (Sending k r) (set_mu (Some i) (delete k s)))
| pool_send s i k r : d_callers s !! i = Some (Sending k r) -> d_chans s !! k = Some None ->
    pool_step s (set_caller i Idle (set_mu None (set_requests (d_requests s) (<[k := Some r]> (d_chans s)) s)))
(* dead, called by a caller *)
| pool_dead s i r : d_callers s !! i = Some (Killing r) -> d_mu s = None -> pool_step s (set_caller i Acquire (dead_locked r s))
(* the goroutine of a connection: it gets ready, and Run returns *)
| pool_ready s r c : d_conns s !! r = Some c -> k_pc c = Running -> pool_step s (set_conns (alter mark_ready r (d_conns s)) s)
| pool_run_returns s r c s' d : d_conns s !! r = Some c -> k_pc c = Running -> swap_deleted r s = (Some d, s') ->
    pool_step s (set_conns (alter (mark_pc (if d then Gone else Dying)) r (d_conns s')) s')
| pool_dies s r c : d_conns s !! r = Some c -> k_pc c = Dying -> d_mu s = None ->
    pool_step s (set_conns (alter (mark_pc Gone) r (d_conns (dead_locked r s))) (dead_locked r s))
(* the contexts end; Close *)
| pool_cancel s i : pool_step s (set_env (d_closed s) (i :: d_cancelled s) s)
| pool_close s : pool_step s (set_env true (d_cancelled s) s).

Inductive pool_reachable (callers : nat) : DC -> Prop :=
| pool_reach_init : pool_reachable callers (NewDC callers)
| pool_reach_step s s' : pool_reachable callers s -> pool_step s s' -> pool_reachable callers s'.
End Pool.


(** ** The connections that are counted *)

(** A caller that has raised total before its connection exists, or deleted a connection
    before total is lowered, is counted, and so is a connection that is not deleted or
    whose goroutine has yet to lower total. *)
Definition caller_counts (c : caller) : list unit := match c with Creating | Killing _ => [tt] | _ => [] end.
Definition conn_counts (c : poolConn) : list unit :=
  match k_deleted c, k_pc c with false, _ | true, Dying => [tt] | true, _ => [] end.
Definition counted (s : DC) : nat := length (flat_map caller_counts (d_callers s)) + length (flat_map conn_counts (d_conns s)).

Record pool_counts (max : Z) (s : DC) : Prop := mkPoolCounts {
  pct_total : d_total s = Z.of_nat (counted s);
  pct_max : 1 <= max -> d_total s <= max;
  pct_deleted : Forall (fun c => k_pc c <> Running -> k_deleted c = true) (d_conns s) }.

Lemma alter_at {A} (f : A -> A) (l : list A) i x : l !! i = Some x -> alter f i l = <[i := f x]> l.
Proof. revert i. induction l as [|y l IH]; intros [|i] Hi; simpl in *; [done..|by injection Hi as ->|]. f_equal. by apply IH. Qed.

Lemma flat_map_length_insert {A B} (f : A -> list B) (l : list A) i x old :
  l !! i = Some old -> (length (f old) + length (flat_map f (<[i := x]> l)) = length (f x) + length (flat_map f l))%nat.
Proof. intros Hi. pose proof (flat_map_insert f l i x old Hi) as H%Permutation_length. by rewrite !length_app in H. Qed.

Lemma flat_map_same {A B} (f : A -> list B) (g : A -> A) (l : list A) i :
  (forall x, f (g x) = f x) -> flat_map f (alter g i l) = flat_map f l.
Proof. intros Hg. revert i. induction l as [|y l IH]; intros [|i]; simpl; [done..|by rewrite Hg|]. f_equal. by apply IH. Qed.

(** The parts of a state that the count depends on. *)
Lemma counts_caller max s i c old : pool_counts max s -> d_callers s !! i = Some old ->
  length (caller_counts c) = length (caller_counts old) -> pool_counts max (set_caller i c s).
Proof.
  intros [Ht Hm Hd] Hi Hc. pose proof (flat_map_length_insert caller_counts _ i c old Hi) as HP.
  split; cbn [set_caller d_total d_conns]; [|done..]. rewrite Ht. unfold counted. cbn [set_caller d_callers d_conns]. lia.
Qed.

Lemma counts_other max s s' : pool_counts max s -> d_total s' = d_total s -> d_conns s' = d_conns s -> d_callers s' = d_callers s ->
  pool_counts max s'.
Proof. intros [Ht Hm Hd] Ht' Hc' Hs'. split; unfold counted in *; by rewrite ?Ht', ?Hc', ?Hs'. Qed.

Lemma counts_mark max s g r : pool_counts max s -> (forall c, conn_counts (g c) = conn_counts c) ->
  (forall c, k_pc (g c) = k_pc c) -> (forall c, k_deleted (g c) = k_deleted c) -> pool_counts max (set_conns (alter g r (d_conns s)) s).
Proof.
  intros [Ht Hm Hd] Hc Hp Hdel. split; cbn [set_conns d_total d_conns]; [|done|].
  - rewrite Ht. unfold counted. cbn [set_conns d_callers d_conns]. by rewrite flat_map_same.
  - apply Forall_alter; [done|]. intros x _ Hx. by rewrite Hp, Hdel.
Qed.

Lemma counts_conn max s r c c' : pool_counts max s -> d_conns s !! r = Some c -> length (conn_counts c') = length (conn_counts c) ->
  (k_pc c' <> Running -> k_deleted c' = true) -> pool_counts max (set_conns (<[r := c']> (d_conns s)) s).
Proof.
  intros [Ht Hm Hd] Hr Hc Hdel. pose proof (flat_map_length_insert conn_counts _ r c' c Hr) as HP.
  split; cbn [set_conns d_total d_conns]; [|done|by apply Forall_insert].
  rewrite Ht. unfold counted. cbn [set_conns d_callers d_conns]. lia.
Qed.

Lemma counts_kill max s i r c old : pool_counts max s -> d_callers s !! i = Some old -> caller_counts old = [] ->
  d_conns s !! r = Some c -> pool_counts max (kill i r s).
Proof.
  intros Hs Hi Ho Hr. pose proof (pct_deleted _ _ Hs) as Hd. pose proof (Forall_lookup_1 _ _ _ _ Hd Hr) as Hdel.
  unfold kill, swap_deleted. rewrite Hr, (alter_at _ _ _ _ Hr). cbn [fmap option_fmap option_map].
  destruct (k_deleted c) eqn:Hk.
  - apply (counts_caller _ _ _ _ old); [|exact Hi|by rewrite Ho].
    apply (counts_conn _ _ _ c); [done..| |done]. unfold conn_counts, mark_deleted. simpl. by rewrite Hk.
  - assert (Hp : k_pc c = Running) by (destruct (k_pc c) eqn:Hpc; [done|..]; assert (k_deleted c = true) by (apply Hdel; congruence); congruence).
    destruct Hs as [Ht Hm _]. pose proof (flat_map_length_insert caller_counts _ i (Killing r) old Hi) as H1.
    pose proof (flat_map_length_insert conn_counts _ r (mark_deleted c) c Hr) as H2.
    assert (E : conn_counts c = [tt] /\ conn_counts (mark_deleted c) = []).
    { unfold conn_counts, mark_deleted. cbn [k_deleted k_pc]. by rewrite Hk, Hp. }
    destruct E as [E1 E2]. rewrite E1, E2 in H2. rewrite Ho in H1. cbn [caller_counts length] in H1, H2.
    split; cbn [set_caller set_conns d_total d_conns]; [|done|by apply Forall_insert].
    rewrite Ht. unfold counted. cbn [set_caller set_conns d_callers d_conns]. lia.
Qed.

(** dead under the lock lowers the count by one. *)
Lemma counts_dead max s s' : pool_counts max s -> d_total s' = d_total s - 1 -> (S (counted s') = counted s)%nat ->
  Forall (fun c => k_pc c <> Running -> k_deleted c = true) (d_conns s') -> pool_counts max s'.
Proof. intros [Ht Hm Hd] Ht' Hc' Hd'. split; [lia| |done]. intros H. specialize (Hm H). lia. Qed.

Lemma dead_locked_total r s : d_total (dead_locked r s) = d_total s - 1.
Proof. done. Qed.

Lemma dead_locked_counts r s : flat_map conn_counts (d_conns (dead_locked r s)) = flat_map conn_counts (d_conns s).
Proof. unfold dead_locked, bump_gen, set_conns. cbn [d_conns]. by apply flat_map_same. Qed.

Lemma dead_locked_deleted r s : Forall (fun c => k_pc c <> Running -> k_deleted c = true) (d_conns s) ->
  Forall (fun c => k_pc c <> Running -> k_deleted c = true) (d_conns (dead_locked r s)).
Proof. intros H. by apply Forall_alter. Qed.

Lemma counts_pool_dead max s i r : pool_counts max s -> d_callers s !! i = Some (Killing r) ->
  pool_counts max (set_caller i Acquire (dead_locked r s)).
Proof.
  intros Hs Hi. pose proof (flat_map_length_insert caller_counts _ i Acquire _ Hi) as HP. simpl in HP.
  apply (counts_dead _ s); [done..| |by apply dead_locked_deleted, (pct_deleted _ _ Hs)].
  unfold counted. cbn [set_caller d_callers d_conns]. rewrite dead_locked_counts. cbn [dead_locked bump_gen set_conns set_free set_total d_callers]. lia.
Qed.

Lemma counts_pool_dies max s r c : pool_counts max s -> d_conns s !! r = Some c -> k_pc c = Dying ->
  pool_counts max (set_conns (alter (mark_pc Gone) r (d_conns (dead_locked r s))) (dead_locked r s)).
Proof.
  intros Hs Hr Hp. pose proof (pct_deleted _ _ Hs) as Hd.
  assert (Hk : k_deleted c = true) by (apply (Forall_lookup_1 _ _ _ _ Hd Hr); by rewrite Hp).
  assert (Hr' : d_conns (dead_locked r s) !! r = Some (mark_dead c)).
  { unfold dead_locked, bump_gen, set_conns. cbn [d_conns set_free set_total]. by rewrite list_lookup_alter_eq, Hr. }
  rewrite (alter_at _ _ _ _ Hr'). pose proof (flat_map_length_insert conn_counts _ r (mark_pc Gone (mark_dead c)) _ Hr') as HP.
  assert (E : conn_counts (mark_dead c) = [tt] /\ conn_counts (mark_pc Gone (mark_dead c)) = []).
  { unfold conn_counts, mark_pc, mark_dead. cbn [k_deleted k_pc]. by rewrite Hk, Hp. }
  destruct E as [E1 E2]. rewrite E1, E2 in HP. cbn [length] in HP.
  apply (counts_dead _ s); [done..| |apply Forall_insert; [by apply dead_locked_deleted|by intros _; simpl]].
  unfold counted. cbn [set_conns d_callers d_conns]. rewrite <- (dead_locked_counts r s).
  cbn [dead_locked bump_gen set_conns set_free set_total d_callers] in *. lia.
Qed.

Lemma counts_create max s i : pool_counts max s -> d_callers s !! i = Some Acquire -> (max <? 1) || (d_total s <? max) = true ->
  pool_counts max (set_caller i Creating (set_total (d_total s + 1) s)).
Proof.
  intros [Ht Hm Hd] Hi Hc. pose proof (flat_map_length_insert caller_counts _ i Creating _ Hi) as HP. cbn [caller_counts length] in HP.
  split; cbn [set_caller set_total d_total d_conns]; [|lia|done].
  rewrite Ht. unfold counted. cbn [set_caller set_total d_callers d_conns]. lia.
Qed.

Lemma counts_created max s i : pool_counts max s -> d_callers s !! i = Some Creating ->
  pool_counts max (set_caller i (WaitConn (length (d_conns s))) (set_conns (d_conns s ++ [mkPoolConn false false false Running]) s)).
Proof.
  intros [Ht Hm Hd] Hi. pose proof (flat_map_length_insert caller_counts _ i (WaitConn (length (d_conns s))) _ Hi) as HP.
  cbn [caller_counts length] in HP.
  split; cbn [set_caller set_conns d_total d_conns]; [|done|by apply Forall_app; split; [|repeat constructor]].
  rewrite Ht. unfold counted. cbn [set_caller set_conns d_callers d_conns]. rewrite flat_map_app, length_app. simpl. lia.
Qed.

Lemma counts_run_returns max s r c s' d : pool_counts max s -> d_conns s !! r = Some c -> k_pc c = Running -> swap_deleted r s = (Some d, s') ->
  pool_counts max (set_conns (alter (mark_pc (if d then Gone else Dying)) r (d_conns s')) s').
Proof.
  intros Hs Hr Hp. unfold swap_deleted. rewrite Hr, (alter_at _ _ _ _ Hr). cbn [fmap option_fmap option_map]. intros [= <- <-].
  assert (Hr' : <[r := mark_deleted c]> (d_conns s) !! r = Some (mark_deleted c)) by (by apply list_lookup_insert_eq, (lookup_lt_Some _ _ _ Hr)).
  cbn [set_conns d_conns]. rewrite (alter_at _ _ _ _ Hr'), list_insert_insert_eq.
  apply (counts_conn _ s r c); [done..| |by intros _; simpl].
  unfold conn_counts, mark_pc, mark_deleted. cbn [k_deleted k_pc]. rewrite Hp. by destruct (k_deleted c).
Qed.

Ltac counts_step :=
  first [ by eapply counts_caller; [eassumption|eassumption|reflexivity]
        | by eapply counts_caller; [eapply counts_other; [eassumption|reflexivity..]|eassumption|reflexivity]
        | by eapply counts_kill; [eassumption|eassumption|reflexivity|eassumption]
        | by eapply counts_other; [eassumption|reflexivity..] ].

Lemma pop_free s r s' : pop s = Some (r, s') -> exists f, d_free s = f ++ [r] /\ s' = set_free f s.
Proof.
  unfold pop. destruct (last (d_free s)) as [x|] eqn:Hl; [|done]. intros [= -> <-]. apply last_Some in Hl as [f Hf].
  exists f. split; [done|]. rewrite Hf, length_app. simpl. rewrite take_app_le by lia. by rewrite take_ge by lia.
Qed.

Lemma counts_pool_step max s s' : pool_counts max s -> pool_step max s s' -> pool_counts max s'.
Proof.
  intros Hs Hstep. destruct Hstep; try counts_step.
  - match goal with H : pop _ = _ |- _ => apply pop_free in H as (f & _ & ->) end. counts_step.
  - by apply counts_create.
  - by apply counts_created.
  - match goal with H : request _ = _ |- _ => injection H as <- <- end. counts_step.
  - by apply counts_pool_dead.
  - by apply counts_mark.
  - by eapply counts_run_returns.
  - by eapply counts_pool_dies.
Qed.

Lemma counts_reachable max callers s : pool_reachable max callers s -> pool_counts max s.
Proof.
  induction 1 as [|s s' _ IH Hstep]; [|by eapply counts_pool_step].
  split; cbn [NewDC d_total d_conns]; [|lia|constructor]. unfold counted. cbn [NewDC d_callers d_conns flat_map length].
  by induction callers as [|n IH].
Qed.

(** ** Who has a connection *)

Definition held (c : caller) : list nat :=
  match c with Popped r | WaitConn r | Holding r | Releasing r | Sending _ r => [r] | _ => [] end.
Definition sent (o : option nat) : list nat := match o with Some r => [r] | None => [] end.
(** The free connections, those in the hands of the callers and those in the channels. *)
Definition owners (s : DC) : list nat := d_free s ++ flat_map held (d_callers s) ++ flat_map sent (d_chans s).

Record pool_owned (s : DC) : Prop := mkPoolOwned {
  pow_nodup : NoDup (owners s);
  pow_conns : Forall (fun r => (r < length (d_conns s))%nat) (owners s) }.

Lemma owned_sub s s' : pool_owned s -> owners s' ⊆+ owners s -> (length (d_conns s) <= length (d_conns s'))%nat -> pool_owned s'.
Proof.
  intros [Hn Hc] Hsub Hl. split; [apply submseteq_Permutation in Hsub as [k Hk]; rewrite Hk in Hn; by apply NoDup_app in Hn as [Hn _]|].
  apply Forall_forall. intros r Hr. rewrite Forall_forall in Hc. specialize (Hc r (elem_of_submseteq _ _ _ Hr Hsub)). lia.
Qed.

Lemma held_swap s i c old : d_callers s !! i = Some old -> held c ⊆+ held old ->
  flat_map held (<[i := c]> (d_callers s)) ⊆+ flat_map held (d_callers s).
Proof.
  intros Hi [k Hk]%submseteq_Permutation. pose proof (flat_map_insert held _ i c old Hi) as HP.
  rewrite Hk, <- app_assoc in HP. apply Permutation_app_inv_l in HP. rewrite <- HP. by apply submseteq_inserts_l.
Qed.

Lemma owned_caller s s' i c old : pool_owned s -> d_callers s !! i = Some old -> held c ⊆+ held old ->
  d_callers s' = <[i := c]> (d_callers s) -> d_free s' ⊆+ d_free s -> d_chans s' = d_chans s -> length (d_conns s') = length (d_conns s) ->
  pool_owned s'.
Proof.
  intros Hs Hi Hc Hcs Hf Hch Hl. apply (owned_sub s); [done| |lia]. unfold owners. rewrite Hcs, Hch.
  by apply submseteq_app; [|apply submseteq_app; [eapply held_swap|]].
Qed.

(** A connection that moves keeps one owner. *)
Lemma owned_perm s s' : pool_owned s -> owners s' ≡ₚ owners s -> length (d_conns s') = length (d_conns s) -> pool_owned s'.
Proof. intros Hs HP Hl. apply (owned_sub s); [done|by apply Permutation_submseteq|lia]. Qed.

Lemma owned_receive s i c old k r : pool_owned s -> d_callers s !! i = Some old -> held old = [] -> held c = [r] ->
  d_chans s !! k = Some (Some r) -> pool_owned (set_caller i c (set_requests (d_requests s) (<[k := None]> (d_chans s)) s)).
Proof.
  intros Hs Hi Ho Hc Hk. apply (owned_perm s); [done| |done]. unfold owners. cbn [set_caller set_requests d_free d_callers d_chans].
  f_equiv. pose proof (flat_map_insert held _ i c old Hi) as H1. pose proof (flat_map_insert sent _ k None _ Hk) as H2.
  rewrite Ho, Hc in H1. cbn [sent app] in H1, H2. rewrite H1, <- H2. cbn [app]. apply Permutation_middle.
Qed.

Lemma owned_send s i k r : pool_owned s -> d_callers s !! i = Some (Sending k r) -> d_chans s !! k = Some None ->
  pool_owned (set_caller i Idle (set_mu None (set_requests (d_requests s) (<[k := Some r]> (d_chans s)) s))).
Proof.
  intros Hs Hi Hk. apply (owned_perm s); [done| |done]. unfold owners. cbn [set_caller set_mu set_requests d_free d_callers d_chans].
  f_equiv. pose proof (flat_map_insert held _ i Idle _ Hi) as H1. pose proof (flat_map_insert sent _ k (Some r) _ Hk) as H2.
  cbn [held sent app] in H1, H2. rewrite <- H1, H2. cbn [app]. symmetry. apply Permutation_middle.
Qed.

Lemma owned_pop s i r f : pool_owned s -> d_callers s !! i = Some Acquire -> d_free s = f ++ [r] ->
  pool_owned (set_caller i (Popped r) (set_free f s)).
Proof.
  intros Hs Hi Hf. apply (owned_perm s); [done| |done]. unfold owners. cbn [set_caller set_free d_free d_callers d_chans].
  pose proof (flat_map_insert held _ i (Popped r) _ Hi) as H1. cbn [held app] in H1. by rewrite H1, Hf, <- app_assoc.
Qed.

Lemma owned_release s i r : pool_owned s -> d_callers s !! i = Some (Releasing r) ->
  pool_owned (set_caller i Idle (set_free (d_free s ++ [r]) s)).
Proof.
  intros Hs Hi. apply (owned_perm s); [done| |done]. unfold owners. cbn [set_caller set_free d_free d_callers d_chans].
  pose proof (flat_map_insert held _ i Idle _ Hi) as H1. cbn [held app] in H1. by rewrite <- H1, <- app_assoc.
Qed.

Lemma owned_created s i : pool_owned s -> d_callers s !! i = Some Creating ->
  pool_owned (set_caller i (WaitConn (length (d_conns s))) (set_conns (d_conns s ++ [mkPoolConn false false false Running]) s)).
Proof.
  intros [Hn Hc] Hi. pose proof (flat_map_insert held _ i (WaitConn (length (d_conns s))) _ Hi) as H1. cbn [held app] in H1.
  set (s' := set_caller _ _ _). assert (HP : owners s' ≡ₚ length (d_conns s) :: owners s).
  { unfold owners, s'. cbn [set_caller set_conns d_free d_callers d_chans]. rewrite H1. cbn [app]. symmetry. apply Permutation_middle. }
  split; rewrite HP.
  - constructor; [|done]. intros Hin. rewrite Forall_forall in Hc. specialize (Hc _ Hin). lia.
  - unfold s'. cbn [set_caller set_conns d_conns]. rewrite length_app. simpl. constructor; [lia|]. eapply Forall_impl; [exact Hc|]. simpl. lia.
Qed.

Lemma delete_free_sub r l : delete_free r l ⊆+ l.
Proof.
  unfold delete_free. destruct (last_index r l 0 None) as [i|]; [|done]. rewrite <- (take_drop i l) at 3.
  apply submseteq_app; [done|]. apply sublist_submseteq. rewrite <- Nat.add_1_r, <- drop_drop. apply sublist_drop.
Qed.

Lemma owned_kill s i r old : pool_owned s -> d_callers s !! i = Some old -> pool_owned (kill i r s).
Proof.
  intros Hs Hi. unfold kill, swap_deleted. destruct (k_deleted <$> d_conns s !! r) as [[]|];
    (eapply (owned_caller s); [done|exact Hi| |reflexivity|done|done|by cbn [set_caller set_conns d_conns]; rewrite length_alter]);
    apply submseteq_nil_l.
Qed.

Lemma owned_conns s l : pool_owned s -> length l = length (d_conns s) -> pool_owned (set_conns l s).
Proof. intros Hs Hl. by apply (owned_perm s). Qed.

Lemma owned_dead_locked r s : pool_owned s -> pool_owned (dead_locked r s).
Proof.
  intros Hs. apply (owned_sub s); [done| |].
  - unfold owners. cbn [dead_locked bump_gen set_conns set_free set_total d_free d_callers d_chans].
    apply submseteq_app; [apply delete_free_sub|done].
  - cbn [dead_locked bump_gen set_conns set_free set_total d_conns]. by rewrite length_alter.
Qed.

Ltac owned_step :=
  first [ by eapply owned_caller; [eassumption|eassumption| |reflexivity..]
        | by eapply owned_kill; eassumption
        | by eapply owned_receive; [eassumption|eassumption|reflexivity|reflexivity|eassumption]
        | by apply owned_send | by apply owned_release | by apply owned_created
        | by eapply owned_perm; [eassumption|reflexivity..] ].

Lemma owned_pool_step max s s' : pool_owned s -> pool_step max s s' -> pool_owned s'.
Proof.
  intros Hs Hstep. destruct Hstep; try owned_step.
  - match goal with H : pop _ = _ |- _ => apply pop_free in H as (f & Hf & ->) end. by apply owned_pop.
  - eapply (owned_caller _ _ _ Idle); [eassumption|eassumption|apply submseteq_nil_l|reflexivity..].
  - match goal with H : request _ = _ |- _ => injection H as <- <- end. apply (owned_sub s); [done| |done].
    unfold owners. cbn [set_caller set_requests d_free d_callers d_chans]. rewrite flat_map_app. simpl. rewrite app_nil_r.
    apply submseteq_app; [done|]. apply submseteq_app; [|done]. by eapply held_swap.
  - by eapply owned_caller; [apply owned_dead_locked; eassumption|eassumption| |reflexivity..].
  - apply owned_conns; [done|]. by rewrite length_alter.
  - match goal with H : swap_deleted _ _ = _ |- _ => injection H as _ <- end.
    apply owned_conns; [apply owned_conns|cbn [set_conns d_conns]]; by rewrite ?length_alter.
  - apply owned_conns; [by apply owned_dead_locked|]. by rewrite length_alter.
Qed.

Lemma owned_reachable max callers s : pool_reachable max callers s -> pool_owned s.
Proof.
  induction 1 as [|s s' _ IH Hstep]; [|by eapply owned_pool_step].
  assert (H : owners (NewDC callers) = []). { unfold owners. cbn [NewDC d_free d_callers d_chans flat_map app]. by induction callers as [|n IH]. }
  split; rewrite H; constructor.
Qed.

(** ** A pool that no caller can use *)

Definition waits_on (c : caller) : option nat :=
  match c with
  | Requested k | Blocked k _ | Unblocking k | Checking k | Cancelling k | Cancelled k => Some k
  | _ => None
  end.
(** All connections are counted, none is free, in the hands of a caller or on the way to
    one. *)
Record exhausted (max : Z) (s : DC) : Prop := mkExhausted {
  ex_max : 1 <= max;
  ex_total : d_total s = max;
  ex_free : d_free s = [];
  ex_callers : Forall (fun c => held c = [] /\ caller_counts c = [] /\ forall k, waits_on c = Some k -> d_chans s !! k = Some None) (d_callers s);
  ex_conns : Forall (fun c => k_pc c <> Dying) (d_conns s) }.

(** A step in which Run of no connection returns. *)
Definition quiet_step (max : Z) (s s' : DC) : Prop :=
  pool_step max s s' /\ forall r c, d_conns s !! r = Some c -> k_pc c = Running -> exists c', d_conns s' !! r = Some c' /\ k_pc c' = Running.

Lemma exhausted_caller max s s' i c : exhausted max s -> d_callers s' = <[i := c]> (d_callers s) -> held c = [] -> caller_counts c = [] ->
  (forall k, waits_on c = Some k -> d_chans s' !! k = Some None) -> d_total s' = d_total s -> d_free s' = d_free s ->
  d_chans s `prefix_of` d_chans s' -> d_conns s' = d_conns s -> exhausted max s'.
Proof.
  intros [Hm Ht Hf Hc Hk] Hcs Hh Hcc Hw Ht' Hf' Hch Hk'. split; [done|by rewrite Ht'|by rewrite Hf'| |by rewrite Hk'].
  rewrite Hcs. apply Forall_insert; [|done]. eapply Forall_impl; [exact Hc|]. intros x (H1 & H2 & H3). split; [done|]. split; [done|].
  intros k Hx. destruct Hch as [t ->]. apply lookup_app_l_Some. by apply H3.
Qed.

Lemma exhausted_stays max s s' : exhausted max s -> quiet_step max s s' -> exhausted max s'.
Proof.
  intros Hs [Hstep Hq]. pose proof Hs as [Hm Ht Hf Hc Hk].
  assert (Hat : forall i c, d_callers s !! i = Some c -> held c = [] /\ caller_counts c = [] /\ forall k, waits_on c = Some k -> d_chans s !! k = Some None)
    by (intros i c Hi; exact (Forall_lookup_1 _ _ _ _ Hc Hi)).
  destruct Hstep;
    try match goal with H : d_callers _ !! _ = Some _ |- _ => pose proof (Hat _ _ H) as (Hh & Hcc & Hw); try discriminate Hh; try discriminate Hcc end;
    try match goal with H : d_chans _ !! _ = Some (Some _) |- _ => rewrite Hw in H by done; discriminate H end;
    try (by eapply exhausted_caller; [eassumption|reflexivity|reflexivity|reflexivity|first [exact Hw|by intros ? [=]]|reflexivity..]).
  - match goal with H : pop _ = _ |- _ => apply pop_free in H as (f & Hf' & ->) end. rewrite Hf in Hf'. by destruct f.
  - match goal with H : _ || _ = true |- _ => apply orb_true_iff in H as [H | H]; lia end.
  - match goal with H : request _ = _ |- _ => injection H as <- <- end.
    eapply exhausted_caller; [eassumption|reflexivity|reflexivity|reflexivity| |reflexivity|reflexivity|by apply prefix_app_r|reflexivity].
    intros k [= <-]. cbn [set_caller set_requests d_chans]. by apply list_lookup_middle.
  - split; [done..|]. apply Forall_alter; [done|]. by intros x _ Hx.
  - exfalso. match goal with H : d_conns _ !! _ = Some _, H' : k_pc _ = Running |- _ => destruct (Hq _ _ H H') as (c' & Hc' & Hp') end.
    match goal with H : swap_deleted _ _ = _ |- _ => injection H as _ <- end. cbn [set_conns d_conns] in Hc'.
    rewrite !list_lookup_alter_eq in Hc'. destruct (d_conns s !! r); [|done]. injection Hc' as <-. by destruct d.
  - exfalso. match goal with H : d_conns _ !! _ = Some _ |- _ => by apply (Forall_lookup_1 _ _ _ _ Hk H) end.
  - by split.
  - by split.
Qed.

Lemma exhausted_quiet max s s' : exhausted max s -> rtc (quiet_step max) s s' -> exhausted max s'.
Proof. intros Hs Hr. induction Hr as [|s1 s2 s3 Hst _ IH]; [done|]. by apply IH, (exhausted_stays _ s1). Qed.

Lemma exhausted_none_holds max s i r : exhausted max s -> d_callers s !! i <> Some (Holding r).
Proof. intros [_ _ _ Hc _] Hi. by destruct (Forall_lookup_1 _ _ _ _ Hc Hi) as [Hh _]. Qed.

Lemma flat_map_at {A B} (f : A -> list B) (l : list A) i x : l !! i = Some x -> (length (f x) <= length (flat_map f l))%nat.
Proof.
  intros Hi. rewrite <- (take_drop_middle _ _ _ Hi), flat_map_app. simpl. rewrite !length_app. lia.
Qed.

Lemma flat_map_index {A B} (f : A -> list B) (l : list A) i j x y a : NoDup (flat_map f l) -> l !! i = Some x -> l !! j = Some y ->
  a ∈ f x -> a ∈ f y -> i = j.
Proof.
  assert (Hin : forall (l : list A) j y, l !! j = Some y -> a ∈ f y -> a ∈ flat_map f l).
  { intros l' j' y' Hj Ha. rewrite <- (take_drop_middle _ _ _ Hj), flat_map_app, elem_of_app. simpl. rewrite elem_of_app. by auto. }
  revert i j. induction l as [|z l IH]; intros [|i] [|j]; simpl; [done..| | |]; intros (_ & Hd & Hn)%NoDup_app Hi Hj Hx Hy.
  - injection Hi as ->. exfalso. apply (Hd a); [done|]. by eapply Hin.
  - injection Hj as ->. exfalso. apply (Hd a); [done|]. by eapply Hin.
  - f_equal. by apply IH.
Qed.

Lemma alive_counted l : (length (filter (fun c => k_deleted c = false) l) <= length (flat_map conn_counts l))%nat.
Proof.
  induction l as [|c l IH]; [done|]. rewrite filter_cons. simpl. rewrite length_app.
  destruct (decide (k_deleted c = false)) as [Hk|]; [|lia]. unfold conn_counts at 1. rewrite Hk. simpl. lia.
Qed.

(** C15: whatever the callers, the connections and the contexts do, the pool counts its connections
    rightly: at most total of them are not deleted, total stays within the limit when there
    is one, and when dead lowers it, for a caller or for the goroutine of a connection, it
    does not get negative, so that the panic marked unreachable is. *)
Theorem pool_limit max callers s : pool_reachable max callers s ->
  Z.of_nat (length (filter (fun c => k_deleted c = false) (d_conns s))) <= d_total s /\
  (1 <= max -> d_total s <= max) /\
  (forall i r, d_callers s !! i = Some (Killing r) -> 0 <= d_total (dead_locked r s)) /\
  (forall r c, d_conns s !! r = Some c -> k_pc c = Dying -> 0 <= d_total (dead_locked r s)).
Proof.
  intros [Ht Hm Hd]%counts_reachable. unfold counted in Ht. pose proof (alive_counted (d_conns s)) as Ha.
  split; [lia|]. split; [done|]. split.
  - intros i r Hi%(flat_map_at caller_counts). rewrite dead_locked_total. simpl in Hi. lia.
  - intros r c Hr Hp. apply (flat_map_at conn_counts) in Hr. unfold conn_counts in Hr at 1. rewrite Hp in Hr.
    rewrite dead_locked_total. destruct (k_deleted c); simpl in Hr; lia.
Qed.

(** C14: a connection that a caller has taken, is testing, uses, releases or hands over is in the
    hands of no other caller and not in the free list, which has no duplicates; so acquire
    never gives one connection to two callers. *)
Theorem pool_exclusive max callers s : pool_reachable max callers s ->
  (forall i j ci cj r, d_callers s !! i = Some ci -> d_callers s !! j = Some cj -> r ∈ held ci -> r ∈ held cj -> i = j) /\
  (forall i c r, d_callers s !! i = Some c -> r ∈ held c -> (r ∉ d_free s) /\ is_Some (d_conns s !! r)) /\
  NoDup (d_free s).
Proof.
  intros [Hn Hc]%owned_reachable. unfold owners in *. apply NoDup_app in Hn as (Hf & Hd & (Hh & _ & _)%NoDup_app).
  split; [|split; [|done]].
  - intros i j ci cj r Hi Hj Hri Hrj. by eapply (flat_map_index held).
  - intros i c r Hi Hr. assert (Hin : r ∈ flat_map held (d_callers s)).
    { rewrite <- (take_drop_middle _ _ _ Hi), flat_map_app, elem_of_app. simpl. rewrite elem_of_app. by auto. }
    split; [intros Hr'; apply (Hd r Hr'), elem_of_app; by left|].
    apply lookup_lt_is_Some_2. rewrite Forall_forall in Hc. apply Hc. rewrite !elem_of_app. by auto.
Qed.

Module PoolSample.
Ltac stepping H tac :=
  eapply pool_reach_step in H; [|tac];
  match type of H with pool_reachable _ _ ?s => let s' := eval vm_compute in s in change s with s' in H end.
Ltac connect H i :=
  stepping H ltac:(eapply (pool_invoke _ _ i); reflexivity);
  stepping H ltac:(eapply (pool_create _ _ i); reflexivity);
  stepping H ltac:(eapply (pool_created _ _ i); reflexivity).
Ltac wait H i :=
  stepping H ltac:(eapply (pool_invoke _ _ i); reflexivity);
  stepping H ltac:(eapply (pool_request _ _ i); reflexivity).

Lemma started : pool_reachable 1 2 (mkDC [mkPoolConn false false false Running] [] 1 [] [] 0 None false [WaitConn 0; Idle] []).
Proof. pose proof (pool_reach_init 1 2) as H. connect H 0%nat. exact H. Qed.

(** The first caller uses the connection, the second one waits for it. *)
Lemma contended : pool_reachable 1 2 (mkDC [mkPoolConn true false false Running] [] 1 [0%nat] [None] 0 None false [Holding 0; Blocked 0 0] []).
Proof.
  pose proof started as H. stepping H ltac:(eapply (pool_ready _ _ 0); reflexivity).
  stepping H ltac:(eapply (pool_conn_ready _ _ 0); reflexivity). wait H 1%nat.
  stepping H ltac:(eapply (pool_block _ _ 1); reflexivity). exact H.
Qed.
End PoolSample.

Lemma pool_limit_witness : exists s, pool_reachable 1 2 s /\ d_total s <= 1 /\
  Z.of_nat (length (filter (fun c => k_deleted c = false) (d_conns s))) <= d_total s.
Proof.
  eexists. split; [exact PoolSample.contended|]. destruct (pool_limit _ _ _ PoolSample.contended) as (H1 & H2 & _).
  split; [apply H2; reflexivity || lia|exact H1].
Defined.

Lemma pool_exclusive_witness : exists s, pool_reachable 1 2 s /\ d_callers s !! 0%nat = Some (Holding 0) /\ (0%nat ∉ d_free s).
Proof.
  eexists. split; [exact PoolSample.contended|]. split; [reflexivity|].
  destruct (pool_exclusive _ _ _ PoolSample.contended) as (_ & H & _). apply (H 0%nat (Holding 0) 0%nat); [reflexivity|by left].
Defined.

(** C33: with a limit of one connection, a caller whose context ends while its new connection gets
    ready returns without giving the connection to the pool: no call is under way, the
    connection is alive and ready, and as long as its Run does not return no caller ever
    gets a connection again, although their contexts have not ended. *)
Theorem pool_cancel_leaks : exists s, pool_reachable 1 2 s /\ d_callers s = [Idle; Idle] /\
  d_conns s = [mkPoolConn true false false Running] /\ ctx_done 1 s = false /\
  forall s', rtc (quiet_step 1) s s' -> forall i r, d_callers s' !! i <> Some (Holding r).
Proof.
  pose proof PoolSample.started as H. PoolSample.stepping H ltac:(eapply (pool_cancel _ _ 0)).
  PoolSample.stepping H ltac:(eapply (pool_conn_ctx _ _ 0); reflexivity).
  PoolSample.stepping H ltac:(eapply (pool_ready _ _ 0); reflexivity).
  eexists. split; [exact H|]. split; [reflexivity|]. split; [reflexivity|]. split; [reflexivity|].
  intros s' Hr i r. eapply exhausted_none_holds. eapply exhausted_quiet; [|exact Hr].
  split; [lia|reflexivity|reflexivity|repeat constructor; done|by repeat constructor].
Qed.

(** With a limit of one connection, release removes a request from the map and sends the
    connection afterwards; a caller whose context ends in between finds its channel empty
    and leaves, and the connection stays in a channel that nobody reads: it is alive, no call
    is under way, and as long as its Run does not return no caller gets a connection again. *)
Theorem pool_transfer_leaks : exists s, pool_reachable 1 2 s /\ d_callers s = [Idle; Idle] /\
  d_conns s = [mkPoolConn true false false Running] /\ ctx_done 0 s = false /\
  forall s', rtc (quiet_step 1) s s' -> forall i r, d_callers s' !! i <> Some (Holding r).
Proof.
  pose proof PoolSample.contended as H. PoolSample.stepping H ltac:(eapply (pool_cancel _ _ 1)).
  PoolSample.stepping H ltac:(eapply (pool_ctx _ _ 1); reflexivity).
  PoolSample.stepping H ltac:(eapply (pool_done _ _ 0); reflexivity).
  PoolSample.stepping H ltac:(eapply (pool_transfer _ _ 0 0 0); [reflexivity..|by left]).
  PoolSample.stepping H ltac:(eapply (pool_cancel_delete _ _ 1); reflexivity).
  PoolSample.stepping H ltac:(eapply (pool_cancel_none _ _ 1); reflexivity).
  PoolSample.stepping H ltac:(eapply (pool_send _ _ 0); reflexivity).
  eexists. split; [exact H|]. split; [reflexivity|]. split; [reflexivity|]. split; [reflexivity|].
  intros s' Hr i r. eapply exhausted_none_holds. eapply exhausted_quiet; [|exact Hr].
  split; [lia|reflexivity|reflexivity|repeat constructor; done|by repeat constructor].
Qed.

(** C34: acquire asks stuck for its channel after it has left the lock: when the only connection dies
    in between, the reset that should wake the request up closes the channel before.  Once
    the caller that made the connection is cancelled, the request waits in a pool that has no
    connection and room for one, and no step of the program takes it further, though its
    context has not ended. *)
Theorem pool_lost_wakeup : exists s, pool_reachable 1 2 s /\ d_total s = 0 /\ d_callers s = [Idle; Blocked 0 1] /\
  ctx_done 1 s = false /\ (forall c, c ∈ d_conns s -> k_pc c = Gone) /\
  forall s', pool_step 1 s s' -> d_callers s' !! 1%nat = Some (Blocked 0 1).
Proof.
  pose proof PoolSample.started as H. PoolSample.wait H 1%nat.
  PoolSample.stepping H ltac:(eapply (pool_run_returns _ _ 0); reflexivity).
  PoolSample.stepping H ltac:(eapply (pool_dies _ _ 0); reflexivity).
  PoolSample.stepping H ltac:(eapply (pool_block _ _ 1); reflexivity).
  PoolSample.stepping H ltac:(eapply (pool_cancel _ _ 0)).
  PoolSample.stepping H ltac:(eapply (pool_conn_ctx _ _ 0); reflexivity).
  eexists. split; [exact H|]. split; [reflexivity|]. split; [reflexivity|]. split; [reflexivity|].
  split; [by intros c ->%list_elem_of_singleton|].
  intros s' Hstep. inversion Hstep; subst; cbn [d_callers d_conns] in *;
    try match goal with H : [_; _] !! ?i = Some _ |- _ => destruct i as [|[|i]]; simplify_eq/= end; try reflexivity.
  - lia.
  - match goal with H : [_] !! ?r = Some _ |- _ => destruct r; simplify_eq/= end.
Qed.
