(* ===== verification/Entity.v ===== *)
(** * telegram/message/entity: styled text

    Model of src/telegram/message/entity (write.go, format.go, token.go, options.go,
    options.gen.go, formatted_date.go, fix.go): a builder collects the text of a message
    and its entities, whose offsets and lengths are counted in units of UTF-16.  A string
    is its bytes; UTF-8, unicode.IsSpace, strings.TrimRightFunc and the insertion sort of
    sort.Sort are the ones of Go's standard library. *)
From S2P Require Import Prelude.

(** ** unicode/utf8 *)

Definition RuneError : Z := 0xfffd.
Definition RuneSelf : Z := 0x80.
Definition MaxRune : Z := 0x10ffff.
Definition is_cont (b : byte) : bool := (0x80 <=? byte.unsigned b) && (byte.unsigned b <=? 0xbf).
Definition RuneStart (b : byte) : bool := negb (is_cont b).
Definition low6 (b : byte) : Z := byte.unsigned b - 0x80.

(** The bounds of the second byte of an encoding of three or four bytes. *)
Definition second_range (b0 : Z) : Z * Z :=
  if b0 =? 0xe0 then (0xa0, 0xbf) else if b0 =? 0xed then (0x80, 0x9f)
  else if b0 =? 0xf0 then (0x90, 0xbf) else if b0 =? 0xf4 then (0x80, 0x8f) else (0x80, 0xbf).
Definition second_ok (b0 : Z) (b1 : byte) : bool :=
  let '(lo, hi) := second_range b0 in (lo <=? byte.unsigned b1) && (byte.unsigned b1 <=? hi).

(** The first rune of the bytes and the number of bytes that it takes. *)
Definition DecodeRune (p : list byte) : Z * nat :=
  match p with
  | [] => (RuneError, 0%nat)
  | c0 :: p =>
      let b0 := byte.unsigned c0 in
      if b0 <? RuneSelf then (b0, 1%nat)
      else if (0xc2 <=? b0) && (b0 <=? 0xdf) then
        match p with
        | c1 :: _ => if is_cont c1 then ((b0 - 0xc0) * 2 ^ 6 + low6 c1, 2%nat) else (RuneError, 1%nat)
        | _ => (RuneError, 1%nat)
        end
      else if (0xe0 <=? b0) && (b0 <=? 0xef) then
        match p with
        | c1 :: c2 :: _ =>
            if second_ok b0 c1 && is_cont c2 then ((b0 - 0xe0) * 2 ^ 12 + low6 c1 * 2 ^ 6 + low6 c2, 3%nat) else (RuneError, 1%nat)
        | _ => (RuneError, 1%nat)
        end
      else if (0xf0 <=? b0) && (b0 <=? 0xf4) then
        match p with
        | c1 :: c2 :: c3 :: _ =>
            if second_ok b0 c1 && is_cont c2 && is_cont c3
            then ((b0 - 0xf0) * 2 ^ 18 + low6 c1 * 2 ^ 12 + low6 c2 * 2 ^ 6 + low6 c3, 4%nat) else (RuneError, 1%nat)
        | _ => (RuneError, 1%nat)
        end
      else (RuneError, 1%nat)
  end.

(** A code point that UTF-8 encodes; EncodeRune writes RuneError for the others. *)
Definition scalar (v : Z) : bool := (0 <=? v) && (v <=? MaxRune) && negb ((0xd800 <=? v) && (v <=? 0xdfff)).
Definition encode_scalar (v : Z) : list byte :=
  if v <? 2 ^ 7 then [byte.of_Z v]
  else if v <? 2 ^ 11 then [byte.of_Z (0xc0 + v / 2 ^ 6); byte.of_Z (0x80 + v mod 2 ^ 6)]
  else if v <? 2 ^ 16 then [byte.of_Z (0xe0 + v / 2 ^ 12); byte.of_Z (0x80 + v / 2 ^ 6 mod 2 ^ 6); byte.of_Z (0x80 + v mod 2 ^ 6)]
  else [byte.of_Z (0xf0 + v / 2 ^ 18); byte.of_Z (0x80 + v / 2 ^ 12 mod 2 ^ 6); byte.of_Z (0x80 + v / 2 ^ 6 mod 2 ^ 6);
        byte.of_Z (0x80 + v mod 2 ^ 6)].
Definition EncodeRune (v : Z) : list byte := encode_scalar (if scalar v then v else RuneError).

(** The runes that a range loop over a string goes through; an iteration takes at least
    one byte. *)
Fixpoint runes_loop (fuel : nat) (s : list byte) : list Z :=
  match fuel, s with
  | O, _ | _, [] => []
  | S fuel, s => let '(v, size) := DecodeRune s in v :: runes_loop fuel (drop size s)
  end.
Definition runes (s : list byte) : list Z := runes_loop (length s) s.

(** The last rune: up to three bytes are skipped backwards to the start of an encoding,
    which has to reach to the end. *)
Fixpoint start_before (k : nat) (r : list byte) : option nat :=
  match k, r with
  | S k, b :: r => if RuneStart b then Some 1%nat else S <$> start_before k r
  | _, _ => None
  end.
Definition DecodeLastRune (s : list byte) : Z * nat :=
  match List.rev s with
  | [] => (RuneError, 0%nat)
  | b :: r =>
      if byte.unsigned b <? RuneSelf then (byte.unsigned b, 1%nat)
      else match start_before 3 r with
           | Some j => let '(v, size) := DecodeRune (drop (length s - (j + 1)) s) in
                       if Nat.eqb size (j + 1) then (v, size) else (RuneError, 1%nat)
           | None => (RuneError, 1%nat)
           end
  end.

(** unicode.IsSpace: the White_Space property. *)
Definition IsSpace (v : Z) : bool :=
  ((9 <=? v) && (v <=? 13)) || (v =? 0x20) || (v =? 0x85) || (v =? 0xa0) || (v =? 0x1680) || ((0x2000 <=? v) && (v <=? 0x200a))
  || (v =? 0x2028) || (v =? 0x2029) || (v =? 0x202f) || (v =? 0x205f) || (v =? 0x3000).

(** strings.TrimRightFunc(s, unicode.IsSpace): the index of the last rune that is not a
    space, and the string up to the end of that rune. *)
Fixpoint last_index_func (fuel : nat) (s : list byte) : option nat :=
  match fuel, s with
  | O, _ | _, [] => None
  | S fuel, s =>
      let '(v, size) := DecodeLastRune s in
      let i := (length s - size)%nat in
      if IsSpace v then last_index_func fuel (take i s) else Some i
  end.
Definition TrimRight (s : list byte) : list byte :=
  match last_index_func (length s) s with
  | None => []
  | Some i =>
      match s !! i with
      | Some b => take (i + (if RuneSelf <=? byte.unsigned b then snd (DecodeRune (drop i s)) else 1)) s
      | None => s
      end
  end.

(** ** write.go: lengths in UTF-16 *)

Definition utf16RuneLen (v : Z) : Z := if (0x10000 <=? v) && (v <=? 0x10ffff) then 2 else 1.
Definition ComputeLength (s : list byte) : Z := fold_left (fun n v => n + utf16RuneLen v) (runes s) 0.
Fixpoint length_bytes_loop (fuel : nat) (s : list byte) (i : nat) (n : Z) : Z :=
  match fuel with
  | O => n
  | S fuel =>
      if Nat.ltb i (length s)
      then let '(v, size) := DecodeRune (drop i s) in length_bytes_loop fuel s (i + size) (n + utf16RuneLen v)
      else n
  end.
Definition ComputeLengthBytes (s : list byte) : Z := length_bytes_loop (length s) s 0 0.

(** ** The entities of src/tg, and options.gen.go *)

Inductive InputPeerClass : Type :=
| InputPeerEmpty | InputPeerSelf | InputPeerChat (ChatID : Z) | InputPeerUser (UserID AccessHash : Z) | InputPeerChannel (ChannelID AccessHash : Z)
| InputPeerUserFromMessage (Peer : InputPeerClass) (MsgID UserID : Z) | InputPeerChannelFromMessage (Peer : InputPeerClass) (MsgID ChannelID : Z).
Inductive InputUserClass : Type :=
| InputUserEmpty | InputUserSelf | InputUser (UserID AccessHash : Z) | InputUserFromMessage (Peer : InputPeerClass) (MsgID UserID : Z).
(** The constructors of MessageEntityClass that formatters make, without the offset and
    the length, which all of them have. *)
Inductive EntityKind : Type :=
| KUnknown | KMention | KHashtag | KBotCommand | KURL | KEmail | KBold | KItalic | KCode | KPre (Language : list byte) | KTextURL (URL : list byte)
| KMentionName (UserID : InputUserClass) | KPhone | KCashtag | KUnderline | KStrike | KBankCard | KSpoiler | KCustomEmoji (DocumentID : Z)
| KBlockquote (Collapsed : bool) | KFormattedDate (Relative ShortTime LongTime ShortDate LongDate DayOfWeek : bool) (Date : Z)
| KDiffInsert | KDiffReplace (OldText : list byte) | KDiffDelete.
Record MessageEntity : Type := mkEntity { e_kind : EntityKind; e_Offset : Z; e_Length : Z }.

Definition Formatter : Type := Z -> Z -> MessageEntity.
Definition Unknown : Formatter := mkEntity KUnknown.
Definition Mention : Formatter := mkEntity KMention.
Definition Hashtag : Formatter := mkEntity KHashtag.
Definition BotCommand : Formatter := mkEntity KBotCommand.
Definition URL : Formatter := mkEntity KURL.
Definition Email : Formatter := mkEntity KEmail.
Definition Bold : Formatter := mkEntity KBold.
Definition Italic : Formatter := mkEntity KItalic.
Definition Code : Formatter := mkEntity KCode.
Definition Pre (language : list byte) : Formatter := mkEntity (KPre language).
Definition TextURL (url : list byte) : Formatter := mkEntity (KTextURL url).
Definition MentionName (userID : InputUserClass) : Formatter := mkEntity (KMentionName userID).
Definition Phone : Formatter := mkEntity KPhone.
Definition Cashtag : Formatter := mkEntity KCashtag.
Definition Underline : Formatter := mkEntity KUnderline.
Definition Strike : Formatter := mkEntity KStrike.
Definition BankCard : Formatter := mkEntity KBankCard.
Definition Spoiler : Formatter := mkEntity KSpoiler.
Definition CustomEmoji (documentID : Z) : Formatter := mkEntity (KCustomEmoji documentID).
Definition Blockquote (collapsed : bool) : Formatter := mkEntity (KBlockquote collapsed).
Definition FormattedDate (relative shortTime longTime shortDate longDate dayOfWeek : bool) (date : Z) : Formatter :=
  mkEntity (KFormattedDate relative shortTime longTime shortDate longDate dayOfWeek date).
Definition DiffInsert : Formatter := mkEntity KDiffInsert.
Definition DiffReplace (oldText : list byte) : Formatter := mkEntity (KDiffReplace oldText).
Definition DiffDelete : Formatter := mkEntity KDiffDelete.

(** ** formatted_date.go *)

Definition char (c : string) : Z := match String.list_byte_of_string c with b :: _ => byte.unsigned b | [] => 0 end.
(** The flags are set by the characters of the format, in any order. *)
Fixpoint date_flags (cs : list Z) (shortTime longTime shortDate longDate dayOfWeek : bool) (date : Z) : outcome Formatter :=
  match cs with
  | [] => Ok (FormattedDate false shortTime longTime shortDate longDate dayOfWeek date)
  | c :: cs =>
      if c =? char "t" then date_flags cs true longTime shortDate longDate dayOfWeek date
      else if c =? char "T" then date_flags cs shortTime true shortDate longDate dayOfWeek date
      else if c =? char "d" then date_flags cs shortTime longTime true longDate dayOfWeek date
      else if c =? char "D" then date_flags cs shortTime longTime shortDate true dayOfWeek date
      else if (c =? char "w") || (c =? char "W") then date_flags cs shortTime longTime shortDate longDate true date
      else Err (Errorf "invalid date format character")
  end.
Definition FormattedDateFormat (format : list byte) (date : Z) : outcome Formatter :=
  if bool_decide (format = String.list_byte_of_string "r") || bool_decide (format = String.list_byte_of_string "R")
  then Ok (FormattedDate true false false false false false date)
  else date_flags (runes format) false false false false false date.

(** ** format.go, write.go, options.go, token.go: the builder *)

(** The text in bytes that was formatted. *)
Record utf8entity : Type := mkUtf8 { u_offset : Z; u_length : Z }.
Record Builder : Type := mkBuilder {
  entities : list MessageEntity; lengths : list utf8entity; lastFormatIndex : nat; utf16length : Z; message : list byte }.
Definition new_Builder : Builder := mkBuilder [] [] 0 0 [].

(** Only capacities change, unless the count is negative. *)
Definition GrowText (n : Z) (b : Builder) : outcome Builder := if n <? 0 then Panic else Ok b.
Definition GrowEntities (n : Z) (b : Builder) : outcome Builder := if n <? 0 then Panic else Ok b.
Definition Reset (b : Builder) : Builder := mkBuilder [] (lengths b) (lastFormatIndex b) 0 [].
Definition UTF8Len (b : Builder) : Z := zlen (message b).
Definition UTF16Len (b : Builder) : Z := utf16length b.
Definition EntitiesLen (b : Builder) : Z := zlen (entities b).
Definition TextRange (from to : Z) (b : Builder) : outcome (list byte) :=
  if (0 <=? from) && (from <=? to) && (to <=? zlen (message b)) then Ok (slice from to (message b)) else Panic.
Definition LastEntity (b : Builder) : option MessageEntity := last (entities b).

Definition set_message (m : list byte) (n : Z) (b : Builder) : Builder := mkBuilder (entities b) (lengths b) (lastFormatIndex b) n m.
Definition Write (s : list byte) (b : Builder) : Builder := set_message (message b ++ s) (utf16length b + ComputeLengthBytes s) b.
Definition WriteString (s : list byte) (b : Builder) : Builder := set_message (message b ++ s) (utf16length b + ComputeLength s) b.
Definition WriteByte (c : byte) (b : Builder) : Builder := set_message (message b ++ [c]) (utf16length b + 1) b.
Definition WriteRune (v : Z) (b : Builder) : Builder := set_message (message b ++ EncodeRune v) (utf16length b + utf16RuneLen v) b.

Definition set_last (n : nat) (b : Builder) : Builder := mkBuilder (entities b) (lengths b) n (utf16length b) (message b).
Definition append_entity (offset length : Z) (u : utf8entity) (b : Builder) (f : Formatter) : Builder :=
  mkBuilder (entities b ++ [f offset length]) (lengths b ++ [u]) (lastFormatIndex b) (utf16length b) (message b).
Definition appendEntities (offset length : Z) (u : utf8entity) (formats : list Formatter) (b : Builder) : Builder :=
  fold_left (append_entity offset length u) formats (set_last (List.length (entities b)) b).
Definition appendMessage (s : list byte) (formats : list Formatter) (b : Builder) : Builder :=
  if bool_decide (s = []) then b
  else WriteString s (appendEntities (utf16length b) (ComputeLength s) (mkUtf8 (zlen (message b)) (zlen s)) formats b).
Definition Plain (s : list byte) (b : Builder) : Builder :=
  let b := WriteString s b in set_last (List.length (entities b)) b.
Definition Format (s : list byte) (formats : list Formatter) (b : Builder) : Builder := appendMessage s formats b.

Record Token : Type := mkToken { utf8offset : Z; utf16offset : Z }.
Definition builder_Token (b : Builder) : Token := mkToken (UTF8Len b) (UTF16Len b).
Definition UTF8Length (t : Token) (b : Builder) : Z := UTF8Len b - utf8offset t.
Definition UTF16Length (t : Token) (b : Builder) : Z := UTF16Len b - utf16offset t.
Definition Text (t : Token) (b : Builder) : outcome (list byte) := TextRange (utf8offset t) (UTF8Len b) b.
Definition Apply (t : Token) (fs : list Formatter) (b : Builder) : Builder :=
  appendEntities (utf16offset t) (UTF16Length t b) (mkUtf8 (utf8offset t) (UTF8Length t b)) fs b.

(** ** fix.go *)

(** The comparison of entitySorter *)
Definition Less (a b : MessageEntity) : bool := (e_Offset a <? e_Offset b) || (e_Length a >? e_Length b).
(** The insertion sort of sort.Sort for up to twelve elements; [r] is the sorted part from
    its end. *)
Fixpoint insert_left (x : MessageEntity) (r : list MessageEntity) : list MessageEntity :=
  match r with
  | y :: r' => if Less x y then y :: insert_left x r' else x :: r
  | [] => [x]
  end.
Definition insertionSort (l : list MessageEntity) : list MessageEntity := List.rev (fold_left (fun r x => insert_left x r) l []).
(** What sort.Sort does with longer slices. *)
Class LongSort : Type := long_sort : list MessageEntity -> list MessageEntity.
Class LawfulLongSort `{!LongSort} : Prop := long_sort_permutes l : long_sort l ≡ₚ l.
Definition SortEntities `{!LongSort} (l : list MessageEntity) : list MessageEntity :=
  if Nat.leb (List.length l) 12 then insertionSort l else long_sort l.

Definition setLength (value : Z) (e : MessageEntity) : MessageEntity := mkEntity (e_kind e) (e_Offset e) value.
Definition fixEntities (msg : list byte) (es : list MessageEntity) (b : Builder) : outcome (list byte * list MessageEntity) :=
  match last (lengths b) with
  | None => Ok (msg, es)
  | Some u =>
      if Nat.leb (List.length es) (lastFormatIndex b) then Ok (msg, es)
      else if (0 <=? u_offset u) && (u_offset u <=? zlen msg) then
        let lastBlock := drop (Z.to_nat (u_offset u)) msg in
        let trimmed := TrimRight lastBlock in
        if (zlen lastBlock <=? u_length u) && negb (zlen trimmed =? zlen lastBlock)
        then Ok (take (Z.to_nat (u_offset u + zlen trimmed)) msg,
                 take (lastFormatIndex b) es ++ (setLength (ComputeLength trimmed) <$> drop (lastFormatIndex b) es))
        else Ok (msg, es)
      else Panic
  end.
Definition Raw (b : Builder) : (list byte * list MessageEntity) * Builder := ((message b, entities b), Reset b).
Definition Complete `{!LongSort} (b : Builder) : outcome (list byte * list MessageEntity) * Builder :=
  let '((msg, es), b) := Raw b in
  (match fixEntities msg es b with
   | Ok (msg, es) => Ok (msg, SortEntities es)
   | Err e => Err e
   | Panic => Panic
   end, b).

Definition equalRange (a b : MessageEntity) : bool := (e_Length a =? e_Length b) && (e_Offset a =? e_Offset b).
Definition isPreCode (e : MessageEntity) : bool := match e_kind e with KCode | KPre _ => true | _ => false end.
Definition sameType (a b : MessageEntity) : bool :=
  match e_kind a, e_kind b with KCode, KCode | KPre _, KPre _ => true | _, _ => false end.
Definition hasLang (e : MessageEntity) : bool := match e_kind e with KPre l => bool_decide (l <> []) | _ => false end.
Definition resetLang (e : MessageEntity) : MessageEntity :=
  match e_kind e with KPre _ => mkEntity (KPre []) (e_Offset e) (e_Length e) | _ => e end.

(** The entities of the slice are pointers: [heap] holds what they point to, [slots] the
    slice itself, which the filter overwrites from its start. *)
Definition keep (heap : list MessageEntity) (prev cur : nat) : option (bool * list MessageEntity) :=
  match heap !! prev, heap !! cur with
  | Some p, Some c =>
      if negb (isPreCode p) || negb (isPreCode c) || sameType p c then Some (true, heap)
      else if negb (equalRange p c) then Some (true, alter resetLang cur (alter resetLang prev heap))
      else Some (negb (hasLang p), heap)
  | _, _ => None
  end.
Fixpoint filter_loop (k i n : nat) (slots : list nat) (heap : list MessageEntity) : option (nat * list nat * list MessageEntity) :=
  match k with
  | O => Some (n, slots, heap)
  | S k =>
      match slots !! i with
      | None => None
      | Some val =>
          let kept := match i with O => Some (true, heap) | S j => match slots !! j with Some prev => keep heap prev val | None => None end end in
          match kept with
          | None => None
          | Some (true, heap) => filter_loop k (S i) (S n) (<[n := val]> slots) heap
          | Some (false, heap) => filter_loop k (S i) n slots heap
          end
      end
  end.
(** [None] does not occur: it stands for an index out of range. *)
Definition shrinkPreCode (es : list MessageEntity) : option (list MessageEntity) :=
  let slots := List.rev (seq 0 (List.length es)) in
  match filter_loop (List.length es) 0 0 slots es with
  | Some (n, slots, heap) => mapM (fun p => heap !! p) (take n slots)
  | None => None
  end.
Definition ShrinkPreCode (b : Builder) : option Builder :=
  match shrinkPreCode (entities b) with
  | Some es => Some (mkBuilder es (lengths b) (lastFormatIndex b) (utf16length b) (message b))
  | None => None
  end.

(** ** Text of whole characters *)

Lemma byte_of_small z : 0 <= z < 256 -> byte.unsigned (byte.of_Z z) = z.
Proof. intros H. rewrite byte.unsigned_of_Z. unfold byte.wrap. by apply Z.mod_small. Qed.

Definition utf8 (rs : list Z) : list byte := flat_map encode_scalar rs.
Definition scalars (rs : list Z) : Prop := Forall (fun v => scalar v = true) rs.

Lemma scalar_range v : scalar v = true -> 0 <= v <= MaxRune /\ ~ (0xd800 <= v <= 0xdfff).
Proof. unfold scalar. intros H. bool_to_prop. unfold MaxRune in *. destruct ((_ <=? _) && (_ <=? _)) eqn:E; [done|]. lia. Qed.

Lemma sextets_3 v : 0 <= v < 2 ^ 16 -> exists a b c, 0 <= a < 16 /\ 0 <= b < 64 /\ 0 <= c < 64 /\ v = a * 2 ^ 12 + b * 2 ^ 6 + c /\
  v / 2 ^ 12 = a /\ v / 2 ^ 6 mod 2 ^ 6 = b /\ v mod 2 ^ 6 = c.
Proof.
  intros Hv. exists (v / 2 ^ 12), (v / 2 ^ 6 mod 2 ^ 6), (v mod 2 ^ 6).
  assert (E : v / 2 ^ 12 = v / 2 ^ 6 / 2 ^ 6) by (rewrite Z.div_div by lia; done). rewrite E.
  pose proof (Z.div_mod v (2 ^ 6) ltac:(lia)). pose proof (Z.mod_pos_bound v (2 ^ 6) ltac:(lia)).
  pose proof (Z.div_mod (v / 2 ^ 6) (2 ^ 6) ltac:(lia)). pose proof (Z.mod_pos_bound (v / 2 ^ 6) (2 ^ 6) ltac:(lia)).
  change (2 ^ 12) with (2 ^ 6 * 2 ^ 6). change (2 ^ 6) with 64 in *. change (2 ^ 16) with 65536 in *. repeat split; lia.
Qed.

Lemma sextets_4 v : 0 <= v <= MaxRune -> exists a b c d, 0 <= a <= 4 /\ 0 <= b < 64 /\ 0 <= c < 64 /\ 0 <= d < 64 /\
  v = a * 2 ^ 18 + b * 2 ^ 12 + c * 2 ^ 6 + d /\ v / 2 ^ 18 = a /\ v / 2 ^ 12 mod 2 ^ 6 = b /\ v / 2 ^ 6 mod 2 ^ 6 = c /\ v mod 2 ^ 6 = d.
Proof.
  unfold MaxRune. intros Hv. exists (v / 2 ^ 18), (v / 2 ^ 12 mod 2 ^ 6), (v / 2 ^ 6 mod 2 ^ 6), (v mod 2 ^ 6).
  assert (E1 : v / 2 ^ 12 = v / 2 ^ 6 / 2 ^ 6) by (rewrite Z.div_div by lia; done).
  assert (E2 : v / 2 ^ 18 = v / 2 ^ 6 / 2 ^ 6 / 2 ^ 6) by (rewrite !Z.div_div by lia; done). rewrite E1, E2.
  pose proof (Z.div_mod v (2 ^ 6) ltac:(lia)). pose proof (Z.mod_pos_bound v (2 ^ 6) ltac:(lia)).
  pose proof (Z.div_mod (v / 2 ^ 6) (2 ^ 6) ltac:(lia)). pose proof (Z.mod_pos_bound (v / 2 ^ 6) (2 ^ 6) ltac:(lia)).
  pose proof (Z.div_mod (v / 2 ^ 6 / 2 ^ 6) (2 ^ 6) ltac:(lia)). pose proof (Z.mod_pos_bound (v / 2 ^ 6 / 2 ^ 6) (2 ^ 6) ltac:(lia)).
  change (2 ^ 12) with 4096. change (2 ^ 18) with 262144. change (2 ^ 6) with 64 in *. repeat split; lia.
Qed.

(** The bytes of a character: the first one and the others. *)
Lemma cont_byte z : 0 <= z < 64 -> is_cont (byte.of_Z (0x80 + z)) = true /\ low6 (byte.of_Z (0x80 + z)) = z.
Proof. intros H. unfold is_cont, low6. rewrite !byte_of_small by lia. lia. Qed.

Lemma lead_byte z : 0xc0 <= z < 0x100 -> RuneStart (byte.of_Z z) = true.
Proof. intros H. unfold RuneStart, is_cont. rewrite !byte_of_small by lia. lia. Qed.

Inductive encoding (v : Z) : list byte -> Prop :=
| enc_1 c : byte.unsigned c = v -> 0 <= v < 0x80 -> encoding v [c]
| enc_2 c0 c1 a b : byte.unsigned c0 = 0xc0 + a -> 2 <= a < 32 -> is_cont c1 = true -> low6 c1 = b -> v = a * 2 ^ 6 + b -> encoding v [c0; c1]
| enc_3 c0 c1 c2 a b c : byte.unsigned c0 = 0xe0 + a -> 0 <= a < 16 -> second_ok (0xe0 + a) c1 = true -> is_cont c1 = true -> is_cont c2 = true ->
    low6 c1 = b -> low6 c2 = c -> v = a * 2 ^ 12 + b * 2 ^ 6 + c -> encoding v [c0; c1; c2]
| enc_4 c0 c1 c2 c3 a b c d : byte.unsigned c0 = 0xf0 + a -> 0 <= a <= 4 -> second_ok (0xf0 + a) c1 = true -> is_cont c1 = true ->
    is_cont c2 = true -> is_cont c3 = true -> low6 c1 = b -> low6 c2 = c -> low6 c3 = d ->
    v = a * 2 ^ 18 + b * 2 ^ 12 + c * 2 ^ 6 + d -> encoding v [c0; c1; c2; c3].

Lemma encode_view v : scalar v = true -> encoding v (encode_scalar v).
Proof.
  intros [Hv Hs]%scalar_range. unfold encode_scalar. case_bool; bool_to_prop.
  - apply enc_1; [apply byte_of_small|]; lia.
  - pose proof (Z.div_mod v (2 ^ 6) ltac:(lia)) as Hd. pose proof (Z.mod_pos_bound v (2 ^ 6) ltac:(lia)) as Hm.
    destruct (cont_byte (v mod 2 ^ 6) Hm) as [H1 H2]. change (2 ^ 7) with 128 in *. change (2 ^ 11) with 2048 in *. change (2 ^ 6) with 64 in *.
    apply (enc_2 _ _ _ (v / 64) (v mod 64)); [apply byte_of_small; lia|lia|done|done|change (2 ^ 6) with 64; lia].
  - destruct (sextets_3 v) as (a & b & c & Ha & Hb & Hc & Hv' & -> & -> & ->); [lia|].
    destruct (cont_byte b Hb) as [H1 H2], (cont_byte c Hc) as [H3 H4].
    apply (enc_3 _ _ _ _ a b c); [apply byte_of_small; lia|lia| |done..].
    unfold second_ok, second_range. change (2 ^ 11) with 2048 in *. change (2 ^ 12) with 4096 in *. change (2 ^ 6) with 64 in *.
    case_bool; bool_to_prop; rewrite byte_of_small by lia; lia.
  - destruct (sextets_4 v) as (a & b & c & d & Ha & Hb & Hc & Hd & Hv' & -> & -> & -> & ->); [lia|].
    destruct (cont_byte b Hb) as [H1 H2], (cont_byte c Hc) as [H3 H4], (cont_byte d Hd) as [H5 H6].
    apply (enc_4 _ _ _ _ _ a b c d); [apply byte_of_small; lia|lia| |done..].
    unfold second_ok, second_range, MaxRune in *. change (2 ^ 16) with 65536 in *. change (2 ^ 18) with 262144 in *.
    change (2 ^ 12) with 4096 in *. change (2 ^ 6) with 64 in *.
    case_bool; bool_to_prop; rewrite byte_of_small by lia; lia.
Qed.

Lemma encoding_decoded v bs t : encoding v bs -> DecodeRune (bs ++ t) = (v, length bs).
Proof.
  intros [c Hc Hv|c0 c1 a b Ha Hr Hk Hb Hv|c0 c1 c2 a b c Ha Hr Hs Hk1 Hk2 Hb Hc Hv|c0 c1 c2 c3 a b c d Ha Hr Hs Hk1 Hk2 Hk3 Hb Hc Hd Hv];
    unfold DecodeRune, RuneSelf; cbn [app length].
  - rewrite Hc. by replace (v <? 0x80) with true by lia.
  - rewrite Ha, Hk, Hb. replace (_ <? 0x80) with false by lia. replace ((_ <=? _) && (_ <=? _)) with true by lia.
    f_equal. lia.
  - rewrite Ha, Hs, Hk2, Hb, Hc. replace (_ <? 0x80) with false by lia.
    replace ((0xc2 <=? _) && (_ <=? _)) with false by lia. replace ((0xe0 <=? _) && (_ <=? _)) with true by lia. cbn [andb]. f_equal. lia.
  - rewrite Ha, Hs, Hk2, Hk3, Hb, Hc, Hd. replace (_ <? 0x80) with false by lia. replace ((0xc2 <=? _) && (_ <=? _)) with false by lia.
    replace ((0xe0 <=? _) && (_ <=? _)) with false by lia. replace ((0xf0 <=? _) && (_ <=? _)) with true by lia. cbn [andb]. f_equal. lia.
Qed.

Lemma decode_encode v t : scalar v = true -> DecodeRune (encode_scalar v ++ t) = (v, length (encode_scalar v)).
Proof. intros H. by apply encoding_decoded, encode_view. Qed.

Lemma start_cont k c r : is_cont c = true -> start_before (S k) (c :: r) = S <$> start_before k r.
Proof. intros H. simpl. unfold RuneStart. by rewrite H. Qed.

Lemma start_lead k c r : 0xc0 <= byte.unsigned c -> start_before (S k) (c :: r) = Some 1%nat.
Proof. intros H. simpl. unfold RuneStart, is_cont. by replace ((_ <=? _) && (_ <=? _)) with false by lia. Qed.

Lemma cont_high c : is_cont c = true -> (byte.unsigned c <? RuneSelf) = false.
Proof. unfold is_cont, RuneSelf. intros H. bool_to_prop. lia. Qed.

Lemma decode_last_encode p v : scalar v = true -> DecodeLastRune (p ++ encode_scalar v) = (v, length (encode_scalar v)).
Proof.
  intros Hs. pose proof (encode_view v Hs) as He. pose proof (decode_encode v [] Hs) as Hd. rewrite app_nil_r in Hd.
  assert (Hdrop : drop (length (p ++ encode_scalar v) - length (encode_scalar v)) (p ++ encode_scalar v) = encode_scalar v).
  { rewrite length_app. replace (_ + _ - _)%nat with (length p) by lia. apply drop_app_length. }
  unfold DecodeLastRune. rewrite List.rev_app_distr.
  destruct He as [c Hc Hv|c0 c1 a b Ha Hr Hk Hb Hv|c0 c1 c2 a b c Ha Hr _ Hk1 Hk2 Hb Hc Hv|c0 c1 c2 c3 a b c d Ha Hr _ Hk1 Hk2 Hk3 Hb Hc Hdd Hv];
    cbn [List.rev app].
  - rewrite Hc. unfold RuneSelf. by replace (v <? 0x80) with true by lia.
  - rewrite cont_high, start_lead by (done || lia). cbn [Nat.add]. cbn [length] in Hdrop. by rewrite Hdrop, Hd.
  - rewrite cont_high, start_cont, start_lead by (done || lia). cbn [fmap option_fmap option_map Nat.add]. cbn [length] in Hdrop. by rewrite Hdrop, Hd.
  - rewrite cont_high, !start_cont, start_lead by (done || lia). cbn [fmap option_fmap option_map Nat.add]. cbn [length] in Hdrop. by rewrite Hdrop, Hd.
Qed.

Lemma decode_size_pos s : s <> [] -> (1 <= snd (DecodeRune s))%nat.
Proof. destruct s as [|c0 s]; [done|]. intros _. unfold DecodeRune. repeat first [case_match; simplify_eq/=; try lia]. Qed.

Lemma runes_loop_fuel n m s : (length s <= n)%nat -> (length s <= m)%nat -> runes_loop n s = runes_loop m s.
Proof.
  revert m s. induction n as [|n IH]; intros [|m] s Hn Hm; destruct s as [|c s]; simpl in Hn, Hm; try lia; try done.
  cbn [runes_loop]. pose proof (decode_size_pos (c :: s) ltac:(done)) as Hp. destruct (DecodeRune (c :: s)) as [v size] eqn:E. simpl in Hp.
  f_equal. apply IH; rewrite length_drop; simpl; lia.
Qed.

Lemma runes_step s v size : s <> [] -> DecodeRune s = (v, size) -> runes s = v :: runes (drop size s).
Proof.
  intros Hs Hd. pose proof (decode_size_pos s Hs) as Hp. rewrite Hd in Hp. simpl in Hp. unfold runes. destruct s as [|c s]; [done|].
  cbn [length runes_loop]. rewrite Hd. f_equal. apply runes_loop_fuel; rewrite length_drop; simpl; lia.
Qed.

Lemma encode_nonempty v : encode_scalar v <> [].
Proof. unfold encode_scalar. by case_bool. Qed.

Lemma runes_utf8 rs t : scalars rs -> runes (utf8 rs ++ t) = rs ++ runes t.
Proof.
  induction 1 as [|v rs Hv _ IH]; [done|]. change (utf8 (v :: rs)) with (encode_scalar v ++ utf8 rs). rewrite <- app_assoc.
  rewrite (runes_step _ v (length (encode_scalar v))); [|by intros [[]%encode_nonempty _]%app_nil|by apply decode_encode].
  by rewrite drop_app_length, IH.
Qed.

Definition units (rs : list Z) : Z := fold_left (fun n v => n + utf16RuneLen v) rs 0.

Lemma units_acc rs n : fold_left (fun n v => n + utf16RuneLen v) rs n = n + units rs.
Proof. unfold units. revert n. induction rs as [|v rs IH]; intros n; cbn [fold_left]; [lia|]. rewrite (IH (n + _)), (IH (0 + _)). lia. Qed.

Lemma units_app rs ss : units (rs ++ ss) = units rs + units ss.
Proof. unfold units at 1. by rewrite fold_left_app, !units_acc. Qed.

Lemma units_pos rs : 0 <= units rs.
Proof.
  induction rs as [|v rs IH]; [done|]. change (v :: rs) with ([v] ++ rs). rewrite units_app. unfold units at 1. simpl.
  unfold utf16RuneLen. case_bool; lia.
Qed.

(** The encoding in UTF-16: one unit, or a pair of surrogates *)
Definition utf16_char (v : Z) : list Z :=
  if v <? 0x10000 then [v] else [0xd800 + (v - 0x10000) / 2 ^ 10; 0xdc00 + (v - 0x10000) mod 2 ^ 10].
Definition utf16 (rs : list Z) : list Z := flat_map utf16_char rs.

Lemma units_utf16 rs : scalars rs -> units rs = zlen (utf16 rs).
Proof.
  induction 1 as [|v rs Hv _ IH]; [done|]. apply scalar_range in Hv as [Hv _]. change (v :: rs) with ([v] ++ rs). rewrite units_app, IH.
  unfold utf16. cbn [app flat_map]. rewrite zlen_app. f_equal. unfold units, utf16RuneLen, utf16_char, MaxRune in *. cbn [fold_left].
  case_bool; bool_to_prop; unfold zlen; cbn [length]; lia.
Qed.

(** The counting of write.go is by runes, for strings and for bytes. *)
Lemma length_bytes_runes fuel s i n : (length s <= fuel + i)%nat -> length_bytes_loop fuel s i n = n + units (runes (drop i s)).
Proof.
  revert i n. induction fuel as [|fuel IH]; intros i n Hf; cbn [length_bytes_loop].
  - rewrite drop_ge by lia. unfold units. simpl. lia.
  - destruct (Nat.ltb_spec i (length s)) as [Hi|Hi]; [|rewrite drop_ge by lia; unfold units; simpl; lia].
    assert (Hne : drop i s <> []) by (intros E%(f_equal length); rewrite length_drop in E; simpl in E; lia).
    pose proof (decode_size_pos _ Hne) as Hp. destruct (DecodeRune (drop i s)) as [v size] eqn:Ed. simpl in Hp.
    rewrite IH by lia. rewrite (runes_step _ v size Hne Ed), drop_drop. change (v :: ?l) with ([v] ++ l). rewrite units_app.
    unfold units at 2. simpl. lia.
Qed.

Lemma compute_length_bytes s : ComputeLengthBytes s = ComputeLength s.
Proof. unfold ComputeLengthBytes. by rewrite length_bytes_runes by lia. Qed.

Lemma compute_length_app rs t : scalars rs -> ComputeLength (utf8 rs ++ t) = units rs + ComputeLength t.
Proof. intros H. change (ComputeLength ?s) with (units (runes s)). by rewrite runes_utf8, units_app. Qed.

Lemma compute_length_utf8 rs : scalars rs -> ComputeLength (utf8 rs) = units rs.
Proof. intros H. rewrite <- (app_nil_r (utf8 rs)), compute_length_app by done. change (ComputeLength []) with 0. lia. Qed.

Lemma utf8_app rs ss : utf8 (rs ++ ss) = utf8 rs ++ utf8 ss.
Proof. apply flat_map_app. Qed.

Lemma utf8_single v : utf8 [v] = encode_scalar v.
Proof. apply app_nil_r. Qed.

(** TrimRightFunc takes whole characters. *)
Fixpoint drop_spaces (rs : list Z) : list Z := match rs with v :: rs' => if IsSpace v then drop_spaces rs' else rs | [] => [] end.
Definition trim_space (rs : list Z) : list Z := List.rev (drop_spaces (List.rev rs)).

Lemma trim_space_snoc rs v : trim_space (rs ++ [v]) = if IsSpace v then trim_space rs else rs ++ [v].
Proof.
  unfold trim_space. rewrite List.rev_app_distr. cbn [List.rev app drop_spaces]. destruct (IsSpace v); [done|].
  cbn [List.rev]. by rewrite List.rev_involutive.
Qed.

Lemma trim_space_prefix rs : exists sp, rs = trim_space rs ++ sp /\ Forall (fun v => IsSpace v = true) sp.
Proof.
  induction rs as [|v rs [sp [IH Hsp]]] using rev_ind; [by exists []|]. rewrite trim_space_snoc. destruct (IsSpace v) eqn:E.
  - exists (sp ++ [v]). split; [by rewrite app_assoc, <- IH|]. apply Forall_app; split; [done|]. by repeat constructor.
  - exists []. split; [by rewrite app_nil_r|constructor].
Qed.

Lemma last_index_utf8 fuel rs : scalars rs -> (length (utf8 rs) <= fuel)%nat ->
  (trim_space rs = [] /\ last_index_func fuel (utf8 rs) = None) \/
  (exists ts v, trim_space rs = ts ++ [v] /\ last_index_func fuel (utf8 rs) = Some (length (utf8 ts))).
Proof.
  revert fuel. induction rs as [|v rs IH] using rev_ind; intros fuel Hs Hf; [left; by destruct fuel|].
  apply Forall_app in Hs as [Hs Hv%Forall_cons_1]. destruct Hv as [Hv _]. rewrite utf8_app, utf8_single in *. rewrite trim_space_snoc.
  pose proof (encode_nonempty v) as Hne. rewrite length_app in Hf. destruct fuel as [|fuel]; [destruct (encode_scalar v); simpl in Hf; [done|lia]|].
  assert (Hu : last_index_func (S fuel) (utf8 rs ++ encode_scalar v) =
    if IsSpace v then last_index_func fuel (utf8 rs) else Some (length (utf8 rs))).
  { cbn [last_index_func]. destruct (utf8 rs ++ encode_scalar v) as [|c s] eqn:E; [by apply app_nil in E as [_ E]|]. rewrite <- E.
    rewrite decode_last_encode, length_app by done. replace (_ + _ - _)%nat with (length (utf8 rs)) by lia. by rewrite take_app_length. }
  rewrite Hu. destruct (IsSpace v); [|right; by exists rs, v]. apply IH; [done|]. destruct (encode_scalar v); [done|]. simpl in Hf. lia.
Qed.

Lemma trim_right_utf8 rs : scalars rs -> TrimRight (utf8 rs) = utf8 (trim_space rs).
Proof.
  intros Hs. unfold TrimRight. destruct (trim_space_prefix rs) as (sp & Hrs & _).
  destruct (last_index_utf8 (length (utf8 rs)) rs Hs ltac:(lia)) as [[-> ->]|(ts & v & Ht & ->)]; [done|].
  rewrite Ht in *. rewrite Hrs in Hs |- *. apply Forall_app in Hs as [[_ Hv%Forall_cons_1]%Forall_app _]. destruct Hv as [Hv _].
  rewrite !utf8_app, utf8_single, <- app_assoc. pose proof (encode_view v Hv) as He. pose proof (decode_encode v (utf8 sp) Hv) as Hd.
  rewrite drop_app_length, Hd. cbn [snd].
  destruct (encode_scalar v) as [|c l] eqn:El; [by inversion He|]. rewrite lookup_app_r, Nat.sub_diag by lia. cbn [app lookup list_lookup].
  replace (if RuneSelf <=? byte.unsigned c then length (c :: l) else 1%nat) with (length (c :: l)).
  - rewrite take_app_add. f_equal. exact (take_app_length (c :: l) (utf8 sp)).
  - unfold RuneSelf. inversion He; subst; case_bool; bool_to_prop; try done; lia.
Qed.

(** ** Messages made of blocks *)

Lemma append_fold offset len u ks b :
  fold_left (append_entity offset len u) (mkEntity <$> ks) b =
  mkBuilder (entities b ++ ((fun k => mkEntity k offset len) <$> ks)) (lengths b ++ replicate (length ks) u) (lastFormatIndex b) (utf16length b) (message b).
Proof.
  revert b. induction ks as [|k ks IH]; intros b; cbn [fmap list_fmap fold_left length replicate].
  - rewrite !app_nil_r. by destruct b.
  - rewrite IH. unfold append_entity. cbn [entities lengths lastFormatIndex utf16length message]. by rewrite <- !app_assoc.
Qed.

Lemma insert_left_perm x r : insert_left x r ≡ₚ x :: r.
Proof. induction r as [|y r IH]; simpl; [done|]. destruct (Less x y); [|done]. rewrite IH. apply Permutation_swap. Qed.

Lemma insertion_sort_perm l : insertionSort l ≡ₚ l.
Proof.
  unfold insertionSort. rewrite <- Permutation_rev.
  assert (H : forall r, fold_left (fun r x => insert_left x r) l r ≡ₚ r ++ l); [|by rewrite H].
  induction l as [|x l IH]; intros r; simpl; [by rewrite app_nil_r|]. rewrite IH, insert_left_perm. simpl. by rewrite Permutation_middle.
Qed.

Lemma sort_entities_perm `{!LongSort} `{!LawfulLongSort} l : SortEntities l ≡ₚ l.
Proof. unfold SortEntities. destruct (Nat.leb _ _); [apply insertion_sort_perm|apply long_sort_permutes]. Qed.

(** What is asked of a builder, with texts as their characters, and the spans of text that
    it stands for: an empty formatted block is none. *)
Inductive block : Type := BPlain (s : list Z) | BFormat (s : list Z) (ks : list EntityKind).
Definition run_block (b : Builder) (x : block) : Builder :=
  match x with BPlain s => Plain (utf8 s) b | BFormat s ks => Format (utf8 s) (mkEntity <$> ks) b end.
Definition build (b : Builder) (xs : list block) : Builder := fold_left run_block xs b.
Definition block_chars (x : block) : list Z := match x with BPlain s | BFormat s _ => s end.

Record span : Type := mkSpan { sp_chars : list Z; sp_kinds : list EntityKind }.
Definition block_spans (x : block) : list span :=
  match x with BPlain s => [mkSpan s []] | BFormat [] _ => [] | BFormat s ks => [mkSpan s ks] end.
Definition chars (sps : list span) : list Z := flat_map sp_chars sps.
(** The entities that cover the spans. *)
Fixpoint covering (offset : Z) (sps : list span) : list MessageEntity :=
  match sps with
  | [] => []
  | sp :: sps => ((fun k => mkEntity k offset (units (sp_chars sp))) <$> sp_kinds sp) ++ covering (offset + units (sp_chars sp)) sps
  end.
Fixpoint covering_utf16 (offset : Z) (sps : list span) : list MessageEntity :=
  match sps with
  | [] => []
  | sp :: sps => ((fun k => mkEntity k offset (zlen (utf16 (sp_chars sp)))) <$> sp_kinds sp) ++ covering_utf16 (offset + zlen (utf16 (sp_chars sp))) sps
  end.

Lemma covering_eq offset sps : Forall (fun sp => scalars (sp_chars sp)) sps -> covering offset sps = covering_utf16 offset sps.
Proof.
  intros Hs. revert offset. induction Hs as [|sp sps Hsp _ IH]; intros offset; [done|]. cbn [covering covering_utf16].
  by rewrite (units_utf16 _ Hsp), IH.
Qed.

(** The spaces at the end of a last formatted span are not sent. *)
Fixpoint trim_last (sps : list span) : list span :=
  match sps with
  | [] => []
  | [sp] => [if bool_decide (sp_kinds sp = []) then sp else mkSpan (trim_space (sp_chars sp)) (sp_kinds sp)]
  | sp :: sps => sp :: trim_last sps
  end.

Lemma covering_app offset sps1 sps2 : covering offset (sps1 ++ sps2) = covering offset sps1 ++ covering (offset + units (chars sps1)) sps2.
Proof.
  revert offset. induction sps1 as [|sp sps1 IH]; intros offset.
  - cbn [app covering chars flat_map]. change (units []) with 0. by rewrite Z.add_0_r.
  - cbn [app covering chars flat_map]. rewrite IH, <- app_assoc. do 3 f_equal. rewrite units_app. unfold chars. lia.
Qed.

Lemma trim_last_snoc sps sp : trim_last (sps ++ [sp]) =
  sps ++ [if bool_decide (sp_kinds sp = []) then sp else mkSpan (trim_space (sp_chars sp)) (sp_kinds sp)].
Proof.
  induction sps as [|sp' sps IH]; [done|]. cbn [app trim_last]. destruct (sps ++ [sp]) as [|x l] eqn:E; [by destruct sps|]. by rewrite IH.
Qed.

Lemma chars_app sps1 sps2 : chars (sps1 ++ sps2) = chars sps1 ++ chars sps2.
Proof. apply flat_map_app. Qed.

(** A builder that holds nothing, whatever it was used for before. *)
Definition clean (b : Builder) : Prop := entities b = [] /\ utf16length b = 0 /\ message b = [].

Record holds (sps : list span) (b : Builder) : Prop := mkHolds {
  hd_message : message b = utf8 (chars sps);
  hd_length : utf16length b = units (chars sps);
  hd_entities : entities b = covering 0 sps;
  hd_last : forall init sp, sps = init ++ [sp] ->
    if bool_decide (sp_kinds sp = []) then lastFormatIndex b = length (entities b)
    else lastFormatIndex b = length (covering 0 init) /\ last (lengths b) = Some (mkUtf8 (zlen (utf8 (chars init))) (zlen (utf8 (sp_chars sp)))) }.

Lemma last_app_replicate {A} (l : list A) n x : (0 < n)%nat -> last (l ++ replicate n x) = Some x.
Proof.
  intros H. destruct n as [|n]; [lia|]. replace (replicate (S n) x) with (replicate n x ++ [x]) by (by rewrite <- replicate_cons_app).
  by rewrite app_assoc, last_snoc.
Qed.

Lemma holds_block sps b x : scalars (block_chars x) -> holds sps b -> holds (sps ++ block_spans x) (run_block b x).
Proof.
  intros Hs [Hm Hl He Hk]. destruct x as [s|s ks]; cbn [block_chars] in Hs; cbn [run_block block_spans].
  - unfold Plain, WriteString, set_last, set_message. split; cbn [entities lengths lastFormatIndex utf16length message].
    + rewrite chars_app, utf8_app, Hm. unfold chars at 3. cbn [flat_map sp_chars]. by rewrite app_nil_r.
    + rewrite chars_app, units_app, Hl, compute_length_utf8 by done. unfold chars at 3. cbn [flat_map sp_chars]. by rewrite app_nil_r.
    + rewrite covering_app. cbn [covering sp_kinds fmap list_fmap app]. by rewrite app_nil_r.
    + intros init sp [_ [= <-]]%app_inj_tail. done.
  - destruct s as [|v s]; [rewrite app_nil_r; by split|]. set (vs := v :: s) in *. cbn [block_spans].
    unfold Format, appendMessage. assert (Hne : utf8 vs <> []) by (unfold vs, utf8; cbn [flat_map]; by intros [[]%encode_nonempty _]%app_nil).
    rewrite bool_decide_false by done. unfold appendEntities. rewrite append_fold. unfold WriteString, set_last, set_message.
    assert (Hc : chars [mkSpan vs ks] = vs) by (unfold chars; cbn [flat_map sp_chars]; by rewrite app_nil_r).
    split; cbn [entities lengths lastFormatIndex utf16length message].
    + by rewrite chars_app, utf8_app, Hm, Hc.
    + by rewrite chars_app, units_app, Hl, Hc, compute_length_utf8 by done.
    + rewrite covering_app, He, Hl, compute_length_utf8 by done. cbn [covering sp_kinds sp_chars]. by rewrite app_nil_r.
    + intros init sp [<- [= <-]]%app_inj_tail. cbn [sp_kinds sp_chars]. destruct ks as [|k ks]; cbn [length fmap list_fmap].
      * rewrite bool_decide_true by done. by rewrite app_nil_r.
      * rewrite bool_decide_false by done. split; [by rewrite He|]. rewrite last_app_replicate by lia. by rewrite Hm.
Qed.

Lemma holds_build sps b xs : Forall (fun x => scalars (block_chars x)) xs -> holds sps b -> holds (sps ++ flat_map block_spans xs) (build b xs).
Proof.
  intros Hs. revert sps b. induction Hs as [|x xs Hx _ IH]; intros sps b Hb; [by rewrite app_nil_r|].
  cbn [flat_map]. rewrite app_assoc. by apply IH, holds_block.
Qed.

Lemma utf8_length_zero rs : zlen (utf8 rs) = 0 -> rs = [].
Proof.
  destruct rs as [|v rs]; [done|]. unfold utf8. cbn [flat_map]. rewrite zlen_app. pose proof (encode_nonempty v) as H.
  destruct (encode_scalar v); [done|]. intros E. pose proof (zlen_nonneg (flat_map encode_scalar rs)). zlen_lia.
Qed.

Lemma trim_same_length rs : zlen (utf8 (trim_space rs)) = zlen (utf8 rs) -> trim_space rs = rs.
Proof.
  destruct (trim_space_prefix rs) as (sp & E & _). rewrite E at 2 4. rewrite utf8_app, zlen_app. intros H.
  rewrite (utf8_length_zero sp) by lia. by rewrite app_nil_r.
Qed.

Lemma fix_holds sps b : holds sps b -> Forall (fun sp => scalars (sp_chars sp)) sps ->
  fixEntities (message b) (entities b) (Reset b) = Ok (utf8 (chars (trim_last sps)), covering 0 (trim_last sps)).
Proof.
  intros [Hm Hl He Hk] Hs. destruct sps as [|sp init _] using rev_ind.
  { rewrite Hm, He. unfold fixEntities. destruct (last (lengths (Reset b))); [|done]. by cbn [covering length Nat.leb]. }
  specialize (Hk init sp eq_refl). apply Forall_app in Hs as [_ [Hs _]%Forall_cons_1]. rewrite trim_last_snoc.
  assert (Hc : forall sp', chars (init ++ [sp']) = chars init ++ sp_chars sp') by (intros sp'; rewrite chars_app; unfold chars; cbn [flat_map]; by rewrite app_nil_r).
  unfold fixEntities, Reset. cbn [lengths lastFormatIndex]. destruct (decide (sp_kinds sp = [])) as [Hn|Hn].
  - rewrite bool_decide_true in Hk |- * by done. rewrite Hk, Nat.leb_refl, Hm, He. by destruct (last (lengths b)).
  - rewrite bool_decide_false in Hk |- * by done. destruct Hk as [Hi ->]. cbn [u_offset u_length].
    rewrite He, covering_app, length_app, Hi. cbn [covering app]. rewrite app_nil_r, length_fmap.
    destruct (Nat.leb_spec (length (covering 0 init) + length (sp_kinds sp)) (length (covering 0 init))) as [Hle|_];
      [destruct (sp_kinds sp); [done|simpl in Hle; lia]|].
    rewrite Hm, Hc, utf8_app, zlen_app.
    replace ((0 <=? _) && (_ <=? _)) with true by (pose proof (zlen_nonneg (utf8 (chars init))); pose proof (zlen_nonneg (utf8 (sp_chars sp))); lia).
    rewrite drop_zlen_app, trim_right_utf8, Z.leb_refl by done. cbn [andb]. rewrite Hc, utf8_app, covering_app. cbn [sp_chars covering sp_kinds].
    rewrite app_nil_r. destruct (Z.eqb_spec (zlen (utf8 (trim_space (sp_chars sp)))) (zlen (utf8 (sp_chars sp)))) as [E|E]; cbn [negb].
    { by rewrite (trim_same_length _ E). }
    assert (Ht : scalars (trim_space (sp_chars sp))) by (destruct (trim_space_prefix (sp_chars sp)) as (l & E' & _);
      unfold scalars in Hs; rewrite E' in Hs; by apply Forall_app in Hs as [Hs _]).
    rewrite take_app_length, drop_app_length, compute_length_utf8 by done. do 2 f_equal.
    + destruct (trim_space_prefix (sp_chars sp)) as (l & E' & _). rewrite E' at 2. rewrite utf8_app, app_assoc.
      apply take_zlen_app. by rewrite zlen_app.
    + f_equal. rewrite <- list_fmap_compose. by apply list_fmap_ext.
Qed.

Lemma trim_last_scalars sps : Forall (fun sp => scalars (sp_chars sp)) sps -> Forall (fun sp => scalars (sp_chars sp)) (trim_last sps).
Proof.
  destruct sps as [|sp init _] using rev_ind; [done|]. rewrite trim_last_snoc. intros [Hi [Hs _]%Forall_cons_1]%Forall_app.
  apply Forall_app. split; [done|]. apply Forall_singleton. case_bool_decide; [done|]. cbn [sp_chars].
  destruct (trim_space_prefix (sp_chars sp)) as (l & E & _). unfold scalars in *. rewrite E in Hs. by apply Forall_app in Hs as [Hs _].
Qed.

Lemma spans_scalars xs : Forall (fun x => scalars (block_chars x)) xs -> Forall (fun sp => scalars (sp_chars sp)) (flat_map block_spans xs).
Proof.
  induction 1 as [|x xs Hx _ IH]; [constructor|]. cbn [flat_map]. apply Forall_app. split; [|done].
  destruct x as [s|[|v s] ks]; cbn [block_spans block_chars] in *; [by apply Forall_singleton|constructor|by apply Forall_singleton].
Qed.

(** C16: a builder that holds nothing, used before or not, and is given plain and formatted
    blocks of text returns the text of the blocks, and exactly the entities that cover the
    formatted ones in units of UTF-16; of a last formatted block the spaces at its end are
    left out of the text and of its entities.  The builder can then be used again. *)
Theorem complete_blocks `{!LongSort} `{!LawfulLongSort} (b : Builder) (xs : list block) : clean b -> Forall (fun x => scalars (block_chars x)) xs ->
  let sps := trim_last (flat_map block_spans xs) in
  exists es, fst (Complete (build b xs)) = Ok (utf8 (chars sps), es) /\ es ≡ₚ covering_utf16 0 sps /\ clean (snd (Complete (build b xs))).
Proof.
  intros (He & Hl & Hm) Hs sps. assert (Hb : holds [] b) by (split; [done..|by intros [|] sp E]).
  pose proof (holds_build [] b xs Hs Hb) as Hh. cbn [app] in Hh.
  unfold Complete, Raw. rewrite (fix_holds _ _ Hh) by (by apply spans_scalars). eexists. split; [done|]. split; [|done].
  rewrite sort_entities_perm, covering_eq by (by apply trim_last_scalars, spans_scalars). done.
Qed.

(** ** The filter of shrinkPreCode on values *)

(** [prev] is the entity before, and whether it was kept; entities that overlap without
    being equal lose their language, and a code entity behind a pre entity of a language
    with the same range is dropped. *)
Definition clash (p c : MessageEntity) : bool := isPreCode p && isPreCode c && negb (sameType p c).
Fixpoint shrink_go (prev : MessageEntity) (kept : bool) (rest : list MessageEntity) : list MessageEntity :=
  match rest with
  | [] => if kept then [prev] else []
  | cur :: rest =>
      if clash prev cur then
        if equalRange prev cur then (if kept then [prev] else []) ++ shrink_go cur (negb (hasLang prev)) rest
        else (if kept then [resetLang prev] else []) ++ shrink_go (resetLang cur) true rest
      else (if kept then [prev] else []) ++ shrink_go cur true rest
  end.
Definition shrink_ref (es : list MessageEntity) : list MessageEntity :=
  match List.rev es with [] => [] | e :: es => shrink_go e true es end.

Definition points (heap : list MessageEntity) : list nat -> list MessageEntity -> Prop := Forall2 (fun q e => heap !! q = Some e).

Lemma points_alter heap f q ps es : q ∉ ps -> points heap ps es -> points (alter f q heap) ps es.
Proof.
  intros Hq H. induction H as [|p e ps es Hp _ IH]; [constructor|]. apply not_elem_of_cons in Hq as [Hne Hq].
  constructor; [|by apply IH]. by rewrite list_lookup_alter_ne.
Qed.

Lemma keep_step heap p c prev cur : p <> c -> heap !! p = Some prev -> heap !! c = Some cur ->
  exists b prev' cur' heap', keep heap p c = Some (b, heap') /\ heap' !! p = Some prev' /\ heap' !! c = Some cur' /\
    (forall ps es, p ∉ ps -> c ∉ ps -> points heap ps es -> points heap' ps es) /\
    (forall kept rest, shrink_go prev kept (cur :: rest) = (if kept then [prev'] else []) ++ shrink_go cur' b rest).
Proof.
  intros Hne Hp Hc. unfold keep. rewrite Hp, Hc. cbn [shrink_go]. unfold clash.
  destruct (isPreCode prev), (isPreCode cur), (sameType prev cur); cbn [andb orb negb];
    try (by exists true, prev, cur, heap; repeat split).
  destruct (equalRange prev cur); cbn [negb]; [by exists (negb (hasLang prev)), prev, cur, heap|].
  exists true, (resetLang prev), (resetLang cur), (alter resetLang c (alter resetLang p heap)). repeat split.
  - by rewrite list_lookup_alter_ne, list_lookup_alter_eq, Hp.
  - by rewrite list_lookup_alter_eq, list_lookup_alter_ne, Hc.
  - intros ps es Hp' Hc' H. apply points_alter; [done|]. by apply points_alter.
Qed.

Lemma filter_spec rst : forall w n slots heap ps p (kept : bool) out prev vals,
  slots = w ++ p :: rst -> (n <= S (length w))%nat -> take n slots = ps ++ (if kept then [p] else []) -> NoDup (ps ++ p :: rst) ->
  points heap ps out -> heap !! p = Some prev -> points heap rst vals ->
  exists n' slots' heap', filter_loop (length rst) (S (length w)) n slots heap = Some (n', slots', heap') /\
    points heap' (take n' slots') (out ++ shrink_go prev kept vals).
Proof.
  induction rst as [|c rst IH]; intros w n slots heap ps p kept out prev vals Hsl Hn Htk Hnd Hps Hp Hv.
  - inversion Hv; subst. exists n, (w ++ [p]), heap. split; [done|]. rewrite Htk. apply Forall2_app; [done|].
    destruct kept; by repeat constructor.
  - inversion Hv as [|? cur ? vals' Hc Hv']; subst. apply NoDup_app in Hnd as (Hn1 & Hn2 & (Hpc & (Hcr & Hn3)%NoDup_cons)%NoDup_cons).
    destruct (keep_step heap p c prev cur) as (b & prev' & cur' & heap' & Hk & Hp' & Hc' & Hpts & Hgo); [by intros ->; apply Hpc; left|done..|].
    rewrite Hgo. cbn [length filter_loop].
    assert (Hl1 : (w ++ p :: c :: rst) !! S (length w) = Some c) by (rewrite lookup_app_r by lia; by replace (S (length w) - length w)%nat with 1%nat by lia).
    assert (Hl0 : (w ++ p :: c :: rst) !! length w = Some p) by (rewrite lookup_app_r by lia; by rewrite Nat.sub_diag).
    rewrite Hl1, Hl0, Hk. set (slots := w ++ p :: c :: rst) in *. set (ps1 := ps ++ (if kept then [p] else [])) in *.
    assert (Hnd1 : NoDup (ps1 ++ c :: rst)).
    { unfold ps1. destruct kept.
      - rewrite <- app_assoc. apply NoDup_app. split; [done|]. split; [done|]. by apply NoDup_cons; split; [|apply NoDup_cons].
      - rewrite app_nil_r. apply NoDup_app. split; [done|]. split; [|by apply NoDup_cons]. intros x Hx Hx'. apply (Hn2 x Hx). by right. }
    assert (Hps1 : points heap' ps1 (out ++ (if kept then [prev'] else []))).
    { apply Forall2_app; [|destruct kept; by repeat constructor]. apply Hpts; [| |done]; intros Hin; apply (Hn2 _ Hin); [left|right; left]. }
    assert (Hr1 : points heap' rst vals') by (apply Hpts; [by intros Hin; apply Hpc; right|done|done]).
    rewrite app_assoc. replace (S (S (length w))) with (S (length (w ++ [p]))) by (rewrite length_app; simpl; lia).
    destruct b.
    + assert (Hlt : (n < length slots)%nat) by (unfold slots; rewrite length_app; simpl; lia).
      set (slots1 := <[n := c]> slots).
      assert (Hs1 : slots1 = take (S (length w)) slots1 ++ c :: rst).
      { rewrite <- (take_drop (S (length w)) slots1) at 1. f_equal. unfold slots1.
        assert (Hd : drop (S (length w)) slots = c :: rst) by (unfold slots; rewrite drop_app_ge by lia; by replace (S (length w) - length w)%nat with 1%nat by lia).
        destruct (decide (n = S (length w))) as [->|Hne]; [by rewrite list_insert_id|]. by rewrite drop_insert_lt by lia. }
      assert (Hlw : length (take (S (length w)) slots1) = length (w ++ [p])).
      { rewrite length_take_le by (unfold slots1; rewrite length_insert; unfold slots; rewrite length_app; simpl; lia). rewrite length_app. simpl. lia. }
      rewrite <- Hlw. apply (IH _ (S n) slots1 heap' ps1 c true); [done|rewrite Hlw, length_app; simpl; lia| |done..].
      unfold slots1. rewrite (take_S_r _ _ c) by (by apply list_lookup_insert_eq). by rewrite take_insert_ge, Htk by lia.
    + apply (IH (w ++ [p]) n slots heap' ps1 c false); [unfold slots; by rewrite <- app_assoc|rewrite length_app; simpl; lia|by rewrite app_nil_r|done..].
Qed.

Lemma points_all es : points es (List.rev (seq 0 (length es))) (List.rev es).
Proof.
  assert (H : points es (seq 0 (length es)) es) by (apply Forall2_same_length_lookup; split; [by rewrite length_seq|];
    intros i q e [-> _]%lookup_seq Hi; done).
  revert H. unfold points. generalize (seq 0 (length es)). intros l H. rewrite !rev_alt. by apply Forall2_reverse.
Qed.

Lemma shrink_eq (es : list MessageEntity) : shrinkPreCode es = Some (shrink_ref es).
Proof.
  unfold shrinkPreCode, shrink_ref. pose proof (points_all es) as Hp. assert (Hnd : NoDup (List.rev (seq 0 (length es)))) by
    (rewrite <- Permutation_rev; apply NoDup_seq).
  assert (Hlen : length (List.rev (seq 0 (length es))) = length es) by (rewrite List.length_rev; apply length_seq).
  destruct (List.rev (seq 0 (length es))) as [|p rst] eqn:Es; inversion Hp as [|? e ? vals Hpe Hv]; subst.
  - rewrite <- Hlen. done.
  - rewrite <- Hlen. cbn [length filter_loop list_lookup lookup].
    destruct (filter_spec rst [] 1 (p :: rst) es [] p true [] e vals) as (n & slots & heap & Hf & Hpts); [done|simpl; lia|done|done|constructor|done|done|].
    cbn [length] in Hf. change (<[0%nat := p]> (p :: rst)) with (p :: rst). rewrite Hf. cbn [app] in Hpts. by apply mapM_Some_2.
Qed.

(** The filter of ShrinkPreCode, which overwrites the slice that it reads and changes entities
    through shared pointers, computes what a recursion on values does; it stays within the
    slice. *)
Theorem shrink_equivalence (b : Builder) :
  ShrinkPreCode b = Some (mkBuilder (shrink_ref (entities b)) (lengths b) (lastFormatIndex b) (utf16length b) (message b)).
Proof. unfold ShrinkPreCode. by rewrite shrink_eq. Qed.

(** ** The positions of entities in arbitrary use *)

(** The entity covers whole characters of the text. *)
Definition covers (rs : list Z) (e : MessageEntity) : Prop :=
  exists p m q, rs = p ++ m ++ q /\ e_Offset e = units p /\ e_Length e = units m.
Definition token_at (rs : list Z) (t : Token) : Prop :=
  exists p q, rs = p ++ q /\ utf8offset t = zlen (utf8 p) /\ utf16offset t = units p.

(** Calls of the methods of a builder with whole characters, with the tokens of the
    present message. *)
Inductive builder_step : Builder * list Token -> Builder * list Token -> Prop :=
| bs_write b ts s : scalars s -> builder_step (b, ts) (Write (utf8 s) b, ts)
| bs_string b ts s : scalars s -> builder_step (b, ts) (WriteString (utf8 s) b, ts)
| bs_byte b ts c : byte.unsigned c < RuneSelf -> builder_step (b, ts) (WriteByte c b, ts)
| bs_rune b ts v : builder_step (b, ts) (WriteRune v b, ts)
| bs_plain b ts s : scalars s -> builder_step (b, ts) (Plain (utf8 s) b, ts)
| bs_format b ts s ks : scalars s -> builder_step (b, ts) (Format (utf8 s) (mkEntity <$> ks) b, ts)
| bs_token b ts : builder_step (b, ts) (b, builder_Token b :: ts)
| bs_apply b ts t ks : t ∈ ts -> builder_step (b, ts) (Apply t (mkEntity <$> ks) b, ts)
| bs_shrink b ts b' : ShrinkPreCode b = Some b' -> builder_step (b, ts) (b', ts)
| bs_reset b ts : builder_step (b, ts) (Reset b, []).
Definition builder_reachable (b : Builder) (ts : list Token) : Prop := rtc builder_step (new_Builder, []) (b, ts).

Record placed (rs : list Z) (b : Builder) (ts : list Token) : Prop := mkPlaced {
  pl_scalars : scalars rs;
  pl_message : message b = utf8 rs;
  pl_length : utf16length b = units rs;
  pl_entities : Forall (covers rs) (entities b);
  pl_tokens : Forall (token_at rs) ts;
  pl_last : (lastFormatIndex b < length (entities b))%nat -> exists u, last (lengths b) = Some u /\ 0 <= u_offset u <= zlen (message b) }.

Lemma covers_app rs ss e : covers rs e -> covers (rs ++ ss) e.
Proof. intros (p & m & q & -> & Ho & Hl). exists p, m, (q ++ ss). by rewrite !app_assoc. Qed.

Lemma token_at_app rs ss t : token_at rs t -> token_at (rs ++ ss) t.
Proof. intros (p & q & -> & H8 & H16). exists p, (q ++ ss). by rewrite app_assoc. Qed.

(** Text is added. *)
Lemma placed_write rs b ts s n : placed rs b ts -> scalars s -> n = units s -> placed (rs ++ s) (set_message (message b ++ utf8 s) (utf16length b + n) b) ts.
Proof.
  intros [Hs Hm Hl He Ht Hk] Hss ->. split; cbn [set_message message utf16length entities lengths lastFormatIndex].
  - by apply Forall_app.
  - by rewrite utf8_app, Hm.
  - by rewrite units_app, Hl.
  - eapply Forall_impl; [exact He|]. intros e. apply covers_app.
  - eapply Forall_impl; [exact Ht|]. intros t. apply token_at_app.
  - intros H. destruct (Hk H) as (u & Hu & Hr). exists u. split; [done|]. rewrite zlen_app. pose proof (zlen_nonneg (utf8 s)). lia.
Qed.

Lemma placed_append rs b ts o n u ks : placed rs b ts -> (forall k, covers rs (mkEntity k o n)) -> 0 <= u_offset u <= zlen (message b) ->
  placed rs (appendEntities o n u (mkEntity <$> ks) b) ts.
Proof.
  intros [Hs Hm Hl He Ht Hk] Hc Hu. unfold appendEntities. rewrite append_fold. unfold set_last.
  split; cbn [message utf16length entities lengths lastFormatIndex]; [done..| |done|].
  - apply Forall_app. split; [done|]. apply Forall_fmap, Forall_forall. intros k _. apply Hc.
  - rewrite length_app, length_fmap. intros H. exists u. split; [apply last_app_replicate; lia|done].
Qed.

Lemma ascii_scalar c : byte.unsigned c < RuneSelf -> scalar (byte.unsigned c) = true /\ encode_scalar (byte.unsigned c) = [c] /\ utf16RuneLen (byte.unsigned c) = 1.
Proof.
  intros H. pose proof (byte.unsigned_range c) as Hr. unfold RuneSelf in H. unfold scalar, MaxRune, encode_scalar, utf16RuneLen.
  rewrite byte.of_Z_unsigned. change (2 ^ 7) with 128. replace (_ <? 128) with true by lia. replace ((0x10000 <=? _) && _) with false by lia.
  split; [|done]. replace ((0xd800 <=? _) && _) with false by lia. lia.
Qed.

Lemma encode_rune_scalar v : exists w, scalar w = true /\ EncodeRune v = encode_scalar w /\ utf16RuneLen v = utf16RuneLen w.
Proof.
  unfold EncodeRune. destruct (scalar v) eqn:E; [by exists v|]. exists RuneError. split; [done|]. split; [done|].
  unfold scalar, MaxRune in E. unfold utf16RuneLen, RuneError. change (if _ && (0xfffd <=? 0x10ffff) then 2 else 1) with 1.
  destruct ((0x10000 <=? v) && (v <=? 0x10ffff)) eqn:E'; [|done]. bool_to_prop. exfalso.
  replace (0 <=? v) with true in E by lia. replace (v <=? 0x10ffff) with true in E by lia. replace (0xd800 <=? v) with true in E by lia.
  replace (v <=? 0xdfff) with false in E by lia. done.
Qed.

Lemma write_append o n u ks s b : WriteString s (appendEntities o n u (mkEntity <$> ks) b) = appendEntities o n u (mkEntity <$> ks) (WriteString s b).
Proof. unfold appendEntities. by rewrite !append_fold. Qed.

Lemma shrink_go_forall (P : MessageEntity -> Prop) prev kept es : (forall e, P e -> P (resetLang e)) -> P prev -> Forall P es ->
  Forall P (shrink_go prev kept es) /\ (length (shrink_go prev kept es) <= S (length es))%nat.
Proof.
  intros Hr Hp He. revert prev kept Hp. induction He as [|c es Hc _ IH]; intros prev kept Hp; cbn [shrink_go].
  - destruct kept; split; try (by repeat constructor); simpl; lia.
  - destruct (clash prev c), (equalRange prev c);
      [destruct (IH c (negb (hasLang prev)) Hc) as [H1 H2]|destruct (IH (resetLang c) true (Hr _ Hc)) as [H1 H2]|destruct (IH c true Hc) as [H1 H2]..];
      (split; [apply Forall_app; split; [destruct kept; repeat constructor; auto|done]|rewrite length_app; destruct kept; simpl in *; lia]).
Qed.

Lemma shrink_forall (P : MessageEntity -> Prop) es : (forall e, P e -> P (resetLang e)) -> Forall P es ->
  Forall P (shrink_ref es) /\ (length (shrink_ref es) <= length es)%nat.
Proof.
  intros Hr He. unfold shrink_ref. rewrite <- (List.length_rev es). assert (He' : Forall P (List.rev es)) by (by rewrite <- Permutation_rev).
  destruct He' as [|e l H1 H2]; [split; [constructor|done]|]. by apply shrink_go_forall.
Qed.

Lemma covers_reset rs e : covers rs e -> covers rs (resetLang e).
Proof. unfold covers, resetLang. by destruct (e_kind e). Qed.

Lemma placed_step rs b ts b' ts' : placed rs b ts -> builder_step (b, ts) (b', ts') -> exists rs', placed rs' b' ts'.
Proof.
  intros Hp Hstep. pose proof Hp as [Hs Hm Hl He Ht Hk].
  inversion Hstep as [? ? s Hss|? ? s Hss|? ? c Hc|? ? v|? ? s Hss|? ? s ks Hss| |? ? t ks Hin|? ? ? Hsh|]; subst.
  - exists (rs ++ s). apply placed_write; [done..|]. by rewrite compute_length_bytes, compute_length_utf8.
  - exists (rs ++ s). apply placed_write; [done..|]. by rewrite compute_length_utf8.
  - destruct (ascii_scalar c Hc) as (H1 & H2 & H3). exists (rs ++ [byte.unsigned c]). unfold WriteByte. rewrite <- H2, <- utf8_single.
    apply placed_write; [done|by apply Forall_singleton|]. unfold units. simpl. lia.
  - destruct (encode_rune_scalar v) as (w & H1 & H2 & H3). exists (rs ++ [w]). unfold WriteRune. rewrite H2, H3, <- utf8_single.
    apply placed_write; [done|by apply Forall_singleton|]. unfold units. simpl. lia.
  - exists (rs ++ s). assert (Hw : placed (rs ++ s) (WriteString (utf8 s) b) ts') by (apply placed_write; [done..|]; by rewrite compute_length_utf8).
    destruct Hw as [Hs' Hm' Hl' He' Ht' _]. split; [done..|]. unfold Plain, set_last. cbn [lastFormatIndex entities]. lia.
  - unfold Format, appendMessage. case_bool_decide; [by exists rs|]. exists (rs ++ s). rewrite write_append, compute_length_utf8 by done.
    assert (Hw : placed (rs ++ s) (WriteString (utf8 s) b) ts') by (apply placed_write; [done..|]; by rewrite compute_length_utf8).
    apply placed_append; [done| |cbn [u_offset WriteString set_message message]; rewrite zlen_app; pose proof (zlen_nonneg (message b)); pose proof (zlen_nonneg (utf8 s)); lia].
    intros k. exists rs, s, []. by rewrite app_nil_r, Hl.
  - exists rs. split; [done..| |done]. constructor; [|done]. exists rs, []. unfold builder_Token, UTF8Len, UTF16Len. cbn [utf8offset utf16offset]. by rewrite app_nil_r, Hm, Hl.
  - exists rs. rewrite Forall_forall in Ht. destruct (Ht t Hin) as (p & q & Hrs & H8 & H16). apply placed_append; [done| |].
    + intros k. exists p, q, []. rewrite app_nil_r. split; [done|]. unfold UTF16Length, UTF16Len. cbn [e_Offset e_Length]. rewrite Hl, Hrs, units_app. lia.
    + cbn [u_offset]. rewrite H8, Hm, Hrs, utf8_app, zlen_app. pose proof (zlen_nonneg (utf8 p)). pose proof (zlen_nonneg (utf8 q)). lia.
  - unfold ShrinkPreCode in Hsh. rewrite shrink_eq in Hsh. injection Hsh as <-. exists rs.
    destruct (shrink_forall (covers rs) (entities b) (covers_reset rs) He) as [H1 H2]. split; [done..|]. cbn [lastFormatIndex entities lengths message].
    intros H. apply Hk. lia.
  - exists []. split; [constructor|done|done|constructor|constructor|]. cbn [Reset lastFormatIndex entities length]. lia.
Qed.

Lemma placed_reachable b ts : builder_reachable b ts -> exists rs, placed rs b ts.
Proof.
  intros H. assert (Hg : forall x y, rtc builder_step x y -> forall rs, placed rs (fst x) (snd x) -> exists rs', placed rs' (fst y) (snd y)).
  { induction 1 as [x|x y z Hxy _ IH]; intros rs Hp; [by exists rs|]. destruct x as [b1 t1], y as [b2 t2].
    destruct (placed_step rs b1 t1 b2 t2 Hp Hxy) as [rs' Hp']. by apply (IH rs'). }
  apply (Hg _ _ H []). split; [constructor|done|done|constructor|constructor|]. intros Hlt. cbn in Hlt. lia.
Qed.

(** C26: whatever is called on a builder with whole characters and with tokens of its message,
    the length that it keeps is the one of its text in UTF-16, every entity covers whole
    characters of the text, and Complete does not panic and returns a prefix of the text. *)
Theorem builder_positions `{!LongSort} (b : Builder) (ts : list Token) : builder_reachable b ts ->
  (exists rs, scalars rs /\ message b = utf8 rs /\ UTF16Len b = zlen (utf16 rs) /\
     forall e, e ∈ entities b -> exists p m q, rs = p ++ m ++ q /\ e_Offset e = zlen (utf16 p) /\ e_Length e = zlen (utf16 m)) /\
  exists msg es, fst (Complete b) = Ok (msg, es) /\ msg `prefix_of` message b.
Proof.
  intros [rs [Hs Hm Hl He Ht Hk]]%placed_reachable. split.
  - exists rs. split; [done|]. split; [done|]. split; [by rewrite <- units_utf16|]. intros e Hin. rewrite Forall_forall in He.
    destruct (He e Hin) as (p & m & q & Hrs & Ho & Hle). exists p, m, q. rewrite Hrs in Hs.
    apply Forall_app in Hs as [Hsp [Hsm _]%Forall_app]. by rewrite <- !units_utf16.
  - unfold Complete, Raw, fixEntities, Reset. cbn [lengths lastFormatIndex].
    destruct (last (lengths b)) as [u|] eqn:El; [|by do 2 eexists].
    destruct (Nat.leb_spec (length (entities b)) (lastFormatIndex b)) as [Hle|Hlt]; [by do 2 eexists|].
    destruct (Hk Hlt) as (u' & [= <-] & Hr). replace ((0 <=? _) && (_ <=? _)) with true by lia.
    destruct ((_ <=? _) && _); do 2 eexists; (split; [done|]); [apply prefix_take|done].
Qed.

(** The comparison of SortEntities takes an entity to be before one that begins later, and
    also before one that is shorter: two entities of which the later one is longer are each
    before the other, and are sorted against their offsets. *)
Theorem sort_unordered `{!LongSort} (a b : MessageEntity) : e_Offset a < e_Offset b -> e_Length a < e_Length b ->
  Less a b = true /\ Less b a = true /\ SortEntities [a; b] = [b; a].
Proof.
  intros Ho Hl. assert (H1 : Less a b = true) by (unfold Less; lia). assert (H2 : Less b a = true) by (unfold Less; lia).
  split; [done|]. split; [done|]. unfold SortEntities, insertionSort. cbn [length Nat.leb fold_left insert_left]. by rewrite H2.
Qed.

(** When two tokens at the start format the same text, which ends with a space, Complete cuts
    the text and the length of the last entity only; the other one reaches over the end of
    the message. *)
Theorem nested_trim_exceeds `{!LongSort} (rs : list Z) (k1 k2 : EntityKind) : scalars rs -> trim_space rs <> rs ->
  let t := builder_Token new_Builder in
  let b := Apply t [mkEntity k2] (Apply t [mkEntity k1] (WriteString (utf8 rs) new_Builder)) in
  exists msg es e, fst (Complete b) = Ok (msg, es) /\ e ∈ es /\ e_kind e = k1 /\ ComputeLength msg < e_Offset e + e_Length e.
Proof.
  intros Hs Ht t b. destruct (trim_space_prefix rs) as (sp & Hrs & Hsp).
  assert (Hne : sp <> []) by (intros ->; apply Ht; by rewrite app_nil_r in Hrs).
  assert (Hsc : scalars (trim_space rs) /\ scalars sp) by (unfold scalars in *; rewrite Hrs in Hs; by apply Forall_app in Hs).
  assert (Hb : b = mkBuilder [mkEntity k1 0 (units rs); mkEntity k2 0 (units rs)] [mkUtf8 0 (zlen (utf8 rs)); mkUtf8 0 (zlen (utf8 rs))] 1 (units rs) (utf8 rs)).
  { unfold b, t, Apply, appendEntities, append_entity, set_last, WriteString, set_message, builder_Token, UTF16Length, UTF8Length, UTF16Len, UTF8Len, new_Builder.
    cbn [fold_left entities lengths lastFormatIndex utf16length message utf8offset utf16offset app length].
    rewrite compute_length_utf8 by done. by rewrite !Z.sub_0_r, !Z.add_0_l. }
  unfold Complete, Raw. rewrite Hb. unfold fixEntities, Reset.
  cbn [message entities lengths lastFormatIndex last length Nat.leb u_offset u_length Z.to_nat drop take].
  replace ((0 <=? 0) && (0 <=? _)) with true by (pose proof (zlen_nonneg (utf8 rs)); lia).
  change (drop (Z.to_nat 0) (utf8 rs)) with (utf8 rs). rewrite trim_right_utf8, Z.leb_refl by done.
  destruct (Z.eqb_spec (zlen (utf8 (trim_space rs))) (zlen (utf8 rs))) as [E|_]; [by apply trim_same_length in E|]. cbn [andb negb].
  do 2 eexists. exists (mkEntity k1 0 (units rs)). split; [reflexivity|]. split.
  - unfold SortEntities. cbn [app fmap list_fmap length Nat.leb]. rewrite insertion_sort_perm. by left.
  - split; [done|]. cbn [e_Offset e_Length]. rewrite Hrs at 2 3. rewrite utf8_app, Z.add_0_l, take_zlen_app, compute_length_utf8, units_app by tauto.
    destruct sp as [|v sp]; [done|]. change (v :: sp) with ([v] ++ sp). rewrite units_app. pose proof (units_pos sp). unfold units at 3. simpl.
    unfold utf16RuneLen. case_bool; lia.
Qed.

(** A character outside of ASCII that is written byte by byte is the same text, but counts for
    more units of UTF-16 than it has, so that all later entities are moved. *)
Theorem write_byte_miscounts (v : Z) : scalar v = true -> RuneSelf <= v ->
  let b := fold_left (fun b c => WriteByte c b) (encode_scalar v) new_Builder in
  message b = encode_scalar v /\ ComputeLength (message b) < UTF16Len b.
Proof.
  intros Hs Hv b. assert (Hm : message b = encode_scalar v /\ UTF16Len b = zlen (encode_scalar v)).
  { unfold b. pose proof (encode_view v Hs) as He. by inversion He. }
  destruct Hm as [-> ->]. split; [done|]. rewrite <- (utf8_single v), compute_length_utf8 by (by apply Forall_singleton). rewrite utf8_single.
  unfold units. simpl. unfold utf16RuneLen. apply scalar_range in Hs as [Hr _]. unfold RuneSelf, MaxRune in *. unfold encode_scalar.
  change (2 ^ 7) with 128. change (2 ^ 11) with 2048. change (2 ^ 16) with 65536. case_bool; bool_to_prop; unfold zlen; cbn [length]; lia.
Qed.

Module EntitySample.
#[export] Instance long : LongSort := fun l => l.
#[export] Instance lawful : LawfulLongSort.
Proof. by intros l. Qed.
(** The text of the test of Complete: "plain", "10" and four line ends, bold and struck *)
Definition plain : list Z := [0x70; 0x6c; 0x61; 0x69; 0x6e].
Definition styled : list Z := [0x31; 0x30; 10; 10; 10; 10].
Definition blocks : list block := [BPlain plain; BFormat styled [KBold; KStrike]].
End EntitySample.
Import EntitySample.

Lemma complete_blocks_witness : exists es,
  fst (Complete (build new_Builder EntitySample.blocks)) = Ok (String.list_byte_of_string "plain10", es) /\ es ≡ₚ [mkEntity KBold 5 2; mkEntity KStrike 5 2].
Proof.
  destruct (complete_blocks new_Builder EntitySample.blocks) as (es & H1 & H2 & _); [done|by repeat constructor|].
  exists es. split; [exact H1|exact H2].
Defined.

Lemma builder_positions_witness : exists b msg es, builder_reachable b [builder_Token new_Builder] /\ entities b = [mkEntity KBold 0 2] /\ fst (Complete b) = Ok (msg, es).
Proof.
  exists (Apply (builder_Token new_Builder) [Bold] (WriteRune 0x1f600 new_Builder)).
  assert (H : builder_reachable (Apply (builder_Token new_Builder) [Bold] (WriteRune 0x1f600 new_Builder)) [builder_Token new_Builder]).
  { eapply rtc_l; [apply bs_token|]. eapply rtc_l; [apply (bs_rune _ _ 0x1f600)|]. apply rtc_once. apply (bs_apply _ _ _ [KBold]). by left. }
  destruct (builder_positions _ _ H) as (_ & msg & es & Hc & _). exists msg, es. split; [exact H|]. split; [reflexivity|exact Hc].
Defined.

Lemma sort_unordered_witness : SortEntities [mkEntity KBold 0 4; mkEntity KBold 9 5] = [mkEntity KBold 9 5; mkEntity KBold 0 4].
Proof. apply (sort_unordered (mkEntity KBold 0 4) (mkEntity KBold 9 5)); reflexivity. Defined.

Lemma nested_trim_exceeds_witness : exists msg es e,
  fst (Complete (Apply (mkToken 0 0) [Bold] (Apply (mkToken 0 0) [Italic] (WriteString (utf8 [0x78; 0x20]) new_Builder)))) = Ok (msg, es) /\
  e ∈ es /\ ComputeLength msg < e_Offset e + e_Length e.
Proof.
  destruct (nested_trim_exceeds [0x78; 0x20] KItalic KBold) as (msg & es & e & H1 & H2 & _ & H3); [by repeat constructor|done|].
  exists msg, es, e. split; [exact H1|]. split; [exact H2|exact H3].
Defined.

Lemma write_byte_miscounts_witness : ComputeLength (encode_scalar 0xe9) < UTF16Len (fold_left (fun b c => WriteByte c b) (encode_scalar 0xe9) new_Builder).
Proof. apply (write_byte_miscounts 0xe9); [reflexivity|unfold RuneSelf; lia]. Defined.
