(* ===== verification/Html.v ===== *)
(** * telegram/message/html: styled text from HTML

    Model of src/telegram/message/html parser.go, stack.go, text_utl.go, unescape.go and
    options.go, which write a message with its entities into the builder of Entity.v.  The
    tokens of golang.org/x/net/html are the input.  Of the packages net and net/url of the
    standard library the results of parsing are parameters. *)
From S2P Require Import Prelude Entity.

Definition str (s : string) : list byte := String.list_byte_of_string s.

(** ** unescape.go *)

Definition is_char (c : byte) (s : string) : bool := byte.unsigned c =? char s.
Definition between (lo hi : string) (c : byte) : bool := (char lo <=? byte.unsigned c) && (byte.unsigned c <=? char hi).

(** The loop over the digits of a numeric reference: the position behind it and its value,
    which is a rune of 32 bits. *)
Fixpoint number_loop (fuel : nat) (hex : bool) (s : list byte) (i : nat) (x : Z) : nat * Z :=
  match fuel with
  | O => (i, x)
  | S fuel =>
      match s !! i with
      | None => (i, x)
      | Some c =>
          let digit := between "0" "9" c in
          if hex && digit then number_loop fuel hex s (S i) (i32 (16 * x + byte.unsigned c - char "0"))
          else if hex && between "a" "f" c then number_loop fuel hex s (S i) (i32 (16 * x + byte.unsigned c - char "a" + 10))
          else if hex && between "A" "F" c then number_loop fuel hex s (S i) (i32 (16 * x + byte.unsigned c - char "A" + 10))
          else if negb hex && digit then number_loop fuel hex s (S i) (i32 (10 * x + byte.unsigned c - char "0"))
          else (if is_char c ";" then S i else i, x)
      end
  end.
(** The loop over the letters of a named reference *)
Fixpoint name_loop (fuel : nat) (s : list byte) (i : nat) : nat :=
  match fuel with
  | O => i
  | S fuel =>
      match s !! i with
      | None => i
      | Some c => if between "a" "z" c || between "A" "Z" c || between "0" "9" c then name_loop fuel s (S i) else if is_char c ";" then S i else i
      end
  end.
Definition named (name : list byte) : Z :=
  if bool_decide (name = str "lt") then char "<" else if bool_decide (name = str "gt") then char ">"
  else if bool_decide (name = str "amp") then char "&" else if bool_decide (name = str "quot") then 34 else 0.

(** Assignments to bytes of the buffer from [dst] on *)
Definition put_bytes (bs : list byte) (dst : nat) (b : list byte) : outcome (list byte) :=
  if Nat.leb (dst + length bs) (length b) then Ok (take dst b ++ bs ++ drop (dst + length bs) b) else Panic.
(** The first byte is copied, and what is behind it is read on. *)
Definition copy_one (b : list byte) (dst src : nat) : outcome (list byte * nat * nat) :=
  match b !! src with
  | Some c => match put_bytes [c] dst b with Ok b => Ok (b, S dst, S src) | Err e => Err e | Panic => Panic end
  | None => Panic
  end.
Definition put_rune (x : Z) (i : nat) (b : list byte) (dst src : nat) : outcome (list byte * nat * nat) :=
  match put_bytes (EncodeRune x) dst b with
  | Ok b => Ok (b, (dst + length (EncodeRune x))%nat, (src + i)%nat)
  | Err e => Err e
  | Panic => Panic
  end.
Definition unescapeEntity (b : list byte) (dst src : nat) : outcome (list byte * nat * nat) :=
  let s := drop src b in
  match s with
  | _ :: c1 :: _ =>
      if is_char c1 "#" then
        if Nat.leb (length s) 3 then copy_one b dst src
        else
          match s !! 2%nat with
          | None => Panic
          | Some c =>
              let hex := is_char c "x" || is_char c "X" in
              let '(i, x) := number_loop (length s) hex s (if hex then 3 else 2) 0 in
              if Nat.leb i 3 then copy_one b dst src
              else if (x =? 0) || (x >=? 0x10ffff) then copy_one b dst src
              else put_rune x i b dst src
          end
      else
        let i := name_loop (length s) s 1 in
        let tagEnd := match s !! (i - 1)%nat with Some c => if is_char c ";" then (i - 1)%nat else i | None => i end in
        let x := named (drop 1 (take tagEnd s)) in
        if negb (x =? 0) then put_rune x i b dst src
        else match put_bytes (take i s) dst b with
             | Ok b => Ok (b, (dst + i)%nat, (src + i)%nat)
             | Err e => Err e
             | Panic => Panic
             end
  | _ => copy_one b dst src
  end.

Fixpoint unescape_loop (fuel : nat) (b : list byte) (dst src : nat) : outcome (list byte) :=
  match fuel with
  | O => Panic
  | S fuel =>
      match b !! src with
      | None => Ok (take dst b)
      | Some c =>
          match (if is_char c "&" then unescapeEntity b dst src else copy_one b dst src) with
          | Ok (b, dst, src) => unescape_loop fuel b dst src
          | Err e => Err e
          | Panic => Panic
          end
      end
  end.
(** The position of the first reference *)
Fixpoint first_amp (b : list byte) : option nat :=
  match b with [] => None | c :: b => if is_char c "&" then Some 0%nat else S <$> first_amp b end.
Definition telegramUnescape (b : list byte) : outcome (list byte) :=
  match first_amp b with
  | None => Ok b
  | Some i => unescape_loop (S (length b)) b i i
  end.

(** ** ascii.go *)

Definition IsDigit (r : Z) : bool := (char "0" <=? r) && (r <=? char "9").
Definition IsLatinLetter (r : Z) : bool := ((char "a" <=? r) && (r <=? char "z")) || ((char "A" <=? r) && (r <=? char "Z")).

(** ** text_utl.go *)

(** strconv.ParseInt(s, 10, 64) and strconv.Atoi: an optional sign and digits *)
Definition digits_value (s : list byte) : option Z :=
  if bool_decide (s = []) then None
  else if forallb (between "0" "9") s then Some (fold_left (fun n c => 10 * n + (byte.unsigned c - char "0")) s 0) else None.
Definition ParseInt (s : list byte) : option Z :=
  let signed (neg : bool) d := match digits_value d with
    | Some n => let n := if neg then - n else n in if bool_decide (is_signed 64 n) then Some n else None
    | None => None
    end in
  match s with
  | c :: d => if is_char c "-" then signed true d else if is_char c "+" then signed false d else signed false s
  | [] => None
  end.

(** [u_id] is [u.Query().Get("id")]. *)
Record url : Type := mkUrl { u_Scheme : list byte; u_Host : list byte; u_Path : list byte; u_id : list byte }.
Class UrlLib : Type := { url_Parse : list byte -> url + error; url_String : url -> list byte; ParseIP : list byte -> bool }.
Definition Resolver : Type := Z -> InputUserClass + error.

Section Html.
Context `{!UrlLib}.

Definition isIPv6 (s : list byte) : bool := existsb (fun c => is_char c ":") s && ParseIP s.
Definition allowedSymbol (c : Z) : bool :=
  IsLatinLetter c || IsDigit c || ((char "&" <=? c) && (c <=? char ".")) || (c =? char "_") || (c =? char "!") || (c =? char "$")
  || (c =? char "~") || (c =? char ";") || (c =? char "=") || (c >? RuneSelf).
Definition validateHostname (u : url) : outcome unit :=
  let ipv6 := isIPv6 (u_Host u) in
  if negb (existsb (fun c => is_char c ".") (u_Host u)) && ipv6 then Err (Errorf "wrong HTTP URL")
  else if ipv6 then Ok tt
  else if forallb allowedSymbol (runes (u_Host u)) then Ok tt else Err (Errorf "disallowed character in URL host").
Definition getURLFormatter (rawURL : list byte) (resolver : Resolver) : outcome Formatter :=
  if bool_decide (rawURL = []) then Err (Errorf "empty URL")
  else
    match url_Parse rawURL with
    | inl u =>
        if bool_decide (u_Scheme u = str "tg") && bool_decide (u_Host u = str "user") then
          match ParseInt (u_id u) with
          | None => Err (Errorf "invalid user ID")
          | Some id =>
              match resolver id with
              | inl user => Ok (MentionName user)
              | inr e => Err (Wrap e "can't resolve user")
              end
          end
        else
          let '(u, rawURL) := if bool_decide (u_Scheme u = [])
            then let u := mkUrl (str "http") (u_Path u) (str "/") (u_id u) in (u, url_String u) else (u, rawURL) in
          match validateHostname u with
          | Ok _ => Ok (TextURL rawURL)
          | Err e => Err e
          | Panic => Panic
          end
    | inr e => Err e
    end.

(** ** options.go *)

Record Options : Type := mkOptions { UserResolver : option Resolver; DisableTelegramEscape : bool }.
(** setDefaults *)
Definition resolver_of (o : Options) : Resolver := default (fun id => inl (InputUser id 0)) (UserResolver o).

(** ** stack.go *)

Record stackElem : Type := mkElem { el_token : Token; el_tag : list byte; el_attr : list byte; el_format : option Formatter }.
Definition push (e : stackElem) (s : list stackElem) : list stackElem := s ++ [e].
Definition pop (s : list stackElem) : option (stackElem * list stackElem) :=
  match last s with Some e => Some (e, take (length s - 1) s) | None => None end.

(** ** parser.go *)

(** A token of the tokenizer: text with its raw bytes, the name of a tag and its
    attributes, the raw bytes of a comment, and the tokens that are ignored. *)
Inductive token : Type :=
| ErrorToken (err : error)
| TextToken (raw text : list byte)
| StartTagToken (name : list byte) (attrs : list (list byte * list byte))
| EndTagToken (name : list byte)
| CommentToken (raw : list byte)
| OtherToken.
Record htmlParser : Type := mkParser { p_builder : Builder; p_stack : list stackElem; p_attr : list (list byte * list byte) }.

(** The map of attributes as the list of its assignments *)
Fixpoint attr_get (k : list byte) (m : list (list byte * list byte)) : option (list byte) :=
  match m with
  | [] => None
  | (k', v) :: m => match attr_get k m with Some v => Some v | None => if bool_decide (k' = k) then Some v else None end
  end.
Definition attr_or_empty (k : list byte) (m : list (list byte * list byte)) : list byte := default [] (attr_get k m).
(** fillAttrs is called when the tag has attributes. *)
Definition fillAttrs (attrs old : list (list byte * list byte)) : list (list byte * list byte) :=
  if bool_decide (attrs = []) then old else attrs.

Definition is_tag (t : list byte) (names : list string) : bool := existsb (fun n => bool_decide (t = str n)) names.
Definition TrimPrefix (p s : list byte) : list byte := if bool_decide (take (length p) s = p) then drop (length p) s else s.
Definition ok_or_nil {A} (r : outcome A) : option A := match r with Ok a => Some a | _ => None end.
(** The language of the nested tag is set on the last element of the stack. *)
Definition set_format (f : Formatter) (s : list stackElem) : list stackElem :=
  alter (fun e => mkElem (el_token e) (el_tag e) (el_attr e) (Some f)) (length s - 1)%nat s.

Section Parser.
Context (opts : Options).

Definition startTag (name : list byte) (attrs : list (list byte * list byte)) (p : htmlParser) : htmlParser :=
  let attr := fillAttrs attrs (p_attr p) in
  let get k := attr_or_empty (str k) attr in
  let tok := builder_Token (p_builder p) in
  let done a f stack := mkParser (p_builder p) (push (mkElem tok name a f) stack) attr in
  let stack := p_stack p in
  if is_tag name ["b"; "strong"] then done [] (Some Bold) stack
  else if is_tag name ["i"; "em"] then done [] (Some Italic) stack
  else if is_tag name ["u"; "ins"] then done [] (Some Underline) stack
  else if is_tag name ["s"; "strike"; "del"] then done [] (Some Strike) stack
  else if is_tag name ["a"] then
    let href := get "href" in
    if bool_decide (href = []) then done href None stack
    else done href (ok_or_nil (getURLFormatter href (resolver_of opts))) stack
  else if is_tag name ["code"] then
    let lang := TrimPrefix (str "language-") (get "class") in
    match last stack with
    | Some e =>
        if is_tag (el_tag e) ["pre"] && negb (bool_decide (lang = [])) then done lang (Some Code) (set_format (Pre lang) stack)
        else done lang (Some Code) stack
    | None => done lang (Some Code) stack
    end
  else if is_tag name ["pre"] then
    match last stack with
    | Some e =>
        if is_tag (el_tag e) ["code"] && negb (bool_decide (el_attr e = [])) then done [] (Some (Pre (el_attr e))) stack
        else done [] (Some (Pre [])) stack
    | None => done [] (Some (Pre [])) stack
    end
  else if is_tag name ["span"] then done [] (if bool_decide (get "class" = str "tg-spoiler") then Some Spoiler else None) stack
  else if is_tag name ["tg-spoiler"] then done [] (Some Spoiler) stack
  else if is_tag name ["tg-emoji"] then done [] (CustomEmoji <$> ParseInt (get "emoji-id")) stack
  else if is_tag name ["blockquote"] then done [] (Some (Blockquote (bool_decide (is_Some (attr_get (str "expandable") attr))))) stack
  else if is_tag name ["tg-time"] then
    match ParseInt (get "unix") with
    | Some unix =>
        match FormattedDateFormat (get "format") unix with
        | Ok d => done [] (Some d) stack
        | _ => done [] (Some (FormattedDate false false false false false false unix)) stack
        end
    | None => done [] None stack
    end
  else done [] None stack.

(** The formatter of an element at its end; [None] for a code element that follows a pre
    entity of the same range. *)
Definition end_format (e : stackElem) (b : Builder) : outcome (option (option Formatter)) :=
  if is_tag (el_tag e) ["a"] then
    if bool_decide (el_attr e = []) then
      match Text (el_token e) b with
      | Ok msg =>
          match getURLFormatter msg (resolver_of opts) with
          | Ok f => Ok (Some (Some f))
          | Err _ => Ok (Some (el_format e))
          | Panic => Panic
          end
      | Err err => Err err
      | Panic => Panic
      end
    else Ok (Some (el_format e))
  else if is_tag (el_tag e) ["code"] then
    match LastEntity b with
    | Some (mkEntity (KPre _) o l) => if (o =? utf16offset (el_token e)) && (l =? UTF16Length (el_token e) b) then Ok None else Ok (Some (el_format e))
    | _ => Ok (Some (el_format e))
    end
  else Ok (Some (el_format e)).

Definition endTag (checkName : bool) (tn : list byte) (p : htmlParser) : outcome htmlParser :=
  match pop (p_stack p) with
  | None => Err (Errorf "unexpected end tag")
  | Some (e, stack) =>
      if checkName && negb (bool_decide (el_tag e = tn)) then Err (Errorf "expected tag, got another")
      else
        match end_format e (p_builder p) with
        | Ok (Some (Some f)) =>
            if UTF16Length (el_token e) (p_builder p) =? 0 then Ok (mkParser (p_builder p) stack (p_attr p))
            else Ok (mkParser (Apply (el_token e) [f] (p_builder p)) stack (p_attr p))
        | Ok _ => Ok (mkParser (p_builder p) stack (p_attr p))
        | Err err => Err err
        | Panic => Panic
        end
  end.

(** An empty closing tag is a comment for the tokenizer. *)
Definition closes (raw : list byte) : bool :=
  (3 <=? zlen raw) && bool_decide (take 2 raw = str "</") && match last raw with Some c => is_char c ">" | None => false end.
Definition written (raw text : list byte) : outcome (list byte) := if DisableTelegramEscape opts then Ok text else telegramUnescape raw.

(** The tokenizer goes on up to an error; io.EOF ends the input. *)
Fixpoint parse (ts : list token) (p : htmlParser) : outcome htmlParser :=
  match ts with
  | [] => Ok p
  | ErrorToken err :: _ => if Is err EOF then Ok p else Err err
  | TextToken raw text :: ts =>
      match written raw text with
      | Ok s => parse ts (mkParser (Write s (p_builder p)) (p_stack p) (p_attr p))
      | Err err => Err err
      | Panic => Panic
      end
  | StartTagToken name attrs :: ts => parse ts (startTag name attrs p)
  | EndTagToken name :: ts => match endTag true name p with Ok p => parse ts p | Err err => Err err | Panic => Panic end
  | CommentToken raw :: ts =>
      if closes raw then match endTag false [] p with Ok p => parse ts p | Err err => Err err | Panic => Panic end
      else parse ts p
  | OtherToken :: ts => parse ts p
  end.

Definition HTML (ts : list token) (b : Builder) : outcome Builder :=
  match parse ts (mkParser b [] []) with
  | Ok p => match ShrinkPreCode (p_builder p) with Some b => Ok b | None => Panic end
  | Err err => Err (Wrap err "parse")
  | Panic => Panic
  end.
End Parser.
End Html.

(** ** Unescaping on values *)

(** What a reference at the start of the text stands for, and the length of the reference *)
Definition entity_ref (s : list byte) : list byte * nat :=
  match s with
  | c0 :: c1 :: _ =>
      if is_char c1 "#" then
        if Nat.leb (length s) 3 then ([c0], 1%nat)
        else
          match s !! 2%nat with
          | None => ([c0], 1%nat)
          | Some c =>
              let hex := is_char c "x" || is_char c "X" in
              let '(i, x) := number_loop (length s) hex s (if hex then 3 else 2) 0 in
              if Nat.leb i 3 then ([c0], 1%nat)
              else if (x =? 0) || (x >=? 0x10ffff) then ([c0], 1%nat)
              else (EncodeRune x, i)
          end
      else
        let i := name_loop (length s) s 1 in
        let tagEnd := match s !! (i - 1)%nat with Some c => if is_char c ";" then (i - 1)%nat else i | None => i end in
        let x := named (drop 1 (take tagEnd s)) in
        if negb (x =? 0) then (EncodeRune x, i) else (take i s, i)
  | c0 :: _ => ([c0], 1%nat)
  | [] => ([], 0%nat)
  end.
Fixpoint ref_loop (fuel : nat) (s : list byte) : list byte :=
  match fuel, s with
  | O, _ | _, [] => []
  | S fuel, c :: s' => if is_char c "&" then let '(out, n) := entity_ref s in out ++ ref_loop fuel (drop n s) else c :: ref_loop fuel s'
  end.
Definition unescape_ref (s : list byte) : list byte := ref_loop (length s) s.

Lemma number_loop_bound fuel hex s i x : (i <= length s)%nat -> (i <= fst (number_loop fuel hex s i x) <= length s)%nat.
Proof.
  revert i x. induction fuel as [|fuel IH]; intros i x Hi; cbn [number_loop]; [simpl; lia|].
  destruct (s !! i) as [c|] eqn:E; [|simpl; lia]. apply lookup_lt_Some in E.
  repeat match goal with |- context [if ?b then _ else _] => destruct b end; try (simpl; lia);
    match goal with |- context [number_loop fuel hex s (S i) ?y] => specialize (IH (S i) y ltac:(lia)); lia end.
Qed.

Lemma name_loop_bound fuel s i : (i <= length s)%nat -> (i <= name_loop fuel s i <= length s)%nat.
Proof.
  revert i. induction fuel as [|fuel IH]; intros i Hi; cbn [name_loop]; [lia|]. destruct (s !! i) as [c|] eqn:E; [|lia]. apply lookup_lt_Some in E.
  repeat match goal with |- context [if ?b then _ else _] => destruct b end; [specialize (IH (S i) ltac:(lia))|..]; lia.
Qed.

Lemma encode_length v : (1 <= length (EncodeRune v) <= 4)%nat.
Proof. unfold EncodeRune, encode_scalar. repeat case_match; simpl; lia. Qed.

Lemma named_length name : named name <> 0 -> length (EncodeRune (named name)) = 1%nat.
Proof. unfold named. repeat case_bool_decide; by intros ?. Qed.

Lemma entity_ref_bound s : s <> [] -> (1 <= snd (entity_ref s) <= length s)%nat /\ (length (fst (entity_ref s)) <= snd (entity_ref s))%nat.
Proof.
  intros Hs. destruct s as [|c0 [|c1 s]]; [done|simpl; lia|]. unfold entity_ref. set (l := c0 :: c1 :: s).
  assert (Hl : (2 <= length l)%nat) by (simpl; lia). destruct (is_char c1 "#").
  - destruct (Nat.leb_spec (length l) 3) as [|H3]; [simpl in *; lia|]. destruct (l !! 2%nat) as [c|]; [|simpl in *; lia].
    pose proof (number_loop_bound (length l) (is_char c "x" || is_char c "X") l (if is_char c "x" || is_char c "X" then 3 else 2) 0
      ltac:(destruct (is_char c "x" || is_char c "X"); lia)) as Hb.
    destruct (number_loop _ _ _ _ _) as [i x]. cbn [fst] in Hb. pose proof (encode_length x) as He.
    destruct (Nat.leb_spec i 3); [simpl in *; lia|]. destruct ((x =? 0) || (x >=? 0x10ffff)); cbn [fst snd length]; lia.
  - pose proof (name_loop_bound (length l) l 1 ltac:(lia)) as Hb. set (i := name_loop (length l) l 1) in *.
    set (x := named _). destruct (Z.eqb_spec x 0) as [E|E]; cbn [negb fst snd].
    + rewrite length_take. lia.
    + unfold x in *. rewrite named_length by done. lia.
Qed.

Lemma put_bytes_ok bs dst b : (dst + length bs <= length b)%nat -> put_bytes bs dst b = Ok (take dst b ++ bs ++ drop (dst + length bs) b).
Proof. intros H. unfold put_bytes. by destruct (Nat.leb_spec (dst + length bs) (length b)); [|lia]. Qed.

Lemma copy_one_ref b dst src c s : drop src b = c :: s -> (dst <= src)%nat ->
  copy_one b dst src = Ok (take dst b ++ [c] ++ drop (dst + 1) b, (dst + 1)%nat, (src + 1)%nat).
Proof.
  intros Hd Hle. unfold copy_one. assert (Hs : b !! src = Some c) by (rewrite <- (Nat.add_0_r src), <- lookup_drop, Hd; done).
  rewrite Hs, put_bytes_ok by (apply lookup_lt_Some in Hs; simpl; lia). by rewrite !Nat.add_1_r.
Qed.

Lemma unescape_entity_ref b dst src : (dst <= src < length b)%nat ->
  let '(out, n) := entity_ref (drop src b) in
  unescapeEntity b dst src = Ok (take dst b ++ out ++ drop (dst + length out) b, (dst + length out)%nat, (src + n)%nat).
Proof.
  intros Hle. assert (Hl : length (drop src b) = (length b - src)%nat) by apply length_drop.
  assert (Hne : drop src b <> []) by (intros E; rewrite E in Hl; simpl in Hl; lia).
  pose proof (entity_ref_bound _ Hne) as Hb. destruct (entity_ref (drop src b)) as [out n] eqn:E. cbn [fst snd] in Hb.
  unfold entity_ref in E. unfold unescapeEntity. destruct (drop src b) as [|c0 [|c1 s]] eqn:Ed; [done| |].
  { injection E as <- <-. apply (copy_one_ref _ _ _ c0 []); [done|lia]. }
  assert (Hc : copy_one b dst src = Ok (take dst b ++ [c0] ++ drop (dst + 1) b, (dst + 1)%nat, (src + 1)%nat)) by (apply (copy_one_ref _ _ _ c0 (c1 :: s)); [done|lia]).
  destruct (is_char c1 "#").
  - destruct (Nat.leb (length (c0 :: c1 :: s)) 3) eqn:E3; [by injection E as <- <-|]. apply Nat.leb_gt in E3.
    destruct ((c0 :: c1 :: s) !! 2%nat) as [c|] eqn:E2; [|apply lookup_ge_None in E2; lia].
    destruct (number_loop _ _ _ _ _) as [i x]. destruct (Nat.leb i 3); [by injection E as <- <-|].
    destruct ((x =? 0) || (x >=? 0x10ffff)); [by injection E as <- <-|]. injection E as <- <-. unfold put_rune. by rewrite put_bytes_ok by lia.
  - revert E. generalize (name_loop (length (c0 :: c1 :: s)) (c0 :: c1 :: s) 1). intros i E.
    destruct (negb _) eqn:En; injection E as <- <-.
    + unfold put_rune. by rewrite put_bytes_ok by lia.
    + rewrite put_bytes_ok by lia. do 3 f_equal. rewrite length_take. lia.
Qed.

Lemma ref_loop_fuel n m s : (length s <= n)%nat -> (length s <= m)%nat -> ref_loop n s = ref_loop m s.
Proof.
  revert m s. induction n as [|n IH]; intros [|m] s Hn Hm; destruct s as [|c s]; simpl in Hn, Hm; try lia; try done.
  cbn [ref_loop]. destruct (is_char c "&"); [|f_equal; apply IH; lia].
  pose proof (entity_ref_bound (c :: s) ltac:(done)) as [Hb _]. destruct (entity_ref (c :: s)) as [out k]. cbn [snd] in Hb.
  f_equal. apply IH; rewrite length_drop; simpl; lia.
Qed.

Lemma unescape_ref_cons c s : unescape_ref (c :: s) =
  if is_char c "&" then let '(out, n) := entity_ref (c :: s) in out ++ unescape_ref (drop n (c :: s)) else c :: unescape_ref s.
Proof.
  unfold unescape_ref at 1. cbn [length ref_loop]. destruct (is_char c "&"); [|done].
  pose proof (entity_ref_bound (c :: s) ltac:(done)) as [Hb _]. destruct (entity_ref (c :: s)) as [out k]. cbn [snd] in Hb.
  f_equal. apply ref_loop_fuel; rewrite length_drop; simpl; lia.
Qed.

(** What is written to the buffer does not reach what is still to be read. *)
Lemma in_place (b : list byte) dst (out : list byte) src : (dst + length out <= src)%nat -> (src <= length b)%nat ->
  let b' := take dst b ++ out ++ drop (dst + length out) b in
  length b' = length b /\ take (dst + length out) b' = take dst b ++ out /\ drop src b' = drop src b.
Proof.
  intros Hle Hl b'. assert (Hd : length (take dst b) = dst) by (rewrite length_take; lia).
  split; [unfold b'; rewrite !length_app, length_drop; lia|]. unfold b'. rewrite app_assoc.
  assert (Ho : length (take dst b ++ out) = (dst + length out)%nat) by (rewrite length_app; lia). split; [by rewrite <- Ho, take_app_length|].
  rewrite drop_app_ge, Ho, drop_drop by lia. f_equal. lia.
Qed.

Lemma unescape_loop_ref fuel b dst src : (dst <= src <= length b)%nat -> (length b - src < fuel)%nat ->
  unescape_loop fuel b dst src = Ok (take dst b ++ unescape_ref (drop src b)).
Proof.
  revert b dst src. induction fuel as [|fuel IH]; intros b dst src Hle Hf; [lia|]. cbn [unescape_loop].
  destruct (b !! src) as [c|] eqn:Ec; cycle 1.
  { apply lookup_ge_None in Ec. rewrite drop_ge by lia. by rewrite app_nil_r. }
  pose proof (lookup_lt_Some _ _ _ Ec) as Hlt. rewrite (drop_S _ _ _ Ec), unescape_ref_cons. rewrite <- (drop_S _ _ _ Ec).
  destruct (is_char c "&").
  - pose proof (unescape_entity_ref b dst src ltac:(lia)) as He. pose proof (entity_ref_bound (drop src b)) as Hb.
    destruct (entity_ref (drop src b)) as [out n]. cbn [fst snd] in Hb. rewrite length_drop in Hb. destruct Hb as [Hb1 Hb2]; [by rewrite (drop_S _ _ _ Ec)|].
    rewrite He. destruct (in_place b dst out (src + n) ltac:(lia) ltac:(lia)) as (H1 & H2 & H3).
    rewrite IH by lia. by rewrite H2, H3, <- app_assoc, drop_drop.
  - rewrite (copy_one_ref b dst src c (drop (S src) b)); [|by apply drop_S|lia].
    destruct (in_place b dst [c] (src + 1) ltac:(simpl; lia) ltac:(lia)) as (H1 & H2 & H3). cbn [length] in H1, H2, H3.
    rewrite IH by lia. by rewrite H2, H3, <- app_assoc, Nat.add_1_r.
Qed.

Lemma first_amp_ref b : match first_amp b with
  | Some i => (i <= length b)%nat /\ unescape_ref b = take i b ++ unescape_ref (drop i b)
  | None => unescape_ref b = b
  end.
Proof.
  induction b as [|c b IH]; [done|]. cbn [first_amp]. destruct (is_char c "&") eqn:E; [split; [lia|done]|].
  rewrite unescape_ref_cons, E. destruct (first_amp b) as [i|]; cbn [fmap option_fmap option_map].
  - destruct IH as [Hi ->]. split; [simpl; lia|done].
  - by rewrite IH.
Qed.

Lemma unescape_eq b : telegramUnescape b = Ok (unescape_ref b).
Proof.
  unfold telegramUnescape. pose proof (first_amp_ref b) as H. destruct (first_amp b) as [i|]; [|by rewrite H].
  destruct H as [Hi ->]. by apply unescape_loop_ref; lia.
Qed.

(** C29: telegramUnescape, which works in the buffer that it reads, never panics and computes what
    a recursion on values does: no write reaches bytes that are still to be read.  Its result
    is not longer than the input. *)
Theorem unescape_in_place (b : list byte) : telegramUnescape b = Ok (unescape_ref b) /\ (length (unescape_ref b) <= length b)%nat.
Proof.
  split; [apply unescape_eq|].
  induction b as [b IH] using (induction_ltof1 _ (@length byte)). unfold ltof in IH. destruct b as [|c b]; [done|]. rewrite unescape_ref_cons.
    destruct (is_char c "&"); [|specialize (IH b ltac:(simpl; lia)); simpl; lia].
    pose proof (entity_ref_bound (c :: b) ltac:(done)) as [H1 H2]. destruct (entity_ref (c :: b)) as [out n]. cbn [fst snd] in *.
    assert (Hd : length (drop n (c :: b)) = (length (c :: b) - n)%nat) by apply length_drop.
    specialize (IH (drop n (c :: b)) ltac:(lia)). rewrite length_app. lia.
Qed.

(** The escaping that the Bot API asks of a text *)
Definition escape_byte (c : byte) : list byte :=
  if is_char c "&" then str "&amp;" else if is_char c "<" then str "&lt;" else if is_char c ">" then str "&gt;"
  else if byte.unsigned c =? 34 then str "&quot;" else [c].

Lemma byte_of_char c z : byte.unsigned c = z -> c = byte.of_Z z.
Proof. intros <-. by rewrite byte.of_Z_unsigned. Qed.

Lemma unescape_named s t out : entity_ref (s ++ t) = (out, length s) -> (exists s', s = Byte.x26 :: s') -> unescape_ref (s ++ t) = out ++ unescape_ref t.
Proof.
  intros He [s' Hs]. assert (Hc : s ++ t = Byte.x26 :: (s' ++ t)) by (by rewrite Hs). rewrite Hc, unescape_ref_cons, <- Hc.
  change (is_char Byte.x26 "&") with true. cbv iota. rewrite He. by rewrite drop_app_length.
Qed.

(** A text that is escaped as the Bot API asks is read back as it was. *)
Theorem unescape_escaped (s : list byte) : telegramUnescape (flat_map escape_byte s) = Ok s.
Proof.
  rewrite unescape_eq. f_equal. induction s as [|c s IH]; [done|]. cbn [flat_map]. unfold escape_byte at 1.
  destruct (is_char c "&") eqn:E1; [|destruct (is_char c "<") eqn:E2; [|destruct (is_char c ">") eqn:E3; [|destruct (byte.unsigned c =? 34) eqn:E4]]];
    try (match goal with H : _ = true |- _ => apply Z.eqb_eq, byte_of_char in H; rewrite H end;
         match goal with |- _ = ?x :: _ => rewrite (unescape_named _ _ [x]); [by rewrite IH|reflexivity|by eexists] end).
  rewrite <- IH at 2. cbn [app]. by rewrite unescape_ref_cons, E1.
Qed.

(** ** The structure of the entities *)

Definition e_end (e : MessageEntity) : Z := e_Offset e + e_Length e.
(** Two ranges do not overlap, or one is inside of the other. *)
Definition nested (e1 e2 : MessageEntity) : Prop :=
  e_end e1 <= e_Offset e2 \/ e_end e2 <= e_Offset e1 \/ (e_Offset e2 <= e_Offset e1 /\ e_end e1 <= e_end e2)
  \/ (e_Offset e1 <= e_Offset e2 /\ e_end e2 <= e_end e1).
Definition well_nested (es : list MessageEntity) (n : Z) : Prop :=
  (forall e1 e2, e1 ∈ es -> e2 ∈ es -> nested e1 e2) /\ forall e, e ∈ es -> e_end e <= n.
Definition proper (f : Formatter) : Prop := exists k, f = mkEntity k.

Record elem_ok (b : Builder) (el : stackElem) : Prop := mkElemOk {
  eo_utf8 : 0 <= utf8offset (el_token el) <= zlen (message b);
  eo_utf16 : utf16offset (el_token el) <= utf16length b;
  eo_apart : forall e, e ∈ entities b -> utf16offset (el_token el) <= e_Offset e \/ e_end e <= utf16offset (el_token el);
  eo_format : forall f, el_format el = Some f -> proper f }.
Definition el_offset (el : stackElem) : Z := utf16offset (el_token el).
Definition ascending (stack : list stackElem) : Prop := StronglySorted Z.le (el_offset <$> stack).
Record parser_ok (p : htmlParser) : Prop := mkParserOk {
  po_nested : well_nested (entities (p_builder p)) (utf16length (p_builder p));
  po_stack : Forall (elem_ok (p_builder p)) (p_stack p);
  po_ascending : ascending (p_stack p) }.

(** Whether every end tag of the input closes the innermost open element, whose names are
    [open] from the innermost on, and the input ends without an error of the reader.
    Elements may stay open at its end. *)
Fixpoint ends_match (open : list (list byte)) (ts : list token) : bool :=
  match ts with
  | [] => true
  | ErrorToken err :: _ => Is err EOF
  | TextToken _ _ :: ts | OtherToken :: ts => ends_match open ts
  | StartTagToken name _ :: ts => ends_match (name :: open) ts
  | EndTagToken name :: ts => match open with n :: open => bool_decide (n = name) && ends_match open ts | [] => false end
  | CommentToken raw :: ts => if closes raw then match open with _ :: open => ends_match open ts | [] => false end else ends_match open ts
  end.
Definition open_tags (p : htmlParser) : list (list byte) := List.rev (el_tag <$> p_stack p).

Lemma compute_length_pos s : 0 <= ComputeLengthBytes s.
Proof. rewrite compute_length_bytes. apply units_pos. Qed.

Lemma ok_write p s : parser_ok p -> parser_ok (mkParser (Write s (p_builder p)) (p_stack p) (p_attr p)).
Proof.
  intros [[Hn He] Hs Ha]. pose proof (compute_length_pos s) as Hp. pose proof (zlen_nonneg s) as Hz. split; [| |done].
  - split; [done|]. intros e Hin. specialize (He e Hin). cbn [p_builder Write set_message utf16length]. lia.
  - cbn [p_stack p_builder]. eapply Forall_impl; [exact Hs|]. intros el [H8 H16 Hap Hf].
    split; cbn [Write set_message message utf16length entities]; [rewrite zlen_app|..]; try done; lia.
Qed.

Lemma ok_push p e stack attr : parser_ok p -> Forall (elem_ok (p_builder p)) stack -> ascending stack ->
  el_token e = builder_Token (p_builder p) -> (forall f, el_format e = Some f -> proper f) -> parser_ok (mkParser (p_builder p) (push e stack) attr).
Proof.
  intros [Hn _ _] Hs Ha Ht Hf. split; cbn [p_builder p_stack]; [done| |].
  - apply Forall_app. split; [done|]. apply Forall_singleton. split; [| | |done]; rewrite Ht; unfold builder_Token, UTF8Len, UTF16Len; cbn [utf8offset utf16offset].
    + split; [apply zlen_nonneg|lia].
    + lia.
    + intros e' Hin. right. by apply Hn.
  - unfold push, ascending in *. rewrite fmap_app. apply StronglySorted_app_2; [|done|by repeat constructor].
    intros x y [el [-> Hin]]%list_elem_of_fmap ->%list_elem_of_singleton. rewrite Forall_forall in Hs. destruct (Hs el Hin) as [_ H16 _ _].
    unfold el_offset. by rewrite Ht.
Qed.

Lemma fmap_alter_same {A B} (g : A -> B) (f : A -> A) (l : list A) i : (forall x, g (f x) = g x) -> g <$> alter f i l = g <$> l.
Proof. intros Hg. revert i. induction l as [|x l IH]; intros [|i]; cbn; [done..|by rewrite Hg|]. f_equal. apply IH. Qed.

Section ParserProofs.
Context `{!UrlLib} (opts : Options).

Lemma url_formatter_proper u r f : getURLFormatter u r = Ok f -> proper f.
Proof. unfold getURLFormatter. intros Hf. repeat case_match; simplify_eq; by eexists. Qed.

Lemma url_formatter_total u r : getURLFormatter u r <> Panic.
Proof.
  unfold getURLFormatter. assert (Hv : forall u, validateHostname u <> Panic) by (intros u'; unfold validateHostname; by repeat case_match).
  intros Hf. repeat case_match; simplify_eq; by eapply Hv.
Qed.

Lemma date_flags_proper cs a b c d e date f : date_flags cs a b c d e date = Ok f -> proper f.
Proof.
  revert a b c d e. induction cs as [|x cs IH]; intros a b c d e; cbn [date_flags]; [intros [= <-]; by eexists|].
  repeat match goal with |- context [if ?t then _ else _] => destruct t end; first [apply IH|done].
Qed.

Lemma date_proper fmt d f : FormattedDateFormat fmt d = Ok f -> proper f.
Proof. unfold FormattedDateFormat. destruct (_ || _); [intros [= <-]; by eexists|]. apply date_flags_proper. Qed.

Lemma set_format_ok b f stack : proper f -> Forall (elem_ok b) stack -> Forall (elem_ok b) (set_format f stack).
Proof.
  intros Hf Hs. unfold set_format. apply Forall_alter; [done|]. intros x _ [H8 H16 Hap Hx]. split; [done..|]. by intros f' [= <-].
Qed.

Lemma set_format_offsets f stack : el_offset <$> set_format f stack = el_offset <$> stack.
Proof. unfold set_format. by apply fmap_alter_same. Qed.

Lemma set_format_tags f stack : el_tag <$> set_format f stack = el_tag <$> stack.
Proof. unfold set_format. by apply fmap_alter_same. Qed.

Lemma open_push b e stack attr : open_tags (mkParser b (push e stack) attr) = el_tag e :: List.rev (el_tag <$> stack).
Proof. unfold open_tags, push. cbn [p_stack]. by rewrite fmap_app, List.rev_app_distr. Qed.

Lemma ok_start name attrs p : parser_ok p -> parser_ok (startTag opts name attrs p) /\ open_tags (startTag opts name attrs p) = name :: open_tags p.
Proof.
  intros Hp. pose proof Hp as [Hn Hs Ha].
  assert (Hpush : forall a f stack attr, (forall g, f = Some g -> proper g) -> (stack = p_stack p \/ exists g, proper g /\ stack = set_format g (p_stack p)) ->
    parser_ok (mkParser (p_builder p) (push (mkElem (builder_Token (p_builder p)) name a f) stack) attr) /\
    open_tags (mkParser (p_builder p) (push (mkElem (builder_Token (p_builder p)) name a f) stack) attr) = name :: open_tags p).
  { intros a f stack attr Hf Hst. rewrite open_push. cbn [el_tag]. unfold open_tags. destruct Hst as [->|(g & Hg & ->)].
    - split; [|done]. by apply ok_push.
    - rewrite set_format_tags. split; [|done]. apply ok_push; [done|by apply set_format_ok| |done|done].
      unfold ascending. by rewrite set_format_offsets. }
  assert (Hu : forall h r g, ok_or_nil (getURLFormatter h r) = Some g -> proper g).
  { intros h r g Hg. unfold ok_or_nil in Hg. destruct (getURLFormatter h r) eqn:E; simplify_eq. by eapply url_formatter_proper. }
  unfold startTag. repeat case_match; apply Hpush; try (left; reflexivity); try (intros g [= <-]; by eexists); try done.
  all: try (right; eexists; split; [by eexists|reflexivity]).
  all: try apply Hu.
  - intros g Hg. apply fmap_Some in Hg as (z & _ & ->). by eexists.
  - intros g [= <-]. by eapply date_proper.
Qed.

Lemma pop_some s e stack : pop s = Some (e, stack) -> s = stack ++ [e].
Proof.
  unfold pop. destruct (last s) as [x|] eqn:El; [|done]. intros [= -> <-]. apply last_Some in El as [l ->].
  rewrite length_app. simpl. rewrite take_app_le by lia. by rewrite take_ge by lia.
Qed.

Lemma pop_none s : pop s = None -> s = [].
Proof. unfold pop. destruct (last s) eqn:El; [done|]. intros _. by apply last_None. Qed.

Lemma end_format_ok e p : elem_ok (p_builder p) e ->
  exists r, end_format opts e (p_builder p) = Ok r /\ forall f, r = Some (Some f) -> proper f.
Proof.
  intros [H8 H16 Hap Hf]. unfold end_format. destruct (is_tag (el_tag e) ["a"]).
  - case_bool_decide; [|eexists; split; [done|]; intros f [= Hx]; by apply Hf].
    unfold Text, TextRange, UTF8Len. replace (_ && _ && _) with true by lia.
    destruct (getURLFormatter _ _) eqn:Eu; [| |by apply url_formatter_total in Eu].
    + eexists. split; [done|]. intros f [= <-]. by eapply url_formatter_proper.
    + eexists. split; [done|]. intros f [= Hx]. by apply Hf.
  - repeat case_match; simplify_eq; (eexists; split; [done|]); intros f Hx; simplify_eq; by apply Hf.
Qed.

(** The innermost element is closed, with or without an entity. *)
Lemma ok_close p stack e attr : parser_ok p -> p_stack p = stack ++ [e] -> parser_ok (mkParser (p_builder p) stack attr).
Proof.
  intros [Hn Hs Ha] Hp. rewrite Hp in Hs, Ha. apply Forall_app in Hs as [Hs _]. unfold ascending in Ha. rewrite fmap_app in Ha.
  apply StronglySorted_app in Ha as (_ & Ha & _). by split.
Qed.

Lemma ok_apply p stack e f attr : parser_ok p -> p_stack p = stack ++ [e] -> proper f ->
  parser_ok (mkParser (Apply (el_token e) [f] (p_builder p)) stack attr).
Proof.
  intros [[Hn He] Hs Ha] Hp [k ->]. rewrite Hp in Hs, Ha. apply Forall_app in Hs as [Hs [[H8 H16 Hap _] _]%Forall_cons_1].
  unfold ascending in Ha. rewrite fmap_app in Ha. apply StronglySorted_app in Ha as (Hlt & Ha & _).
  set (b := p_builder p) in *. set (new := mkEntity k (utf16offset (el_token e)) (utf16length b - utf16offset (el_token e))).
  assert (Hb : Apply (el_token e) (@cons Formatter (mkEntity k) []) b = mkBuilder (entities b ++ [new]) (lengths b ++ [mkUtf8 (utf8offset (el_token e)) (zlen (message b) - utf8offset (el_token e))])
    (length (entities b)) (utf16length b) (message b)) by reflexivity.
  rewrite Hb. clear Hb. assert (Hend : e_end new = utf16length b) by (unfold e_end, new; cbn [e_Offset e_Length]; lia).
  assert (Hnew : forall x, x ∈ entities b -> nested x new /\ nested new x).
  { intros x Hx. specialize (He x Hx). specialize (Hap x Hx). unfold nested. rewrite Hend. cbn [new e_Offset]. lia. }
  split; cbn [p_builder p_stack entities utf16length]; [| |done].
  - split.
    + intros e1 e2 [H1 | ->%list_elem_of_singleton]%elem_of_app [H2 | ->%list_elem_of_singleton]%elem_of_app; [by apply Hn|by apply Hnew..|].
      unfold nested. lia.
    + intros x [Hx | ->%list_elem_of_singleton]%elem_of_app; [by apply He|]. lia.
  - apply Forall_forall. intros el Hin. rewrite Forall_forall in Hs. destruct (Hs el Hin) as [G8 G16 Gap Gf].
    split; cbn [entities utf16length message]; [done..| |done]. intros x [Hx | ->%list_elem_of_singleton]%elem_of_app; [by apply Gap|].
    left. cbn [new e_Offset]. apply (Hlt (el_offset el) (el_offset e)); [by apply list_elem_of_fmap_2|by left].
Qed.

Lemma ok_end check tn p : parser_ok p ->
  match endTag opts check tn p with
  | Ok p' => parser_ok p' /\ exists n, open_tags p = n :: open_tags p' /\ (check = true -> n = tn)
  | Err _ => open_tags p = [] \/ exists n st, open_tags p = n :: st /\ check = true /\ n <> tn
  | Panic => False
  end.
Proof.
  intros Hp. unfold endTag. destruct (pop (p_stack p)) as [[e stack]|] eqn:Epop; cycle 1.
  { left. unfold open_tags. by rewrite (pop_none _ Epop). }
  apply pop_some in Epop. assert (Ho : open_tags p = el_tag e :: List.rev (el_tag <$> stack)) by (unfold open_tags; rewrite Epop; by rewrite fmap_app, List.rev_app_distr).
  destruct (check && negb (bool_decide (el_tag e = tn))) eqn:Ec.
  { bool_to_prop. right. exists (el_tag e), (List.rev (el_tag <$> stack)). split; [done|]. split; [done|]. by apply bool_decide_eq_false in H1. }
  assert (Hn : check = true -> el_tag e = tn) by (intros ->; cbn [andb] in Ec; apply negb_false_iff in Ec; by apply bool_decide_eq_true in Ec).
  destruct (end_format_ok e p) as (r & -> & Hr); [pose proof (po_stack _ Hp) as Hs; rewrite Epop in Hs; by apply Forall_app in Hs as [_ [Hs _]%Forall_cons_1]|].
  destruct r as [[f|]|].
  - destruct (_ =? 0); (split; [|by exists (el_tag e)]); [by eapply ok_close|]. eapply ok_apply; [done|done|by apply Hr].
  - split; [by eapply ok_close|by exists (el_tag e)].
  - split; [by eapply ok_close|by exists (el_tag e)].
Qed.

Lemma parse_spec ts p : parser_ok p ->
  match parse opts ts p with
  | Ok p' => parser_ok p' /\ ends_match (open_tags p) ts = true
  | Err _ => ends_match (open_tags p) ts = false
  | Panic => False
  end.
Proof.
  revert p. induction ts as [|t ts IH]; intros p Hp; [done|]. destruct t as [err|raw text|name attrs|name|raw|]; cbn [parse ends_match].
  - by destruct (Is err EOF).
  - assert (Hw : exists s, written opts raw text = Ok s) by (unfold written; destruct (DisableTelegramEscape opts); [by eexists|rewrite unescape_eq; by eexists]).
    destruct Hw as [s ->]. apply (IH _ (ok_write p s Hp)).
  - destruct (ok_start name attrs p Hp) as [Hp' Ho]. rewrite <- Ho. by apply IH.
  - pose proof (ok_end true name p Hp) as He. destruct (endTag opts true name p) as [p'|err|]; [| |done].
    + destruct He as (Hp' & n & -> & Hn). rewrite bool_decide_true by (by apply Hn). by apply IH.
    + destruct He as [->|(n & st & -> & _ & Hne)]; [done|]. by rewrite bool_decide_false by done.
  - destruct (closes raw); [|by apply IH]. pose proof (ok_end false [] p Hp) as He. destruct (endTag opts false [] p) as [p'|err|]; [| |done].
    + destruct He as (Hp' & n & -> & Hn). by apply IH.
    + destruct He as [->|(n & st & -> & ? & _)]; done.
  - by apply IH.
Qed.
End ParserProofs.

(** C17: HTML accepts exactly the inputs in which every end tag closes the innermost open
    element (and which end without an error of the reader), reports the others and never
    panics; an element that is open at the end of the input is no error.  If the entities
    of the builder were nested in each other or apart, they still are, with the ones of the
    input, and all of them end within the text. *)
Theorem html_structure `{!UrlLib} (opts : Options) (ts : list token) (b : Builder) : well_nested (entities b) (UTF16Len b) ->
  match HTML opts ts b with
  | Ok b' => ends_match [] ts = true /\ well_nested (entities b') (UTF16Len b')
  | Err _ => ends_match [] ts = false
  | Panic => False
  end.
Proof.
  intros Hb. assert (Hp : parser_ok (mkParser b [] [])) by (split; [done|constructor|constructor]).
  pose proof (parse_spec opts ts _ Hp) as Hs. unfold HTML. destruct (parse opts ts (mkParser b [] [])) as [p|err|]; [|done..].
  destruct Hs as [[[Hn He] _ _] Hc]. unfold ShrinkPreCode. rewrite shrink_eq. split; [done|].
  destruct (shrink_forall (fun e => exists e', e' ∈ entities (p_builder p) /\ e_Offset e = e_Offset e' /\ e_Length e = e_Length e') (entities (p_builder p)))
    as [Hf _].
  - intros e (e' & Hin & Ho & Hl). exists e'. unfold resetLang. by destruct (e_kind e).
  - apply Forall_forall. intros e Hin. by exists e.
  - rewrite Forall_forall in Hf. cbn [entities UTF16Len utf16length]. split.
    + intros e1 e2 (e1' & H1 & O1 & L1)%Hf (e2' & H2 & O2 & L2)%Hf. unfold nested, e_end in *. rewrite O1, O2, L1, L2. by apply Hn.
    + intros e (e' & H1 & O1 & L1)%Hf. unfold e_end. rewrite O1, L1. by apply He.
Qed.

(** An input that leaves its elements open is accepted. *)
Theorem html_unclosed_accepted `{!UrlLib} (opts : Options) (name raw : list byte) (attrs : list (list byte * list byte)) (b : Builder) :
  well_nested (entities b) (UTF16Len b) -> exists b', HTML opts [StartTagToken name attrs; TextToken raw raw] b = Ok b'.
Proof.
  intros Hb. assert (Hp : parser_ok (mkParser b [] [])) by (split; [done|constructor|constructor]).
  pose proof (parse_spec opts [StartTagToken name attrs; TextToken raw raw] _ Hp) as Hs. unfold HTML.
  destruct (parse opts _ (mkParser b [] [])) as [p|err|]; [|done..]. unfold ShrinkPreCode. rewrite shrink_eq. by eexists.
Qed.

Definition text (s : string) : token := TextToken (str s) (str s).
Definition tag (n : string) : token := StartTagToken (str n) [].
Definition end_tag (n : string) : token := EndTagToken (str n).

(** A token that brings no attributes. *)
Definition no_attrs (t : token) : Prop := match t with StartTagToken _ attrs => attrs = [] | _ => True end.

Section Attributes.
Context `{!UrlLib} (opts : Options).

Lemma start_attr name attrs p : p_attr (startTag opts name attrs p) = fillAttrs attrs (p_attr p).
Proof. unfold startTag. by repeat case_match. Qed.

Lemma end_attr check tn p p' : endTag opts check tn p = Ok p' -> p_attr p' = p_attr p.
Proof. unfold endTag. intros He. repeat case_match; by simplify_eq. Qed.

Lemma parse_attr ts p q : Forall no_attrs ts -> parse opts ts p = Ok q -> p_attr q = p_attr p.
Proof.
  intros Hts. revert p. induction Hts as [|t ts Ht _ IH]; intros p; [by intros [= <-]|].
  destruct t as [err|raw txt|name attrs|name|raw|]; cbn [parse no_attrs] in *.
  - destruct (Is err EOF); [by intros [= <-]|done].
  - destruct (written opts raw txt); [|done..]. by intros ->%IH.
  - intros ->%IH. by rewrite start_attr, Ht.
  - destruct (endTag opts true name p) as [p'| |] eqn:E; [|done..]. intros ->%IH. by eapply end_attr.
  - destruct (closes raw); [|apply IH]. destruct (endTag opts false [] p) as [p'| |] eqn:E; [|done..]. intros ->%IH. by eapply end_attr.
  - apply IH.
Qed.

End Attributes.

(** C32: the attributes of an element stay for the elements that follow it: when an element
    has attributes, and no start tag behind it has some, then the next tag without
    attributes is treated as if it had the ones of that element, whether that is closed or
    not. *)
Theorem html_stale_attrs `{!UrlLib} (opts : Options) (n name : list byte) (attrs : list (list byte * list byte)) (ts : list token)
    (p q : htmlParser) :
  attrs <> [] -> Forall no_attrs ts -> parse opts (StartTagToken n attrs :: ts) p = Ok q ->
  startTag opts name [] q = startTag opts name attrs q.
Proof.
  intros Hne Hts Hp. cbn [parse] in Hp. apply parse_attr in Hp; [|done]. rewrite start_attr in Hp.
  assert (fillAttrs attrs (p_attr p) = attrs) as Ha by (unfold fillAttrs; by rewrite bool_decide_false).
  rewrite Ha in Hp. unfold startTag. assert (fillAttrs [] (p_attr q) = fillAttrs attrs (p_attr q)) as ->; [|done].
  rewrite Hp. unfold fillAttrs. by rewrite bool_decide_true, bool_decide_false by done.
Qed.

(** A span without a class after a spoiler. *)
Example html_stale_spoiler `{!UrlLib} (opts : Options) :
  let ts := [StartTagToken (str "span") [(str "class", str "tg-spoiler")]; text "a"; end_tag "span"; tag "span"; text "b"; end_tag "span"] in
  exists b, HTML opts ts new_Builder = Ok b /\ message b = str "ab" /\ entities b = [mkEntity KSpoiler 1 1; mkEntity KSpoiler 0 1].
Proof. destruct opts as [r []]; eexists; (split; [vm_compute; reflexivity|split; reflexivity]). Qed.

(** *** A bold and an italic element *)

Section TwoElements.
Context `{!UrlLib} (opts : Options).





End TwoElements.


Module HtmlSample.
#[export] Instance lib : UrlLib := {| url_Parse := fun s => inl (mkUrl [] [] s []); url_String := fun u => u_Path u; ParseIP := fun _ => false |}.
Definition opts : Options := mkOptions None false.
End HtmlSample.
Import HtmlSample.

Lemma html_structure_witness :
  ends_match [] [tag "b"; text "x"; tag "i"; text "&lt;"; end_tag "i"; end_tag "b"] = true /\
  match HTML HtmlSample.opts [tag "b"; text "x"; tag "i"; text "&lt;"; end_tag "i"; end_tag "b"] new_Builder with
  | Ok b' => well_nested (entities b') (UTF16Len b') | _ => False end.
Proof.
  pose proof (html_structure HtmlSample.opts [tag "b"; text "x"; tag "i"; text "&lt;"; end_tag "i"; end_tag "b"] new_Builder) as H.
  split; [reflexivity|]. destruct (HTML _ _ _) as [b'|e|]; [|vm_compute in H..].
  - apply H. split; [intros e1 e2 Hin|intros e Hin]; by apply elem_of_nil in Hin.
  - exfalso. discriminate H. split; [intros e1 e2 Hin|intros e1 Hin]; by apply elem_of_nil in Hin.
  - apply H. split; [intros e1 e2 Hin|intros e1 Hin]; by apply elem_of_nil in Hin.
Defined.

Definition spoiler_attrs : list (list byte * list byte) := [(str "class", str "tg-spoiler")].

Lemma html_stale_attrs_witness : exists q,
  parse HtmlSample.opts [StartTagToken (str "span") spoiler_attrs; text "a"; end_tag "span"] (mkParser new_Builder [] []) = Ok q /\
  p_stack q = [] /\ startTag HtmlSample.opts (str "span") [] q = startTag HtmlSample.opts (str "span") spoiler_attrs q.
Proof.
  eexists. split; [vm_compute; reflexivity|]. split; [reflexivity|].
  apply (html_stale_attrs HtmlSample.opts (str "span") (str "span") spoiler_attrs [text "a"; end_tag "span"] (mkParser new_Builder [] [])).
  - discriminate.
  - repeat constructor.
  - vm_compute. reflexivity.
Defined.

