(* ===== verification/Pq.v ===== *)
(** * crypto: factorization of pq

    Model of src/crypto/pq.go: DecomposePQ, the factorization that answers the
    server's proof of work.  Loops are iterated with a bound on the number of
    turns; [while_le] and the fuel lemmas show that the bounds are never what ends them. *)
From Stdlib Require Import Zdivisibility.
From S2P Require Import Prelude Io Hash Keys.

(** Go's big.Int.Mod: the Euclidean remainder. *)
Definition big_Mod (x m : Z) : Z := x mod (Z.abs m).

(** crypto/rand.Int(randSource, 2^64): eight bytes, big-endian. *)
Definition rand_Int64Max : GoM Stream Z :=
  let! b := must_read 8 in ret (be_combine b).

(** [for cond { body }] for at most [n] turns, [n] in binary. *)
Fixpoint while_le {A} (n : positive) (cond : A -> bool) (body : A -> A) (s : A) : A :=
  if cond s then
    match n with
    | xH => body s
    | xO n => while_le n cond body (while_le n cond body s)
    | xI n => while_le n cond body (while_le n cond body (body s))
    end
  else s.

(** One turn of the innermost loop: [c] += [a] when the low bit of [b] is set,
    [a] doubles, both reduced by one subtraction. *)
Definition mulAdd_body (what : Z) (s : Z * Z * Z) : Z * Z * Z :=
  let '(a, b, c) := s in
  let c :=
    if Z.land b 1 >? 0 then
      let c := c + a in
      if c >=? what then c - what else c
    else c in
  let a := a + a in
  let a := if a >=? what then a - what else a in
  (a, Z.shiftr b 1, c).

Definition mulAdd_cond (s : Z * Z * Z) : bool := snd (fst s) >? 0.

(** The innermost loop; a turn drops the lowest bit of [b]. *)
Definition mulAdd (what x v : Z) : Z :=
  snd (while_le (Z.to_pos (Z.log2 x + 1)) mulAdd_cond (mulAdd_body what) (x, x, v)).

Record rho : Type := mkRho { rho_x : Z; rho_y : Z; rho_g : Z; rho_j : Z; rho_flag : bool }.

(** One turn of the search for a common divisor. *)
Definition rho_body (what v : Z) (s : rho) : rho :=
  let x := mulAdd what (rho_x s) v in
  let y := rho_y s in
  let z := if x <? y then what + x - y else x - y in
  let g := Z.gcd z what in
  let j := rho_j s in
  mkRho x (if Z.land j (j - 1) =? 0 then x else y) g (j + 1)
        (if negb (g =? 1) then false else rho_flag s).

Definition rho_cond (lim : Z) (s : rho) : bool := (rho_j s <? lim) && rho_flag s.

(** [1 << (uint(i) + 18)] as a Go int. *)
Definition rho_lim (i : Z) : Z := i64 (Z.shiftl 1 (i + 18)).

Definition rho_search (what v x g i : Z) : rho :=
  while_le (Z.to_pos (rho_lim i)) (rho_cond (rho_lim i)) (rho_body what v) (mkRho x x g 1 true).

(** The outer loop.  A turn takes 16 random bytes, so a source with fewer than
    [16 * fuel] of them ends the loop with an error before the fuel runs out.  The
    code's loop has no bound: on a source that never ends, such as
    crypto/rand.Reader, it goes on until a turn finds a divisor, and for a prime
    it never returns.  A finite [Stream] shows the beginning of such a source: an
    error here is a loop that is still running when these bytes are used up. *)
Fixpoint decompose_loop (fuel : nat) (what g i : Z) : GoM Stream Z :=
  match fuel with
  | O => fun r => (Panic, r)
  | S fuel =>
      if (g >? 1) && (g <? what) then ret g
      else
        let! v := rand_Int64Max in
        let v := Z.land v 15 + 17 in
        if what =? 0 then fun r => (Panic, r)
        else
          let v := big_Mod v what in
          let! x := rand_Int64Max in
          let whatNext := what - 1 in
          if whatNext =? 0 then fun r => (Panic, r)
          else
            let x := big_Mod x whatNext + 1 in
            decompose_loop fuel what (rho_g (rho_search what v x g i)) (i + 1)
  end.

Definition DecomposePQ (pq : Z) : GoM Stream (Z * Z) := fun r =>
  (let! g := decompose_loop (S (length (incoming r))) pq 0 0 in
   let p := g in
   let q := pq / g in
   ret (if p >? q then (q, p) else (p, q))) r.

(** ** The loops *)

Section WhileLe.
Context {A : Type} (cond : A -> bool) (body : A -> A).

Lemma while_le_inv (I : A -> Prop) n s :
  (forall s, I s -> cond s = true -> I (body s)) -> I s -> I (while_le n cond body s).
Proof.
  intros Hstep. revert s. induction n as [n IH|n IH|]; intros s Hs; simpl; destruct (cond s) eqn:E; auto.
Qed.

Lemma while_le_stop n s : cond s = false -> while_le n cond body s = s.
Proof. intros E. destruct n; simpl; by rewrite E. Qed.

(** A loop whose measure drops by one each turn and that stops at zero has ended
    after as many turns as the measure. *)
Context (m : A -> Z).
Hypothesis m_step : forall s, cond s = true -> 0 < m s /\ m (body s) <= m s - 1.

Lemma while_le_measure n s :
  cond (while_le n cond body s) = false \/ m (while_le n cond body s) <= m s - Z.pos n.
Proof.
  revert s. induction n as [n IH|n IH|]; intros s; simpl; destruct (cond s) eqn:E; auto.
  - destruct (m_step s E) as [_ ?]. destruct (IH (while_le n cond body (body s))) as [|?]; [by left|].
    destruct (IH (body s)) as [Hs1|?]; [|right; lia]. left. by rewrite while_le_stop.
  - destruct (IH (while_le n cond body s)) as [|?]; [by left|].
    destruct (IH s) as [Hs1|?]; [|right; lia]. left. by rewrite while_le_stop.
  - destruct (m_step s E). right. lia.
Qed.

Lemma while_le_done n s : m s <= Z.pos n -> cond (while_le n cond body s) = false.
Proof.
  intros Hn. destruct (while_le_measure n s) as [|Hle]; [done|].
  destruct (cond (while_le n cond body s)) eqn:E; [|done]. destruct (m_step _ E). lia.
Qed.
End WhileLe.

(** The innermost loop runs to its end. *)
Lemma mulAdd_done what x v :
  mulAdd_cond (while_le (Z.to_pos (Z.log2 x + 1)) mulAdd_cond (mulAdd_body what) (x, x, v)) = false.
Proof.
  apply (while_le_done _ _ (fun s => if mulAdd_cond s then Z.log2 (snd (fst s)) + 1 else 0)).
  - intros [[a b] c]. unfold mulAdd_cond. simpl. intros Hb. rewrite Hb. bool_to_prop.
    pose proof (Z.log2_nonneg b) as Hl. split; [lia|].
    destruct (Z.gtb_spec (Z.shiftr b 1) 0) as [Hs|]; [|lia].
    rewrite Z.log2_shiftr by done. assert (0 < Z.log2 b); [|lia].
    apply Z.log2_pos. rewrite Z.shiftr_div_pow2 in Hs by lia. change (2 ^ 1) with 2 in Hs.
    destruct (decide (b = 1)) as [->|]; [done|lia].
  - unfold mulAdd_cond. simpl. pose proof (Z.log2_nonneg x). destruct (x >? 0); lia.
Qed.

Lemma mulAdd_body_mod what s x0 :
  1 < what ->
  (let '(a, b, c) := s in 0 <= a < what /\ 0 <= b /\ 0 <= c < what /\ (c + a * b) mod what = x0) ->
  (let '(a, b, c) := mulAdd_body what s in
   0 <= a < what /\ 0 <= b /\ 0 <= c < what /\ (c + a * b) mod what = x0).
Proof.
  intros Hw. destruct s as [[a b] c]. intros (Ha & Hb & Hc & Hx). unfold mulAdd_body.
  change (Z.land b 1) with (Z.land b (Z.ones 1)). rewrite Z.land_ones by lia.
  rewrite Z.shiftr_div_pow2 by lia. change (2 ^ 1) with 2.
  pose proof (Z.div_mod b 2 ltac:(lia)) as Hdm. pose proof (Z.mod_pos_bound b 2 ltac:(lia)) as Hm.
  set (q := b / 2) in *. set (e := b mod 2) in *. clearbody q e.
  rewrite <- Hx. split_and!; try lia.
  - destruct (Z.geb_spec (a + a) what); lia.
  - destruct (Z.geb_spec (a + a) what); lia.
  - destruct (e >? 0), (Z.geb_spec (c + a) what); lia.
  - destruct (e >? 0), (Z.geb_spec (c + a) what); lia.
  - assert (forall y z k, y = z + k * what -> y mod what = z mod what) as Hcong.
    { intros y z k ->. apply Z_mod_plus_full. }
    destruct (Z.gtb_spec e 0), (Z.geb_spec (c + a) what), (Z.geb_spec (a + a) what);
      [apply (Hcong _ _ (-1 - q))|apply (Hcong _ _ (-1))|apply (Hcong _ _ (- q))|apply (Hcong _ _ 0)
      |apply (Hcong _ _ (- q))|apply (Hcong _ _ 0)|apply (Hcong _ _ (- q))|apply (Hcong _ _ 0)];
      subst b; first [assert (e = 1) as -> by lia; ring | assert (e = 0) as -> by lia; ring].
Qed.

(** The double-and-add loop computes the step of the pseudo-random sequence. *)
Lemma mulAdd_correct what x v :
  1 < what -> 0 <= x < what -> 0 <= v < what -> mulAdd what x v = (x * x + v) mod what.
Proof.
  intros Hw Hx Hv. unfold mulAdd. pose proof (mulAdd_done what x v) as Hdone.
  pose proof (while_le_inv mulAdd_cond (mulAdd_body what)
    (fun s => let '(a, b, c) := s in
       0 <= a < what /\ 0 <= b /\ 0 <= c < what /\ (c + a * b) mod what = (v + x * x) mod what)
    (Z.to_pos (Z.log2 x + 1)) (x, x, v)
    (fun s Hs _ => mulAdd_body_mod what s _ Hw Hs) ltac:(split_and!; lia)) as Hinv.
  destruct (while_le _ _ _ _) as [[a b] c]. unfold mulAdd_cond in *. simpl in *. bool_to_prop.
  destruct Hinv as (_ & Hb & Hc & He). assert (b = 0) as -> by lia.
  rewrite Z.mul_0_r, Z.add_0_r, Z.mod_small in He by done. rewrite He. f_equal. lia.
Qed.

(** The search runs to its end: either its limit is reached or a divisor was found. *)
Lemma rho_search_done what v x g i : rho_cond (rho_lim i) (rho_search what v x g i) = false.
Proof.
  unfold rho_search. apply (while_le_done _ _ (fun s => rho_lim i - rho_j s)).
  - intros s. unfold rho_cond. intros Hc. bool_to_prop. simpl. lia.
  - simpl. lia.
Qed.

Definition divisor_or_zero (what g : Z) : Prop := g = 0 \/ (g | what).

Lemma rho_search_divisor what v x g i :
  divisor_or_zero what g -> divisor_or_zero what (rho_g (rho_search what v x g i)).
Proof.
  intros Hg. unfold rho_search.
  apply (while_le_inv _ _ (fun s => divisor_or_zero what (rho_g s))); [|done].
  intros s _ _. right. apply Z.gcd_divide_r.
Qed.

Lemma rand_Int64Max_spec r :
  match rand_Int64Max r with
  | (Ok _, r') => length (incoming r') + 8 = length (incoming r) /\ ending r' = ending r
  | (Err e, r') => (e = ending r \/ e = ErrUnexpectedEOF) /\ ending r' = ending r
  | (Panic, _) => False
  end%nat.
Proof.
  unfold rand_Int64Max, bind, must_read.
  destruct (ReadFull 8 r) as [[got err] r'] eqn:E.
  destruct (ReadFull_spec 8 r got err r' ltac:(lia) E) as (Hin & Hend & Herr).
  destruct err as [e|]; simpl; [split; [apply Herr|done]|]. rewrite Hin, length_app. unfold zlen in Herr. split; [lia|done].
Qed.

(** What the outer loop can end with. *)
Definition loop_result (what : Z) (ending : error) (o : outcome Z) : Prop :=
  match o with
  | Ok g => 1 < g < what /\ (g | what)
  | Err e => e = ending \/ e = ErrUnexpectedEOF
  | Panic => False
  end.

Lemma decompose_loop_spec fuel what g i r :
  1 < what -> divisor_or_zero what g -> (length (incoming r) < fuel)%nat ->
  loop_result what (ending r) (fst (decompose_loop fuel what g i r)).
Proof.
  intros Hw. revert g i r. induction fuel as [|fuel IH]; intros g i r Hg Hfuel; [lia|]. simpl.
  destruct ((g >? 1) && (g <? what)) eqn:E.
  { bool_to_prop. destruct Hg as [->|Hg]; [lia|]. simpl. split; [lia|done]. }
  clear E. unfold bind at 1. pose proof (rand_Int64Max_spec r) as Hr1.
  destruct (rand_Int64Max r) as [[v|e|] r1]; [|by destruct Hr1|done].
  replace (what =? 0) with false by lia.
  unfold bind. pose proof (rand_Int64Max_spec r1) as Hr2. destruct Hr1 as [Hl1 He1]. rewrite He1 in Hr2.
  destruct (rand_Int64Max r1) as [[x|e|] r2]; [|by destruct Hr2|done].
  replace (what - 1 =? 0) with false by lia. destruct Hr2 as [Hl2 <-].
  apply IH; [|lia]. by apply rho_search_divisor.
Qed.

(** An ordered factorization into two non-trivial factors of a product of two
    primes is that product. *)
Lemma factors_unique p q P Q :
  1 < p <= q -> Z.prime P -> Z.prime Q -> P <= Q -> P * Q = p * q -> p = P /\ q = Q.
Proof.
  intros Hpq HP HQ Hle Heq. pose proof (Z.prime_ge_2 P HP). pose proof (Z.prime_ge_2 Q HQ).
  assert (P | p * q) as Hdiv by (exists Q; lia).
  assert (forall k m, 0 < k -> 1 < m -> k * m = Q -> k = 1) as Hone.
  { intros k m Hk Hm HkQ. pose proof (Z.divide_prime_r k Q HQ ltac:(exists m; lia)). nia. }
  destruct (proj1 (Z.divide_prime_mul p q P HP) Hdiv) as [[k Hk]|[k Hk]].
  - assert (k * q = Q) by nia. assert (k = 1) as -> by (apply (Hone k q); nia). lia.
  - assert (k * p = Q) by nia. assert (k = 1) as -> by (apply (Hone k p); nia). lia.
Qed.

(** The outcomes of a factorization. *)
Lemma DecomposePQ_spec (pq : Z) (r : Stream) :
  1 < pq ->
  match fst (DecomposePQ pq r) with
  | Ok (p, q) => p * q = pq /\ 1 < p <= q /\ q < pq /\
      forall P Q, Z.prime P -> Z.prime Q -> P <= Q -> P * Q = pq -> p = P /\ q = Q
  | Err e => e = ending r \/ e = ErrUnexpectedEOF
  | Panic => False
  end.
Proof.
  intros Hpq. unfold DecomposePQ, bind.
  pose proof (decompose_loop_spec (S (length (incoming r))) pq 0 0 r Hpq (or_introl eq_refl) ltac:(lia)) as Hl.
  destruct (decompose_loop _ _ _ _ r) as [[g|e|] r']; simpl in *; [|done|done].
  destruct Hl as [Hg Hdiv].
  assert (g * (pq / g) = pq) as Hmul by (destruct Hdiv as [k ->]; rewrite Z.div_mul; lia).
  set (h := pq / g) in *. clearbody h. assert (1 < h < pq) as Hh by nia.
  destruct (Z.gtb_spec g h); (split_and!; [lia..|];
    intros P Q ????; apply factors_unique; auto; lia).
Qed.

(** More of the source, and more fuel, do not change what was found. *)
Lemma rand_Int64Max_more r v r' more e :
  rand_Int64Max r = (Ok v, r') ->
  rand_Int64Max (mkStream (incoming r ++ more) e) = (Ok v, mkStream (incoming r' ++ more) e).
Proof.
  unfold rand_Int64Max. intros H. apply bind_inv_ok in H as (b & r1 & Hb & H). injection H as <- <-.
  apply must_read_inv in Hb as (Hin & Hl & _); [|lia].
  rewrite Hin, <- app_assoc. erewrite bind_ok by (apply must_read_app; lia). done.
Qed.

Lemma decompose_loop_more fuel fuel' what g i r d r' more e :
  (fuel <= fuel')%nat -> decompose_loop fuel what g i r = (Ok d, r') ->
  decompose_loop fuel' what g i (mkStream (incoming r ++ more) e) = (Ok d, mkStream (incoming r' ++ more) e).
Proof.
  revert fuel' g i r. induction fuel as [|fuel IH]; intros [|fuel'] g i r Hf H; try done; [lia|].
  simpl in *. destruct ((g >? 1) && (g <? what)); [by injection H as <- <-|].
  apply bind_inv_ok in H as (v & r1 & Hv & H). erewrite bind_ok by (by apply rand_Int64Max_more).
  destruct (what =? 0); [done|]. apply bind_inv_ok in H as (x & r2 & Hx & H).
  erewrite bind_ok by (by apply rand_Int64Max_more).
  destruct (what - 1 =? 0); [done|]. apply IH; [lia|done].
Qed.

Lemma DecomposePQ_more pq r d r' more e :
  DecomposePQ pq r = (Ok d, r') ->
  DecomposePQ pq (mkStream (incoming r ++ more) e) = (Ok d, mkStream (incoming r' ++ more) e).
Proof.
  unfold DecomposePQ. intros H. apply bind_inv_ok in H as (g & r1 & Hg & H). injection H as <- <-.
  erewrite bind_ok; [done|]. apply (decompose_loop_more (S (length (incoming r)))); [|done].
  cbn [incoming]. rewrite length_app. lia.
Qed.

(** An error has used up the source. *)
Lemma rand_Int64Max_err r e r' : rand_Int64Max r = (Err e, r') -> incoming r' = [].
Proof.
  unfold rand_Int64Max, bind, must_read. destruct (ReadFull 8 r) as [[got err] r1] eqn:E.
  destruct (ReadFull_spec 8 r got err r1 ltac:(lia) E) as (_ & _ & Herr).
  destruct err as [e'|]; [|done]. intros [= <- <-]. apply Herr.
Qed.

Lemma decompose_loop_err fuel what g i r e r' :
  decompose_loop fuel what g i r = (Err e, r') -> incoming r' = [].
Proof.
  revert g i r. induction fuel as [|fuel IH]; intros g i r H; [done|]. simpl in H.
  destruct ((g >? 1) && (g <? what)); [done|]. unfold bind in H.
  destruct (rand_Int64Max r) as [[v|e1|] r1] eqn:E1; [|injection H as <- <-; by apply rand_Int64Max_err in E1|done].
  destruct (what =? 0); [done|].
  destruct (rand_Int64Max r1) as [[x|e1|] r2] eqn:E2; [|injection H as <- <-; by apply rand_Int64Max_err in E2|done].
  destruct (what - 1 =? 0); [done|]. by apply IH in H.
Qed.

(** C28: for every pq > 1 and the first bytes [r] of a source of randomness (any
    number of them), DecomposePQ does not panic.  Either it has found two
    non-trivial factors p <= q of pq, which are the two primes when pq is a product
    of two primes, equal ones included, and finds the same whatever the source
    delivers behind [r]; or it has read all of [r] and returns the source's error,
    which is to say that it is still looking when the source goes on.  For a prime pq
    it is always the second, so on an endless source it does not return. *)
Theorem decompose_pq_factors (pq : Z) (r : Stream) :
  1 < pq ->
  match DecomposePQ pq r with
  | (Ok (p, q), r') => p * q = pq /\ 1 < p <= q /\ q < pq /\
      (forall P Q, Z.prime P -> Z.prime Q -> P <= Q -> P * Q = pq -> p = P /\ q = Q) /\
      ~ Z.prime pq /\
      (forall more e, DecomposePQ pq (mkStream (incoming r ++ more) e) =
                      (Ok (p, q), mkStream (incoming r' ++ more) e))
  | (Err e, r') => (e = ending r \/ e = ErrUnexpectedEOF) /\ incoming r' = []
  | (Panic, _) => False
  end.
Proof.
  intros Hpq. pose proof (DecomposePQ_spec pq r Hpq) as Hs.
  destruct (DecomposePQ pq r) as [[[p q]|e|] r'] eqn:E; simpl in Hs; [|split; [done|]|done].
  - destruct Hs as (Hm & Hp & Hq & Hu). do 4 (split; [done|]). split.
    + intros HP. pose proof (Z.divide_prime_r p pq HP ltac:(exists q; lia)). lia.
    + intros more e. by apply DecomposePQ_more.
  - unfold DecomposePQ, bind in E. destruct (decompose_loop _ _ _ _ r) as [[g|e1|] r1] eqn:El; [done| |done].
    injection E as <- <-. by apply decompose_loop_err in El.
Qed.

Lemma decompose_pq_factors_witness :
  1 < 8633 /\
  exists p q r', DecomposePQ 8633 (mkStream (be_split 8 0 ++ be_split 8 3) EOF) = (Ok (p, q), r') /\
    p * q = 8633 /\ 1 < p <= q.
Proof.
  split; [lia|].
  pose proof (decompose_pq_factors 8633 (mkStream (be_split 8 0 ++ be_split 8 3) EOF) ltac:(lia)) as H.
  assert (DecomposePQ 8633 (mkStream (be_split 8 0 ++ be_split 8 3) EOF) = (Ok (89, 97), mkStream [] EOF)) as E
    by (vm_compute; reflexivity).
  rewrite E in H. exists 89, 97, (mkStream [] EOF). destruct H as (Hmul & Hord & _).
  split; [exact E|]. split; [exact Hmul|exact Hord].
Defined.

(** A prime uses up what the source has; the square of a prime has equal factors. *)
Example decompose_pq_prime :
  fst (DecomposePQ 7 (mkStream (zeros 32) EOF)) = Err EOF.
Proof. vm_compute. reflexivity. Qed.

Example decompose_pq_square :
  fst (DecomposePQ 25 (mkStream (be_split 8 0 ++ be_split 8 3) EOF)) = Ok (5, 5).
Proof. vm_compute. reflexivity. Qed.
