(* ===== verification/Flow.v ===== *)
(** * exchange: the key exchange

    Model of src/exchange: the client flow (client_flow.go), the server flow
    (server_flow.go) with its random numbers (generator.go), the plaintext
    messages both send (proto.go) and the configuration (flow.go, key.go).  A flow
    runs on the frames it receives and the ones it sent, its source of
    randomness, the clock, and the cache of validated Diffie-Hellman parameters.
    A read from a peer that stays silent ends at its deadline, if it has one, and
    otherwise when the context of the caller ends.  Logging is left out, with
    the readings of the clock that only time a step for the log.  The loops that
    read are bounded by the number of frames there are. *)
From S2P Require Import Prelude Io Bin MessageID Proto Schema Hash Keys Cipher Exchange Dh Pq.
From Stdlib Require Import Zpow_facts.

Record flow : Type := mkFlow {
  fl_rand : Stream;
  fl_inbox : list (error + Buffer);
  fl_outbox : list Buffer;
  fl_sends : list (option error);          (* the results of the next sends; then they succeed *)
  fl_clock : list Z;                       (* the next readings; the last one repeats *)
  fl_cache : validatedDHParameterCache;
  fl_ctx : error }.                        (* how the context of the caller ends *)

Definition set_rand (v : Stream) (f : flow) : flow :=
  mkFlow v (fl_inbox f) (fl_outbox f) (fl_sends f) (fl_clock f) (fl_cache f) (fl_ctx f).
Definition set_inbox (v : list (error + Buffer)) (f : flow) : flow :=
  mkFlow (fl_rand f) v (fl_outbox f) (fl_sends f) (fl_clock f) (fl_cache f) (fl_ctx f).
Definition set_outbox (v : list Buffer) (s : list (option error)) (f : flow) : flow :=
  mkFlow (fl_rand f) (fl_inbox f) v s (fl_clock f) (fl_cache f) (fl_ctx f).
Definition set_clock (v : list Z) (f : flow) : flow :=
  mkFlow (fl_rand f) (fl_inbox f) (fl_outbox f) (fl_sends f) v (fl_cache f) (fl_ctx f).
Definition set_cache (v : validatedDHParameterCache) (f : flow) : flow :=
  mkFlow (fl_rand f) (fl_inbox f) (fl_outbox f) (fl_sends f) (fl_clock f) v (fl_ctx f).

(** ** The surroundings of a flow *)

Definition random {A} (m : GoM Stream A) : GoM flow A := fun f =>
  let '(r, s) := m (fl_rand f) in (r, set_rand s f).

Definition lift {A} (o : outcome A) : GoM flow A := fun f => (o, f).

(** Unix nanoseconds. *)
Definition Now : GoM flow Z := fun f =>
  match fl_clock f with
  | [] => (Ok 0, f)
  | [t] => (Ok t, f)
  | t :: ts => (Ok t, set_clock ts f)
  end.

Definition Unix (nano : Z) : Z := nano / 10 ^ 9.

Definition Send (b : Buffer) : GoM flow unit := fun f =>
  match fl_sends f with
  | Some e :: l => (Err e, set_outbox (fl_outbox f) l f)
  | _ => (Ok tt, set_outbox (fl_outbox f ++ [b]) (tl (fl_sends f)) f)
  end.

(** [deadline] tells whether the context of the read has the timeout of the flow. *)
Definition Recv (deadline : bool) : GoM flow Buffer := fun f =>
  match fl_inbox f with
  | [] => (Err (if deadline then DeadlineExceeded else fl_ctx f), f)
  | inl e :: l => (Err e, set_inbox l f)
  | inr b :: l => (Ok b, set_inbox l f)
  end.

(** An encoder on an empty buffer, and a decoder. *)
Definition encoded (m : GoM Buffer unit) : GoM flow Buffer := fun f =>
  match m [] with
  | (Ok _, b) => (Ok b, f)
  | (Err e, _) => (Err e, f)
  | (Panic, _) => (Panic, f)
  end.
Definition decoded {A} (m : GoM Buffer A) (b : Buffer) : GoM flow A := lift (fst (m b)).

(** ** proto.go *)

Record unencryptedWriter : Type := mkWriter { input : MessageType; output : MessageType }.

Definition isClient (w : unencryptedWriter) : bool := bool_decide (output w = MessageFromClient).

Definition writeUnencrypted (w : unencryptedWriter) (data : GoM Buffer unit) : GoM flow unit :=
  let! b := encoded data in
  let! now := Now in
  let! b := encoded (UnencryptedMessage.Encode (mkUnencrypted (NewMessageID now (output w)) (Copy b))) in
  Send b.

Definition tryRead : GoM flow Buffer := Recv true.

(** errors.As with a *codec.ProtocolErr target: the code. *)
Fixpoint as_ProtocolErr (err : error) : option Z :=
  match err with
  | ProtocolErr code => Some code
  | Wrap e _ | ServerExchangeError _ e => as_ProtocolErr e
  | MultiErr e1 e2 => match as_ProtocolErr e1 with Some c => Some c | None => as_ProtocolErr e2 end
  | _ => None
  end.

Definition CodeAuthKeyNotFound : Z := 404.
Definition CodeWrongDC : Z := 444.

(** The loop: a client goes on reading after a missing key. *)
Fixpoint read_loop (fuel : nat) (client : bool) : GoM flow Buffer :=
  match fuel with
  | O => fun f => (Panic, f)
  | S fuel => fun f =>
      match tryRead f with
      | (Err e, f') =>
          if client && bool_decide (as_ProtocolErr e = Some CodeAuthKeyNotFound)
          then read_loop fuel client f' else (Err e, f')
      | r => r
      end
  end.

(** A server hands an encrypted frame back to its caller. *)
Definition check_encrypted (w : unencryptedWriter) (b : Buffer) : option error :=
  if isClient w then None
  else
    match fst (PeekN 8 b) with
    | Ok keyID => if bool_decide (keyID = zeros 8) then None else Some (UnexpectedEncryptedError keyID b)
    | _ => None
    end.

Definition checkMsgID (w : unencryptedWriter) (id : Z) : option error :=
  if bool_decide (Type_ id = input w) then None else Some (Errorf "bad msg type").

Definition check (err : option error) : GoM flow unit :=
  match err with Some e => fail e | None => ret tt end.

Definition readUnencrypted {A} (w : unencryptedWriter) (data : GoM Buffer A) : GoM flow A :=
  let! b := fun f => read_loop (S (length (fl_inbox f))) (isClient w) f in
  check (check_encrypted w b) ;;!
  let! msg := decoded UnencryptedMessage.Decode b in
  check (checkMsgID w (um_MessageID msg)) ;;!
  decoded data (um_MessageData msg).

(** ** flow.go, key.go *)

Inductive ExchangeMode : Type := ExchangeModePermanent | ExchangeModeTemporary.

(** A public key, or nil. *)
Definition PublicKey : Type := option RSAKey.

Definition Fingerprint (k : PublicKey) : outcome Z :=
  match k with Some key => Ok (RSAFingerprint key) | None => Panic end.

Record ClientExchange : Type := mkClient {
  keys : list PublicKey; client_dc : Z; mode : ExchangeMode; expiresIn : Z }.
Record ServerExchange : Type := mkServer { server_key : RSAKey; server_dc : Z }.

Definition client_writer : unencryptedWriter := mkWriter MessageServerResponse MessageFromClient.
Definition server_writer : unencryptedWriter := mkWriter MessageFromClient MessageServerResponse.

Record ClientExchangeResult : Type := mkClientResult {
  cr_AuthKey : AuthKey; cr_SessionID : Z; cr_ServerSalt : Z; cr_ExpiresAt : Z }.
Record ServerExchangeResult : Type := mkServerResult { sr_Key : AuthKey; sr_ServerSalt : Z }.

(** crypto/rand.Int(rand, 2^2048): 256 bytes, always below the limit. *)
Definition rand_Int2048 : GoM Stream Z := let! b := must_read 256 in ret (be_combine b).

(** ** generator.go *)

Record ServerRNG : Type := mkRNG {
  PQ : GoM Stream Z; GA : Z -> Z -> GoM Stream (Z * Z); DhPrime : GoM Stream Z }.

Module TestServerRNG.
Definition PQ : GoM Stream Z := ret 0x17ED48941A08F981.

(** A turn takes 256 random bytes, so that the source ends the loop before the fuel does. *)
Fixpoint ga_loop (fuel : nat) (g dhPrime : Z) : GoM Stream (Z * Z) :=
  match fuel with
  | O => fun r => (Panic, r)
  | S fuel =>
      let! a := rand_Int2048 in
      let ga := big_Exp g a dhPrime in
      let safetyRangeMin := 2 ^ (RSAKeyBits - 64) in
      if InRange ga 1 (dhPrime - 1) && InRange ga safetyRangeMin (dhPrime - safetyRangeMin)
      then ret (a, ga) else ga_loop fuel g dhPrime
  end.

Definition GA (g dhPrime : Z) : GoM Stream (Z * Z) :=
  match CheckGP g dhPrime with
  | Some e => fail e
  | None => fun r => ga_loop (S (length (incoming r))) g dhPrime r
  end.

Definition DhPrime : GoM Stream Z := ret
  0xC71CAEB9C6B1C9048E6C522F70F13F73980D40238E3E21C14934D037563D930F48198A0AA7C14058229493D22530F4DBFA336F6E0AC925139543AED44CCE7C3720FD51F69458705AC68CD4FE6B6B13ABDC9746512969328454F18FAF8C595F642477FE96BB2A941D5BCD1D4AC8CC49880708FA9B378E3C4F3A9060BEE67CF9A4A4A695811051907E162753B56B0F6B410DBA74D8A84B2A14B3144E0EF1284754FD17ED950D5965B4B9DD46582DB1178D169C6BC465B0D6FF9CA3928FEF5B9AE4E418FC15E83EBEA0F87FA9FF5EED70050DED2849F47BF959D956850CE929851F0D8115F635B105EE2E4E15D04B2454BF6F4FADF034B10403119CD8E3B92FCC5B.

Definition rng : ServerRNG := mkRNG PQ GA DhPrime.
End TestServerRNG.

Section Flows.
Context `{!IGE, !XorLib} (ProbablyPrime : Z -> bool).

(** ** client_flow.go *)

(** The first key of the client with one of the fingerprints. *)
Fixpoint selectPubKey (keys : list PublicKey) (fingerprints : list Z) : outcome PublicKey :=
  match keys with
  | [] => Ok None
  | key :: keys =>
      match Fingerprint key with
      | Ok f =>
          if existsb (fun fingerprint => fingerprint =? f) fingerprints then Ok key
          else selectPubKey keys fingerprints
      | Err e => Err e
      | Panic => Panic
      end
  end.

(** Steps 1 and 2: the nonce, the answer and the key. *)
Definition client_hello (c : ClientExchange) : GoM flow (list byte * ResPQ.t * RSAKey) :=
  let! nonce := wrapping "client nonce generation" (random RandInt128) in
  wrapping "write ReqPqMultiRequest" (writeUnencrypted client_writer (Encode (ReqPqMulti.mk nonce))) ;;!
  let! res := wrapping "read ResPQ response" (readUnencrypted client_writer (Decode (A := ResPQ.t))) in
  if negb (bool_decide (ResPQ.Nonce res = nonce)) then fail (Errorf "ResPQ nonce mismatch")
  else
    let! selected := lift (selectPubKey (keys c) (ResPQ.ServerPublicKeyFingerprints res)) in
    match selected with
    | None => fail ErrKeyFingerprintNotFound
    | Some key => ret (nonce, res, key)
    end.

Definition pqInnerData (c : ClientExchange) (inner : PQInnerData.t) : GoM Buffer unit :=
  match mode c with
  | ExchangeModeTemporary => Encode (PQInnerDataTempDC.mk inner (client_dc c) (expiresIn c))
  | ExchangeModePermanent => Encode (PQInnerDataDC.mk inner (client_dc c))
  end.

(** Steps 3 and 4: the factorization and the new nonce for the server. *)
Definition client_request (c : ClientExchange) (nonce : list byte) (res : ResPQ.t) (key : RSAKey)
    : GoM flow (list byte) :=
  let serverNonce := ResPQ.ServerNonce res in
  let pq := be_combine (ResPQ.Pq res) in
  if pq >? 2 ^ 63 then fail (Errorf "server provided bad pq")
  else
    let! pq_ := wrapping "decompose pq" (random (DecomposePQ pq)) in
    let pBytes := big_Bytes (fst pq_) in
    let qBytes := big_Bytes (snd pq_) in
    let! newNonce := wrapping "generate new nonce" (random RandInt256) in
    let! b := encoded (pqInnerData c
      (PQInnerData.mk (ResPQ.Pq res) pBytes qBytes nonce serverNonce newNonce)) in
    let! data := wrapping "encrypted_data generation" (random (RSAPad b key)) in
    wrapping "write ReqDHParamsRequest" (writeUnencrypted client_writer
      (Encode (ReqDHParams.mk nonce serverNonce pBytes qBytes (RSAFingerprint key) data))) ;;!
    ret newNonce.

(** c.conn.Recv(ctx, b) and the plaintext message in it. *)
Definition recv_plain (read decode : string) : GoM flow Buffer :=
  let! b := wrapping read (Recv false) in
  let! msg := wrapping decode (decoded UnencryptedMessage.Decode b) in
  ret (um_MessageData msg).

(** CheckDH with the cache of the process. *)
Definition CheckDH (g p : Z) : GoM flow unit := fun f =>
  let '(err, cache) := checkDHWithCache ProbablyPrime (fl_cache f) (fl_cache f) g (Some p) in
  check err (set_cache cache f).

(** A byte slice that b.Bytes() returned: nil when it is empty. *)
Definition slice_of (b : list byte) : option (list byte) :=
  match b with [] => None | _ => Some b end.

(** Steps 5 and 6: the server's parameters and the client's half of the key. *)
Definition client_params (nonce serverNonce newNonce : list byte) (p : ServerDHParamsOk.t) : GoM flow Z :=
  if negb (bool_decide (ServerDHParamsOk.Nonce p = nonce)) then fail (Errorf "ServerDHParamsOk nonce mismatch")
  else if negb (bool_decide (ServerDHParamsOk.ServerNonce p = serverNonce))
  then fail (Errorf "ServerDHParamsOk server nonce mismatch")
  else
    let '(key, iv) := TempAESKeys (BigInt newNonce) (BigInt serverNonce) in
    let! data := wrapping "exchange answer decrypt"
      (lift (DecryptExchangeAnswer (slice_of (ServerDHParamsOk.EncryptedAnswer p)) key iv)) in
    let! innerData := decoded (Decode (A := ServerDHInnerData.t)) (default [] data) in
    if negb (bool_decide (ServerDHInnerData.Nonce innerData = nonce))
    then fail (Errorf "ServerDHInnerData nonce mismatch")
    else if negb (bool_decide (ServerDHInnerData.ServerNonce innerData = serverNonce))
    then fail (Errorf "ServerDHInnerData server nonce mismatch")
    else
      let dhPrime := be_combine (ServerDHInnerData.DhPrime innerData) in
      let g := ServerDHInnerData.G innerData in
      wrapping "check DH params" (CheckDH g dhPrime) ;;!
      let gA := be_combine (ServerDHInnerData.GA innerData) in
      let! bParam := wrapping "number b generation" (random rand_Int2048) in
      let gB := big_Exp g bParam dhPrime in
      wrapping "key exchange failed: invalid params" (check (CheckDHParams dhPrime g gA gB)) ;;!
      let! b := encoded (Encode (ClientDHInnerData.mk (ServerDHInnerData.Nonce innerData)
                                  (ServerDHInnerData.ServerNonce innerData) 0 (big_Bytes gB))) in
      let! clientEncrypted := wrapping "exchange answer encrypt" (random (EncryptExchangeAnswer b key iv)) in
      wrapping "write SetClientDHParamsRequest" (writeUnencrypted client_writer
        (Encode (SetClientDHParams.mk nonce serverNonce clientEncrypted))) ;;!
      ret (big_Exp gA bParam dhPrime).

(** The result for the server's confirmation. *)
Definition client_result (c : ClientExchange) (nonce serverNonce newNonce : list byte) (authKey : Z)
    (v : DhGen.t) : GoM flow ClientExchangeResult :=
  if negb (bool_decide (DhGen.Nonce v = nonce)) then fail (Errorf "DhGenOk nonce mismatch")
  else if negb (bool_decide (DhGen.ServerNonce v = serverNonce))
  then fail (Errorf "DhGenOk server nonce mismatch")
  else
    match FillBytes authKey KeySize with
    | None => fun f => (Panic, f)
    | Some key =>
        let nonceHash1 := NonceHash1 newNonce key in
        let serverSalt := ServerSalt newNonce (DhGen.ServerNonce v) in
        if negb (bool_decide (nonceHash1 = DhGen.NewNonceHash v))
        then fail (Errorf "key exchange verification failed: hash mismatch")
        else
          let! sessionID := random NewSessionID in
          match mode c with
          | ExchangeModeTemporary =>
              let! now := Now in
              ret (mkClientResult (mkAuthKey key (Key_ID key)) sessionID serverSalt
                     (i64 (Unix now + expiresIn c)))
          | ExchangeModePermanent =>
              ret (mkClientResult (mkAuthKey key (Key_ID key)) sessionID serverSalt 0)
          end
    end.

(** Steps 7 and 8. *)
Definition client_finish (c : ClientExchange) (nonce serverNonce newNonce : list byte) (authKey : Z)
    : GoM flow ClientExchangeResult :=
  let! b := recv_plain "read DhGen message" "decode DhGen message" in
  let! dhSetRes := wrapping "decode DhGen answer" (decoded DecodeSetClientDHParamsAnswer b) in
  match dhSetRes with
  | DhGenOk v => client_result c nonce serverNonce newNonce authKey v
  | DhGenRetry v => fail (Errorf "retry required")
  | DhGenFail v => fail (Errorf "dh_hen_fail")
  end.

Definition Client_Run (c : ClientExchange) : GoM flow ClientExchangeResult :=
  let! hello := client_hello c in
  let '(nonce, res, key) := hello in
  let serverNonce := ResPQ.ServerNonce res in
  let! newNonce := client_request c nonce res key in
  let! b := recv_plain "read ServerDHParams message" "decode ServerDHParams message" in
  let! dhParams := decoded DecodeServerDHParams b in
  match dhParams with
  | DHParamsOk p =>
      let! authKey := client_params nonce serverNonce newNonce p in
      client_finish c nonce serverNonce newNonce authKey
  | DHParamsFail _ => fail (Errorf "server respond with server_DH_params_fail")
  end.

(** ** server_flow.go *)

(** reqPQ.Decode: the nonce of either request. *)
Definition reqPQ_Decode : GoM Buffer (list byte) :=
  let! id := PeekID in
  if id =? ReqPq.TypeID then let! r := Decode (A := ReqPq.t) in ret (ReqPq.Nonce r)
  else if id =? ReqPqMulti.TypeID then let! r := Decode (A := ReqPqMulti.t) in ret (ReqPqMulti.Nonce r)
  else fail (UnexpectedIDErr id).

(** reqOrDH.Decode *)
Definition reqOrDH_Decode : GoM Buffer (list byte + ReqDHParams.t) :=
  let! id := PeekID in
  if id =? ReqDHParams.TypeID then let! dh := Decode (A := ReqDHParams.t) in ret (inr dh)
  else let! nonce := reqPQ_Decode in ret (inl nonce).

Definition wrapKeyNotFound {A} (o : outcome A) : GoM flow A :=
  match o with
  | Err e => fail (ServerExchangeError CodeAuthKeyNotFound e)
  | o => lift o
  end.

(** The loop at SendResPQ: the nonce of the last request, and the answer to it. *)
Fixpoint server_resPQ (fuel : nat) (s : ServerExchange) (nonce serverNonce : list byte) (pq : Z)
    : GoM flow (list byte * ReqDHParams.t) :=
  match fuel with
  | O => fun f => (Panic, f)
  | S fuel =>
      writeUnencrypted server_writer
        (Encode (ResPQ.mk nonce serverNonce (big_Bytes pq) [RSAFingerprint (server_key s)])) ;;!
      let! dhParams := readUnencrypted server_writer reqOrDH_Decode in
      match dhParams with
      | inl nonce => server_resPQ fuel s nonce serverNonce pq
      | inr dh => ret (nonce, dh)
      end
  end.

(** The data that the client encrypted for the key of the server. *)
Definition server_inner (s : ServerExchange) (dh : ReqDHParams.t) : GoM flow PQInnerData.t :=
  let! r := wrapKeyNotFound (DecodeRSAPad (ReqDHParams.EncryptedData dh) (server_key s)) in
  let! d := decoded DecodePQInnerData r in
  let wrongDC := ServerExchangeError CodeWrongDC (Errorf "wrong DC ID") in
  match d with
  | PQ_Inner p => ret p
  | PQ_DC p =>
      if negb (PQInnerDataDC.DC p =? server_dc s) then fail wrongDC else ret (common d)
  | PQ_TempDC p =>
      if negb (PQInnerDataTempDC.DC p =? server_dc s) then fail wrongDC else ret (common d)
  end.

Definition server_g : Z := 3.

(** Steps 5 to 8. *)
Definition server_finish (rng : ServerRNG) (nonce serverNonce newNonce : list byte)
    : GoM flow ServerExchangeResult :=
  let! dhPrime := wrapping "generate dh_prime" (random (DhPrime rng)) in
  let! a_ga := wrapping "generate g_a" (random (GA rng server_g dhPrime)) in
  let! now := Now in
  let! b := encoded (Encode (ServerDHInnerData.mk nonce serverNonce server_g (big_Bytes dhPrime)
                               (big_Bytes (snd a_ga)) (Unix now))) in
  let '(key, iv) := TempAESKeys (BigInt newNonce) (BigInt serverNonce) in
  let! answer := random (EncryptExchangeAnswer b key iv) in
  writeUnencrypted server_writer (Encode (ServerDHParamsOk.mk nonce serverNonce answer)) ;;!
  let! clientDhParams := readUnencrypted server_writer (Decode (A := SetClientDHParams.t)) in
  let! decrypted := wrapKeyNotFound
    match DecryptExchangeAnswer (slice_of (SetClientDHParams.EncryptedData clientDhParams)) key iv with
    | Err e => Err (Wrap e "decrypt exchange answer")
    | o => o
    end in
  let! clientInnerData := wrapKeyNotFound (fst (Decode (A := ClientDHInnerData.t) (default [] decrypted))) in
  let gB := be_combine (ClientDHInnerData.GB clientInnerData) in
  match FillBytes (big_Exp gB (fst a_ga) dhPrime) KeySize with
  | None => fail (ServerExchangeError CodeAuthKeyNotFound (Errorf "auth_key is too big"))
  | Some authKey =>
      writeUnencrypted server_writer
        (DhGen.Encode DhGen.OkTypeID (DhGen.mk nonce serverNonce (NonceHash1 newNonce authKey))) ;;!
      ret (mkServerResult (WithID authKey) (ServerSalt newNonce serverNonce))
  end.

Definition Server_Run (rng : ServerRNG) (s : ServerExchange) : GoM flow ServerExchangeResult :=
  let! nonce := readUnencrypted server_writer reqPQ_Decode in
  let! serverNonce := wrapping "generate server nonce" (random RandInt128) in
  let! pq := wrapping "generate pq" (random (PQ rng)) in
  let! req := fun f => server_resPQ (S (length (fl_inbox f))) s nonce serverNonce pq f in
  let! innerData := server_inner s (snd req) in
  server_finish rng (fst req) serverNonce (PQInnerData.NewNonce innerData).
End Flows.

(** ** Steps of a flow *)

(** The next reading of a clock, and the clock after it. *)
Definition reading (clk : list Z) : Z := match clk with [] => 0 | t :: _ => t end.
Definition tick (clk : list Z) : list Z := match clk with _ :: (_ :: _) as ts => ts | _ => clk end.

Lemma Now_run f : Now f = (Ok (reading (fl_clock f)), set_clock (tick (fl_clock f)) f).
Proof. unfold Now, reading, tick. destruct f as [??? ? clk ??]; simpl. by destruct clk as [|t [|t' ts]]. Qed.

(** A clock that shows times before 2038. *)
Definition clock_ok (clk : list Z) : Prop := Forall time_nano clk.

Lemma clock_ok_reading clk : clock_ok clk -> time_nano (reading clk).
Proof. intros Hc. destruct Hc as [|t ts Ht _]; [|done]. unfold time_nano, reading. lia. Qed.

Lemma clock_ok_tick clk : clock_ok clk -> clock_ok (tick clk).
Proof. intros Hc. destruct Hc as [|t ts Ht Hts]; [constructor|]. destruct ts; [by constructor|done]. Qed.
#[local] Hint Resolve clock_ok_reading clock_ok_tick : core.

(** The frame of a plaintext message. *)
Definition frame (w : unencryptedWriter) (t : Z) (data : list byte) : Buffer :=
  unencrypted_bytes (mkUnencrypted (NewMessageID t (output w)) data).

Lemma encoded_run m b f : m [] = (Ok tt, b) -> encoded m f = (Ok b, f).
Proof. unfold encoded. by intros ->. Qed.

Lemma writeUnencrypted_run w m data r i o clk ca cx :
  m [] = (Ok tt, data) ->
  writeUnencrypted w m (mkFlow r i o [] clk ca cx) =
    (Ok tt, mkFlow r i (o ++ [frame w (reading clk) data]) [] (tick clk) ca cx).
Proof.
  intros Hm. unfold writeUnencrypted. erewrite bind_ok by (by apply encoded_run).
  erewrite bind_ok by apply Now_run. erewrite bind_ok;
    [|apply encoded_run; unfold UnencryptedMessage.Encode; run_puts; reflexivity].
  reflexivity.
Qed.

Lemma check_encrypted_plain w u rest : check_encrypted w (unencrypted_bytes u ++ rest) = None.
Proof.
  unfold check_encrypted. destruct (isClient w); [done|]. unfold unencrypted_bytes, PeekN.
  rewrite <- app_assoc. rewrite ltb_app_false by (rewrite zlen_le_split; lia). simpl.
  change (Z.to_nat 8) with 8%nat. rewrite take_word_app. by vm_compute (le_split 8 (u64 0)).
Qed.

Lemma frame_ok w t data :
  time_nano t -> output w <> MessageUnknown -> zlen data < 2 ^ 31 ->
  unencrypted_ok (mkUnencrypted (NewMessageID t (output w)) data) /\
  Type_ (NewMessageID t (output w)) = output w.
Proof.
  intros Ht Hw Hl. destruct (message_id_layout t t (output w) (output w) Ht Ht Hw) as (Hty & _ & Hr & _).
  split; [|done]. split; simpl; [|done]. unfold is_signed, NewMessageID. lia.
Qed.

(** Reading the frame of the peer. *)
Lemma readUnencrypted_run {A} (w w' : unencryptedWriter) (dec : GoM Buffer A) t data rest a l f :
  input w = output w' -> output w' <> MessageUnknown -> time_nano t -> zlen (data ++ rest) < 2 ^ 31 ->
  parses dec data a -> fl_inbox f = inr (frame w' t (data ++ rest)) :: l ->
  readUnencrypted w dec f = (Ok a, set_inbox l f).
Proof.
  intros Hw Hu Ht Hl Hp Hin. destruct (frame_ok w' t (data ++ rest) Ht Hu Hl) as [Hok Hty].
  unfold readUnencrypted. erewrite bind_ok.
  2: { rewrite Hin. simpl. unfold tryRead, Recv. rewrite Hin. reflexivity. }
  unfold frame. rewrite <- (app_nil_r (unencrypted_bytes _)), check_encrypted_plain, app_nil_r.
  unfold check at 1. erewrite bind_ok by reflexivity. erewrite bind_ok.
  2: { unfold decoded, lift. rewrite (parses_nil _ _ _ (parses_UnencryptedMessage _ Hok)). reflexivity. }
  simpl. unfold checkMsgID. rewrite Hty, bool_decide_eq_true_2 by done. unfold check.
  erewrite bind_ok by reflexivity. unfold decoded, lift. by rewrite Hp.
Qed.

Lemma wrapping_run {S A} msg (m : GoM S A) a s s' : m s = (Ok a, s') -> wrapping msg m s = (Ok a, s').
Proof. unfold wrapping. by intros ->. Qed.

Lemma recv_plain_run (w : unencryptedWriter) s1 s2 t data l f :
  output w <> MessageUnknown -> time_nano t -> zlen data < 2 ^ 31 ->
  fl_inbox f = inr (frame w t data) :: l -> recv_plain s1 s2 f = (Ok data, set_inbox l f).
Proof.
  intros Hu Ht Hl Hin. destruct (frame_ok w t data Ht Hu Hl) as [Hok _].
  unfold recv_plain. erewrite bind_ok by (unfold wrapping, Recv; rewrite Hin; reflexivity).
  unfold frame. erewrite bind_ok; [|apply wrapping_run; unfold decoded, lift;
    rewrite (parses_nil _ _ _ (parses_UnencryptedMessage _ Hok)); reflexivity].
  reflexivity.
Qed.

Lemma random_run {A} (m : GoM Stream A) a r f :
  m (fl_rand f) = (Ok a, r) -> random m f = (Ok a, set_rand r f).
Proof. unfold random. by intros ->. Qed.

Lemma random_wrap_run {A} msg (m : GoM Stream A) a r f :
  m (fl_rand f) = (Ok a, r) -> wrapping msg (random m) f = (Ok a, set_rand r f).
Proof. unfold wrapping, random. by intros ->. Qed.

(** The draws have the sizes of their types. *)
Lemma RandInt128_zlen r v r' : RandInt128 r = (Ok v, r') -> zlen v = 16.
Proof.
  unfold RandInt128. intros H. apply bind_inv_ok in H as (b & r1 & Hb & H).
  apply must_read_inv in Hb as (_ & Hb & _); [|done]. injection H as H _.
  unfold Int128 in H. rewrite Hb in H. cbn in H. injection H as <-. apply (zlen_take 16). 
  rewrite Hb. done.
Qed.

Lemma RandInt256_zlen r v r' : RandInt256 r = (Ok v, r') -> zlen v = 32.
Proof.
  unfold RandInt256. intros H. apply bind_inv_ok in H as (b & r1 & Hb & H).
  apply must_read_inv in Hb as (_ & Hb & _); [|done]. injection H as H _.
  unfold Int256 in H. rewrite Hb in H. cbn in H. injection H as <-. apply (zlen_take 32).
  rewrite Hb. done.
Qed.

Lemma rand_Int2048_nonneg r v r' : rand_Int2048 r = (Ok v, r') -> 0 <= v.
Proof.
  unfold rand_Int2048. intros H. apply bind_inv_ok in H as (b & r1 & Hb & H). injection H as <- _.
  apply be_combine_range.
Qed.

(** ** Diffie-Hellman *)

Lemma big_Exp_pow x y m : 0 <= y -> 0 < m -> big_Exp x y m = x ^ y mod m.
Proof. intros. unfold big_Exp. apply Zpow_mod_correct. lia. Qed.

Lemma big_Exp_range x y m : 0 <= y -> 0 < m -> 0 <= big_Exp x y m < m.
Proof. intros. rewrite big_Exp_pow by done. by apply Z.mod_pos_bound. Qed.

(** Both halves give the same key. *)
Lemma dh_agrees g a b p :
  0 <= a -> 0 <= b -> 0 < p ->
  big_Exp (big_Exp g a p) b p = g ^ (a * b) mod p /\ big_Exp (big_Exp g b p) a p = g ^ (a * b) mod p.
Proof.
  intros Ha Hb Hp. rewrite !big_Exp_pow by done.
  rewrite <- !Zpower_mod by lia. rewrite <- !Z.pow_mul_r by done. by rewrite (Z.mul_comm b a).
Qed.

(** What a generator of server randomness promises. *)
Class LawfulRNG (rng : ServerRNG) : Prop :=
  GA_power g p r a ga r' : 0 < p -> GA rng g p r = (Ok (a, ga), r') -> 0 <= a /\ ga = big_Exp g a p.

#[export] Instance test_rng_lawful : LawfulRNG TestServerRNG.rng.
Proof.
  intros g p r a ga r' _. simpl. unfold TestServerRNG.GA. destruct (CheckGP g p); [done|].
  generalize (S (length (incoming r))). intros n. revert r. induction n as [|n IH]; intros r; [done|]. simpl.
  intros H. apply bind_inv_ok in H as (x & r1 & Hx & H). destruct (_ && _); [|by apply IH in H].
  injection H as <- <- <-. split; [by eapply rand_Int2048_nonneg|done].
Qed.

Lemma zlen_TempAESKeys x y : zlen (fst (TempAESKeys x y)) = 32 /\ zlen (snd (TempAESKeys x y)) = 32.
Proof.
  unfold TempAESKeys, big_FillBytes, sha1Bytes, be_split. cbn [fst snd]. rewrite !zlen_app.
  rewrite !zlen_slice; rewrite ?zlen_sha1; try lia.
  unfold zlen. rewrite length_rev, length_le_split. lia.
Qed.

(** ** Agreement *)

Lemma pqInnerData_run c inner : pqInnerData c inner [] = (Ok tt, snd (pqInnerData c inner [])).
Proof.
  unfold pqInnerData. destruct (mode c).
  - change (@Encode _ PQInnerDataDC_object) with PQInnerDataDC.Encode.
    unfold PQInnerDataDC.Encode, bind, modify. by rewrite PQInnerData_EncodeBare.
  - change (@Encode _ PQInnerDataTempDC_object) with PQInnerDataTempDC.Encode.
    unfold PQInnerDataTempDC.Encode, bind, modify. by rewrite PQInnerData_EncodeBare.
Qed.

Section Honest.
Context `{!IGE, !LawfulIGE, !XorLib, !LawfulXor} (ProbablyPrime : Z -> bool).
Context (rng : ServerRNG) (c : ClientExchange) (s : ServerExchange).

(** The messages of an exchange, from the values that the two sides draw. *)
Section Messages.
Context (nonce sn newNonce : list byte) (pq p q dhPrime ga gb : Z) (now : Z).

Definition m_resPQ : ResPQ.t := ResPQ.mk nonce sn (big_Bytes pq) [RSAFingerprint (server_key s)].
Definition m_inner : PQInnerData.t :=
  PQInnerData.mk (big_Bytes pq) (big_Bytes p) (big_Bytes q) nonce sn newNonce.
Definition m_inner_bytes : list byte := snd (pqInnerData c m_inner []).
Definition m_reqDH (data : list byte) : ReqDHParams.t :=
  ReqDHParams.mk nonce sn (big_Bytes p) (big_Bytes q) (RSAFingerprint (server_key s)) data.
Definition m_serverDH : ServerDHInnerData.t :=
  ServerDHInnerData.mk nonce sn server_g (big_Bytes dhPrime) (big_Bytes ga) (Unix now).
Definition m_clientDH : ClientDHInnerData.t := ClientDHInnerData.mk nonce sn 0 (big_Bytes gb).
Definition temp_key : list byte := fst (TempAESKeys (BigInt newNonce) (BigInt sn)).
Definition temp_iv : list byte := snd (TempAESKeys (BigInt newNonce) (BigInt sn)).
End Messages.

(** The client's source yields its nonce, the factors, the new nonce, the
    padding of RSA, the exponent, the padding of its answer and a session id; [r7]
    is what is left. *)
Definition client_draws_to (sn : list byte) (pq dhPrime : Z) (r : Stream)
    (nonce newNonce : list byte) (p q b : Z) (data enc : list byte) (sid : Z) (r7 : Stream) : Prop :=
  exists r1 r2 r3 r4 r5 r6,
    RandInt128 r = (Ok nonce, r1) /\ DecomposePQ pq r1 = (Ok (p, q), r2) /\
    RandInt256 r2 = (Ok newNonce, r3) /\
    RSAPad (m_inner_bytes nonce sn newNonce pq p q) (server_key s) r3 = (Ok data, r4) /\
    rand_Int2048 r4 = (Ok b, r5) /\
    EncryptExchangeAnswer (bytes_of (m_clientDH nonce sn (big_Exp server_g b dhPrime)))
      (temp_key sn newNonce) (temp_iv sn newNonce) r5 = (Ok enc, r6) /\
    NewSessionID r6 = (Ok sid, r7).
Definition client_draws (sn : list byte) (pq dhPrime : Z) (r : Stream)
    (nonce newNonce : list byte) (p q b : Z) (data enc : list byte) (sid : Z) : Prop :=
  exists r7, client_draws_to sn pq dhPrime r nonce newNonce p q b data enc sid r7.

(** The server's source yields its nonce, pq, the prime, its half of the key
    and the padding of its answer. *)
Definition server_draws (nonce newNonce : list byte) (now : Z) (r : Stream)
    (sn : list byte) (pq dhPrime a ga : Z) (answer : list byte) : Prop :=
  exists r1 r2 r3 r4 r5,
    RandInt128 r = (Ok sn, r1) /\ PQ rng r1 = (Ok pq, r2) /\ DhPrime rng r2 = (Ok dhPrime, r3) /\
    GA rng server_g dhPrime r3 = (Ok (a, ga), r4) /\
    EncryptExchangeAnswer (bytes_of (m_serverDH nonce sn dhPrime ga now))
      (temp_key sn newNonce) (temp_iv sn newNonce) r4 = (Ok answer, r5).

Implicit Types (nonce sn newNonce data enc : list byte) (pq p q dhPrime a b ga gb t : Z).
Implicit Types (i : list (error + Buffer)) (o : list Buffer) (clk : list Z).

(** *** The client *)

Lemma resPQ_valid nonce sn pq :
  zlen nonce = 16 -> zlen sn = 16 -> 0 <= pq < 2 ^ 64 ->
  valid (m_resPQ nonce sn pq) /\ zlen (bytes_of (m_resPQ nonce sn pq)) < 2 ^ 31.
Proof.
  intros Hn Hs Hpq. pose proof (zlen_big_Bytes pq 8 ltac:(lia) ltac:(lia)).
  pose proof (zlen_ResPQ (m_resPQ nonce sn pq)) as Hl. simpl in Hl. rewrite zlen_cons, zlen_nil in Hl.
  split; [|lia]. unfold maxLongStringLength. split_and!; simpl; try done.
  - unfold maxLongStringLength. lia.
  - constructor; [|constructor]. by apply swrap_range.
Qed.

Lemma client_hello_run nonce sn pq t r r1 i o clk ca cx :
  RandInt128 r = (Ok nonce, r1) -> zlen sn = 16 -> 0 <= pq < 2 ^ 64 -> time_nano t ->
  selectPubKey (keys c) [RSAFingerprint (server_key s)] = Ok (Some (server_key s)) ->
  client_hello c (mkFlow r (inr (frame server_writer t (bytes_of (m_resPQ nonce sn pq))) :: i) o [] clk ca cx) =
    (Ok (nonce, m_resPQ nonce sn pq, server_key s),
     mkFlow r1 i (o ++ [frame client_writer (reading clk) (bytes_of (ReqPqMulti.mk nonce))]) [] (tick clk) ca cx).
Proof.
  intros Hn Hs Hpq Ht Hk. pose proof (RandInt128_zlen _ _ _ Hn) as Hl.
  destruct (resPQ_valid nonce sn pq Hl Hs Hpq) as [Hv Hb].
  destruct (encode_bytes _ Hv) as [_ Hp]. assert (valid (ReqPqMulti.mk nonce)) as Hr by done.
  destruct (encode_bytes _ Hr) as [He _].
  unfold client_hello. erewrite bind_ok by (by apply random_wrap_run).
  erewrite bind_ok by (apply wrapping_run; unfold set_rand; simpl; by apply writeUnencrypted_run).
  erewrite bind_ok.
  2: { apply wrapping_run. apply (readUnencrypted_run client_writer server_writer _ t (bytes_of (m_resPQ nonce sn pq)) []
         (m_resPQ nonce sn pq) i); try done; by rewrite app_nil_r. }
  simpl. rewrite bool_decide_eq_true_2 by done. simpl. unfold lift. by rewrite Hk.
Qed.

Lemma inner_valid nonce sn newNonce pq p q :
  zlen nonce = 16 -> zlen sn = 16 -> zlen newNonce = 32 -> 0 <= pq < 2 ^ 64 -> 0 <= p < 2 ^ 64 -> 0 <= q < 2 ^ 64 ->
  PQInnerData.valid (m_inner nonce sn newNonce pq p q).
Proof.
  intros. pose proof (zlen_big_Bytes pq 8). pose proof (zlen_big_Bytes p 8). pose proof (zlen_big_Bytes q 8).
  unfold PQInnerData.valid, m_inner, maxLongStringLength; simpl. lia.
Qed.

Lemma inner_encoded nonce sn newNonce pq p q :
  pqInnerData c (m_inner nonce sn newNonce pq p q) [] = (Ok tt, m_inner_bytes nonce sn newNonce pq p q).
Proof. apply pqInnerData_run. Qed.

Lemma reqDH_valid nonce sn p q data :
  zlen nonce = 16 -> zlen sn = 16 -> 0 <= p < 2 ^ 64 -> 0 <= q < 2 ^ 64 -> zlen data = 256 ->
  valid (m_reqDH nonce sn p q data) /\ zlen (bytes_of (m_reqDH nonce sn p q data)) < 2 ^ 31.
Proof.
  intros. pose proof (zlen_big_Bytes p 8). pose proof (zlen_big_Bytes q 8).
  pose proof (zlen_ReqDHParams (m_reqDH nonce sn p q data)) as Hl. simpl in Hl. split; [|lia].
  split_and!; simpl; unfold maxLongStringLength; try lia. by apply swrap_range.
Qed.

Lemma client_request_run nonce sn newNonce pq p q data r1 r2 r3 r4 i o clk ca cx :
  zlen nonce = 16 -> zlen sn = 16 -> 1 < pq <= 2 ^ 63 -> 0 <= p < 2 ^ 64 -> 0 <= q < 2 ^ 64 -> zlen data = 256 ->
  DecomposePQ pq r1 = (Ok (p, q), r2) -> RandInt256 r2 = (Ok newNonce, r3) ->
  RSAPad (m_inner_bytes nonce sn newNonce pq p q) (server_key s) r3 = (Ok data, r4) ->
  client_request c nonce (m_resPQ nonce sn pq) (server_key s) (mkFlow r1 i o [] clk ca cx) =
    (Ok newNonce,
     mkFlow r4 i (o ++ [frame client_writer (reading clk) (bytes_of (m_reqDH nonce sn p q data))]) [] (tick clk) ca cx).
Proof.
  intros Hn Hs Hpq Hp Hq Hd Hdec Hnew Hpad. unfold client_request, m_resPQ. cbn [ResPQ.Pq ResPQ.ServerNonce].
  rewrite be_combine_big_Bytes by lia. replace (pq >? 2 ^ 63) with false by lia.
  erewrite bind_ok by (by apply random_wrap_run). cbn [fst snd].
  erewrite bind_ok by (by apply random_wrap_run). erewrite bind_ok by (apply encoded_run, inner_encoded).
  erewrite bind_ok by (by apply random_wrap_run).
  erewrite bind_ok; [reflexivity|]. apply wrapping_run. unfold set_rand; simpl.
  destruct (reqDH_valid nonce sn p q data Hn Hs Hp Hq Hd) as [Hv _].
  apply writeUnencrypted_run. exact (proj1 (encode_bytes _ Hv)).
Qed.

Lemma serverDH_valid nonce sn dhPrime ga now :
  zlen nonce = 16 -> zlen sn = 16 -> 0 <= ga < dhPrime -> dhPrime < 2 ^ 2048 -> time_nano now ->
  valid (m_serverDH nonce sn dhPrime ga now) /\ zlen (bytes_of (m_serverDH nonce sn dhPrime ga now)) < 2 ^ 20.
Proof.
  intros Hn Hs Hga Hp Ht.
  pose proof (zlen_big_Bytes dhPrime 256 ltac:(lia) (conj (Z.le_trans _ _ _ (proj1 Hga) (Z.lt_le_incl _ _ (proj2 Hga))) Hp)).
  pose proof (zlen_big_Bytes ga 256 ltac:(lia) (conj (proj1 Hga) (Z.lt_trans _ _ _ (proj2 Hga) Hp))).
  clear Hga Hp.
  pose proof (zlen_ServerDHInnerData (m_serverDH nonce sn dhPrime ga now)) as Hl. simpl in Hl. split; [|lia].
  assert (0 <= Unix now < 2 ^ 31) as Hu.
  { unfold Unix, time_nano in *. split; [apply Z.div_pos|apply Z.div_lt_upper_bound]; lia. }
  split_and!; simpl; unfold maxLongStringLength, is_signed, server_g; lia.
Qed.

Lemma clientDH_valid nonce sn gb :
  zlen nonce = 16 -> zlen sn = 16 -> 0 <= gb < 2 ^ 2048 ->
  valid (m_clientDH nonce sn gb) /\ zlen (bytes_of (m_clientDH nonce sn gb)) < 2 ^ 20.
Proof.
  intros Hn Hs Hgb. pose proof (zlen_big_Bytes gb 256 ltac:(lia) Hgb). clear Hgb.
  pose proof (zlen_ClientDHInnerData (m_clientDH nonce sn gb)) as Hl. simpl in Hl. split; [|lia].
  split_and!; simpl; unfold maxLongStringLength, is_signed, server_g; lia.
Qed.

(** The message that carries an encrypted answer. *)
Lemma setDH_valid nonce sn enc :
  zlen nonce = 16 -> zlen sn = 16 -> zlen enc < 2 ^ 21 ->
  valid (SetClientDHParams.mk nonce sn enc) /\ zlen (bytes_of (SetClientDHParams.mk nonce sn enc)) < 2 ^ 31.
Proof.
  intros. pose proof (zlen_SetClientDHParams (SetClientDHParams.mk nonce sn enc)) as Hl. simpl in Hl.
  split; [|lia]. split_and!; simpl; unfold maxLongStringLength; lia.
Qed.

Lemma paramsOk_valid nonce sn enc :
  zlen nonce = 16 -> zlen sn = 16 -> zlen enc < 2 ^ 21 ->
  valid (ServerDHParamsOk.mk nonce sn enc) /\ zlen (bytes_of (ServerDHParamsOk.mk nonce sn enc)) < 2 ^ 31.
Proof.
  intros. pose proof (zlen_ServerDHParamsOk (ServerDHParamsOk.mk nonce sn enc)) as Hl. simpl in Hl.
  split; [|lia]. split_and!; simpl; unfold maxLongStringLength; lia.
Qed.

(** An answer of the peer, decrypted and decoded. *)
Lemma answer_decodes {A} `{!Object A, !LawfulObject A} (x : A) sn newNonce c0 r r' :
  valid x -> zlen (bytes_of x) < 2 ^ 20 ->
  EncryptExchangeAnswer (bytes_of x) (temp_key sn newNonce) (temp_iv sn newNonce) r = (Ok c0, r') ->
  zlen c0 < 2 ^ 21 /\ exists d,
    DecryptExchangeAnswer (slice_of c0) (temp_key sn newNonce) (temp_iv sn newNonce) = Ok (Some d) /\
    fst (Decode d) = Ok x.
Proof.
  intros Hv Hl He. destruct (zlen_TempAESKeys (BigInt newNonce) (BigInt sn)) as [Hk Hiv].
  destruct (exchange_answer_found _ _ _ _ _ _ Hk Hiv He) as (Hc & p & Hd & _ & _).
  split; [lia|]. exists (bytes_of x ++ p). split.
  - destruct c0; [rewrite zlen_nil in Hc; lia|done].
  - destruct (encode_bytes _ Hv) as [_ Hp]. by rewrite Hp.
Qed.

(** The cache after a check. *)
Definition checked (ca : validatedDHParameterCache) (dhPrime : Z) : validatedDHParameterCache :=
  snd (checkDHWithCache ProbablyPrime ca ca server_g (Some dhPrime)).

Lemma CheckDH_run dhPrime r i o clk ca cx :
  cache_ok ProbablyPrime ca -> check_uncached ProbablyPrime server_g (Some dhPrime) = None ->
  CheckDH ProbablyPrime server_g dhPrime (mkFlow r i o [] clk ca cx) =
    (Ok tt, mkFlow r i o [] clk (checked ca dhPrime) cx).
Proof.
  intros Hca Hck. unfold CheckDH, checked. simpl.
  destruct (checkDHWithCache_ok ProbablyPrime ca ca server_g (Some dhPrime) Hca Hca) as [Hf _].
  rewrite Hck in Hf. destruct (checkDHWithCache _ _ _ _ _) as [err ca']. simpl in Hf. by rewrite Hf.
Qed.

Lemma check_uncached_bound dhPrime :
  check_uncached ProbablyPrime server_g (Some dhPrime) = None -> 0 < dhPrime < 2 ^ 2048.
Proof.
  unfold check_uncached, validatedDHKey, RSAKeyBits. case_bool; [done|]. intros _. bool_to_prop.
  split; [lia|]. unfold BitLen in *. replace (dhPrime =? 0) with false in * by lia.
  rewrite Z.abs_eq in * by lia. apply Z.log2_lt_pow2; lia.
Qed.

Section Run.
Context (nonce sn newNonce data answer enc : list byte) (pq p q dhPrime a ga b : Z) (now sid : Z).
Context (Hnonce : zlen nonce = 16) (Hsn : zlen sn = 16) (Hnow : time_nano now).
Context (Hprime : check_uncached ProbablyPrime server_g (Some dhPrime) = None).
Context (Hga : ga = big_Exp server_g a dhPrime) (Ha : 0 <= a) (Hb : 0 <= b).
Let gb := big_Exp server_g b dhPrime.
Context (Hparams : CheckDHParams dhPrime server_g ga gb = None).

Let Hdh : 0 < dhPrime < 2 ^ 2048 := check_uncached_bound dhPrime Hprime.

Lemma ga_range : 0 <= ga < dhPrime.
Proof. rewrite Hga. apply big_Exp_range; [done|lia]. Qed.
Lemma gb_range : 0 <= gb < 2 ^ 2048.
Proof. destruct (big_Exp_range server_g b dhPrime) as [? Hlt]; [done|lia|]. split; [done|]. unfold gb. lia. Qed.

Lemma client_params_run r4 r5 r6 rs rs' i o clk ca cx :
  cache_ok ProbablyPrime ca ->
  EncryptExchangeAnswer (bytes_of (m_serverDH nonce sn dhPrime ga now))
    (temp_key sn newNonce) (temp_iv sn newNonce) rs = (Ok answer, rs') ->
  rand_Int2048 r4 = (Ok b, r5) ->
  EncryptExchangeAnswer (bytes_of (m_clientDH nonce sn gb)) (temp_key sn newNonce) (temp_iv sn newNonce) r5 =
    (Ok enc, r6) ->
  client_params ProbablyPrime nonce sn newNonce (ServerDHParamsOk.mk nonce sn answer)
      (mkFlow r4 i o [] clk ca cx) =
    (Ok (big_Exp ga b dhPrime),
     mkFlow r6 i (o ++ [frame client_writer (reading clk) (bytes_of (SetClientDHParams.mk nonce sn enc))]) []
       (tick clk) (checked ca dhPrime) cx).
Proof.
  intros Hca Hans Hr5 Henc. pose proof ga_range as Hgar. pose proof gb_range as Hgbr.
  destruct (serverDH_valid nonce sn dhPrime ga now Hnonce Hsn Hgar (proj2 Hdh) Hnow) as [Hsv Hsl].
  destruct (answer_decodes _ _ _ _ _ _ Hsv Hsl Hans) as (_ & d & Hdec & Hd).
  destruct (clientDH_valid nonce sn gb Hnonce Hsn Hgbr) as [Hcv Hcl].
  destruct (answer_decodes _ _ _ _ _ _ Hcv Hcl Henc) as (Hel & _).
  destruct (setDH_valid nonce sn enc Hnonce Hsn Hel) as [Hv _].
  unfold client_params. cbn [ServerDHParamsOk.Nonce ServerDHParamsOk.ServerNonce ServerDHParamsOk.EncryptedAnswer].
  rewrite !bool_decide_eq_true_2 by done. cbn [negb].
  rewrite (surjective_pairing (TempAESKeys _ _)). fold (temp_key sn newNonce) (temp_iv sn newNonce).
  rewrite Hdec. erewrite bind_ok by (apply wrapping_run; reflexivity).
  erewrite bind_ok by (unfold decoded, lift; cbn [default]; unfold default, id; rewrite Hd; reflexivity).
  unfold m_serverDH. cbn [ServerDHInnerData.Nonce ServerDHInnerData.ServerNonce ServerDHInnerData.G
    ServerDHInnerData.DhPrime ServerDHInnerData.GA].
  rewrite !bool_decide_eq_true_2 by done. cbn [negb].
  rewrite !be_combine_big_Bytes by lia.
  erewrite bind_ok by (by apply wrapping_run, CheckDH_run).
  erewrite bind_ok by (by apply random_wrap_run).
  fold gb. rewrite Hparams. erewrite bind_ok by (apply wrapping_run; reflexivity).
  erewrite bind_ok by (apply encoded_run; exact (proj1 (encode_bytes _ Hcv))).
  erewrite bind_ok by (by apply random_wrap_run).
  erewrite bind_ok; [reflexivity|]. apply wrapping_run. unfold set_rand; simpl.
  apply writeUnencrypted_run. exact (proj1 (encode_bytes _ Hv)).
Qed.

(** The key that both sides compute. *)
Definition shared_key : list byte := be_split 256 (server_g ^ (a * b) mod dhPrime).

Lemma shared_key_client : FillBytes (big_Exp ga b dhPrime) KeySize = Some shared_key.
Proof.
  rewrite Hga. destruct (dh_agrees server_g a b dhPrime Ha Hb) as [-> _]; [lia|].
  apply (FillBytes_fits _ 256); [lia|]. pose proof (Z.mod_pos_bound (server_g ^ (a * b)) dhPrime).
  change (8 * 256) with 2048. lia.
Qed.

Lemma shared_key_server : FillBytes (big_Exp gb a dhPrime) KeySize = Some shared_key.
Proof.
  unfold gb. destruct (dh_agrees server_g a b dhPrime Ha Hb) as [_ ->]; [lia|].
  apply (FillBytes_fits _ 256); [lia|]. pose proof (Z.mod_pos_bound (server_g ^ (a * b)) dhPrime).
  change (8 * 256) with 2048. lia.
Qed.

Definition m_dhGen : DhGen.t := DhGen.mk nonce sn (NonceHash1 newNonce shared_key).

Lemma dhGen_valid : DhGen.valid m_dhGen /\ zlen (dh_gen_bytes DhGen.OkTypeID m_dhGen) < 2 ^ 31.
Proof.
  assert (zlen (NonceHash1 newNonce shared_key) = 16) as Hh.
  { unfold NonceHash1. rewrite zlen_slice; rewrite ?zlen_sha1; lia. }
  split; [done|]. unfold dh_gen_bytes, m_dhGen. simpl. autorewrite with zlen. lia.
Qed.

(** The result of the client when its clock shows [t]. *)
Definition honest_result (t : Z) : ClientExchangeResult :=
  mkClientResult (WithID shared_key) sid (ServerSalt newNonce sn)
    match mode c with ExchangeModeTemporary => i64 (Unix t + expiresIn c) | ExchangeModePermanent => 0 end.

Lemma client_finish_run t r6 r7 o clk ca cx :
  time_nano t -> NewSessionID r6 = (Ok sid, r7) ->
  exists clk', client_finish c nonce sn newNonce (big_Exp ga b dhPrime)
      (mkFlow r6 [inr (frame server_writer t (dh_gen_bytes DhGen.OkTypeID m_dhGen))] o [] clk ca cx) =
    (Ok (honest_result (reading clk)), mkFlow r7 [] o [] clk' ca cx).
Proof.
  intros Ht Hsid. destruct dhGen_valid as [Hv Hl].
  unfold client_finish. erewrite bind_ok by (by apply (recv_plain_run server_writer _ _ t _ [])).
  erewrite bind_ok.
  2: { apply wrapping_run. unfold decoded, lift.
       rewrite (parses_nil _ _ _ (parses_DhGenOk _ Hv)). reflexivity. }
  unfold client_result, m_dhGen. cbn [fst DhGen.Nonce DhGen.ServerNonce DhGen.NewNonceHash].
  rewrite !bool_decide_eq_true_2 by done. cbn [negb]. rewrite shared_key_client.
  rewrite bool_decide_eq_true_2 by done. cbn [negb].
  erewrite bind_ok by (by apply random_run). unfold honest_result.
  destruct (mode c); [by eexists|].
  erewrite bind_ok by apply Now_run. by eexists.
Qed.

Context (Hpq : 1 < pq <= 2 ^ 63) (Hfac : 0 <= p < 2 ^ 64 /\ 0 <= q < 2 ^ 64).
Context (Hnew : zlen newNonce = 32) (Hdata : zlen data = 256).
Context (Hkey : selectPubKey (keys c) [RSAFingerprint (server_key s)] = Ok (Some (server_key s))).

(** The frames of the two sides, sent at the given times. *)
Definition client_frames (t1 t2 t3 : Z) : list Buffer :=
  [frame client_writer t1 (bytes_of (ReqPqMulti.mk nonce));
   frame client_writer t2 (bytes_of (m_reqDH nonce sn p q data));
   frame client_writer t3 (bytes_of (SetClientDHParams.mk nonce sn enc))].
Definition server_frames (t1 t2 t3 : Z) : list Buffer :=
  [frame server_writer t1 (bytes_of (m_resPQ nonce sn pq));
   frame server_writer t2 (bytes_of (ServerDHParamsOk.mk nonce sn answer));
   frame server_writer t3 (dh_gen_bytes DhGen.OkTypeID m_dhGen)].

Context (rs4 rs5 : Stream).
Context (Hanswer : EncryptExchangeAnswer (bytes_of (m_serverDH nonce sn dhPrime ga now))
  (temp_key sn newNonce) (temp_iv sn newNonce) rs4 = (Ok answer, rs5)).

Lemma client_runs_to r r7 t1 t2 t3 clk ca cx :
  time_nano t1 -> time_nano t2 -> time_nano t3 -> cache_ok ProbablyPrime ca ->
  client_draws_to sn pq dhPrime r nonce newNonce p q b data enc sid r7 ->
  exists f', Client_Run ProbablyPrime c
      (mkFlow r (map inr (server_frames t1 t2 t3)) [] [] clk ca cx) =
    (Ok (honest_result (reading (tick (tick (tick clk))))), f') /\
    fl_outbox f' = client_frames (reading clk) (reading (tick clk)) (reading (tick (tick clk))) /\
    fl_rand f' = r7.
Proof.
  intros Ht1 Ht2 Ht3 Hca (r1 & r2 & r3 & r4 & r5 & r6 & D1 & D2 & D3 & D4 & D5 & D6 & D7).
  unfold Client_Run, server_frames. cbn [map].
  erewrite bind_ok by (apply client_hello_run; try done; lia). cbv zeta. cbn [ResPQ.ServerNonce m_resPQ].
  erewrite bind_ok by (eapply client_request_run; try done; try apply Hfac; lia).
  pose proof ga_range as Hgar.
  destruct (serverDH_valid nonce sn dhPrime ga now Hnonce Hsn Hgar (proj2 Hdh) Hnow) as [Hsv Hsl].
  destruct (answer_decodes _ _ _ _ _ _ Hsv Hsl Hanswer) as (Hal & _).
  destruct (paramsOk_valid nonce sn answer Hnonce Hsn Hal) as [Hv Hl].
  erewrite bind_ok by (eapply (recv_plain_run server_writer); [done|exact Ht2|exact Hl|reflexivity]).
  erewrite bind_ok.
  2: { unfold decoded, lift. rewrite (parses_nil _ _ _ (parses_DHParamsOk _ Hv)). reflexivity. }
  cbn [fst]. erewrite bind_ok by (by apply (client_params_run r4 r5 r6 rs4 rs5)).
  edestruct (client_finish_run t3 r6 r7) as [clk' E]; [done|exact D7|]. unfold set_inbox; simpl.
  eexists. split; [exact E|]. done.
Qed.

Lemma client_runs r t1 t2 t3 clk ca cx :
  time_nano t1 -> time_nano t2 -> time_nano t3 -> cache_ok ProbablyPrime ca ->
  client_draws sn pq dhPrime r nonce newNonce p q b data enc sid ->
  exists f', Client_Run ProbablyPrime c
      (mkFlow r (map inr (server_frames t1 t2 t3)) [] [] clk ca cx) =
    (Ok (honest_result (reading (tick (tick (tick clk))))), f') /\
    fl_outbox f' = client_frames (reading clk) (reading (tick clk)) (reading (tick (tick clk))).
Proof.
  intros ???? [r7 D]. destruct (client_runs_to r r7 t1 t2 t3 clk ca cx) as (f' & ? & ? & _); try done. by exists f'.
Qed.

Lemma parses_reqPQ : parses reqPQ_Decode (bytes_of (ReqPqMulti.mk nonce)) nonce.
Proof.
  assert (valid (ReqPqMulti.mk nonce)) as Hv by done. destruct (encode_bytes _ Hv) as [_ Hd].
  assert (bytes_of (ReqPqMulti.mk nonce) = le_split 4 ReqPqMulti.TypeID ++ nonce) as E by done.
  rewrite E in *. apply parses_class; [done|]. cbn.
  by apply (parses_bind_ret _ (fun r => ReqPqMulti.Nonce r) _ (ReqPqMulti.mk nonce)).
Qed.

Lemma parses_reqDH :
  parses reqOrDH_Decode (bytes_of (m_reqDH nonce sn p q data)) (inr (m_reqDH nonce sn p q data)).
Proof.
  destruct (reqDH_valid nonce sn p q data) as [Hv _]; try done; try apply Hfac.
  destruct (encode_bytes _ Hv) as [_ Hd].
  assert (exists rest, bytes_of (m_reqDH nonce sn p q data) = le_split 4 ReqDHParams.TypeID ++ rest) as [rest E].
  { eexists. change (bytes_of (m_reqDH nonce sn p q data)) with (snd (ReqDHParams.Encode (m_reqDH nonce sn p q data) [])).
    unfold ReqDHParams.Encode. run_puts. rewrite !encodeBytes_frame. cbn [snd app]. rewrite <- !app_assoc. reflexivity. }
  rewrite E in *. apply parses_class; [done|]. by apply (parses_bind_ret _ inr).
Qed.

Lemma server_inner_run padding f :
  client_dc c = server_dc s -> int32 (client_dc c) -> int32 (expiresIn c) ->
  DecodeRSAPad data (server_key s) = Ok (m_inner_bytes nonce sn newNonce pq p q ++ padding) ->
  server_inner s (m_reqDH nonce sn p q data) f = (Ok (m_inner nonce sn newNonce pq p q), f).
Proof.
  intros Hdc Hi He Hdec. destruct Hfac as [Hp Hq].
  assert (PQInnerData.valid (m_inner nonce sn newNonce pq p q)) as Hv by (apply inner_valid; lia || done).
  unfold server_inner. cbn [m_reqDH ReqDHParams.EncryptedData]. rewrite Hdec.
  unfold wrapKeyNotFound, lift. erewrite bind_ok by reflexivity.
  unfold decoded, lift, m_inner_bytes, pqInnerData. destruct (mode c).
  - assert (valid (PQInnerDataDC.mk (m_inner nonce sn newNonce pq p q) (client_dc c))) as Hvd by done.
    erewrite bind_ok by (fold (bytes_of (PQInnerDataDC.mk (m_inner nonce sn newNonce pq p q) (client_dc c)));
      rewrite (parses_PQ_DC _ Hvd); reflexivity).
    cbn. by rewrite Hdc, Z.eqb_refl.
  - assert (valid (PQInnerDataTempDC.mk (m_inner nonce sn newNonce pq p q) (client_dc c) (expiresIn c))) as Hvd by done.
    erewrite bind_ok by (fold (bytes_of (PQInnerDataTempDC.mk (m_inner nonce sn newNonce pq p q) (client_dc c) (expiresIn c)));
      rewrite (parses_PQ_TempDC _ Hvd); reflexivity).
    cbn. by rewrite Hdc, Z.eqb_refl.
Qed.

Lemma server_finish_run rs2 rs3 r5 r6 t o clk ca cx :
  time_nano t -> now = reading clk -> DhPrime rng rs2 = (Ok dhPrime, rs3) ->
  GA rng server_g dhPrime rs3 = (Ok (a, ga), rs4) ->
  EncryptExchangeAnswer (bytes_of (m_clientDH nonce sn gb)) (temp_key sn newNonce) (temp_iv sn newNonce) r5 =
    (Ok enc, r6) ->
  server_finish rng nonce sn newNonce
      (mkFlow rs2 [inr (frame client_writer t (bytes_of (SetClientDHParams.mk nonce sn enc)))] o [] clk ca cx) =
    (Ok (mkServerResult (WithID shared_key) (ServerSalt newNonce sn)),
     mkFlow rs5 [] (o ++ [frame server_writer (reading (tick clk)) (bytes_of (ServerDHParamsOk.mk nonce sn answer));
                          frame server_writer (reading (tick (tick clk))) (dh_gen_bytes DhGen.OkTypeID m_dhGen)])
       [] (tick (tick (tick clk))) ca cx).
Proof.
  intros Ht Hclk Hp3 Hp4 Henc. pose proof ga_range as Hgar. pose proof gb_range as Hgbr.
  destruct (serverDH_valid nonce sn dhPrime ga now Hnonce Hsn Hgar (proj2 Hdh) Hnow) as [Hsv Hsl].
  destruct (answer_decodes _ _ _ _ _ _ Hsv Hsl Hanswer) as (Hal & _).
  destruct (paramsOk_valid nonce sn answer Hnonce Hsn Hal) as [Hv _].
  destruct (clientDH_valid nonce sn gb Hnonce Hsn Hgbr) as [Hcv Hcl].
  destruct (answer_decodes _ _ _ _ _ _ Hcv Hcl Henc) as (Hel & d & Hdec & Hd).
  destruct (setDH_valid nonce sn enc Hnonce Hsn Hel) as [Hev Hell].
  unfold server_finish. erewrite bind_ok by (by apply random_wrap_run).
  erewrite bind_ok by (by apply random_wrap_run). erewrite bind_ok by apply Now_run.
  unfold set_rand, set_clock; cbn [fl_rand fl_inbox fl_outbox fl_sends fl_clock fl_cache fl_ctx fst snd].
  rewrite <- Hclk. erewrite bind_ok by (apply encoded_run; exact (proj1 (encode_bytes _ Hsv))).
  rewrite (surjective_pairing (TempAESKeys _ _)). fold (temp_key sn newNonce) (temp_iv sn newNonce).
  erewrite bind_ok by (apply random_run; exact Hanswer).
  unfold set_rand; cbn [fl_rand fl_inbox fl_outbox fl_sends fl_clock fl_cache fl_ctx fst snd].
  erewrite bind_ok by (apply writeUnencrypted_run; exact (proj1 (encode_bytes _ Hv))).
  erewrite bind_ok.
  2: { apply (readUnencrypted_run server_writer client_writer _ t (bytes_of (SetClientDHParams.mk nonce sn enc)) []
         (SetClientDHParams.mk nonce sn enc) []); try done; try (by rewrite app_nil_r).
       exact (proj2 (encode_bytes _ Hev)). }
  cbn [SetClientDHParams.EncryptedData]. rewrite Hdec. unfold wrapKeyNotFound at 1, lift.
  erewrite bind_ok by reflexivity. cbn [default]. unfold default, id. rewrite Hd.
  unfold wrapKeyNotFound at 1, lift. erewrite bind_ok by reflexivity.
  cbn [ClientDHInnerData.GB m_clientDH]. rewrite be_combine_big_Bytes by lia. rewrite shared_key_server.
  unfold set_inbox; cbn [fl_rand fl_inbox fl_outbox fl_sends fl_clock fl_cache fl_ctx].
  erewrite bind_ok by (apply writeUnencrypted_run, DhGen_Encode). by rewrite <- app_assoc.
Qed.

Lemma server_resPQ_run n rs2 t i o clk ca cx :
  time_nano t ->
  server_resPQ (S n) s nonce sn pq
      (mkFlow rs2 (inr (frame client_writer t (bytes_of (m_reqDH nonce sn p q data))) :: i) o [] clk ca cx) =
    (Ok (nonce, m_reqDH nonce sn p q data),
     mkFlow rs2 i (o ++ [frame server_writer (reading clk) (bytes_of (m_resPQ nonce sn pq))]) [] (tick clk) ca cx).
Proof.
  intros Ht. destruct (resPQ_valid nonce sn pq Hnonce Hsn) as [Hrv _]; [lia|].
  destruct (reqDH_valid nonce sn p q data) as [_ Hrl]; try done; try apply Hfac.
  cbn [server_resPQ]. erewrite bind_ok by (apply writeUnencrypted_run; exact (proj1 (encode_bytes _ Hrv))).
  erewrite bind_ok.
  2: { apply (readUnencrypted_run server_writer client_writer _ t (bytes_of (m_reqDH nonce sn p q data)) []
         (inr (m_reqDH nonce sn p q data)) i); try done; try (by rewrite app_nil_r). apply parses_reqDH. }
  reflexivity.
Qed.

Lemma server_runs r t1 t2 t3 r3 r5 r6 rc4 clk ca cx :
  RSAKeyPair (server_key s) ->
  client_dc c = server_dc s -> int32 (client_dc c) -> int32 (expiresIn c) ->
  time_nano t1 -> time_nano t2 -> time_nano t3 -> now = reading (tick clk) ->
  RSAPad (m_inner_bytes nonce sn newNonce pq p q) (server_key s) r3 = (Ok data, rc4) ->
  EncryptExchangeAnswer (bytes_of (m_clientDH nonce sn gb)) (temp_key sn newNonce) (temp_iv sn newNonce) r5 =
    (Ok enc, r6) ->
  (exists rs1 rs2 rs3, RandInt128 r = (Ok sn, rs1) /\ PQ rng rs1 = (Ok pq, rs2) /\
    DhPrime rng rs2 = (Ok dhPrime, rs3) /\ GA rng server_g dhPrime rs3 = (Ok (a, ga), rs4)) ->
  exists f', Server_Run rng s (mkFlow r (map inr (client_frames t1 t2 t3)) [] [] clk ca cx) =
    (Ok (mkServerResult (WithID shared_key) (ServerSalt newNonce sn)), f') /\
    fl_outbox f' = server_frames (reading clk) (reading (tick (tick clk))) (reading (tick (tick (tick clk)))).
Proof.
  intros HRSA Hdc Hi32 He32 Ht1 Ht2 Ht3 Hclk Hpad Henc (rs1 & rs2 & rs3 & D1 & D2 & D3 & D4).
  pose proof (rsa_pad_roundtrip (server_key s) (m_inner_bytes nonce sn newNonce pq p q) r3) as Hrt.
  rewrite Hpad in Hrt. destruct Hrt as (_ & _ & padding & Hdec & _).
  unfold Server_Run, client_frames. cbn [map].
  erewrite bind_ok.
  2: { eapply (readUnencrypted_run server_writer client_writer _ t1 (bytes_of (ReqPqMulti.mk nonce)) []); try done.
       - rewrite app_nil_r. pose proof (zlen_ReqPqMulti (ReqPqMulti.mk nonce)) as Hl. simpl in Hl. lia.
       - apply parses_reqPQ.
       - by rewrite app_nil_r. }
  erewrite bind_ok by (by apply random_wrap_run). erewrite bind_ok by (by apply random_wrap_run).
  unfold set_inbox, set_rand; cbn [fl_rand fl_inbox fl_outbox fl_sends fl_clock fl_cache fl_ctx length].
  erewrite bind_ok by (by apply server_resPQ_run).
  cbn [fst snd]. erewrite bind_ok by (by eapply server_inner_run).
  unfold set_inbox; cbn [fl_rand fl_inbox fl_outbox fl_sends fl_clock fl_cache fl_ctx].
  cbn [PQInnerData.NewNonce m_inner].
  eexists. split; [by eapply (server_finish_run rs2 rs3 r5 r6 t3)|]. done.
Qed.
End Run.
End Honest.

(** C3: the exchange of keys succeeds and agrees: for every client and server
    with the same data center, a key of the server that the client trusts,
    Diffie-Hellman parameters that pass the checks, and sources of randomness that
    do not run dry, there are frames such that the client, receiving what the
    server sends, and the server, receiving what the client sends, both complete;
    they end with the same authorization key, the power g^(ab) modulo the prime
    with its id, and the same salt. *)
Theorem exchange_agreement `{!IGE, !LawfulIGE, !XorLib, !LawfulXor} (ProbablyPrime : Z -> bool)
    (rng : ServerRNG) `{!LawfulRNG rng} (c : ClientExchange) (s : ServerExchange) `{!RSAKeyPair (server_key s)}
    (rc rs : Stream) (clkc clks : list Z) (cac cas : validatedDHParameterCache) (cxc cxs : error)
    (nonce sn newNonce data answer enc : list byte) (pq p q dhPrime a ga b sid : Z) :
  clock_ok clkc -> clock_ok clks -> reachable ProbablyPrime cac ->
  selectPubKey (keys c) [RSAFingerprint (server_key s)] = Ok (Some (server_key s)) ->
  client_dc c = server_dc s -> int32 (client_dc c) -> int32 (expiresIn c) ->
  1 < pq <= 2 ^ 63 ->
  check_uncached ProbablyPrime server_g (Some dhPrime) = None ->
  CheckDHParams dhPrime server_g ga (big_Exp server_g b dhPrime) = None ->
  server_draws rng nonce newNonce (reading (tick clks)) rs sn pq dhPrime a ga answer ->
  client_draws c s sn pq dhPrime rc nonce newNonce p q b data enc sid ->
  exists cs ss fc fs r r',
    Client_Run ProbablyPrime c (mkFlow rc (map inr ss) [] [] clkc cac cxc) = (Ok r, fc) /\ fl_outbox fc = cs /\
    Server_Run rng s (mkFlow rs (map inr cs) [] [] clks cas cxs) = (Ok r', fs) /\ fl_outbox fs = ss /\
    cr_AuthKey r = sr_Key r' /\ cr_ServerSalt r = sr_ServerSalt r' /\ cr_SessionID r = sid /\
    cr_AuthKey r = WithID (be_split 256 (server_g ^ (a * b) mod dhPrime)).
Proof.
  intros Hcc Hcs Hca Hkey Hdc Hi32 He32 Hpq Hprime Hparams
    (rs1 & rs2 & rs3 & rs4 & rs5 & S1 & S2 & S3 & S4 & S5) Hc.
  pose proof Hc as (r7 & r1 & r2 & r3 & r4 & r5 & r6 & C1 & C2 & C3 & C4 & C5 & C6 & C7).
  destruct (check_uncached_bound ProbablyPrime dhPrime Hprime) as [Hp0 _].
  destruct (GA_power _ _ _ _ _ _ Hp0 S4) as [Ha Hga].
  pose proof (rand_Int2048_nonneg _ _ _ C5) as Hb.
  pose proof (RandInt128_zlen _ _ _ S1) as Hsn. pose proof (RandInt128_zlen _ _ _ C1) as Hn.
  pose proof (RandInt256_zlen _ _ _ C3) as Hnew.
  pose proof (DecomposePQ_spec pq r1 (proj1 Hpq)) as Hfac. rewrite C2 in Hfac. simpl in Hfac.
  assert (0 <= p < 2 ^ 64 /\ 0 <= q < 2 ^ 64) as Hpq' by lia. clear Hfac.
  pose proof (rsa_pad_roundtrip (server_key s) (m_inner_bytes c nonce sn newNonce pq p q) r3) as Hrt.
  rewrite C4 in Hrt. destruct Hrt as (_ & Hdata & _).
  assert (time_nano (reading (tick clks))) as Hnow by auto.
  assert (exists fc, Client_Run ProbablyPrime c (mkFlow rc
      (map inr (server_frames s nonce sn newNonce answer pq dhPrime a b (reading clks) (reading (tick (tick clks)))
                  (reading (tick (tick (tick clks)))))) [] [] clkc cac cxc) =
      (Ok (honest_result c sn newNonce dhPrime a b sid (reading (tick (tick (tick clkc))))), fc) /\
      fl_outbox fc = client_frames s nonce sn data enc p q (reading clkc) (reading (tick clkc))
                       (reading (tick (tick clkc)))) as (fc & Hcr & Hco).
  { eapply client_runs; eauto using dh_reachable_ok. }
  assert (exists fs, Server_Run rng s (mkFlow rs
      (map inr (client_frames s nonce sn data enc p q (reading clkc) (reading (tick clkc))
                  (reading (tick (tick clkc))))) [] [] clks cas cxs) =
      (Ok (mkServerResult (WithID (shared_key dhPrime a b)) (ServerSalt newNonce sn)), fs) /\
      fl_outbox fs = server_frames s nonce sn newNonce answer pq dhPrime a b (reading clks)
                       (reading (tick (tick clks))) (reading (tick (tick (tick clks))))) as (fs & Hsr & Hso).
  { eapply (server_runs ProbablyPrime rng c s); eauto. by exists rs1, rs2, rs3. }
  eexists _, _, fc, fs, _, _. split_and!; [exact Hcr|exact Hco|exact Hsr|exact Hso|done..].
Qed.

(** ** Safety of the client *)

(** A draw takes bytes from the front of the source. *)
Definition draws {A} (m : GoM Stream A) : Prop := forall r, incoming (snd (m r)) `suffix_of` incoming r.

Lemma draws_ret {A} (x : A) : draws (ret x).
Proof. by intros f. Qed.
Lemma draws_fail {A} e : draws (@fail Stream A e).
Proof. by intros f. Qed.
Lemma draws_lift {A} (o : outcome A) : draws (fun r => (o, r)).
Proof. by intros f. Qed.
Lemma draws_must_read n : draws (must_read n).
Proof.
  intros r. unfold must_read, ReadFull.
  assert (drop (Z.to_nat n) (incoming r) `suffix_of` incoming r) as Hs
    by (exists (take (Z.to_nat n) (incoming r)); by rewrite take_drop).
  case_bool; try destruct (decide _); exact Hs.
Qed.
Lemma draws_bind {A B} (m : GoM Stream A) (k : A -> GoM Stream B) :
  draws m -> (forall x, draws (k x)) -> draws (bind m k).
Proof.
  intros Hm Hk r. unfold bind. specialize (Hm r). destruct (m r) as [[x|e|] r']; simpl in *; try done.
  etrans; [apply Hk|done].
Qed.
Lemma draws_wrapping {A} msg (m : GoM Stream A) : draws m -> draws (wrapping msg m).
Proof. intros Hm r. unfold wrapping. specialize (Hm r). by destruct (m r) as [[x|e|] r']. Qed.

Create HintDb draws.
#[local] Hint Resolve draws_ret draws_fail draws_lift draws_must_read draws_wrapping : draws.
Ltac solve_draws :=
  repeat first
    [ solve [auto 3 with draws nocore]
    | apply draws_bind; [|intros ?]
    | match goal with |- draws (if ?b then _ else _) => destruct b end
    | match goal with |- draws (match ?x with _ => _ end) => destruct x end ].

Lemma draws_fuel {A} (m : nat -> GoM Stream A) :
  (forall n, draws (m n)) -> draws (fun r => m (S (length (incoming r))) r).
Proof. intros Hm r. apply Hm. Qed.

Lemma draws_DecomposePQ pq : draws (DecomposePQ pq).
Proof.
  apply (draws_fuel (fun n => let! g := decompose_loop n pq 0 0 in _)). intros n.
  apply draws_bind; [|intros g; solve_draws]. generalize 0 at 1. generalize 0. 
  induction n as [|n IH]; intros i g; simpl; [auto with draws|]. unfold rand_Int64Max. solve_draws.
Qed.

Section Safety.
Context {ige : IGE} {xor : XorLib} (ProbablyPrime : Z -> bool).

Lemma draws_RSAPad data key : draws (RSAPad data key).
Proof.
  unfold RSAPad. destruct (_ >? _); [auto with draws|]. apply draws_bind; [auto with draws|intros pad].
  apply (draws_fuel (fun n => pad_loop n (data ++ pad) key)). intros n.
  induction n as [|n IH]; simpl; [auto with draws|]. solve_draws.
Qed.

Lemma draws_EncryptExchangeAnswer m k iv : draws (EncryptExchangeAnswer m k iv).
Proof.
  unfold EncryptExchangeAnswer. solve_draws. apply draws_wrapping. intros r. unfold DataWithHash.
  pose proof (draws_must_read (paddedLen16 (zlen m + Sha1.Size) - Sha1.Size - zlen m) r) as Hd.
  unfold must_read in Hd. by destruct (ReadFull _ r) as [[g [e|]] r'].
Qed.

(** What every step of a flow leaves: fewer frames, less randomness, a good cache. *)
Definition follows (f f' : flow) : Prop :=
  fl_inbox f' `suffix_of` fl_inbox f /\ incoming (fl_rand f') `suffix_of` incoming (fl_rand f) /\
  (cache_ok ProbablyPrime (fl_cache f) -> cache_ok ProbablyPrime (fl_cache f')).
#[local] Instance follows_preorder : PreOrder follows.
Proof.
  split; [done|]. intros f1 f2 f3 (Hi & Hr & Hc) (Hi' & Hr' & Hc'). unfold follows. split_and!; [by etrans..|auto].
Qed.

Definition tame {A} (m : GoM flow A) : Prop := forall f, follows f (snd (m f)).

Lemma tame_ret {A} (x : A) : tame (ret x).
Proof. by intros f. Qed.
Lemma tame_fail {A} e : tame (@fail flow A e).
Proof. by intros f. Qed.
Lemma tame_lift {A} (o : outcome A) : tame (lift o).
Proof. by intros f. Qed.
Lemma tame_check e : tame (check e).
Proof. intros f. by destruct e. Qed.
Lemma tame_panic {A} : tame (fun f => (@Panic A, f)).
Proof. by intros f. Qed.
Lemma tame_decoded {A} (m : GoM Buffer A) b : tame (decoded m b).
Proof. by intros f. Qed.
Lemma tame_encoded m : tame (encoded m).
Proof. intros f. unfold encoded. by destruct (m []) as [[]?]. Qed.
Lemma tame_bind {A B} (m : GoM flow A) (k : A -> GoM flow B) :
  tame m -> (forall x, tame (k x)) -> tame (bind m k).
Proof.
  intros Hm Hk f. unfold bind. specialize (Hm f). destruct (m f) as [[x|e|] f']; simpl in *; try done.
  etrans; [done|apply Hk].
Qed.
Lemma tame_wrapping {A} msg (m : GoM flow A) : tame m -> tame (wrapping msg m).
Proof. intros Hm f. unfold wrapping. specialize (Hm f). by destruct (m f) as [[x|e|] f']. Qed.
Lemma tame_random {A} (m : GoM Stream A) : draws m -> tame (random m).
Proof.
  intros Hm f. unfold random. specialize (Hm (fl_rand f)). destruct (m (fl_rand f)) as [o r]. simpl in *.
  unfold follows; simpl. done.
Qed.
Lemma tame_Now : tame Now.
Proof. intros f. by rewrite Now_run. Qed.
Lemma tame_Send b : tame (Send b).
Proof. intros f. unfold Send. by destruct (fl_sends f) as [|[e|] l]. Qed.
Lemma tame_Recv d : tame (Recv d).
Proof.
  intros f. unfold Recv. destruct (fl_inbox f) as [|x l] eqn:E; [done|].
  assert (follows f (set_inbox l f)); [|by destruct x].
  unfold follows; simpl. split_and!; try done. rewrite E. by exists [x].
Qed.
Lemma tame_CheckDH g p : tame (CheckDH ProbablyPrime g p).
Proof.
  intros f. unfold CheckDH. pose proof (checkDHWithCache_ok ProbablyPrime (fl_cache f) (fl_cache f) g (Some p)) as Hok.
  destruct (checkDHWithCache _ _ _ _ _) as [err ca]. simpl in Hok.
  assert (follows f (set_cache ca f)); [|by destruct err]. unfold follows; simpl. split_and!; try done.
  intros Hc. by apply Hok.
Qed.
Create HintDb tame.
#[local] Hint Resolve tame_ret tame_fail tame_lift tame_check tame_panic tame_decoded tame_encoded tame_wrapping
  tame_random tame_Now tame_Send tame_Recv tame_CheckDH : tame.
#[local] Hint Resolve draws_DecomposePQ draws_RSAPad draws_EncryptExchangeAnswer : tame.
Ltac solve_tame :=
  repeat first
    [ solve [auto 4 with tame draws nocore]
    | apply tame_wrapping | apply tame_random; solve_draws
    | apply tame_bind; [|intros ?]
    | match goal with |- tame (if ?b then _ else _) => destruct b end
    | match goal with |- tame (match ?x with _ => _ end) => destruct x end ].

Lemma tame_write w m : tame (writeUnencrypted w m).
Proof. unfold writeUnencrypted. solve_tame. Qed.
Lemma tame_read_loop n cl : tame (read_loop n cl).
Proof.
  induction n as [|n IH]; intros f; simpl; [done|]. pose proof (tame_Recv true f) as Hr.
  unfold tryRead. destruct (Recv true f) as [[b|e|] f']; simpl in *; try done.
  destruct (cl && _); [|done]. etrans; [done|apply IH].
Qed.
Lemma tame_read {A} w (dec : GoM Buffer A) : tame (readUnencrypted w dec).
Proof.
  unfold readUnencrypted. apply tame_bind; [intros f; apply tame_read_loop|intros b]. solve_tame.
Qed.
#[local] Hint Resolve tame_write tame_read : tame.

Lemma tame_hello c : tame (client_hello c).
Proof. unfold client_hello, RandInt128. solve_tame. Qed.
Lemma tame_request c nonce res key : tame (client_request c nonce res key).
Proof. unfold client_request, RandInt256. solve_tame. Qed.
Lemma tame_recv_plain s1 s2 : tame (recv_plain s1 s2).
Proof. unfold recv_plain. solve_tame. Qed.
Lemma tame_params nonce sn new p : tame (client_params ProbablyPrime nonce sn new p).
Proof. unfold client_params, rand_Int2048. destruct (TempAESKeys _ _). solve_tame. Qed.
#[local] Hint Resolve tame_hello tame_request tame_recv_plain tame_params : tame.

(** The inbox holds a plaintext message that decodes to [x]. *)
Definition plain_frame {A} (dec : GoM Buffer A) (x : A) (l : list (error + Buffer)) : Prop :=
  exists b msg, inr b ∈ l /\ fst (UnencryptedMessage.Decode b) = Ok msg /\ fst (dec (um_MessageData msg)) = Ok x.

Lemma plain_frame_suffix {A} (dec : GoM Buffer A) x l l' :
  l' `suffix_of` l -> plain_frame dec x l' -> plain_frame dec x l.
Proof.
  intros [k ->] (b & msg & Hb & Hm). exists b, msg. split; [|done]. apply elem_of_app. by right.
Qed.

Lemma read_loop_inv n cl f b f' : read_loop n cl f = (Ok b, f') -> inr b ∈ fl_inbox f.
Proof.
  revert f. induction n as [|n IH]; intros f; simpl; [done|]. unfold tryRead, Recv.
  destruct (fl_inbox f) as [|[e|b0] l]; simpl.
  - by rewrite andb_false_r.
  - destruct (cl && _); [|done]. intros H%IH. simpl in H. by apply elem_of_cons; right.
  - intros [= <- <-]. by left.
Qed.

Lemma decoded_inv {A} (dec : GoM Buffer A) b x f f' : decoded dec b f = (Ok x, f') -> fst (dec b) = Ok x /\ f' = f.
Proof. unfold decoded, lift. intros [= <- <-]. done. Qed.

Lemma wrapping_inv {S A} msg (m : GoM S A) a0 st st' : wrapping msg m st = (Ok a0, st') -> m st = (Ok a0, st').
Proof. unfold wrapping. by destruct (m st) as [[]?]. Qed.

Lemma readUnencrypted_inv {A} w (dec : GoM Buffer A) f x f' :
  readUnencrypted w dec f = (Ok x, f') -> plain_frame dec x (fl_inbox f).
Proof.
  unfold readUnencrypted. intros H. apply bind_inv_ok in H as (b & f1 & Hb & H).
  apply bind_inv_ok in H as (u & f2 & _ & H). apply bind_inv_ok in H as (msg & f3 & Hm & H).
  apply bind_inv_ok in H as (u' & f4 & _ & H).
  apply decoded_inv in Hm as [Hm _]. apply decoded_inv in H as [Hx _]. apply read_loop_inv in Hb.
  by exists b, msg.
Qed.

Lemma recv_plain_inv {A} (dec : GoM Buffer A) s1 s2 f f' b x :
  recv_plain s1 s2 f = (Ok b, f') -> fst (dec b) = Ok x -> plain_frame dec x (fl_inbox f).
Proof.
  unfold recv_plain. intros H Hx. apply bind_inv_ok in H as (fr & f1 & Hr & H).
  apply wrapping_inv in Hr. apply bind_inv_ok in H as (msg & f2 & Hm & H). injection H as <- <-.
  apply wrapping_inv, decoded_inv in Hm as [Hm _]. exists fr, msg. split; [|done].
  unfold Recv in Hr. destruct (fl_inbox f) as [|[e|b0] l]; [done|done|]. injection Hr as <- <-. by left.
Qed.
(** [p] carries [inner], encrypted for the new nonce of the client, for this exchange. *)
Definition server_answer (nonce sn newNonce : list byte) (p : ServerDHParamsOk.t) (inner : ServerDHInnerData.t) : Prop :=
  ServerDHParamsOk.Nonce p = nonce /\ ServerDHParamsOk.ServerNonce p = sn /\
  ServerDHInnerData.Nonce inner = nonce /\ ServerDHInnerData.ServerNonce inner = sn /\
  exists d, DecryptExchangeAnswer (slice_of (ServerDHParamsOk.EncryptedAnswer p)) (temp_key sn newNonce)
              (temp_iv sn newNonce) = Ok d /\ fst (Decode (default [] d)) = Ok inner.

(** The parameters of [inner] passed the checks with the client's exponent [b]. *)
Definition checked_params (inner : ServerDHInnerData.t) (b : Z) : Prop :=
  let dhPrime := be_combine (ServerDHInnerData.DhPrime inner) in
  let g := ServerDHInnerData.G inner in
  0 <= b /\ check_uncached ProbablyPrime g (Some dhPrime) = None /\
  CheckDHParams dhPrime g (be_combine (ServerDHInnerData.GA inner)) (big_Exp g b dhPrime) = None.

Definition client_key (inner : ServerDHInnerData.t) (b : Z) : Z :=
  big_Exp (be_combine (ServerDHInnerData.GA inner)) b (be_combine (ServerDHInnerData.DhPrime inner)).

Lemma negb_bool_decide_inv (P : Prop) `{!Decision P} {A} (m k : GoM flow A) f r :
  (if negb (bool_decide P) then m else k) f = r -> (~ P /\ m f = r) \/ (P /\ k f = r).
Proof. destruct (bool_decide P) eqn:E; simpl; [right|left]; (split; [|done]).
  - by apply bool_decide_eq_true_1 in E.
  - by apply bool_decide_eq_false_1 in E.
Qed.

Lemma CheckDH_inv g p f f' :
  cache_ok ProbablyPrime (fl_cache f) -> CheckDH ProbablyPrime g p f = (Ok tt, f') ->
  check_uncached ProbablyPrime g (Some p) = None.
Proof.
  intros Hc. unfold CheckDH.
  destruct (checkDHWithCache_ok ProbablyPrime (fl_cache f) (fl_cache f) g (Some p) Hc Hc) as [Hf _].
  destruct (checkDHWithCache _ _ _ _ _) as [[e|] ca]; simpl in *; done.
Qed.

(** Inverts the guard of a step that succeeded. *)
Ltac inv_guard H :=
  let Hg := fresh "Hg" in
  apply negb_bool_decide_inv in H as [[_ H]|[Hg H]]; [discriminate H|].
Ltac inv_bind H x f Hx := apply bind_inv_ok in H as (x & f & Hx & H).

Lemma client_params_inv nonce sn newNonce p f k f' :
  cache_ok ProbablyPrime (fl_cache f) -> client_params ProbablyPrime nonce sn newNonce p f = (Ok k, f') ->
  exists inner b, server_answer nonce sn newNonce p inner /\ checked_params inner b /\ k = client_key inner b.
Proof.
  intros Hc H. unfold client_params in H. inv_guard H. inv_guard H.
  rewrite (surjective_pairing (TempAESKeys _ _)) in H.
  inv_bind H d f1 Hd. apply wrapping_inv in Hd. injection Hd as Hd <-.
  inv_bind H inner f2 Hin. apply decoded_inv in Hin as [Hin ->]. inv_guard H. inv_guard H.
  inv_bind H u f3 Hdh. destruct u. apply wrapping_inv, CheckDH_inv in Hdh; [|done].
  inv_bind H b f4 Hb. apply wrapping_inv in Hb. unfold random in Hb.
  destruct (rand_Int2048 (fl_rand f3)) as [o r] eqn:Er. injection Hb as -> <-.
  inv_bind H u f5 Hck. apply wrapping_inv in Hck. destruct (CheckDHParams _ _ _ _) eqn:Eck; [done|].
  inv_bind H e f6 He. inv_bind H e' f7 He'. inv_bind H u' f8 Hw. injection H as <- _.
  exists inner, b. split_and!; try done.
  - split_and!; try done. by exists d.
  - split_and!; try done. by eapply rand_Int2048_nonneg.
Qed.

(** The confirmation of the server for the key [k]. *)
Lemma client_result_inv c nonce sn newNonce k v f r f' :
  client_result c nonce sn newNonce k v f = (Ok r, f') ->
  DhGen.Nonce v = nonce /\ DhGen.ServerNonce v = sn /\
  exists key, FillBytes k KeySize = Some key /\ DhGen.NewNonceHash v = NonceHash1 newNonce key /\
    cr_AuthKey r = WithID key /\ cr_ServerSalt r = ServerSalt newNonce sn.
Proof.
  unfold client_result. intros H. inv_guard H. inv_guard H.
  destruct (FillBytes k KeySize) as [key|] eqn:Ek; [|done]. inv_guard H.
  inv_bind H sid f1 Hs. split; [done|]. split; [done|]. exists key. split; [done|]. split; [done|].
  destruct (mode c).
  - injection H as <- _. simpl. split; [done|]. by f_equal.
  - inv_bind H now f2 Hn. injection H as <- _. simpl. split; [done|]. by f_equal.
Qed.

Lemma RandInt256_infix r v r' : RandInt256 r = (Ok v, r') -> exists post, incoming r = v ++ post.
Proof.
  unfold RandInt256. intros H. inv_bind H b r1 Hb. apply must_read_inv in Hb as (Hin & Hb & _); [|done].
  injection H as H _. apply (f_equal (fun o => (o, drop 32 b))) in H. 
  assert (Int256 b = (Ok v, drop 32 b)) as Hi.
  { unfold Int256 in *. rewrite Hb in *. exact H. }
  apply Int256_inv in Hi as [_ Hi]. exists (incoming r1). rewrite Hin, Hi at 1.
  assert (drop 32 b = []) as -> by (apply drop_ge; unfold zlen, Word in Hb; lia). by rewrite app_nil_r.
Qed.

(** The new nonce comes from the client's own source. *)
Lemma client_request_inv c nonce res key f v f' :
  client_request c nonce res key f = (Ok v, f') ->
  exists pre post, incoming (fl_rand f) = pre ++ v ++ post /\ zlen v = 32.
Proof.
  unfold client_request. destruct (_ >? _); [done|]. intros H.
  inv_bind H pq f1 Hpq. apply wrapping_inv in Hpq.
  assert (incoming (fl_rand f1) `suffix_of` incoming (fl_rand f)) as [pre Hpre].
  { pose proof (tame_random _ (draws_DecomposePQ (be_combine (ResPQ.Pq res))) f) as (_ & Hr & _). by rewrite Hpq in Hr. }
  inv_bind H new f2 Hn. apply wrapping_inv in Hn. unfold random in Hn.
  destruct (RandInt256 (fl_rand f1)) as [o r'] eqn:Er. injection Hn as -> <-.
  pose proof (RandInt256_zlen _ _ _ Er) as Hz. apply RandInt256_infix in Er as [post Hpost].
  inv_bind H b f3 Hb. inv_bind H d f4 Hd. inv_bind H u f5 Hu. injection H as <- _.
  exists pre, post. by rewrite Hpre, Hpost.
Qed.

Lemma RandInt128_infix r v r' : RandInt128 r = (Ok v, r') -> incoming r = v ++ incoming r'.
Proof.
  unfold RandInt128. intros H. inv_bind H b r1 Hb. apply must_read_inv in Hb as (Hin & Hb & _); [|done].
  injection H as H <-. apply (f_equal (fun o => (o, drop 16 b))) in H.
  assert (Int128 b = (Ok v, drop 16 b)) as Hi.
  { unfold Int128 in *. rewrite Hb in *. exact H. }
  apply Int128_inv in Hi as [_ Hi]. rewrite Hin, Hi at 1.
  assert (drop 16 b = []) as -> by (apply drop_ge; unfold zlen, Word in Hb; lia). by rewrite app_nil_r.
Qed.

(** The nonce is the first thing that the client draws, and the answer has it. *)
Lemma client_hello_inv c f nonce res key f' :
  client_hello c f = (Ok (nonce, res, key), f') ->
  zlen nonce = 16 /\ ResPQ.Nonce res = nonce /\
  selectPubKey (keys c) (ResPQ.ServerPublicKeyFingerprints res) = Ok (Some key) /\
  plain_frame (Decode (A := ResPQ.t)) res (fl_inbox f) /\
  exists rest, incoming (fl_rand f) = nonce ++ rest /\ incoming (fl_rand f') `suffix_of` rest.
Proof.
  unfold client_hello. intros H. inv_bind H n f1 Hn. apply wrapping_inv in Hn. unfold random in Hn.
  destruct (RandInt128 (fl_rand f)) as [o r] eqn:Er. injection Hn as -> <-.
  inv_bind H u f2 Hw. apply wrapping_inv in Hw.
  pose proof (tame_write client_writer (Encode (ReqPqMulti.mk n)) (set_rand r f)) as Hf. rewrite Hw in Hf.
  inv_bind H res0 f3 Hres. apply wrapping_inv in Hres.
  pose proof (tame_read client_writer (Decode (A := ResPQ.t)) f2) as Hf3. rewrite Hres in Hf3.
  apply readUnencrypted_inv in Hres. inv_guard H.
  inv_bind H sel f4 Hs. injection Hs as Hs <-. destruct sel as [k|]; [|done]. injection H as <- <- <- <-.
  split_and!; try done; [by eapply RandInt128_zlen|eapply plain_frame_suffix; [apply Hf|done]|].
  exists (incoming r). split; [by apply RandInt128_infix|].
  destruct Hf as (_ & Hr1 & _), Hf3 as (_ & Hr2 & _). simpl in *. by etrans.
Qed.

(** The key comes from the client's configuration, and the server named its fingerprint. *)
Lemma selectPubKey_inv keys fps key : selectPubKey keys fps = Ok (Some key) ->
  Some key ∈ keys /\ RSAFingerprint key ∈ fps.
Proof.
  induction keys as [|k keys IH]; simpl; [done|]. destruct k as [k|]; simpl; [|done].
  destruct (existsb _ fps) eqn:E.
  - intros [= ->]. split; [by left|]. apply existsb_exists in E as (x & Hx & ->%Z.eqb_eq). by apply list_elem_of_In.
  - intros [? ?]%IH. split; [by right|done].
Qed.

(** C20: whatever the peer sends, a client whose exchange succeeds has seen a resPQ with
    the nonce that it drew first and the fingerprint of a key it was configured with; a
    server_DH_params_ok with this nonce and the server's nonce of the resPQ, whose answer
    decrypts with keys made from the new nonce that the client drew, to an inner message
    with the same two nonces and Diffie-Hellman parameters that pass the full validation
    and all range checks; and a dh_gen_ok with the two nonces that proves that the peer
    knows the new nonce and the key; the key of the result is the power computed from
    these parameters, with its own id. *)
Theorem exchange_client_checked (c : ClientExchange) (f f' : flow) (r : ClientExchangeResult) :
  reachable ProbablyPrime (fl_cache f) -> Client_Run ProbablyPrime c f = (Ok r, f') ->
  exists nonce newNonce pre post res rsa p inner b v key,
    let sn := ResPQ.ServerNonce res in
    incoming (fl_rand f) = nonce ++ pre ++ newNonce ++ post /\ zlen nonce = 16 /\ zlen newNonce = 32 /\
    plain_frame (Decode (A := ResPQ.t)) res (fl_inbox f) /\ ResPQ.Nonce res = nonce /\
    Some rsa ∈ keys c /\ RSAFingerprint rsa ∈ ResPQ.ServerPublicKeyFingerprints res /\
    plain_frame DecodeServerDHParams (DHParamsOk p) (fl_inbox f) /\ server_answer nonce sn newNonce p inner /\
    checked_params inner b /\ FillBytes (client_key inner b) KeySize = Some key /\
    plain_frame DecodeSetClientDHParamsAnswer (DhGenOk v) (fl_inbox f) /\
    DhGen.Nonce v = nonce /\ DhGen.ServerNonce v = sn /\ DhGen.NewNonceHash v = NonceHash1 newNonce key /\
    cr_AuthKey r = WithID key /\ cr_ServerSalt r = ServerSalt newNonce sn.
Proof.
  intros Hca%dh_reachable_ok H. unfold Client_Run in H.
  inv_bind H hello f1 Hh. destruct hello as [[nonce res] key0].
  pose proof (tame_hello c f) as F1. rewrite Hh in F1. simpl in F1. cbv zeta in H.
  apply client_hello_inv in Hh as (Hzn & Hnon & [Hsel1 Hsel2]%selectPubKey_inv & Hres & rest & Hrest & pre' & Hpre').
  inv_bind H new f2 Hn. pose proof (tame_request c nonce res key0 f1) as F2. rewrite Hn in F2. simpl in F2.
  inv_bind H b f3 Hb. pose proof (tame_recv_plain "read ServerDHParams message" "decode ServerDHParams message" f2) as F3.
  rewrite Hb in F3. simpl in F3.
  inv_bind H dh f4 Hdh. apply decoded_inv in Hdh as [Hdh ->]. destruct dh as [|p]; [done|].
  assert (follows f f2) as F12 by (by etrans). assert (follows f f3) as F13 by (by etrans).
  inv_bind H k f5 Hk. pose proof (tame_params nonce (ResPQ.ServerNonce res) new p f3) as F4. rewrite Hk in F4. simpl in F4.
  apply client_params_inv in Hk as (inner & bb & Hans & Hck & ->); [|by apply F13].
  unfold client_finish in H. inv_bind H b2 f6 Hb2. inv_bind H ans f7 Ha. apply wrapping_inv, decoded_inv in Ha as [Ha ->].
  destruct ans as [v|v|v]; [|done|done].
  apply client_result_inv in H as (Hvn & Hvs & key & Hkey & Hh1 & Hr1 & Hr2).
  apply client_request_inv in Hn as (pre & post & Hin & Hznew).
  exists nonce, new, (pre' ++ pre), post, res, key0, p, inner, bb, v, key. cbv zeta. split_and!; try done.
  - by rewrite Hrest, Hpre', Hin, <- app_assoc.
  - eapply plain_frame_suffix; [apply F12|]. by eapply recv_plain_inv.
  - assert (follows f f5) as F15 by (by etrans). eapply plain_frame_suffix; [apply F15|]. by eapply recv_plain_inv.
Qed.

(** *** Panics *)

Lemma bind_panic {S A B} (m : GoM S A) (k : A -> GoM S B) st st' :
  m st = (Panic, st') -> bind m k st = (Panic, st').
Proof. unfold bind. by intros ->. Qed.

Definition steady {S A} (m : GoM S A) (st : S) : Prop := fst (m st) <> Panic.

Lemma steady_bind {S A B} (m : GoM S A) (k : A -> GoM S B) st :
  steady m st -> (forall x st', m st = (Ok x, st') -> steady (k x) st') -> steady (bind m k) st.
Proof. unfold steady, bind. destruct (m st) as [[x|e|] st'] eqn:E; simpl; auto. Qed.
Lemma steady_wrapping {S A} msg (m : GoM S A) st : steady m st -> steady (wrapping msg m) st.
Proof. unfold steady, wrapping. by destruct (m st) as [[x|e|] st']. Qed.
Lemma steady_random {A} (m : GoM Stream A) f : steady m (fl_rand f) -> steady (random m) f.
Proof. unfold steady, random. by destruct (m (fl_rand f)). Qed.
Lemma steady_decoded {A} (dec : GoM Buffer A) b f : safe dec -> steady (decoded dec b) f.
Proof. intros Hs. unfold steady, decoded, lift. destruct (Hs b) as (o & b' & E & Hp & _). by rewrite E. Qed.
Lemma steady_check e f : steady (check e) f.
Proof. by destruct e. Qed.
Lemma steady_must_read n r : steady (must_read n) r.
Proof. apply must_read_no_panic. Qed.
Lemma steady_encoded {A} `{!Object A, !LawfulObject A} (x : A) f : valid x -> steady (encoded (Encode x)) f.
Proof. intros Hv. unfold steady, encoded. destruct (encode_bytes x Hv) as [-> _]. done. Qed.
Lemma steady_Send b f : steady (Send b) f.
Proof. unfold steady, Send. by destruct (fl_sends f) as [|[e|] l]. Qed.
Lemma steady_write w m f : fst (m []) <> Panic -> steady (writeUnencrypted w m) f.
Proof.
  intros Hm. apply steady_bind; [unfold steady, encoded; by destruct (m []) as [[]?]|intros b f1 _].
  apply steady_bind; [unfold steady; by rewrite Now_run|intros t f2 _]. apply steady_bind; [done|intros; apply steady_Send].
Qed.
Lemma steady_read_loop n cl f : (length (fl_inbox f) < n)%nat -> steady (read_loop n cl) f.
Proof.
  revert f. induction n as [|n IH]; intros f Hn; [lia|]. unfold steady. simpl. unfold tryRead, Recv.
  destruct (fl_inbox f) as [|[e|b] l] eqn:E; simpl; [by rewrite andb_false_r| |done].
  destruct (cl && _); [|done]. apply IH. simpl in *. lia.
Qed.
Lemma steady_read {A} w (dec : GoM Buffer A) f : safe dec -> steady (readUnencrypted w dec) f.
Proof.
  intros Hs. apply steady_bind; [apply steady_read_loop; lia|intros b f1 _].
  apply steady_bind; [apply steady_check|intros u f2 _].
  apply steady_bind; [apply steady_decoded, safe_UnencryptedMessage|intros msg f3 _].
  apply steady_bind; [apply steady_check|intros u' f4 _]. by apply steady_decoded.
Qed.
Lemma steady_recv_plain s1 s2 f : steady (recv_plain s1 s2) f.
Proof.
  apply steady_bind; [|intros b f1 _].
  { apply steady_wrapping. unfold steady, Recv. by destruct (fl_inbox f) as [|[]]. }
  apply steady_bind; [apply steady_wrapping, steady_decoded, safe_UnencryptedMessage|done].
Qed.
Lemma steady_RandInt128 r : steady RandInt128 r.
Proof. apply steady_bind; [apply steady_must_read|intros b r' _]. unfold steady, Int128. simpl. by case_bool. Qed.
Lemma steady_RandInt256 r : steady RandInt256 r.
Proof. apply steady_bind; [apply steady_must_read|intros b r' _]. unfold steady, Int256. simpl. by case_bool. Qed.
Lemma steady_EncryptExchangeAnswer m k iv r : steady (EncryptExchangeAnswer m k iv) r.
Proof.
  unfold EncryptExchangeAnswer. destruct (aes_NewCipher k); [done|]. apply steady_bind; [|done].
  apply steady_wrapping. unfold steady, DataWithHash. by destruct (ReadFull _ r) as [[g [e|]] r'].
Qed.

Lemma safe_class {A} (k : Z -> GoM Buffer A) : (forall id, safe (k id)) -> safe (let! id := PeekID in k id).
Proof. intros Hk. apply safe_bind; [apply safe_PeekID|done]. Qed.
Lemma safe_DecodeServerDHParams : safe DecodeServerDHParams.
Proof.
  apply safe_class. intros id. repeat apply safe_if; [| |apply safe_fail];
    apply safe_wrapping, safe_bind; try (intros; apply safe_ret).
  - exact (decode_safe (A := ServerDHParamsFail.t)).
  - exact (decode_safe (A := ServerDHParamsOk.t)).
Qed.
Lemma safe_DecodeSetClientDHParamsAnswer : safe DecodeSetClientDHParamsAnswer.
Proof.
  apply safe_class. intros id. repeat apply safe_if; [| | |apply safe_fail];
    apply safe_wrapping, safe_bind; try (intros; apply safe_ret); unfold DhGen.Decode, field; solve_safe.
Qed.

(** Keys that a client can be configured with. *)
Definition good_keys (c : ClientExchange) : Prop :=
  Forall (fun k => exists key, k = Some key /\ RSAKeyPair key) (keys c).

Lemma selectPubKey_good c fps :
  good_keys c ->
  selectPubKey (keys c) fps <> Panic /\
  forall key, selectPubKey (keys c) fps = Ok (Some key) -> RSAKeyPair key.
Proof.
  unfold good_keys. induction 1 as [|k l (key & -> & Hk) _ IH]; simpl; [done|].
  destruct (existsb _ fps); [|done]. split; [done|]. intros key' [= <-]. done.
Qed.

Lemma steady_hello c f : good_keys c -> steady (client_hello c) f.
Proof.
  intros Hk. unfold client_hello.
  apply steady_bind; [apply steady_wrapping, steady_random, steady_RandInt128|intros nonce f1 _].
  apply steady_bind; [by apply steady_wrapping, steady_write|intros u f2 _].
  apply steady_bind; [apply steady_wrapping, steady_read, (decode_safe (A := ResPQ.t))|intros res f3 _].
  destruct (negb _); [done|]. apply steady_bind; [by apply selectPubKey_good|intros k f4 _]. by destruct k.
Qed.

(** *** Confirmed keys fit *)

Lemma client_key_fits inner b : checked_params inner b -> exists key, FillBytes (client_key inner b) KeySize = Some key.
Proof.
  intros (Hb & Hc & _). unfold client_key. set (p := be_combine (ServerDHInnerData.DhPrime inner)) in *.
  assert (0 < p < 2 ^ 2048) as Hp.
  { unfold check_uncached, validatedDHKey, RSAKeyBits in Hc. revert Hc. case_bool; [done|]. intros _. bool_to_prop.
    split; [lia|]. unfold BitLen in *. replace (p =? 0) with false in * by lia.
    rewrite Z.abs_eq in * by lia. apply Z.log2_lt_pow2; lia. }
  destruct (big_Exp_range (be_combine (ServerDHInnerData.GA inner)) b p Hb) as [H0 H1]; [lia|].
  eexists. apply (FillBytes_fits _ 256); [lia|]. change (8 * 256) with 2048. lia.
Qed.
End Safety.

Section Panics.
Context {ige : IGE} {xor : XorLib} `{!LawfulIGE, !LawfulXor} (ProbablyPrime : Z -> bool).

Lemma steady_request c nonce res key f :
  RSAKeyPair key -> 1 < be_combine (ResPQ.Pq res) -> steady (client_request c nonce res key) f.
Proof.
  intros Hk Hpq. unfold client_request. destruct (_ >? _); [done|].
  apply steady_bind; [|intros pq f1 _].
  { apply steady_wrapping, steady_random. pose proof (DecomposePQ_spec _ (fl_rand f) Hpq) as Hd.
    unfold steady. by destruct (DecomposePQ _ _) as [[[]|e|] r]. }
  apply steady_bind; [apply steady_wrapping, steady_random, steady_RandInt256|intros new f2 _].
  apply steady_bind; [|intros b f3 _].
  { unfold steady, encoded. by rewrite pqInnerData_run. }
  apply steady_bind; [|intros d f4 _].
  { apply steady_wrapping, steady_random. pose proof (rsa_pad_roundtrip key b (fl_rand f3)) as Hp.
    unfold steady. by destruct (RSAPad b key _) as [[]?]. }
  apply steady_bind; [by apply steady_wrapping, steady_write|done].
Qed.

Lemma steady_params nonce sn new p f : steady (client_params ProbablyPrime nonce sn new p) f.
Proof.
  unfold client_params. do 2 (destruct (negb _); [done|]). destruct (TempAESKeys _ _) as [k iv].
  apply steady_bind; [|intros d f1 _].
  { apply steady_wrapping. unfold steady, lift, DecryptExchangeAnswer. simpl.
    destruct (aes_NewCipher k); [done|]. destruct (negb _); [done|].
    by destruct (slice_of (ServerDHParamsOk.EncryptedAnswer p)). }
  apply steady_bind; [apply steady_decoded, (decode_safe (A := ServerDHInnerData.t))|intros inner f2 _].
  do 2 (destruct (negb _); [done|]).
  apply steady_bind; [|intros u f3 _].
  { apply steady_wrapping. unfold steady, CheckDH. by destruct (checkDHWithCache _ _ _ _ _) as [[] ?]. }
  apply steady_bind; [|intros b f4 _].
  { apply steady_wrapping, steady_random. unfold rand_Int2048. apply steady_bind; [apply steady_must_read|done]. }
  apply steady_bind; [apply steady_wrapping, steady_check|intros u' f5 _].
  apply steady_bind; [done|intros e f6 _].
  apply steady_bind; [apply steady_wrapping, steady_random, steady_EncryptExchangeAnswer|intros e' f7 _].
  apply steady_bind; [by apply steady_wrapping, steady_write|done].
Qed.

(** A client with usable keys can only panic when a peer sends a resPQ whose
    pq is 0 or 1: no other sequence of frames, errors or random bytes ends it
    abnormally. *)
Theorem exchange_panics_only_on_pq (c : ClientExchange) (f : flow) :
  good_keys c -> reachable ProbablyPrime (fl_cache f) -> fst (Client_Run ProbablyPrime c f) = Panic ->
  exists res, plain_frame (Decode (A := ResPQ.t)) res (fl_inbox f) /\ be_combine (ResPQ.Pq res) <= 1.
Proof.
  intros Hk Hca%dh_reachable_ok Hp. unfold Client_Run in Hp.
  destruct (client_hello c f) as [[[[nonce res] key]|e|] f1] eqn:Eh.
  2: { by erewrite bind_err in Hp. }
  2: { exfalso. apply (steady_hello c f Hk). by rewrite Eh. }
  destruct (client_hello_inv ProbablyPrime _ _ _ _ _ _ Eh) as (_ & _ & Hsel & Hfr & _). exists res. split; [done|].
  destruct (Z.le_gt_cases (be_combine (ResPQ.Pq res)) 1) as [|Hpq]; [done|]. exfalso. revert Hp.
  erewrite bind_ok by exact Eh. cbv zeta.
  pose proof (tame_hello ProbablyPrime c f) as F1. rewrite Eh in F1.
  assert (RSAKeyPair key) as HK by (eapply selectPubKey_good; done).
  apply steady_bind; [by apply steady_request|intros new f2 E2].
  pose proof (tame_request ProbablyPrime c nonce res key f1) as F2. rewrite E2 in F2.
  apply steady_bind; [apply steady_recv_plain|intros b f3 E3].
  pose proof (tame_recv_plain ProbablyPrime "read ServerDHParams message" "decode ServerDHParams message" f2) as F3.
  rewrite E3 in F3.
  apply steady_bind; [apply steady_decoded, safe_DecodeServerDHParams|intros dh f4 E4].
  apply decoded_inv in E4 as [_ ->]. destruct dh as [|p]; [done|].
  apply steady_bind; [apply steady_params|intros k f5 E5].
  apply client_params_inv in E5 as (inner & bb & _ & Hck & ->); [|by apply F3, F2, F1].
  destruct (client_key_fits _ _ _ Hck) as [key' Hfit].
  apply steady_bind; [apply steady_recv_plain|intros b2 f6 _].
  apply steady_bind; [apply steady_wrapping, steady_decoded, safe_DecodeSetClientDHParamsAnswer|intros ans f7 _].
  destruct ans as [v|v|v]; [|done|done]. unfold client_result. do 2 (destruct (negb _); [done|]).
  rewrite Hfit. destruct (negb _); [done|].
  apply steady_bind; [|intros sid f8 _].
  { apply steady_random. unfold NewSessionID. apply steady_bind; [apply steady_must_read|done]. }
  destruct (mode c); [done|]. apply steady_bind; [unfold steady; by rewrite Now_run|done].
Qed.

(** A single plaintext frame that anyone on the path can send, a resPQ with
    the nonce of the client's request, the fingerprint of a key that it trusts and
    an empty pq, crashes the client: the factorization divides by zero. *)
Theorem exchange_pq_zero_panics (c : ClientExchange) (key : RSAKey) (r r1 : Stream) (nonce sn : list byte) (t : Z)
    (i : list (error + Buffer)) (o : list Buffer) (clk : list Z) (ca : validatedDHParameterCache) (cx : error) :
  selectPubKey (keys c) [RSAFingerprint key] = Ok (Some key) ->
  RandInt128 r = (Ok nonce, r1) -> 8 <= zlen (incoming r1) -> zlen sn = 16 -> time_nano t ->
  fst (Client_Run ProbablyPrime c (mkFlow r
    (inr (frame server_writer t (bytes_of (ResPQ.mk nonce sn [] [RSAFingerprint key]))) :: i) o [] clk ca cx)) = Panic.
Proof.
  intros Hk Hn Hr Hs Ht. unfold Client_Run.
  pose proof (client_hello_run c (mkServer key 0) nonce sn 0 t r r1 i o clk ca cx Hn Hs ltac:(lia) Ht Hk) as Hh.
  change (m_resPQ (mkServer key 0) nonce sn 0) with (ResPQ.mk nonce sn [] [RSAFingerprint key]) in Hh.
  erewrite bind_ok by exact Hh. cbv zeta. unfold client_request. cbn [ResPQ.Pq].
  replace (be_combine [] >? 2 ^ 63) with false by done.
  assert (fst (DecomposePQ (be_combine []) r1) = Panic) as Hd.
  { unfold DecomposePQ. change (be_combine []) with 0.
    destruct (incoming r1) as [|x l] eqn:E; [rewrite zlen_nil in Hr; lia|]. rewrite <- E in *.
    unfold bind at 1. rewrite E. cbn [length decompose_loop]. 
    cbn [Z.gtb Z.compare andb]. unfold rand_Int64Max, bind.
    destruct (must_read 8 r1) as [[b|e|] r2] eqn:Eb; try done.
    - unfold must_read in Eb. destruct (ReadFull 8 r1) as [[g er] r3] eqn:Er.
      destruct (ReadFull_spec 8 r1 g er r3 ltac:(lia) Er) as (Hin & _ & He). destruct er; [|done].
      destruct He as (Hlt & Hnil & _). rewrite Hin, Hnil, app_nil_r in Hr. lia. }
  destruct (DecomposePQ (be_combine []) r1) as [o2 r2] eqn:Ed. simpl in Hd. subst o2.
  erewrite bind_panic; [done|]. eapply bind_panic. unfold wrapping, random. cbn [fl_rand]. by rewrite Ed.
Qed.

(** The timeout of an exchange covers its first read only: a server that
    never answers req_pq_multi is given up at the deadline, but one that goes silent
    after its resPQ holds the client until the context of the caller ends. *)
Theorem exchange_wait_unbounded (c : ClientExchange) (s : ServerExchange) `{!RSAKeyPair (server_key s)}
    (r r1 r2 r3 r4 : Stream) (nonce sn newNonce data : list byte) (pq p q t : Z) (clk : list Z)
    (ca : validatedDHParameterCache) (cx : error) :
  selectPubKey (keys c) [RSAFingerprint (server_key s)] = Ok (Some (server_key s)) ->
  zlen sn = 16 -> 1 < pq <= 2 ^ 63 -> time_nano t ->
  RandInt128 r = (Ok nonce, r1) -> DecomposePQ pq r1 = (Ok (p, q), r2) -> RandInt256 r2 = (Ok newNonce, r3) ->
  RSAPad (m_inner_bytes c nonce sn newNonce pq p q) (server_key s) r3 = (Ok data, r4) ->
  fst (Client_Run ProbablyPrime c (mkFlow r [] [] [] clk ca cx)) =
    Err (Wrap DeadlineExceeded "read ResPQ response") /\
  fst (Client_Run ProbablyPrime c (mkFlow r [inr (frame server_writer t (bytes_of (m_resPQ s nonce sn pq)))]
         [] [] clk ca cx)) = Err (Wrap cx "read ServerDHParams message").
Proof.
  intros Hk Hs Hpq Ht Hn Hd Hnew Hpad. pose proof (RandInt128_zlen _ _ _ Hn) as Hl. split.
  - assert (valid (ReqPqMulti.mk nonce)) as Hv by done. destruct (encode_bytes _ Hv) as [He _].
    unfold Client_Run, client_hello. erewrite bind_err; [done|].
    erewrite bind_ok by (by apply random_wrap_run).
    erewrite bind_ok by (apply wrapping_run; unfold set_rand; simpl; by apply writeUnencrypted_run).
    by erewrite bind_err.
  - pose proof (DecomposePQ_spec pq r1 (proj1 Hpq)) as Hfac. rewrite Hd in Hfac. simpl in Hfac.
    pose proof (rsa_pad_roundtrip (server_key s) (m_inner_bytes c nonce sn newNonce pq p q) r3) as Hrt.
    rewrite Hpad in Hrt. destruct Hrt as (_ & Hdata & _).
    unfold Client_Run. erewrite bind_ok by (apply (client_hello_run c s nonce sn pq t r r1 []); try done; lia).
    cbv beta iota zeta. erewrite bind_ok by (eapply client_request_run; eauto; lia).
    by erewrite bind_err.
Qed.
End Panics.

(** ** A sample exchange *)

Section Sample.
#[local] Instance sample_ige : IGE := { ige_encrypt _ _ p := p; ige_decrypt _ _ p := p }.
#[local] Instance sample_ige_lawful : LawfulIGE.
Proof. by split. Qed.
#[local] Instance sample_xor : XorLib := xor_bytes.
#[local] Instance sample_xor_lawful : LawfulXor.
Proof. by intros x y. Qed.

Definition sample_key : RSAKey := mkRSA (2 ^ 2048 - 1) 1 1.
#[local] Instance sample_key_pair : RSAKeyPair sample_key.
Proof.
  split; [split; [by vm_compute|done]|]. intros m Hm. unfold sample_key in *. simpl rsa_E in *. simpl rsa_D in *.
  simpl rsa_N in *. set (n := 2 ^ 2048 - 1) in *. assert (0 < n) by lia.
  rewrite !big_Exp_pow by lia. rewrite !Z.pow_1_r, Z.mod_mod by lia. by apply Z.mod_small.
Qed.

Definition sample_pq : Z := 8633.
Definition sample_prime : Z := Eval cbv in
  match fst (TestServerRNG.DhPrime (mkStream [] EOF)) with Ok p => p | _ => 0 end.
Definition sample_rng : ServerRNG := mkRNG (ret sample_pq) TestServerRNG.GA (ret sample_prime).
#[local] Instance sample_rng_lawful : LawfulRNG sample_rng.
Proof. exact test_rng_lawful. Qed.

Definition sample_client : ClientExchange := mkClient [Some sample_key] 2 ExchangeModeTemporary 86400.
Definition sample_server : ServerExchange := mkServer sample_key 2.
Definition sample_nonce : list byte := replicate 16 Byte.x01.
Definition sample_sn : list byte := replicate 16 Byte.x02.
Definition sample_new : list byte := replicate 32 Byte.x03.
Definition sample_rc : Stream :=
  mkStream (sample_nonce ++ (be_split 8 0 ++ be_split 8 3) ++ sample_new ++
            zeros (192 - 88) ++ zeros 32 ++ be_split 256 1271 ++ le_split 8 1 ++ zeros 64) EOF.
Definition sample_rs : Stream := mkStream (sample_sn ++ be_split 256 1270 ++ zeros 15) EOF.
Definition sample_clock : list Z := [1700000000 * 10 ^ 9].

Definition value_of {A} (d : A) (r : outcome A * Stream) : A := match fst r with Ok a => a | _ => d end.
Definition sample_data : list byte :=
  value_of [] (RSAPad (m_inner_bytes sample_client sample_nonce sample_sn sample_new sample_pq 89 97) sample_key
    (mkStream (zeros (192 - 88) ++ zeros 32) EOF)).
Definition sample_answer : list byte :=
  value_of [] (EncryptExchangeAnswer
    (bytes_of (m_serverDH sample_nonce sample_sn sample_prime (big_Exp server_g 1270 sample_prime)
                 (reading (tick sample_clock))))
    (temp_key sample_sn sample_new) (temp_iv sample_sn sample_new) (mkStream (zeros 15) EOF)).
Definition sample_enc : list byte :=
  value_of [] (EncryptExchangeAnswer
    (bytes_of (m_clientDH sample_nonce sample_sn (big_Exp server_g 1271 sample_prime)))
    (temp_key sample_sn sample_new) (temp_iv sample_sn sample_new) (mkStream (zeros 15) EOF)).


Lemma sample_server_draws :
  server_draws sample_rng sample_nonce sample_new (reading (tick sample_clock)) sample_rs sample_sn sample_pq
    sample_prime 1270 (big_Exp server_g 1270 sample_prime) sample_answer.
Proof.
  destruct (EncryptExchangeAnswer_runs
    (bytes_of (m_serverDH sample_nonce sample_sn sample_prime (big_Exp server_g 1270 sample_prime)
                 (reading (tick sample_clock))))
    (temp_key sample_sn sample_new) (temp_iv sample_sn sample_new) (mkStream (zeros 15) EOF))
    as (ans & rs5 & Hanswer); [vm_compute; reflexivity|vm_compute; congruence|].
  set (r := mkStream (be_split 256 1270 ++ zeros 15) EOF).
  exists r, r, r, (mkStream (zeros 15) EOF), rs5. do 4 (split; [vm_compute; reflexivity|]).
  unfold sample_answer. by rewrite Hanswer.
Qed.

Lemma sample_client_draws :
  client_draws_to sample_client sample_server sample_sn sample_pq sample_prime sample_rc sample_nonce sample_new
    89 97 1271 sample_data sample_enc 1 (mkStream (zeros 64) EOF).
Proof. do 6 eexists. do 6 (split; [vm_compute; reflexivity|]). vm_compute; reflexivity. Qed.

Lemma sample_prime_ok : check_uncached (fun _ => true) server_g (Some sample_prime) = None.
Proof. vm_compute. reflexivity. Qed.

Lemma sample_params_ok :
  CheckDHParams sample_prime server_g (big_Exp server_g 1270 sample_prime) (big_Exp server_g 1271 sample_prime) = None.
Proof. vm_compute. reflexivity. Qed.

Lemma sample_clock_ok : clock_ok sample_clock.
Proof. repeat constructor; vm_compute; congruence. Qed.

Lemma sample_selected : selectPubKey (keys sample_client) [RSAFingerprint sample_key] = Ok (Some sample_key).
Proof. vm_compute. reflexivity. Qed.

Lemma exchange_agreement_witness :
  exists cs ss fc fs r r',
    Client_Run (fun _ => true) sample_client (mkFlow sample_rc (map inr ss) [] [] sample_clock empty_cache Canceled) =
      (Ok r, fc) /\ fl_outbox fc = cs /\
    Server_Run sample_rng sample_server (mkFlow sample_rs (map inr cs) [] [] sample_clock empty_cache Canceled) =
      (Ok r', fs) /\ fl_outbox fs = ss /\
    cr_AuthKey r = sr_Key r' /\ cr_ServerSalt r = sr_ServerSalt r' /\ cr_SessionID r = 1 /\
    cr_AuthKey r = WithID (be_split 256 (server_g ^ (1270 * 1271) mod sample_prime)).
Proof.
  apply (exchange_agreement (fun _ => true) sample_rng sample_client sample_server sample_rc sample_rs
    sample_clock sample_clock empty_cache empty_cache Canceled Canceled sample_nonce sample_sn sample_new
    sample_data sample_answer sample_enc sample_pq 89 97 sample_prime 1270 (big_Exp server_g 1270 sample_prime) 1271 1
    sample_clock_ok sample_clock_ok (reach_init _) sample_selected eq_refl).
  - split; vm_compute; congruence.
  - split; vm_compute; congruence.
  - split; vm_compute; congruence.
  - exact sample_prime_ok.
  - exact sample_params_ok.
  - exact sample_server_draws.
  - exact (ex_intro _ _ sample_client_draws).
Defined.

(** The frames of the sample's server, and the client's run on them. *)
Definition sample_frames : list (error + Buffer) :=
  map inr (server_frames sample_server sample_nonce sample_sn sample_new sample_answer sample_pq sample_prime 1270 1271
             (reading sample_clock) (reading sample_clock) (reading sample_clock)).
Definition sample_flow : flow := mkFlow sample_rc sample_frames [] [] sample_clock empty_cache Canceled.

Lemma sample_client_runs : exists r f', Client_Run (fun _ => true) sample_client sample_flow = (Ok r, f') /\
  cr_AuthKey r = WithID (shared_key sample_prime 1270 1271) /\ cr_SessionID r = 1 /\ fl_rand f' = mkStream (zeros 64) EOF.
Proof.
  destruct sample_server_draws as (rs1 & rs2 & rs3 & rs4 & rs5 & _ & _ & _ & _ & Hans).
  pose proof (clock_ok_reading _ sample_clock_ok) as Ht.
  assert (1 < sample_pq <= 2 ^ 63) as Hpq by (split; vm_compute; congruence).
  assert (0 <= 89 < 2 ^ 64 /\ 0 <= 97 < 2 ^ 64) as Hfac by lia.
  assert (zlen sample_data = 256) as Hdata by (vm_compute; reflexivity).
  destruct (client_runs_to (fun _ => true) sample_client sample_server sample_nonce sample_sn sample_new sample_data
    sample_answer sample_enc sample_pq 89 97 sample_prime 1270 (big_Exp server_g 1270 sample_prime) 1271
    (reading sample_clock) 1 eq_refl eq_refl Ht sample_prime_ok eq_refl ltac:(lia) ltac:(lia) sample_params_ok
    Hpq Hfac Hdata sample_selected rs4 rs5 Hans sample_rc _ (reading sample_clock) (reading sample_clock)
    (reading sample_clock) sample_clock empty_cache Canceled Ht Ht Ht (dh_reachable_ok _ _ (reach_init _))
    sample_client_draws) as (f' & E & _ & Er).
  eexists _, f'. exact (conj E (conj eq_refl (conj eq_refl Er))).
Qed.

Lemma exchange_client_checked_witness : exists r f' nonce newNonce res p inner b v key,
  Client_Run (fun _ => true) sample_client sample_flow = (Ok r, f') /\
  plain_frame (Decode (A := ResPQ.t)) res sample_frames /\ ResPQ.Nonce res = nonce /\
  plain_frame DecodeServerDHParams (DHParamsOk p) sample_frames /\
  server_answer nonce (ResPQ.ServerNonce res) newNonce p inner /\
  checked_params (fun _ => true) inner b /\ FillBytes (client_key inner b) KeySize = Some key /\
  plain_frame DecodeSetClientDHParamsAnswer (DhGenOk v) sample_frames /\ cr_AuthKey r = WithID key.
Proof.
  destruct sample_client_runs as (r & f' & E & _).
  destruct (exchange_client_checked (fun _ => true) sample_client sample_flow f' r (reach_init _) E)
    as (nonce & new & pre & post & res & rsa & p & inner & b & v & key & H).
  exists r, f', nonce, new, res, p, inner, b, v, key.
  destruct H as (_ & _ & _ & H1 & H2 & _ & _ & H3 & H4 & H5 & H6 & H7 & _ & _ & _ & H8 & _).
  exact (conj E (conj H1 (conj H2 (conj H3 (conj H4 (conj H5 (conj H6 (conj H7 H8)))))))).
Defined.

(** *** A hostile server *)

Definition sample_bad : flow :=
  mkFlow (mkStream (sample_nonce ++ zeros 8) EOF)
    [inr (frame server_writer (reading sample_clock) (bytes_of (ResPQ.mk sample_nonce sample_sn [] [RSAFingerprint sample_key])))]
    [] [] sample_clock empty_cache Canceled.

Lemma sample_good_keys : good_keys sample_client.
Proof. constructor; [|constructor]. exists sample_key. split; [done|exact sample_key_pair]. Qed.

Lemma exchange_panics_only_on_pq_witness :
  exists res, plain_frame (Decode (A := ResPQ.t)) res (fl_inbox sample_bad) /\ be_combine (ResPQ.Pq res) <= 1.
Proof.
  apply (exchange_panics_only_on_pq (fun _ => true) sample_client sample_bad sample_good_keys (reach_init _)).
  vm_compute. reflexivity.
Defined.

Lemma exchange_pq_zero_panics_witness : fst (Client_Run (fun _ => true) sample_client sample_bad) = Panic.
Proof.
  apply (exchange_pq_zero_panics (fun _ => true) sample_client sample_key (mkStream (sample_nonce ++ zeros 8) EOF)
    (mkStream (zeros 8) EOF) sample_nonce sample_sn (reading sample_clock) [] [] sample_clock empty_cache Canceled
    sample_selected).
  - vm_compute. reflexivity.
  - vm_compute. congruence.
  - reflexivity.
  - exact (clock_ok_reading _ sample_clock_ok).
Defined.

Lemma exchange_wait_unbounded_witness :
  fst (Client_Run (fun _ => true) sample_client (mkFlow sample_rc [] [] [] sample_clock empty_cache Canceled)) =
    Err (Wrap DeadlineExceeded "read ResPQ response") /\
  fst (Client_Run (fun _ => true) sample_client (mkFlow sample_rc
         [inr (frame server_writer (reading sample_clock) (bytes_of (m_resPQ sample_server sample_nonce sample_sn sample_pq)))]
         [] [] sample_clock empty_cache Canceled)) = Err (Wrap Canceled "read ServerDHParams message").
Proof.
  destruct sample_client_draws as (r1 & r2 & r3 & r4 & r5 & r6 & H1 & H2 & H3 & H4 & _).
  apply (exchange_wait_unbounded (fun _ => true) sample_client sample_server sample_rc r1 r2 r3 r4 sample_nonce sample_sn
    sample_new sample_data sample_pq 89 97 (reading sample_clock) sample_clock empty_cache Canceled sample_selected eq_refl).
  - split; vm_compute; congruence.
  - exact (clock_ok_reading _ sample_clock_ok).
  - exact H1.
  - exact H2.
  - exact H3.
  - exact H4.
Defined.
End Sample.
