(* ===== verification/Salts.v ===== *)
(** * mtproto/salts: server salts

    Model of src/mtproto/salts/salts.go.  The stored slice is a list; the loops
    that filter it in place are modelled on the backing array, entry by entry,
    and shown equal to filters.  sort.Sort is a sorting function of which only
    the documented behaviour is used ([LawfulSort]): it is not stable. *)
From S2P Require Import Prelude.

Record FutureSalt : Type := mkSalt { ValidSince : Z; ValidUntil : Z; Salt : Z }.
#[export] Instance FutureSalt_eq_dec : EqDecision FutureSalt.
Proof. solve_decision. Defined.

(** [n := 0; for _, x := range a { if keep(x) { a[n] = x; n++ } }; a[:n]], where
    [keep] may update a state.  [a] is the backing array during the loop. *)
Fixpoint filter_in_place {A T} (keep : A -> T -> bool * T) (steps i n : nat) (a : list A) (t : T) : list A :=
  match steps with
  | O => take n a
  | S steps =>
      match a !! i with
      | None => take n a
      | Some x =>
          let '(k, t') := keep x t in
          if k then filter_in_place keep steps (S i) (S n) (<[n := x]> a) t'
          else filter_in_place keep steps (S i) n a t'
      end
  end.

(** saltSlice.Less, on the entries. *)
Definition Less (x y : FutureSalt) : bool := ValidUntil x >? ValidUntil y.

(** sort.Sort(saltSlice(_)) and what its documentation promises. *)
Class SortImpl : Type := sort_Sort : list FutureSalt -> list FutureSalt.
Definition not_after (x y : FutureSalt) : Prop := Less y x = false.
Class LawfulSort `{!SortImpl} : Prop := {
  sort_permutation l : sort_Sort l ≡ₚ l;
  sort_sorted l : StronglySorted not_after (sort_Sort l);
}.

Definition Salts : Type := list FutureSalt.

(** One pass from the label check; [None] is the jump back to it, with the
    filtered slice. *)
Definition Get_check (date : Z) (s : Salts) : option (option Z) * Salts :=
  match last s with
  | None => (Some None, s)
  | Some salt =>
      if ValidUntil salt >? date then (Some (Some (Salt salt)), s)
      else (None, filter_in_place (fun salt (_ : unit) => (ValidUntil salt >? date, tt)) (length s) 0 0 s tt)
  end.

Fixpoint Get_loop (fuel : nat) (date : Z) (s : Salts) : option (option Z) * Salts :=
  match fuel with
  | O => (None, s)
  | S fuel =>
      match Get_check date s with
      | (Some r, s') => (Some r, s')
      | (None, s') => Get_loop fuel date s'
      end
  end.

(** Get; the second pass always returns.  The result is the pair (salt, ok) as an option. *)
Definition Get (deadline : Z) (s : Salts) : option (option Z) * Salts := Get_loop 2 deadline s.

Definition dedup_step (salt : FutureSalt) (dedup : gset Z) : bool * gset Z :=
  if decide (Salt salt ∈ dedup) then (false, dedup) else (true, {[Salt salt]} ∪ dedup).

Definition Store `{!SortImpl} (salts : list FutureSalt) (s : Salts) : Salts :=
  let s := s ++ salts in
  let s := filter_in_place dedup_step (length s) 0 0 s ∅ in
  sort_Sort s.

Definition Reset (s : Salts) : Salts := take 0 s.

(** ** Filtering in place *)

(** The list that a filter with a state keeps. *)
Fixpoint filter_state {A T} (keep : A -> T -> bool * T) (l : list A) (t : T) : list A :=
  match l with
  | [] => []
  | x :: l =>
      let '(k, t') := keep x t in
      if k then x :: filter_state keep l t' else filter_state keep l t'
  end.

Lemma filter_in_place_inv {A T} (keep : A -> T -> bool * T) kept skipped l t :
  filter_in_place keep (length l) (length (kept ++ skipped)) (length kept) (kept ++ skipped ++ l) t =
  kept ++ filter_state keep l t.
Proof.
  revert kept skipped t. induction l as [|x l IH]; intros kept skipped t; simpl.
  - rewrite !app_nil_r. apply take_app_length.
  - rewrite (app_assoc kept skipped), list_lookup_middle by done.
    destruct (keep x t) as [[] t'].
    + destruct skipped as [|y skipped].
      * rewrite !app_nil_r. rewrite insert_app_r_alt, Nat.sub_diag by done. simpl.
        specialize (IH (kept ++ [x]) [] t'). rewrite app_nil_r, !length_app in IH. simpl in IH.
        rewrite Nat.add_1_r in IH. rewrite <- !app_assoc in IH. simpl in IH. by rewrite IH.
      * rewrite <- app_assoc, insert_app_r_alt, Nat.sub_diag by done. simpl.
        specialize (IH (kept ++ [x]) (skipped ++ [x]) t').
        rewrite <- !app_assoc in IH. simpl in IH. rewrite <- IH. f_equal; repeat (rewrite length_app; simpl); lia.
    + specialize (IH kept (skipped ++ [x]) t'). rewrite <- !app_assoc in *. simpl in IH.
      rewrite <- IH. f_equal. repeat (rewrite length_app; simpl). lia.
Qed.

Lemma filter_in_place_eq {A T} (keep : A -> T -> bool * T) l t :
  filter_in_place keep (length l) 0 0 l t = filter_state keep l t.
Proof. apply (filter_in_place_inv keep [] []). Qed.

Definition valid (date : Z) (salt : FutureSalt) : bool := ValidUntil salt >? date.

Lemma filter_state_filter (p : FutureSalt -> bool) l :
  filter_state (fun x (_ : unit) => (p x, tt)) l tt = filter (fun x => p x = true) l.
Proof.
  induction l as [|x l IH]; [done|]. simpl. rewrite filter_cons, IH.
  destruct (p x) eqn:E; [by rewrite decide_True|by rewrite decide_False].
Qed.

Lemma dedup_cons y l seen :
  filter_state dedup_step (y :: l) seen =
  if decide (Salt y ∈ seen) then filter_state dedup_step l seen
  else y :: filter_state dedup_step l ({[Salt y]} ∪ seen).
Proof. simpl. unfold dedup_step at 1. by destruct (decide _). Qed.

(** What the deduplication keeps: of each salt not seen before, the first entry. *)
Lemma dedup_spec l seen :
  NoDup (map Salt (filter_state dedup_step l seen)) /\
  (forall v, v ∈ map Salt (filter_state dedup_step l seen) -> v ∉ seen) /\
  (forall x, (x ∈ filter_state dedup_step l seen) <->
     (Salt x ∉ seen) /\ exists l1 l2, l = l1 ++ x :: l2 /\ Salt x ∉ map Salt l1).
Proof.
  revert seen. induction l as [|y l IH]; intros seen.
  { simpl. split_and!; [constructor|set_solver|]. intros x. split; [set_solver|]. intros (_ & l1 & ? & ? & _). by destruct l1. }
  rewrite dedup_cons. destruct (decide (Salt y ∈ seen)) as [Hy|Hy].
  - destruct (IH seen) as (Hnd & Hnew & Hin). split_and!; [done|done|]. intros x. rewrite Hin.
    split; intros [Hx (l1 & l2 & Hl & Hl1)]; (split; [done|]).
    + exists (y :: l1), l2. rewrite Hl. split; [done|]. simpl. set_solver.
    + destruct l1 as [|z l1]; simplify_eq/=; [done|]. exists l1, l2. set_solver.
  - destruct (IH ({[Salt y]} ∪ seen)) as (Hnd & Hnew & Hin). split_and!.
    + simpl. constructor; [|done]. intros Hin'. apply Hnew in Hin'. set_solver.
    + intros v. simpl. rewrite elem_of_cons. intros [->|Hv]; [done|]. apply Hnew in Hv. set_solver.
    + intros x. rewrite elem_of_cons, Hin. split.
      * intros [->|[Hx (l1 & l2 & -> & Hl1)]].
        { split; [done|]. exists [], l. split; [done|]. apply not_elem_of_nil. }
        split; [set_solver|]. exists (y :: l1), l2. simpl. set_solver.
      * intros [Hx (l1 & l2 & Hl & Hl1)]. destruct l1 as [|z l1]; simplify_eq/=; [by left|].
        right. split; [set_solver|]. exists l1, l2. set_solver.
Qed.

(** ** Get *)

Lemma Get_check_eq date s :
  Get_check date s =
  match last s with
  | None => (Some None, s)
  | Some salt => if valid date salt then (Some (Some (Salt salt)), s)
                 else (None, filter (fun x => valid date x = true) s)
  end.
Proof.
  unfold Get_check. destruct (last s); [|done]. rewrite filter_in_place_eq.
  by rewrite (filter_state_filter (valid date)).
Qed.

(** Get returns after at most two passes: the last entry that is valid past the
    deadline, if any; it drops the others only when the last one has expired. *)
Lemma Get_eq date s :
  Get date s =
  match last s with
  | Some salt =>
      if valid date salt then (Some (Some (Salt salt)), s)
      else let s' := filter (fun x => valid date x = true) s in (Some (Salt <$> last s'), s')
  | None => (Some None, s)
  end.
Proof.
  unfold Get, Get_loop. rewrite Get_check_eq. destruct (last s) as [salt|] eqn:E; [|done].
  destruct (valid date salt); [done|]. rewrite Get_check_eq.
  destruct (last (filter _ s)) as [x|] eqn:El; [|done].
  assert (valid date x = true) as ->; [|done].
  apply last_Some_elem_of in El. by apply list_elem_of_filter in El as [? _].
Qed.

(** ** The store *)

Section Store.
Context `{!SortImpl, !LawfulSort}.

(** The stores that the calls can produce. *)
Inductive reachable : Salts -> Prop :=
| reach_empty : reachable []
| reach_get date s : reachable s -> reachable (snd (Get date s))
| reach_store salts s : reachable s -> reachable (Store salts s)
| reach_reset s : reachable s -> reachable (Reset s).

(** Sorted by expiry, the earliest at the end, and no salt twice. *)
Record salts_ok (s : Salts) : Prop := {
  so_sorted : StronglySorted not_after s;
  so_nodup : NoDup (map Salt s);
}.

Lemma sublist_map {A B} (f : A -> B) l k : l `sublist_of` k -> map f l `sublist_of` map f k.
Proof. induction 1; simpl; by constructor. Qed.

Lemma salts_ok_sublist s s' : s' `sublist_of` s -> salts_ok s -> salts_ok s'.
Proof.
  intros Hsub [Hs Hd]. split; [|by eapply sublist_NoDup, sublist_map].
  clear Hd. revert Hs. induction Hsub as [|x l k Hlk IH|x l k Hlk IH]; intros Hs; [done| |];
    apply StronglySorted_cons in Hs as [Hx Hs]; [|by apply IH].
  constructor; [by apply IH|]. rewrite Forall_forall in *. intros y Hy. apply Hx. by eapply elem_of_sublist.
Qed.

Lemma Get_sublist date s : snd (Get date s) `sublist_of` s.
Proof.
  rewrite Get_eq. destruct (last s) as [x|]; [|done]. destruct (valid date x); [done|]. apply sublist_filter.
Qed.

Lemma Store_ok salts s : salts_ok (Store salts s).
Proof.
  unfold Store. rewrite filter_in_place_eq. destruct (dedup_spec (s ++ salts) ∅) as (Hd & _ & _).
  split; [apply sort_sorted|].
  eapply NoDup_Permutation_proper; [apply Permutation_map, sort_permutation|done].
Qed.

Lemma salts_reachable_ok s : reachable s -> salts_ok s.
Proof.
  induction 1 as [|date s _ IH|salts s _ _|s _ _].
  - split; constructor.
  - by eapply salts_ok_sublist, IH; apply Get_sublist.
  - apply Store_ok.
  - split; constructor.
Qed.

(** In a sorted store the last entry expires first. *)
Lemma sorted_last s x y :
  StronglySorted not_after s -> last s = Some x -> y ∈ s -> ValidUntil x <= ValidUntil y.
Proof.
  intros Hs Hl Hy. apply last_Some in Hl as [l ->].
  apply elem_of_app in Hy as [Hy|Hy]; [|set_solver].
  apply StronglySorted_app in Hs as (Hs & _ & _). specialize (Hs y x Hy ltac:(set_solver)).
  unfold not_after, Less in Hs. bool_to_prop. lia.
Qed.

Lemma filter_all {A} (P : A -> Prop) `{!forall x, Decision (P x)} (l : list A) :
  (forall x, x ∈ l -> P x) -> filter P l = l.
Proof.
  induction l as [|x l IH]; intros HP; [done|]. rewrite filter_cons, decide_True by (apply HP; by left).
  f_equal. apply IH. intros y Hy. apply HP. by right.
Qed.

(** In every store that is reachable, Get drops exactly the expired salts. *)
Lemma Get_reachable date s :
  reachable s ->
  Get date s = (let s' := filter (fun x => valid date x = true) s in (Some (Salt <$> last s'), s')).
Proof.
  intros Hr. destruct (salts_reachable_ok s Hr) as [Hs _]. rewrite Get_eq.
  destruct (last s) as [x|] eqn:El; [|by apply last_None in El as ->].
  destruct (valid date x) eqn:Ex; [|done]. cbv zeta.
  rewrite (filter_all (fun x => valid date x = true) s); [by rewrite El|]. intros y Hy.
  pose proof (sorted_last s x y Hs El Hy). unfold valid in *. bool_to_prop. apply Z.gtb_lt. lia.
Qed.

(** Whatever was stored, fetched and reset before, Get returns: it fails
    exactly when no stored salt is valid past the deadline, and otherwise
    returns one that is and that expires no later than any other valid one; it
    keeps exactly the valid salts. *)
Theorem salts_get_earliest (s : Salts) (deadline : Z) :
  reachable s ->
  exists r, fst (Get deadline s) = Some r /\
  (forall x, (x ∈ snd (Get deadline s)) <-> x ∈ s /\ ValidUntil x > deadline) /\
  match r with
  | None => forall x, x ∈ s -> ValidUntil x <= deadline
  | Some v => exists x, x ∈ s /\ Salt x = v /\ ValidUntil x > deadline /\
      forall y, y ∈ s -> ValidUntil y > deadline -> ValidUntil x <= ValidUntil y
  end.
Proof.
  intros Hr. pose proof (reach_get deadline s Hr) as Hr'. rewrite (Get_reachable _ _ Hr) in *. simpl in *.
  assert (forall x, (x ∈ filter (fun x => valid deadline x = true) s) <-> x ∈ s /\ ValidUntil x > deadline) as Hin.
  { intros x. rewrite list_elem_of_filter. unfold valid. rewrite Z.gtb_lt. intuition lia. }
  eexists. split; [done|]. split; [done|].
  destruct (last (filter _ s)) as [x|] eqn:El; simpl.
  - pose proof (proj1 (Hin x) (last_Some_elem_of _ _ El)) as [Hx Hv]. exists x. split_and!; try done.
    intros y Hy Hvy. eapply sorted_last; [apply (salts_reachable_ok _ Hr')|done|]. by apply Hin.
  - intros x Hx. apply last_None in El. rewrite El in Hin. destruct (decide (ValidUntil x > deadline)); [|lia].
    exfalso. eapply not_elem_of_nil, Hin. done.
Qed.

(** Store keeps the store sorted and free of duplicates: it holds exactly
    the first entry of each salt, so an entry already stored wins over a new one. *)
Theorem salts_store_first_wins (s : Salts) (salts : list FutureSalt) :
  NoDup (map Salt (Store salts s)) /\ StronglySorted not_after (Store salts s) /\
  (forall x, (x ∈ Store salts s) <-> exists l1 l2, s ++ salts = l1 ++ x :: l2 /\ Salt x ∉ map Salt l1).
Proof.
  destruct (Store_ok salts s) as [Hs Hd]. split_and!; [done|done|]. intros x.
  unfold Store. rewrite filter_in_place_eq, (sort_permutation (filter_state _ _ _)).
  destruct (dedup_spec (s ++ salts) ∅) as (_ & _ & ->). set_solver.
Qed.
End Store.

(** ** An instance of sort.Sort *)

#[export] Instance not_after_dec : RelDecision not_after.
Proof. intros x y. unfold not_after. apply _. Defined.

Definition merge_sort_salts : SortImpl := merge_sort not_after.
#[export] Instance not_after_trans : Transitive not_after.
Proof. intros x y z. unfold not_after, Less. rewrite !Z.gtb_ltb, !Z.ltb_ge. lia. Qed.
#[export] Instance not_after_total : Total not_after.
Proof. intros x y. unfold not_after, Less. rewrite !Z.gtb_ltb, !Z.ltb_ge. lia. Qed.

#[export] Instance merge_sort_lawful : @LawfulSort merge_sort_salts.
Proof.
  split; intros l; unfold sort_Sort, merge_sort_salts; [apply merge_sort_Permutation|].
  apply StronglySorted_merge_sort; apply _.
Qed.

Lemma salts_get_earliest_witness :
  let s := @Store merge_sort_salts [mkSalt 0 100 7; mkSalt 0 50 8; mkSalt 0 200 7; mkSalt 0 80 9] [] in
  Get 60 s = (Some (Some 9), [mkSalt 0 100 7; mkSalt 0 80 9]) /\
  exists r, fst (Get 60 s) = Some r.
Proof.
  intros s. split; [vm_compute; reflexivity|].
  destruct (@salts_get_earliest merge_sort_salts merge_sort_lawful s 60) as (r & Hr & _).
  - apply reach_store, reach_empty.
  - exists r. exact Hr.
Defined.

Lemma salts_store_first_wins_witness :
  let s := [mkSalt 0 100 7] in
  @Store merge_sort_salts [mkSalt 0 200 7; mkSalt 0 300 8] s = [mkSalt 0 300 8; mkSalt 0 100 7] /\
  NoDup (map Salt (@Store merge_sort_salts [mkSalt 0 200 7; mkSalt 0 300 8] s)).
Proof.
  intros s. split; [vm_compute; reflexivity|].
  apply (@salts_store_first_wins merge_sort_salts merge_sort_lawful s).
Defined.
