(* ===== verification/Rpc.v ===== *)
(** * rpc: the engine that pairs requests with their answers

    Model of src/rpc/engine.go and ack.go.  Any number of calls of [Do] and of
    notifications run concurrently: each is a program counter with its local
    variables, one step of it is one access to the shared state (a section under
    the mutex, an atomic operation, a channel operation), and [step] interleaves
    them.  What the code leaves to its environment is the label of the step: what
    send and drop return, the branch a select takes among the ready ones, the
    cancellation of a context.  [None] means that the step is not enabled.

    Identities are indices: a call is its position in [calls], its done channel
    is its [c_done], the channel it makes in waitAck carries its index. *)
From S2P Require Import Prelude.

(** A request; [Decode] is req.Output.Decode on the answer. *)
Record Request : Type := mkRequest { MsgID : Z; SeqNo : Z; Decode : list byte -> option error }.

(** What a callback is called with: a result (b, nil) or an error (nil, err). *)
Definition Answer : Type := list byte + error.

(** resultErr after the callback. *)
Definition answer_result (req : Request) (a : Answer) : option error :=
  match a with inl b => Decode req b | inr e => Some e end.

(** Where a call of Do is. *)
Inductive pc : Type :=
| PStart                                    (* before the first lock *)
| PRegister                                 (* e.rpc[req.MsgID] = handler *)
| PWaitAck                                  (* ackChan = e.waitAck(req.MsgID) *)
| PSend (ackChan : nat)                     (* the first e.send *)
| PLoop (ackChan : nat) (retries : Z)       (* the select of retryUntilAck *)
| PResend (ackChan : nat) (retries : Z)     (* e.send after the timer fired *)
| PRemoveAck (sent : bool) (err : option error)
| PCheck (sent : bool) (err : option error) (* err != nil && !errors.Is(err, retryCtx.Err()) *)
| PSelect (sent : bool)                     (* the select of Do *)
| PSetNop                                   (* e.rpc[req.MsgID] = nop *)
| PDrop                                     (* e.drop(req) *)
| PDelete (res : option error)              (* deferred delete(e.rpc, req.MsgID) *)
| PFinish (res : option error)              (* deferred retryClose and e.wg.Done *)
| PReturned (res : option error).

(** A call of Do.  [c_ctx], [c_retry] and [c_inner] are the errors of the
    caller's context, of retryCtx and of the context of retryUntilAck.  [c_sends]
    and [c_got] record the sends and the answers the callback accepted, [c_fail]
    what the last send returned and [c_seen] the retryCtx.Err() that the error of
    retryUntilAck was compared with. *)
Record Call : Type := mkCall {
  c_req : Request; c_pc : pc;
  c_ctx : option error; c_retry : option error; c_inner : option error;
  c_handlerCalled : bool; c_result : option error; c_done : bool;
  c_sends : Z; c_got : list Answer; c_fail : option error; c_seen : option error }.

Definition new_call (req : Request) : Call := mkCall req PStart None None None false None false 0 [] None None.
Definition goto (p : pc) (c : Call) : Call :=
  mkCall (c_req c) p (c_ctx c) (c_retry c) (c_inner c) (c_handlerCalled c) (c_result c) (c_done c)
         (c_sends c) (c_got c) (c_fail c) (c_seen c).
Definition count_send (err : option error) (c : Call) : Call :=
  mkCall (c_req c) (c_pc c) (c_ctx c) (c_retry c) (c_inner c) (c_handlerCalled c) (c_result c) (c_done c)
         (c_sends c + 1) (c_got c) err (c_seen c).
Definition set_ctx (v : option error) (c : Call) : Call :=
  mkCall (c_req c) (c_pc c) v (c_retry c) (c_inner c) (c_handlerCalled c) (c_result c) (c_done c)
         (c_sends c) (c_got c) (c_fail c) (c_seen c).
Definition set_retry (v : option error) (c : Call) : Call :=
  mkCall (c_req c) (c_pc c) (c_ctx c) v (c_inner c) (c_handlerCalled c) (c_result c) (c_done c)
         (c_sends c) (c_got c) (c_fail c) (c_seen c).
Definition set_inner (v : option error) (c : Call) : Call :=
  mkCall (c_req c) (c_pc c) (c_ctx c) (c_retry c) v (c_handlerCalled c) (c_result c) (c_done c)
         (c_sends c) (c_got c) (c_fail c) (c_seen c).
Definition set_called (c : Call) : Call :=
  mkCall (c_req c) (c_pc c) (c_ctx c) (c_retry c) (c_inner c) true (c_result c) (c_done c)
         (c_sends c) (c_got c) (c_fail c) (c_seen c).
Definition set_result (a : Answer) (c : Call) : Call :=
  mkCall (c_req c) (c_pc c) (c_ctx c) (c_retry c) (c_inner c) (c_handlerCalled c)
         (answer_result (c_req c) a) (c_done c) (c_sends c) (c_got c ++ [a]) (c_fail c) (c_seen c).
Definition set_done (c : Call) : Call :=
  mkCall (c_req c) (c_pc c) (c_ctx c) (c_retry c) (c_inner c) (c_handlerCalled c) (c_result c) true
         (c_sends c) (c_got c) (c_fail c) (c_seen c).
Definition see_retry (c : Call) : Call :=
  mkCall (c_req c) (c_pc c) (c_ctx c) (c_retry c) (c_inner c) (c_handlerCalled c) (c_result c) (c_done c)
         (c_sends c) (c_got c) (c_fail c) (c_retry c).

(** A callback in e.rpc: the handler of a call, or the nop it put there. *)
Inductive Handler : Type := HDo (k : nat) | HNop (k : nat).

(** A notification that has taken its callback from e.rpc and runs it. *)
Inductive ipc : Type :=
| ICall                                     (* CompareAndSwap(&handlerCalled, 0, 1) *)
| IBody                                     (* resultErr = ... *)
| ICloseDone                                (* deferred close(done) *)
| IRetryClose                               (* deferred retryClose() *)
| IReturned (err : option error).
Record Notif : Type := mkNotif { n_msg : Z; n_handler : Handler; n_answer : Answer; n_pc : ipc }.

Record Engine : Type := mkEngine {
  closed : bool; wg : Z; reqCancelled : bool; panicked : bool;
  rpc : gmap Z Handler; ack : gmap Z nat; ackClosed : gset nat;
  calls : list Call; notifs : list Notif; notified : list (Z * Answer) }.

Definition New : Engine := mkEngine false 0 false false ∅ ∅ ∅ [] [] [].

Definition set_call (k : nat) (c : Call) (s : Engine) : Engine :=
  mkEngine (closed s) (wg s) (reqCancelled s) (panicked s) (rpc s) (ack s) (ackClosed s)
           (<[k := c]> (calls s)) (notifs s) (notified s).
Definition set_wg (v : Z) (s : Engine) : Engine :=
  mkEngine (closed s) v (reqCancelled s) (panicked s) (rpc s) (ack s) (ackClosed s)
           (calls s) (notifs s) (notified s).
Definition set_rpc (v : gmap Z Handler) (s : Engine) : Engine :=
  mkEngine (closed s) (wg s) (reqCancelled s) (panicked s) v (ack s) (ackClosed s)
           (calls s) (notifs s) (notified s).
Definition set_ack (v : gmap Z nat) (s : Engine) : Engine :=
  mkEngine (closed s) (wg s) (reqCancelled s) (panicked s) (rpc s) v (ackClosed s)
           (calls s) (notifs s) (notified s).
Definition close_ack (ch : nat) (s : Engine) : Engine :=
  mkEngine (closed s) (wg s) (reqCancelled s) (panicked s || bool_decide (ch ∈ ackClosed s))
           (rpc s) (ack s) ({[ch]} ∪ ackClosed s) (calls s) (notifs s) (notified s).
Definition set_notif (i : nat) (n : Notif) (s : Engine) : Engine :=
  mkEngine (closed s) (wg s) (reqCancelled s) (panicked s) (rpc s) (ack s) (ackClosed s)
           (calls s) (<[i := n]> (notifs s)) (notified s).

(** ** ack.go *)

Definition waitAck (k : nat) (id : Z) (s : Engine) : nat * Engine :=
  match ack s !! id with
  | Some c => (c, s)
  | None => (k, set_ack (<[id := k]> (ack s)) s)
  end.

Definition removeAck (id : Z) (s : Engine) : Engine := set_ack (delete id (ack s)) s.

Definition NotifyAcks (ids : list Z) (s : Engine) : Engine :=
  fold_left (fun s id =>
    match ack s !! id with
    | None => s
    | Some ch => let s := close_ack ch s in set_ack (delete id (ack s)) s
    end) ids s.

(** ** engine.go *)

(** What the environment decides in a step of a call. *)
Inductive Choice : Type :=
| ChNext                           (* the only way to go on *)
| ChReturns (err : option error)   (* send or drop returns *)
| ChCtxDone                        (* <-ctx.Done() *)
| ChReqDone                        (* <-e.reqCtx.Done() *)
| ChAck                            (* <-ackChan *)
| ChTimer                          (* <-timer.C() *)
| ChDone.                          (* <-done *)

Section Engine.
Context (maxRetries : Z).

Definition forciblyClosed : string := "engine forcibly closed".

(** One step of retryUntilAck. *)
Definition retryUntilAck_step (k : nat) (c : Call) (ch : Choice) (s : Engine) : option Engine :=
  let go (p : pc) := Some (set_call k (goto p c) s) in
  match c_pc c, ch with
  | PWaitAck, ChNext =>
      let '(ackChan, s) := waitAck k (MsgID (c_req c)) s in
      Some (set_call k (goto (PSend ackChan) c) s)
  | PSend ackChan, ChReturns err =>
      match err with
      | Some e => Some (set_call k (goto (PRemoveAck false (Some (Wrap e "send"))) (count_send err c)) s)
      | None => Some (set_call k (goto (PLoop ackChan 0) (count_send err c)) s)
      end
  | PLoop _ _, ChCtxDone =>
      match c_inner c with
      | Some e => go (PRemoveAck true (Some e))
      | None => None
      end
  | PLoop ackChan _, ChReqDone =>
      if reqCancelled s then
        if decide (ackChan ∈ ackClosed s) then go (PRemoveAck true None)
        else go (PRemoveAck true (Some (Wrap ErrEngineClosed forciblyClosed)))
      else None
  | PLoop ackChan _, ChAck =>
      if decide (ackChan ∈ ackClosed s) then go (PRemoveAck true None) else None
  | PLoop ackChan retries, ChTimer => go (PResend ackChan retries)
  | PResend ackChan retries, ChReturns err =>
      match err with
      | Some e =>
          if Is e Canceled then Some (set_call k (goto (PRemoveAck true None) (count_send err c)) s)
          else Some (set_call k (goto (PRemoveAck true (Some e)) (count_send err c)) s)
      | None =>
          let retries := retries + 1 in
          if retries >=? maxRetries
          then Some (set_call k (goto (PRemoveAck true (Some (RetryLimitReachedErr retries))) (count_send err c)) s)
          else Some (set_call k (goto (PLoop ackChan retries) (count_send err c)) s)
      end
  | PRemoveAck sent err, ChNext => Some (set_call k (goto (PCheck sent err) c) (removeAck (MsgID (c_req c)) s))
  | _, _ => None
  end.

(** errors.Is(err, retryCtx.Err()); no error is a nil error. *)
Definition is_retry_err (c : Call) (e : error) : bool :=
  match c_retry c with Some t => Is e t | None => false end.

(** One step of Do. *)
Definition Do_step (k : nat) (ch : Choice) (s : Engine) : option Engine :=
  match calls s !! k with
  | None => None
  | Some c =>
      let go (p : pc) := Some (set_call k (goto p c) s) in
      match c_pc c, ch with
      | PStart, ChNext =>
          if closed s then go (PReturned (Some ErrEngineClosed))
          else Some (set_wg (wg s + 1) (set_call k (goto PRegister c) s))
      | PRegister, ChNext =>
          Some (set_rpc (<[MsgID (c_req c) := HDo k]> (rpc s)) (set_call k (goto PWaitAck c) s))
      | PCheck sent err, ChNext =>
          match err with
          | Some e =>
              if is_retry_err c e then go (PSelect sent)
              else Some (set_call k (goto (PDelete (Some (Wrap e "retryUntilAck"))) (see_retry c)) s)
          | None => go (PSelect sent)
          end
      | PSelect sent, ChCtxDone =>
          match c_ctx c with
          | Some e => if sent then go PSetNop else go (PDelete (Some e))
          | None => None
          end
      | PSelect _, ChReqDone =>
          if reqCancelled s then
            if c_done c then go (PDelete (c_result c))
            else go (PDelete (Some (Wrap Canceled forciblyClosed)))
          else None
      | PSelect _, ChDone => if c_done c then go (PDelete (c_result c)) else None
      | PSetNop, ChNext =>
          Some (set_rpc (<[MsgID (c_req c) := HNop k]> (rpc s)) (set_call k (goto PDrop c) s))
      | PDrop, ChReturns _ => go (PDelete (c_ctx c))
      | PDelete res, ChNext =>
          Some (set_rpc (delete (MsgID (c_req c)) (rpc s)) (set_call k (goto (PFinish res) c) s))
      | PFinish res, ChNext =>
          let c := set_retry (Some (default Canceled (c_retry c))) c in
          Some (set_wg (wg s - 1) (set_call k (goto (PReturned res) c) s))
      | _, _ => retryUntilAck_step k c ch s
      end
  end.

(** NotifyResult and NotifyError up to the call of the callback. *)
Definition Notify (msgID : Z) (a : Answer) (s : Engine) : Engine :=
  let log := notified s ++ [(msgID, a)] in
  match rpc s !! msgID with
  | None => mkEngine (closed s) (wg s) (reqCancelled s) (panicked s) (rpc s) (ack s) (ackClosed s)
                     (calls s) (notifs s) log
  | Some fn => mkEngine (closed s) (wg s) (reqCancelled s) (panicked s) (rpc s) (ack s) (ackClosed s)
                        (calls s) (notifs s ++ [mkNotif msgID fn a ICall]) log
  end.

Definition goto_notif (p : ipc) (n : Notif) : Notif := mkNotif (n_msg n) (n_handler n) (n_answer n) p.

(** One step of the callback. *)
Definition handler_step (i : nat) (s : Engine) : option Engine :=
  match notifs s !! i with
  | None => None
  | Some n =>
      match n_handler n with
      | HNop _ =>
          match n_pc n with
          | ICall => Some (set_notif i (goto_notif (IReturned None) n) s)
          | _ => None
          end
      | HDo k =>
          match calls s !! k with
          | None => None
          | Some c =>
              match n_pc n with
              | ICall =>
                  if c_handlerCalled c
                  then Some (set_notif i (goto_notif (IReturned (Some (Errorf "handler already called"))) n) s)
                  else Some (set_notif i (goto_notif IBody n) (set_call k (set_called c) s))
              | IBody => Some (set_notif i (goto_notif ICloseDone n) (set_call k (set_result (n_answer n) c) s))
              | ICloseDone =>
                  if c_done c
                  then Some (mkEngine (closed s) (wg s) (reqCancelled s) true (rpc s) (ack s) (ackClosed s)
                                      (calls s) (notifs s) (notified s))
                  else Some (set_notif i (goto_notif IRetryClose n) (set_call k (set_done c) s))
              | IRetryClose =>
                  let err := match n_answer n with inl _ => c_result c | inr _ => None end in
                  Some (set_notif i (goto_notif (IReturned err) n)
                          (set_call k (set_retry (Some (default Canceled (c_retry c))) c) s))
              | IReturned _ => None
              end
          end
      end
  end.

Inductive Label : Type :=
| LDo (req : Request)                       (* a goroutine calls Do *)
| LCall (k : nat) (ch : Choice)             (* a step of a call *)
| LCancel (k : nat) (e : error)             (* the caller's context ends *)
| LRetryCtx (k : nat)                       (* ... which reaches retryCtx *)
| LInnerCtx (k : nat)                       (* ... and the context of retryUntilAck *)
| LNotify (msgID : Z) (a : Answer)          (* NotifyResult or NotifyError *)
| LHandler (i : nat)                        (* a step of a callback *)
| LAcks (ids : list Z)                      (* NotifyAcks *)
| LClose                                    (* Close, up to wg.Wait *)
| LReqCancel.                               (* e.reqCancel(ErrEngineClosed) of ForceClose *)

Definition update_call (k : nat) (f : Call -> option Call) (s : Engine) : option Engine :=
  c ← calls s !! k; c' ← f c; Some (set_call k c' s).

Definition step (l : Label) (s : Engine) : option Engine :=
  match l with
  | LDo req => Some (mkEngine (closed s) (wg s) (reqCancelled s) (panicked s) (rpc s) (ack s) (ackClosed s)
                              (calls s ++ [new_call req]) (notifs s) (notified s))
  | LCall k ch => Do_step k ch s
  | LCancel k e =>
      update_call k (fun c =>
        if bool_decide (c_ctx c = None) && bool_decide (e = Canceled \/ e = DeadlineExceeded)
        then Some (set_ctx (Some e) c) else None) s
  | LRetryCtx k =>
      update_call k (fun c =>
        match c_ctx c, c_retry c with Some e, None => Some (set_retry (Some e) c) | _, _ => None end) s
  | LInnerCtx k =>
      update_call k (fun c =>
        match c_retry c, c_inner c with Some e, None => Some (set_inner (Some e) c) | _, _ => None end) s
  | LNotify msgID a => Some (Notify msgID a s)
  | LHandler i => handler_step i s
  | LAcks ids => Some (NotifyAcks ids s)
  | LClose => Some (mkEngine true (wg s) (reqCancelled s) (panicked s) (rpc s) (ack s) (ackClosed s)
                             (calls s) (notifs s) (notified s))
  | LReqCancel => Some (mkEngine (closed s) (wg s) true (panicked s) (rpc s) (ack s) (ackClosed s)
                                 (calls s) (notifs s) (notified s))
  end.

(** A panic stops the program. *)
Definition run_step (l : Label) (s : Engine) : option Engine := if panicked s then None else step l s.

Fixpoint run (ls : list Label) (s : Engine) : option Engine :=
  match ls with
  | [] => Some s
  | l :: ls => s' ← run_step l s; run ls s'
  end.

(** The engines that executions from [s] produce. *)
Inductive reaches (s : Engine) : Engine -> Prop :=
| reaches_refl : reaches s s
| reaches_step l s1 s2 : reaches s s1 -> run_step l s1 = Some s2 -> reaches s s2.

Definition reachable : Engine -> Prop := reaches New.

(** ** The invariant *)

Definition handler_call (h : Handler) : nat := match h with HDo k | HNop k => k end.

(** The calls that e.wg counts. *)
Definition active (p : pc) : bool := match p with PStart | PReturned _ => false | _ => true end.

Definition returned (p : pc) : bool := match p with PReturned _ => true | _ => false end.

(** The calls whose callback may be in e.rpc. *)
Definition registered (p : pc) : bool :=
  match p with PStart | PRegister | PFinish _ | PReturned _ => false | _ => true end.

(** The calls whose channel may be in e.ack. *)
Definition awaiting (p : pc) : bool :=
  match p with PSend _ | PLoop _ _ | PResend _ _ | PRemoveAck _ _ => true | _ => false end.

(** The calls that may have made their channel. *)
Definition past_wait (p : pc) : bool :=
  match p with PStart | PRegister | PWaitAck => false | _ => true end.

Definition count_active (l : list Call) : Z := foldr (fun c n => Z.b2z (active (c_pc c)) + n) 0 l.

Definition max_resends : Z := Z.max 1 maxRetries.

Definition sends_ok (p : pc) (n : Z) : Prop :=
  match p with
  | PStart | PRegister | PWaitAck | PSend _ => n = 0
  | PLoop _ r | PResend _ r => n = r + 1 /\ 0 <= r < max_resends
  | _ => 0 <= n <= max_resends + 1
  end.

(** What retryUntilAck can fail with, apart from the end of its context: the first
    send failed; a later one failed, and not because of a cancellation; the engine
    was closed by force; or the retry limit was reached. *)
Inductive retry_cause (cancelled : bool) (c : Call) : error -> Prop :=
| cause_send e : c_fail c = Some e -> c_sends c = 1 -> retry_cause cancelled c (Wrap e "send")
| cause_resend e : c_fail c = Some e -> 2 <= c_sends c -> Is e Canceled = false -> retry_cause cancelled c e
| cause_forced : cancelled = true -> 1 <= c_sends c -> retry_cause cancelled c (Wrap ErrEngineClosed forciblyClosed)
| cause_limit n : maxRetries <= n -> c_sends c = n + 1 -> retry_cause cancelled c (RetryLimitReachedErr n).

(** What a call can return: the answer of its callback, or an error that says why
    there is none.  An error of retryUntilAck is returned when it is not the one
    that retryCtx had at the comparison. *)
Inductive result_ok (cancelled : bool) (c : Call) : option error -> Prop :=
| res_answer a : c_done c = true -> c_got c = [a] -> result_ok cancelled c (answer_result (c_req c) a)
| res_closed : c_sends c = 0 -> result_ok cancelled c (Some ErrEngineClosed)
| res_ctx e : c_ctx c = Some e -> result_ok cancelled c (Some e)
| res_forced : cancelled = true -> result_ok cancelled c (Some (Wrap Canceled forciblyClosed))
| res_retry e : retry_cause cancelled c e -> (forall t, c_seen c = Some t -> Is e t = false) ->
    result_ok cancelled c (Some (Wrap e "retryUntilAck")).

Lemma Is_refl e : Is e e = true.
Proof. assert (bool_decide (e = e) = true) as H by (by apply bool_decide_eq_true). destruct e; cbn [Is]; by rewrite H. Qed.

Definition pc_ok (cancelled : bool) (c : Call) : Prop :=
  match c_pc c with
  | PRemoveAck _ (Some e) | PCheck _ (Some e) => retry_cause cancelled c e \/ c_inner c = Some e
  | PSetNop | PDrop => is_Some (c_ctx c)
  | PDelete res | PFinish res | PReturned res => result_ok cancelled c res
  | _ => True
  end.

(** The callback of a call ran at most once, on an answer for its message. *)
Record handled_ok (log : list (Z * Answer)) (c : Call) : Prop := {
  ho_not_called : c_handlerCalled c = false -> c_got c = [] /\ c_done c = false;
  ho_done : c_done c = true -> exists a, c_got c = [a] /\ c_result c = answer_result (c_req c) a;
  ho_logged a : a ∈ c_got c -> (MsgID (c_req c), a) ∈ log;
  ho_once : (length (c_got c) <= 1)%nat;
}.

Record call_ok (s : Engine) (c : Call) : Prop := {
  co_handled : handled_ok (notified s) c;
  co_inner e : c_inner c = Some e -> c_retry c = Some e;
  co_retry : is_Some (c_retry c) -> is_Some (c_ctx c) \/ c_done c = true \/ returned (c_pc c) = true;
  co_sends : sends_ok (c_pc c) (c_sends c);
  co_pc : pc_ok (reqCancelled s) c;
}.

(** Whether a notification is inside the callback of a call, before close(done). *)
Definition in_handler (n : Notif) : option nat :=
  match n_handler n, n_pc n with
  | HDo k, (IBody | ICloseDone) => Some k
  | _, _ => None
  end.

(** What a notification inside the callback of call [c] relies on. *)
Definition handler_ok (n : Notif) (c : Call) : Prop :=
  match n_handler n, n_pc n with
  | HDo _, IBody => c_handlerCalled c = true /\ c_done c = false /\ c_got c = []
  | HDo _, ICloseDone => c_handlerCalled c = true /\ c_done c = false /\ c_got c = [n_answer n] /\
                         c_result c = answer_result (c_req c) (n_answer n)
  | HDo _, IRetryClose => c_done c = true
  | _, _ => True
  end.

Definition notif_ok (s : Engine) (n : Notif) : Prop :=
  ((n_msg n, n_answer n) ∈ notified s) /\
  exists c, calls s !! handler_call (n_handler n) = Some c /\ MsgID (c_req c) = n_msg n /\ handler_ok n c.

Record engine_ok (s : Engine) : Prop := {
  eo_rpc m h : rpc s !! m = Some h ->
    exists c, calls s !! handler_call h = Some c /\ MsgID (c_req c) = m /\ registered (c_pc c) = true;
  eo_ack m ch : ack s !! m = Some ch ->
    (ch ∉ ackClosed s) /\
    exists c, calls s !! ch = Some c /\ MsgID (c_req c) = m /\ awaiting (c_pc c) = true;
  eo_ackClosed ch : ch ∈ ackClosed s ->
    exists c, calls s !! ch = Some c /\ past_wait (c_pc c) = true;
  eo_call k c : calls s !! k = Some c -> call_ok s c;
  eo_notif i n : notifs s !! i = Some n -> notif_ok s n;
  eo_unique i j n1 n2 k :
    notifs s !! i = Some n1 -> notifs s !! j = Some n2 ->
    in_handler n1 = Some k -> in_handler n2 = Some k -> i = j;
  eo_wg : wg s = count_active (calls s);
  eo_panic : panicked s = false;
}.

(** ** Preservation *)

Lemma count_active_insert l k c c' :
  l !! k = Some c ->
  count_active (<[k := c']> l) + Z.b2z (active (c_pc c)) = count_active l + Z.b2z (active (c_pc c')).
Proof.
  revert k. induction l as [|x l IH]; intros [|k] Hk; simplify_eq/=; [lia|].
  specialize (IH k Hk). lia.
Qed.

Lemma count_active_nonneg l : 0 <= count_active l.
Proof. induction l as [|c l IH]; simpl; [lia|]. destruct (active (c_pc c)); simpl; lia. Qed.

Lemma count_active_pos l k c : l !! k = Some c -> active (c_pc c) = true -> 0 < count_active l.
Proof.
  revert k. induction l as [|x l IH]; intros [|k] Hk Ha; simplify_eq/=.
  - pose proof (count_active_nonneg l). rewrite Ha. simpl. lia.
  - specialize (IH k Hk Ha). destruct (active (c_pc x)); simpl; lia.
Qed.

Lemma lookup_insert_case {A} (l : list A) k j (x y : A) :
  <[k := x]> l !! j = Some y -> (j = k /\ y = x) \/ (j <> k /\ l !! j = Some y).
Proof. rewrite list_lookup_insert_Some. naive_solver. Qed.

(** A property of a call that the update keeps can be looked up after it. *)
Lemma lookup_update (P : Call -> Prop) (l : list Call) (k : nat) c c' j :
  l !! k = Some c -> (j = k -> P c -> P c') ->
  (exists x, l !! j = Some x /\ P x) -> exists x, <[k := c']> l !! j = Some x /\ P x.
Proof.
  intros Hk HP (x & Hj & Hx). destruct (decide (j = k)) as [->|].
  - exists c'. rewrite list_lookup_insert_eq by (by eapply lookup_lt_Some). split; [done|].
    simplify_eq. by apply HP.
  - exists x. by rewrite list_lookup_insert_ne.
Qed.

(** The part of a call that its callback reads and writes. *)
Definition same_handled (c c' : Call) : Prop :=
  c_req c' = c_req c /\ c_handlerCalled c' = c_handlerCalled c /\ c_result c' = c_result c /\
  c_done c' = c_done c /\ c_got c' = c_got c.

Lemma handled_ok_same log c c' : same_handled c c' -> handled_ok log c -> handled_ok log c'.
Proof.
  intros (Hr & Hc & Hs & Hd & Hg) [H1 H2 H3 H4]. split; rewrite ?Hr, ?Hc, ?Hs, ?Hd, ?Hg; auto.
Qed.

(** A step of a call that leaves the callbacks alone. *)
Lemma engine_ok_move s k c c' rpc' ack' wg' :
  engine_ok s -> calls s !! k = Some c -> same_handled c c' ->
  (call_ok s c -> call_ok s c') ->
  (forall m h, rpc' !! m = Some h ->
     rpc s !! m = Some h /\
       (handler_call h = k -> m = MsgID (c_req c) -> registered (c_pc c) = true -> registered (c_pc c') = true) \/
     handler_call h = k /\ m = MsgID (c_req c) /\ registered (c_pc c') = true) ->
  (forall m ch, ack' !! m = Some ch ->
     ack s !! m = Some ch /\
       (ch = k -> m = MsgID (c_req c) -> awaiting (c_pc c) = true -> awaiting (c_pc c') = true) \/
     ch = k /\ (ch ∉ ackClosed s) /\ m = MsgID (c_req c) /\ awaiting (c_pc c') = true) ->
  (past_wait (c_pc c) = true -> past_wait (c_pc c') = true) ->
  wg' + Z.b2z (active (c_pc c)) = wg s + Z.b2z (active (c_pc c')) ->
  engine_ok (mkEngine (closed s) wg' (reqCancelled s) (panicked s) rpc' ack' (ackClosed s)
                      (<[k := c']> (calls s)) (notifs s) (notified s)).
Proof.
  intros [Hrpc Hack Hcl Hcall Hnot Huniq Hwg Hpan] Hk Hsame Hok Hrpc' Hack' Hpast Hwg'.
  pose proof Hsame as (Hreq & Hcalled & Hres & Hdone & Hgot).
  assert (Hin : <[k := c']> (calls s) !! k = Some c')
    by (apply list_lookup_insert_eq; by eapply lookup_lt_Some).
  split; simpl.
  - intros m h [[Hm Hreg]|(<- & -> & Hreg)]%Hrpc'.
    + apply (lookup_update (fun x => MsgID (c_req x) = m /\ registered (c_pc x) = true) _ _ c); [done| |by apply Hrpc].
      rewrite Hreq. naive_solver.
    + exists c'. by rewrite Hreq.
  - intros m ch [[Hm Haw]|(-> & Hnc & -> & Haw)]%Hack'.
    + destruct (Hack m ch Hm) as [Hnc Hex]. split; [done|].
      apply (lookup_update (fun x => MsgID (c_req x) = m /\ awaiting (c_pc x) = true) _ _ c); [done| |done].
      rewrite Hreq. naive_solver.
    + split; [done|]. exists c'. by rewrite Hreq.
  - intros ch Hch%Hcl. by apply (lookup_update (fun x => past_wait (c_pc x) = true) _ _ c).
  - intros j x [[-> ->]|[_ Hj]]%lookup_insert_case.
    + destruct (Hok (Hcall k c Hk)). by split.
    + destruct (Hcall j x Hj). by split.
  - intros i n Hn. destruct (Hnot i n Hn) as [Hlog Hex]. split; [done|].
    eapply (lookup_update _ _ _ c); [done| |apply Hex]. unfold handler_ok.
    by rewrite Hreq, Hcalled, Hres, Hdone, Hgot.
  - done.
  - pose proof (count_active_insert (calls s) k c c' Hk). lia.
  - done.
Qed.

(** A call that has moved to [p], after [n] more sends. *)
Definition moved (p : pc) (n : Z) (f t : option error) (c : Call) : Call :=
  mkCall (c_req c) p (c_ctx c) (c_retry c) (c_inner c) (c_handlerCalled c) (c_result c) (c_done c)
         (c_sends c + n) (c_got c) f t.

(** It keeps its invariant. *)
Lemma call_ok_goto s c p n f t :
  call_ok s c ->
  (returned (c_pc c) = true -> returned p = true) ->
  sends_ok p (c_sends c + n) ->
  pc_ok (reqCancelled s) (moved p n f t c) ->
  call_ok s (moved p n f t c).
Proof.
  intros [Hh Hi Hr _ _] Ha Hs Hp. split; simpl; auto.
  - by eapply handled_ok_same, Hh.
  - intros [|[]]%Hr; auto.
Qed.

(** The cause of an error stays one when the call goes on. *)
Lemma retry_cause_mono b b' c c' e :
  retry_cause b c e -> (b = true -> b' = true) -> c_sends c' = c_sends c -> c_fail c' = c_fail c ->
  retry_cause b' c' e.
Proof. intros H Hb Hs Hf. destruct H; [apply cause_send|apply cause_resend|apply cause_forced|apply cause_limit]; rewrite ?Hs, ?Hf; auto. Qed.

(** The results of a call depend on what its callback did and on its context. *)
Lemma result_ok_mono b b' c c' res :
  result_ok b c res -> (b = true -> b' = true) -> c_req c' = c_req c -> c_sends c' = c_sends c ->
  c_fail c' = c_fail c -> c_seen c' = c_seen c ->
  (c_done c = true -> c_done c' = true /\ c_got c' = c_got c) ->
  (forall e, c_ctx c = Some e -> c_ctx c' = Some e) -> result_ok b' c' res.
Proof.
  intros H Hb Hr Hs Hf Ht Hd Hx. destruct H; rewrite <- ?Hr; try (by constructor; auto).
  - destruct Hd as [? Hg]; [done|]. constructor; [done|]. by rewrite Hg.
  - constructor. by rewrite Hs.
  - constructor; [by eapply retry_cause_mono|by rewrite Ht].
Qed.

Lemma result_ok_answer b c a res :
  c_done c = true -> c_got c = [a] -> res = answer_result (c_req c) a -> result_ok b c res.
Proof. intros ?? ->. by apply res_answer. Qed.

Lemma goto_moved p c : goto p c = moved p 0 (c_fail c) (c_seen c) c.
Proof. unfold goto, moved. by rewrite Z.add_0_r. Qed.

Lemma goto_seen p c : goto p (see_retry c) = moved p 0 (c_fail c) (c_retry c) c.
Proof. unfold goto, moved. simpl. by rewrite Z.add_0_r. Qed.

(** A step that only moves the call. *)
Lemma engine_ok_goto s k c p n f t :
  engine_ok s -> calls s !! k = Some c ->
  (registered (c_pc c) = true -> registered p = true) ->
  (awaiting (c_pc c) = true -> awaiting p = true) ->
  (past_wait (c_pc c) = true -> past_wait p = true) ->
  active (c_pc c) = active p ->
  (returned (c_pc c) = true -> returned p = true) ->
  (sends_ok (c_pc c) (c_sends c) -> sends_ok p (c_sends c + n)) ->
  (call_ok s c -> pc_ok (reqCancelled s) (moved p n f t c)) ->
  engine_ok (set_call k (moved p n f t c) s).
Proof.
  intros Hok Hk Hreg Haw Hpast Hact Hret Hs Hp. apply (engine_ok_move s k c); simpl; auto.
  - by repeat split.
  - intros Hc. apply call_ok_goto; [done|done|apply Hs, Hc|by apply Hp].
  - by rewrite Hact.
Qed.

Ltac only_moves :=
  lazymatch goal with
  | Hok : engine_ok ?s, Hk : calls ?s !! ?k = Some ?c |- engine_ok (set_call ?k (goto ?p (count_send ?f ?c)) ?s) =>
      apply (engine_ok_goto s k c p 1 f (c_seen c) Hok Hk)
  | Hok : engine_ok ?s, Hk : calls ?s !! ?k = Some ?c |- engine_ok (set_call ?k (goto ?p (see_retry ?c)) ?s) =>
      rewrite (goto_seen p c); apply (engine_ok_goto s k c p 0 (c_fail c) (c_retry c) Hok Hk)
  | Hok : engine_ok ?s, Hk : calls ?s !! ?k = Some ?c |- engine_ok (set_call ?k (goto ?p ?c) ?s) =>
      rewrite (goto_moved p c); apply (engine_ok_goto s k c p 0 (c_fail c) (c_seen c) Hok Hk)
  end;
  unfold pc_ok;
  try match goal with H : c_pc _ = _ |- _ => rewrite H end; simpl; try done; unfold max_resends; try lia.

Lemma waitAck_ok s k c :
  engine_ok s -> calls s !! k = Some c -> c_pc c = PWaitAck ->
  let '(ackChan, s1) := waitAck k (MsgID (c_req c)) s in
  engine_ok (set_call k (goto (PSend ackChan) c) s1).
Proof.
  intros Hok Hk Hpc. unfold waitAck. destruct (ack s !! MsgID (c_req c)) as [ch|] eqn:Ha; [only_moves|].
  apply (engine_ok_move s k c); simpl; rewrite ?Hpc; try done.
  - intros Hc. rewrite goto_moved. apply call_ok_goto; rewrite ?Hpc; try done.
    apply co_sends in Hc. rewrite Hpc in Hc. simpl in *. lia.
  - intros m h Hm. left. by split.
  - intros m ch. rewrite lookup_insert_Some. intros [[<- <-]|[Hne Hm]]; [right|by left].
    split_and!; try done. intros (x & Hx & Hp)%(eo_ackClosed s Hok). simplify_eq. by rewrite Hpc in Hp.
Qed.

Lemma removeAck_ok s k c sent err :
  engine_ok s -> calls s !! k = Some c -> c_pc c = PRemoveAck sent err ->
  engine_ok (set_call k (goto (PCheck sent err) c) (removeAck (MsgID (c_req c)) s)).
Proof.
  intros Hok Hk Hpc. apply (engine_ok_move s k c); simpl; rewrite ?Hpc; try done.
  - intros Hc. rewrite goto_moved. apply call_ok_goto; rewrite ?Hpc; try done.
    { apply co_sends in Hc. rewrite Hpc in Hc. simpl in *. lia. }
    apply co_pc in Hc. unfold pc_ok in *. rewrite Hpc in Hc. simpl. destruct err as [e|]; [|done].
    destruct Hc as [Hc|Hc]; [left|by right]. eapply retry_cause_mono; [exact Hc|done|simpl; lia|done].
  - intros m h Hm. left. by split.
  - intros m ch. rewrite lookup_delete_Some. intros [Hne Hm]. left. by split.
Qed.

Lemma retryUntilAck_step_ok s k c ch s' :
  engine_ok s -> calls s !! k = Some c -> retryUntilAck_step k c ch s = Some s' -> engine_ok s'.
Proof.
  intros Hok Hk. unfold retryUntilAck_step.
  pose proof (co_sends s c (eo_call s Hok k c Hk)) as Hs. unfold sends_ok in Hs.
  destruct (c_pc c) eqn:Hpc, ch; try done.
  - pose proof (waitAck_ok s k c Hok Hk Hpc) as Hw. destruct (waitAck _ _ _) as [ackChan s1]. by intros [= <-].
  - destruct err; intros [= <-]; only_moves. intros _. left. apply cause_send; simpl; [done|lia].
  - destruct (c_inner c) eqn:Hi; intros [= <-]; only_moves. intros _. by right.
  - destruct (reqCancelled s) eqn:Hrc; [|done]. destruct (decide _); intros [= <-]; only_moves.
    intros _. left. apply cause_forced; simpl; [done|lia].
  - destruct (decide _); intros [= <-]; only_moves.
  - intros [= <-]; only_moves.
  - destruct err as [e|]; [destruct (Is e Canceled) eqn:He|]; [intros [= <-]; only_moves..|].
    + intros _. left. apply cause_resend; simpl; [done|lia|done].
    + destruct (Z.geb_spec (retries + 1) maxRetries); intros [= <-]; only_moves.
      intros _. left. apply cause_limit; simpl; lia.
  - intros [= <-]. by apply removeAck_ok.
Qed.

(** A step that moves the call and changes the callbacks or the wait group. *)
Lemma engine_ok_goto_rpc s k c p rpc' wg' :
  engine_ok s -> calls s !! k = Some c ->
  (forall m h, rpc' !! m = Some h ->
     rpc s !! m = Some h /\
       (handler_call h = k -> m = MsgID (c_req c) -> registered (c_pc c) = true -> registered p = true) \/
     handler_call h = k /\ m = MsgID (c_req c) /\ registered p = true) ->
  (awaiting (c_pc c) = true -> awaiting p = true) ->
  (past_wait (c_pc c) = true -> past_wait p = true) ->
  wg' + Z.b2z (active (c_pc c)) = wg s + Z.b2z (active p) ->
  (call_ok s c -> call_ok s (goto p c)) ->
  engine_ok (set_wg wg' (set_rpc rpc' (set_call k (goto p c) s))).
Proof.
  intros Hok Hk Hrpc Haw Hpast Hwg Hc. apply (engine_ok_move s k c); simpl; try done.
  intros m ch Hm. left. by split.
Qed.

Ltac moves_rpc s lemma Hpc :=
  match goal with |- engine_ok ?x => change (engine_ok (set_wg (wg s) x)) end;
  apply lemma; rewrite ?Hpc; simpl; try done; try lia.

Lemma Do_step_ok s k ch s' : engine_ok s -> Do_step k ch s = Some s' -> engine_ok s'.
Proof.
  intros Hok. unfold Do_step. destruct (calls s !! k) as [c|] eqn:Hk; [|done].
  pose proof (eo_call s Hok k c Hk) as Hc. pose proof (co_sends s c Hc) as Hs. pose proof (co_pc s c Hc) as Hp.
  unfold pc_ok in Hp.
  destruct (c_pc c) eqn:Hpc, ch; try (by intros Hr; eapply retryUntilAck_step_ok, Hr); simpl in Hs.
  - destruct (closed s); intros [= <-]; [only_moves; intros _; apply res_closed; simpl; lia|].
    apply (engine_ok_goto_rpc s k c PRegister (rpc s) (wg s + 1)); rewrite ?Hpc; simpl; try done; try lia.
    { intros m h Hm. left. by split. }
    intros _. rewrite goto_moved. apply call_ok_goto; rewrite ?Hpc; simpl; try done; lia.
  - intros [= <-]. moves_rpc s (engine_ok_goto_rpc s k c PWaitAck (<[MsgID (c_req c) := HDo k]> (rpc s)) (wg s)) Hpc.
    { intros m h [[<- <-]|[_ Hm]]%lookup_insert_Some; [by right|by left]. }
    intros _. rewrite goto_moved. apply call_ok_goto; rewrite ?Hpc; simpl; try done; lia.
  - destruct err as [e|]; [destruct (is_retry_err c e) eqn:He|]; intros [= <-]; only_moves.
    intros _. unfold is_retry_err in He. destruct Hp as [Hp|Hp].
    + apply res_retry; [eapply retry_cause_mono; [exact Hp|done|simpl; lia|done]|]. intros t Ht. simpl in Ht. by rewrite Ht in He.
    + apply (co_inner s c Hc) in Hp. rewrite Hp, Is_refl in He. done.
  - destruct (c_ctx c) as [e|] eqn:Hctx; [|done]. destruct sent; intros [= <-]; only_moves.
    intros _. by apply res_ctx.
  - destruct (reqCancelled s) eqn:Hrc; [|done]. destruct (c_done c) eqn:Hd; intros [= <-]; only_moves.
    + intros _. destruct (ho_done _ _ (co_handled s c Hc) Hd) as (a & Hg & Hr). by apply (result_ok_answer _ _ a).
    + intros _. by apply res_forced.
  - destruct (c_done c) eqn:Hd; intros [= <-]; only_moves.
    intros _. destruct (ho_done _ _ (co_handled s c Hc) Hd) as (a & Hg & Hr). by apply (result_ok_answer _ _ a).
  - intros [= <-]. moves_rpc s (engine_ok_goto_rpc s k c PDrop (<[MsgID (c_req c) := HNop k]> (rpc s)) (wg s)) Hpc.
    { intros m h [[<- <-]|[_ Hm]]%lookup_insert_Some; [by right|by left]. }
    intros _. rewrite goto_moved. apply call_ok_goto; rewrite ?Hpc; simpl; try done; lia.
  - destruct Hp as [e He]. rewrite He. intros [= <-]; only_moves. intros _. by apply res_ctx.
  - intros [= <-]. moves_rpc s (engine_ok_goto_rpc s k c (PFinish res) (delete (MsgID (c_req c)) (rpc s)) (wg s)) Hpc.
    { intros m h [Hne Hm]%lookup_delete_Some. left. by split. }
    intros _. rewrite goto_moved. apply call_ok_goto; rewrite ?Hpc; simpl; try done; [lia|].
    eapply result_ok_mono; [exact Hp|..]; simpl; auto; lia.
  - intros [= <-].
    apply (engine_ok_move s k c (goto (PReturned res) (set_retry (Some (default Canceled (c_retry c))) c)));
      rewrite ?Hpc; simpl; try done; try lia.
    + intros _. destruct Hc as [Hh Hi _ _ _].
      split; simpl; [by eapply handled_ok_same, Hh|by intros e ->%Hi|by right; right|done|].
      unfold pc_ok. simpl. eapply result_ok_mono; [exact Hp|..]; auto.
    + by left.
    + by left.
Qed.

(** A change of the contexts of a call. *)
Lemma engine_ok_ctx s k c c' :
  engine_ok s -> calls s !! k = Some c -> same_handled c c' -> c_pc c' = c_pc c ->
  (call_ok s c -> call_ok s c') -> engine_ok (set_call k c' s).
Proof.
  intros Hok Hk Hsame Hpc Hc. apply (engine_ok_move s k c); simpl; rewrite ?Hpc; try done; by left.
Qed.

(** A step of notification [i] inside the callback of call [k]. *)
Lemma engine_ok_handler s i n p k c c' :
  engine_ok s -> notifs s !! i = Some n -> n_handler n = HDo k -> calls s !! k = Some c ->
  c_pc c' = c_pc c -> c_req c' = c_req c -> call_ok s c' ->
  handler_ok (goto_notif p n) c' ->
  (forall j n2, j <> i -> notifs s !! j = Some n2 -> n_handler n2 = HDo k ->
     handler_ok n2 c -> handler_ok n2 c') ->
  (is_Some (in_handler (goto_notif p n)) -> forall j n2, j <> i -> notifs s !! j = Some n2 ->
     in_handler n2 <> Some k) ->
  engine_ok (set_notif i (goto_notif p n) (set_call k c' s)).
Proof.
  intros [Hrpc Hack Hcl Hcall Hnot Huniq Hwg Hpan] Hi Hh Hk Hpc Hreq Hc' Hn' Hother Hsole.
  destruct (Hnot i n Hi) as [Hlog (x & Hx & Hmsg & _)]. rewrite Hh in Hx. simplify_eq/=.
  split; simpl.
  - intros m h Hm%Hrpc. apply (lookup_update (fun x => MsgID (c_req x) = m /\ registered (c_pc x) = true) _ _ c);
      [done| |done]. by rewrite Hreq, Hpc.
  - intros m ch Hm. destruct (Hack m ch Hm) as [Hnc Hex]. split; [done|].
    apply (lookup_update (fun x => MsgID (c_req x) = m /\ awaiting (c_pc x) = true) _ _ c); [done| |done].
    by rewrite Hreq, Hpc.
  - intros ch Hch%Hcl. apply (lookup_update (fun x => past_wait (c_pc x) = true) _ _ c); [done| |done].
    by rewrite Hpc.
  - intros j x [[-> ->]|[_ Hj]]%lookup_insert_case; [by destruct Hc'|]. by destruct (Hcall j x Hj).
  - intros j n2 [[-> ->]|[Hne Hj]]%lookup_insert_case.
    + split; [done|]. exists c'. simpl. rewrite Hh. simpl. rewrite Hreq. split; [|done].
      apply list_lookup_insert_eq. by eapply lookup_lt_Some.
    + destruct (Hnot j n2 Hj) as [Hlog2 Hex]. split; [done|].
      eapply (lookup_update _ _ _ c); [done| |apply Hex]. intros Hjk [Hm Hok2]. rewrite Hreq. split; [done|].
      destruct (n_handler n2) as [k2|k2] eqn:Hh2; simpl in Hjk; subst k2.
      * by eapply Hother.
      * unfold handler_ok. by rewrite Hh2.
  - intros j1 j2 n1 n2 k' H1 H2 Hin1 Hin2.
    apply lookup_insert_case in H1 as [[-> ->]|[Hne1 H1]]; apply lookup_insert_case in H2 as [[-> ->]|[Hne2 H2]].
    + done.
    + assert (k' = k) as ->.
      { unfold in_handler in Hin1. simpl in Hin1. rewrite Hh in Hin1. by destruct p; simplify_eq. }
      by destruct (Hsole (ex_intro _ _ Hin1) j2 n2 Hne2 H2).
    + assert (k' = k) as ->.
      { unfold in_handler in Hin2. simpl in Hin2. rewrite Hh in Hin2. by destruct p; simplify_eq. }
      by destruct (Hsole (ex_intro _ _ Hin2) j1 n1 Hne1 H1).
    + by eapply Huniq.
  - pose proof (count_active_insert (calls s) k c c' Hk) as Hcnt. rewrite Hpc in Hcnt. lia.
  - done.
Qed.

(** A notification returns. *)
Lemma engine_ok_return s i n err :
  engine_ok s -> notifs s !! i = Some n -> engine_ok (set_notif i (goto_notif (IReturned err) n) s).
Proof.
  intros [Hrpc Hack Hcl Hcall Hnot Huniq Hwg Hpan] Hi. split; simpl; try done.
  - intros k c Hk. by destruct (Hcall k c Hk).
  - intros j n2 [[-> ->]|[_ Hj]]%lookup_insert_case; [|by destruct (Hnot j n2 Hj)].
    destruct (Hnot i n Hi) as [Hlog (c & Hc & Hm & _)]. split; [done|]. exists c. split_and!; try done.
    unfold handler_ok. simpl. by destruct (n_handler n).
  - intros j1 j2 n1 n2 k H1 H2 Hin1 Hin2.
    assert (in_handler (goto_notif (IReturned err) n) = None) as Hnone.
    { unfold in_handler. simpl. by destruct (n_handler n). }
    apply lookup_insert_case in H1 as [[-> ->]|[_ H1]]; [by rewrite Hnone in Hin1|].
    apply lookup_insert_case in H2 as [[-> ->]|[_ H2]]; [by rewrite Hnone in Hin2|]. by eapply Huniq.
Qed.

(** A notification that is inside the callback of a call is the only one there. *)
Lemma in_handler_sole s i n k :
  engine_ok s -> notifs s !! i = Some n -> in_handler n = Some k ->
  forall j n2, j <> i -> notifs s !! j = Some n2 -> in_handler n2 <> Some k.
Proof. intros Hok Hi Hin j n2 Hne Hj Hin2. apply Hne. by eapply (eo_unique s Hok). Qed.

Lemma handler_ok_in_handler n c k :
  in_handler n = Some k -> handler_ok n c -> c_handlerCalled c = true.
Proof.
  unfold in_handler, handler_ok. destruct (n_handler n), (n_pc n); naive_solver.
Qed.

(** Outside of the callback only the done flag matters. *)
Lemma handler_ok_outside n c c' k :
  n_handler n = HDo k -> in_handler n <> Some k -> (c_done c = true -> c_done c' = true) ->
  handler_ok n c -> handler_ok n c'.
Proof. unfold in_handler, handler_ok. intros ->. destruct (n_pc n); naive_solver. Qed.

Lemma pc_ok_mono b b' c c' :
  pc_ok b c -> (b = true -> b' = true) -> c_pc c' = c_pc c -> c_req c' = c_req c -> c_sends c' = c_sends c ->
  (forall e, c_ctx c = Some e -> c_ctx c' = Some e) ->
  (c_done c = true -> c_done c' = true /\ c_got c' = c_got c) ->
  c_fail c' = c_fail c -> c_seen c' = c_seen c ->
  (forall e, c_inner c = Some e -> c_inner c' = Some e) -> pc_ok b' c'.
Proof.
  unfold pc_ok. intros H Hb -> Hr Hs Hx Hd Hf Ht Hi. destruct (c_pc c); try done; try (by eapply result_ok_mono).
  1, 2: destruct err; [|done]; destruct H as [H|H]; [left; by eapply retry_cause_mono|by right; apply Hi].
  all: destruct H as [e He]; exists e; auto.
Qed.

Lemma handler_step_ok s i s' : engine_ok s -> handler_step i s = Some s' -> engine_ok s'.
Proof.
  intros Hok. unfold handler_step. destruct (notifs s !! i) as [n|] eqn:Hi; [|done].
  destruct (n_handler n) as [k|k] eqn:Hh.
  2: { destruct (n_pc n); intros [= <-]; by apply engine_ok_return. }
  destruct (calls s !! k) as [c|] eqn:Hk; [|done].
  pose proof (eo_notif s Hok i n Hi) as [Hlog (x & Hx & Hmsg & Hhok)]. rewrite Hh in Hx. simplify_eq/=.
  pose proof (eo_call s Hok k c Hk) as [Hhand Hinner Hretry Hsends Hpc].
  pose proof (in_handler_sole s i n k Hok Hi) as Hsole.
  unfold handler_ok in Hhok. unfold in_handler in Hsole. rewrite Hh in Hhok, Hsole.
  destruct (n_pc n) eqn:Hn; [| | | |done].
  - destruct (c_handlerCalled c) eqn:Hcalled; intros [= <-]; [by apply engine_ok_return|].
    destruct (ho_not_called _ _ Hhand Hcalled) as [Hg Hd].
    assert (forall j n2, j <> i -> notifs s !! j = Some n2 -> in_handler n2 <> Some k) as Hnone.
    { intros j n2 _ Hj Hin. destruct (eo_notif s Hok j n2 Hj) as [_ (y & Hy & _ & Hy2)].
      pose proof (handler_ok_in_handler _ _ _ Hin Hy2) as Hcy. unfold in_handler in Hin.
      destruct (n_handler n2); [|done]. destruct (n_pc n2); simplify_eq/=; congruence. }
    apply (engine_ok_handler s i n IBody k c); try done.
    + destruct Hhand as [_ Hho2 Hho3 Hho4]. split; simpl; try done.
      by eapply pc_ok_mono.
    + unfold handler_ok. simpl. by rewrite Hh.
    + intros j n2 Hne Hj Hh2. by apply (handler_ok_outside _ _ _ k); [|by eapply Hnone|].
  - intros [= <-]. destruct Hhok as (Hcalled & Hd & Hg). specialize (Hsole eq_refl).
    apply (engine_ok_handler s i n ICloseDone k c); try done.
    + split; simpl; try done.
      * split; simpl; rewrite ?Hg; try done; [by rewrite Hcalled|by rewrite Hd|].
        intros a ->%list_elem_of_singleton. by rewrite Hmsg.
      * eapply pc_ok_mono; [exact Hpc|..]; simpl; auto; by rewrite Hd.
    + unfold handler_ok. simpl. rewrite Hh, Hg. naive_solver.
    + intros j n2 Hne Hj Hh2. by apply (handler_ok_outside _ _ _ k); [|by eapply Hsole|].
  - destruct Hhok as (Hcalled & Hd & Hg & Hr). rewrite Hd. intros [= <-]. specialize (Hsole eq_refl).
    apply (engine_ok_handler s i n IRetryClose k c); try done.
    + split; simpl; try done; [|naive_solver|].
      * destruct Hhand as [_ _ Hho3 Hho4]. split; simpl; try done; [by rewrite Hcalled|]. intros _. by exists (n_answer n).
      * eapply pc_ok_mono; [exact Hpc|..]; simpl; auto.
    + unfold handler_ok. simpl. by rewrite Hh.
    + intros j n2 Hne Hj Hh2. by apply (handler_ok_outside _ _ _ k); [|by eapply Hsole|].
  - intros [= <-]. apply (engine_ok_handler s i n _ k c); try done.
    + split; simpl; try done; [by eapply handled_ok_same, Hhand|by intros e ->%Hinner|naive_solver|].
      eapply pc_ok_mono; [exact Hpc|..]; simpl; auto.
    + unfold handler_ok. simpl. by rewrite Hh.
    + unfold in_handler. simpl. rewrite Hh. by intros [].
Qed.

Lemma notify_ack_ok s id ch :
  engine_ok s -> ack s !! id = Some ch -> engine_ok (set_ack (delete id (ack s)) (close_ack ch s)).
Proof.
  intros [Hrpc Hack Hcl Hcall Hnot Huniq Hwg Hpan] Hid.
  destruct (Hack id ch Hid) as [Hnc (c & Hc & Hm & Haw)]. split; simpl; try done.
  - intros m ch' [Hne Hm']%lookup_delete_Some. destruct (Hack m ch' Hm') as [Hnc' (c' & Hc' & Hmc' & Haw')].
    split; [|by exists c']. apply not_elem_of_union. split; [|done]. rewrite elem_of_singleton. intros ->. simplify_eq.
  - intros ch' [->%elem_of_singleton|Hin]%elem_of_union; [|by apply Hcl].
    exists c. split; [done|]. by destruct (c_pc c).
  - intros k x Hk. by destruct (Hcall k x Hk).
  - by rewrite Hpan, bool_decide_false.
Qed.

Lemma NotifyAcks_ok ids s : engine_ok s -> engine_ok (NotifyAcks ids s).
Proof.
  revert s. induction ids as [|id ids IH]; intros s Hok; [done|]. unfold NotifyAcks in *. simpl. apply IH.
  destruct (ack s !! id) as [ch|] eqn:Hid; [|done]. by apply notify_ack_ok.
Qed.

Lemma Notify_ok m a s : engine_ok s -> engine_ok (Notify m a s).
Proof.
  intros [Hrpc Hack Hcl Hcall Hnot Huniq Hwg Hpan].
  assert (forall c, call_ok s c -> handled_ok (notified s ++ [(m, a)]) c) as Hlog.
  { intros c [[H1 H2 H3 H4] _ _ _ _]. split; auto. intros b Hb. apply elem_of_app. left. by apply H3. }
  unfold Notify. destruct (rpc s !! m) as [fn|] eqn:Hm; split; simpl; try done.
  1, 4: intros k c Hk; pose proof (Hcall k c Hk) as Hc; destruct (Hc); split; try done; by apply Hlog.
  - intros i n [Hi|[Hi Hn]]%lookup_app_Some.
    + destruct (Hnot i n Hi) as [Hl Hex]. split; [set_solver|done].
    + apply list_lookup_singleton_Some in Hn as [_ <-]. destruct (Hrpc m fn Hm) as (c & Hc & Hmsg & _).
      split; [set_solver|]. exists c. split_and!; try done. unfold handler_ok. by destruct fn.
  - intros i j n1 n2 k H1 H2 Hin1 Hin2.
    apply lookup_app_Some in H1 as [H1|[_ [_ <-]%list_lookup_singleton_Some]];
      [|by unfold in_handler in Hin1; destruct fn].
    apply lookup_app_Some in H2 as [H2|[_ [_ <-]%list_lookup_singleton_Some]];
      [|by unfold in_handler in Hin2; destruct fn].
    by eapply Huniq.
  - intros i n Hi. destruct (Hnot i n Hi) as [Hl Hex]. split; [set_solver|done].
Qed.

Lemma new_call_ok s req : call_ok s (new_call req).
Proof.
  assert (handled_ok (notified s) (new_call req)); [|split; simpl; try done; by intros []].
  split; simpl; try done; [|lia]. intros a Ha. by apply not_elem_of_nil in Ha.
Qed.

Lemma count_active_app l k : count_active (l ++ k) = count_active l + count_active k.
Proof. induction l as [|c l IH]; simpl; lia. Qed.

Lemma LDo_ok s s' req : engine_ok s -> step (LDo req) s = Some s' -> engine_ok s'.
Proof.
  intros [Hrpc Hack Hcl Hcall Hnot Huniq Hwg Hpan] [= <-].
  assert (forall j c, calls s !! j = Some c -> (calls s ++ [new_call req]) !! j = Some c) as Hkeep.
  { intros j c Hj. by apply lookup_app_l_Some. }
  split; simpl; try done.
  - intros m h (c & ? & ?)%Hrpc. exists c. auto.
  - intros m ch Hm. destruct (Hack m ch Hm) as [? (c & ? & ?)]. split; [done|]. exists c. auto.
  - intros ch (c & ? & ?)%Hcl. exists c. auto.
  - intros k c [Hk|[_ [_ <-]%list_lookup_singleton_Some]]%lookup_app_Some; [by destruct (Hcall k c Hk)|].
    by destruct (new_call_ok s req).
  - intros i n Hi. destruct (Hnot i n Hi) as [? (c & ? & ?)]. split; [done|]. exists c. auto.
  - rewrite count_active_app. simpl. lia.
Qed.

Lemma step_ok l s s' : engine_ok s -> step l s = Some s' -> engine_ok s'.
Proof.
  intros Hok. destruct l as [req|k ch|k e|k|k|m a|i|ids| |]; [by apply LDo_ok|by apply Do_step_ok|simpl..].
  - unfold update_call. destruct (calls s !! k) as [c|] eqn:Hk; simpl; [|done].
    destruct (_ && _) eqn:Hb; simpl; [|done]. intros [= <-].
    apply andb_true_iff in Hb as [Hn%bool_decide_eq_true_1 _]. apply (engine_ok_ctx s k c); try done.
    intros [Hh Hi Hr Hs Hp]. split; simpl; try done; [by eapply handled_ok_same, Hh|by left|].
    eapply pc_ok_mono; [exact Hp|..]; simpl; auto. by rewrite Hn.
  - unfold update_call. destruct (calls s !! k) as [c|] eqn:Hk; simpl; [|done].
    destruct (c_ctx c) as [e|] eqn:Hx; [|done]. destruct (c_retry c) eqn:Hr; [done|]. intros [= <-].
    apply (engine_ok_ctx s k c); try done.
    intros [Hh Hi _ Hs Hp]. split; simpl; try done; [by eapply handled_ok_same, Hh| |by left|by eapply pc_ok_mono].
    intros e' He'%Hi. congruence.
  - unfold update_call. destruct (calls s !! k) as [c|] eqn:Hk; simpl; [|done].
    destruct (c_retry c) as [e|] eqn:Hr; [|done]. destruct (c_inner c) eqn:Hx; [done|]. intros [= <-].
    apply (engine_ok_ctx s k c); try done.
    intros [Hh Hi Hrt Hs Hp]. split; simpl; try done; [by eapply handled_ok_same, Hh|by rewrite Hr|].
    eapply pc_ok_mono; [exact Hp|..]; simpl; auto. by rewrite Hx.
  - intros [= <-]. by apply Notify_ok.
  - by apply handler_step_ok.
  - intros [= <-]. by apply NotifyAcks_ok.
  - intros [= <-]. destruct Hok. split; try done. intros k c Hk. by destruct (eo_call0 k c Hk).
  - intros [= <-]. destruct Hok. split; try done. intros k c Hk. destruct (eo_call0 k c Hk). split; try done.
    by eapply pc_ok_mono.
Qed.

Lemma reaches_ok s s' : engine_ok s -> reaches s s' -> engine_ok s'.
Proof.
  intros Hok. induction 1 as [|l s1 s2 _ IH Hstep]; [done|].
  unfold run_step in Hstep. destruct (panicked s1); [done|]. by eapply step_ok.
Qed.

Lemma New_ok : engine_ok New.
Proof. split; simpl; try done; set_solver. Qed.

Lemma engine_reachable_ok s : reachable s -> engine_ok s.
Proof. apply reaches_ok, New_ok. Qed.

(** ** What the engine promises *)

(** C5: an answer reaches the call it is for, once: when Do has returned, its
    callback accepted at most one answer, one that was notified for the call's own
    message; a nil error means that this answer was a result that decoded, and any
    error is the one in the answer or says why there is none.  In particular an
    error of retryUntilAck is returned only when it is not the error that retryCtx
    had, and it is the error of the send that failed (the first one, or a later one
    that was not cancelled), the forced close of the engine, or the retry limit
    after that many sends. *)
Theorem rpc_answers_own (s : Engine) (k : nat) (c : Call) (res : option error) :
  reachable s -> calls s !! k = Some c -> c_pc c = PReturned res ->
  (length (c_got c) <= 1)%nat /\
  (forall a, a ∈ c_got c -> (MsgID (c_req c), a) ∈ notified s) /\
  match res with
  | None => exists b, c_got c = [inl b] /\ Decode (c_req c) b = None
  | Some e =>
      (exists a, c_got c = [a] /\ answer_result (c_req c) a = Some e) \/
      e = ErrEngineClosed /\ c_sends c = 0 \/
      c_ctx c = Some e \/
      e = Wrap Canceled forciblyClosed /\ reqCancelled s = true \/
      exists e', e = Wrap e' "retryUntilAck" /\ (forall t, c_seen c = Some t -> Is e' t = false) /\
        ((exists x, e' = Wrap x "send" /\ c_fail c = Some x /\ c_sends c = 1) \/
         (c_fail c = Some e' /\ Is e' Canceled = false /\ 2 <= c_sends c) \/
         (e' = Wrap ErrEngineClosed forciblyClosed /\ reqCancelled s = true /\ 1 <= c_sends c) \/
         (exists n, e' = RetryLimitReachedErr n /\ maxRetries <= n /\ c_sends c = n + 1))
  end.
Proof.
  intros Hok%engine_reachable_ok Hk Hpc. destruct (eo_call s Hok k c Hk) as [[_ _ Hlog Honce] _ _ _ Hp].
  split; [done|]. split; [done|]. unfold pc_ok in Hp. rewrite Hpc in Hp.
  destruct Hp as [a Hd Hg|Hs|e Hx|Hr|e' Hc Hseen]; [|naive_solver..|].
  - destruct a as [b|e]; simpl; [|naive_solver]. destruct (Decode (c_req c) b) eqn:Hdec; naive_solver.
  - do 4 right. exists e'. split; [done|]. split; [done|]. destruct Hc; naive_solver.
Qed.

(** The engine never panics: in no interleaving of calls, acknowledgements
    and answers is a channel closed twice. *)
Theorem rpc_never_panics (s : Engine) : reachable s -> panicked s = false.
Proof. intros Hok%engine_reachable_ok. apply Hok. Qed.

Lemma registered_active p : registered p = true -> active p = true.
Proof. by destruct p. Qed.
Lemma awaiting_active p : awaiting p = true -> active p = true.
Proof. by destruct p. Qed.

(** The wait group counts the running calls, and when none runs, no callback
    and no acknowledgement channel is left behind. *)
Theorem rpc_no_leak (s : Engine) :
  reachable s ->
  wg s = count_active (calls s) /\ (wg s = 0 -> rpc s = ∅ /\ ack s = ∅).
Proof.
  intros Hok%engine_reachable_ok. split; [apply Hok|]. intros H0.
  assert (forall k c, calls s !! k = Some c -> active (c_pc c) = true -> False) as Hidle.
  { intros k c Hk Ha. pose proof (count_active_pos _ _ _ Hk Ha). pose proof (eo_wg s Hok). lia. }
  split; apply map_empty; intros m; apply eq_None_not_Some; intros [x Hx].
  - destruct (eo_rpc s Hok m x Hx) as (c & Hc & _ & Hr). by eapply Hidle, registered_active.
  - destruct (eo_ack s Hok m x Hx) as [_ (c & Hc & _ & Hr)]. by eapply Hidle, awaiting_active.
Qed.

(** A request is sent at most MaxRetries + 1 times (twice for MaxRetries < 1). *)
Theorem rpc_sends_bounded (s : Engine) (k : nat) (c : Call) :
  reachable s -> calls s !! k = Some c -> 0 <= c_sends c <= Z.max 1 maxRetries + 1.
Proof.
  intros Hok%engine_reachable_ok Hk. pose proof (co_sends s c (eo_call s Hok k c Hk)) as Hs.
  unfold sends_ok, max_resends in Hs. destruct (c_pc c); lia.
Qed.

(** ** A closed engine *)

(** What a step of a call leaves alone. *)
Lemma Do_step_frame k ch s s' :
  Do_step k ch s = Some s' ->
  (exists c', calls s' = <[k := c']> (calls s)) /\ closed s' = closed s /\
  (closed s = true -> wg s' <= wg s).
Proof.
  unfold Do_step, retryUntilAck_step, waitAck. destruct (calls s !! k) as [c|] eqn:Hk; [|done].
  destruct (c_pc c) eqn:Hpc, ch; try done;
    repeat (case_match; try done); intros; simplify_eq/=; (split_and!; [by eexists|done|intros; try congruence; lia]).
Qed.

(** A call that has not started does not get further on a closed engine. *)
Lemma Do_step_closed k ch s s' c :
  closed s = true -> Do_step k ch s = Some s' -> calls s !! k = Some c ->
  c_pc c = PStart \/ c_pc c = PReturned (Some ErrEngineClosed) ->
  s' = set_call k (goto (PReturned (Some ErrEngineClosed)) c) s.
Proof.
  intros Hcl Hstep Hk Hpc. unfold Do_step, retryUntilAck_step in Hstep. rewrite Hk in Hstep.
  destruct Hpc as [Hpc|Hpc]; rewrite Hpc in Hstep; destruct ch; try done. rewrite Hcl in Hstep. by injection Hstep as <-.
Qed.

Lemma NotifyAcks_frame ids s :
  calls (NotifyAcks ids s) = calls s /\ closed (NotifyAcks ids s) = closed s /\ wg (NotifyAcks ids s) = wg s.
Proof.
  revert s. induction ids as [|id ids IH]; intros s; [done|]. unfold NotifyAcks in *. simpl.
  destruct (ack s !! id); [|done]. by rewrite !(proj1 (IH _)), !(proj1 (proj2 (IH _))), !(proj2 (proj2 (IH _))).
Qed.

(** The calls a closed engine refuses. *)
Definition refused (c : Call) : Prop :=
  c_sends c = 0 /\ (c_pc c = PStart \/ c_pc c = PReturned (Some ErrEngineClosed)).

Definition refuses_from (n : nat) (s : Engine) : Prop :=
  closed s = true /\ forall k c, (n <= k)%nat -> calls s !! k = Some c -> refused c.

(** Updating a call in a way that keeps it refused. *)
Lemma refuses_update n (k : nat) c c' (l : list Call) :
  (forall j x, (n <= j)%nat -> l !! j = Some x -> refused x) -> l !! k = Some c -> (refused c -> refused c') ->
  forall j x, (n <= j)%nat -> <[k := c']> l !! j = Some x -> refused x.
Proof.
  intros Hl Hk Hc j x Hj [[-> ->]|[_ Hx]]%lookup_insert_case; [|by eapply Hl]. by eapply Hc, Hl.
Qed.

Lemma step_refuses n l s s' :
  refuses_from n s -> step l s = Some s' -> refuses_from n s' /\ wg s' <= wg s.
Proof.
  intros [Hcl Hr] Hstep. destruct l as [req|k ch|k e|k|k|m a|i|ids| |]; simpl in Hstep.
  - injection Hstep as <-. split; [|done]. split; [done|]. simpl.
    intros j x Hj [Hx|[_ [_ <-]%list_lookup_singleton_Some]]%lookup_app_Some; [by eapply Hr|]. split; [done|by left].
  - destruct (Do_step_frame _ _ _ _ Hstep) as ([c' Hc'] & Hcl' & Hwg). split; [|by apply Hwg].
    split; [congruence|]. intros j x Hj Hx. rewrite Hc' in Hx. apply lookup_insert_case in Hx as [[-> ->]|[_ Hx]]; [|by eapply Hr].
    unfold Do_step in Hstep. destruct (calls s !! k) as [c|] eqn:Hk; [|done].
    destruct (Hr k c Hj Hk) as [Hs Hpc].
    assert (Do_step k ch s = Some s') as Hd by (unfold Do_step; by rewrite Hk).
    pose proof (Do_step_closed k ch s s' c Hcl Hd Hk Hpc) as ->. simpl in Hc'.
    apply (f_equal (fun l => l !! k)) in Hc'. assert (k < length (calls s))%nat by (by eapply lookup_lt_Some).
    rewrite !list_lookup_insert_eq in Hc' by done. injection Hc' as <-. split; [done|by right].
  - unfold update_call in Hstep. destruct (calls s !! k) as [c|] eqn:Hk; simpl in Hstep; [|done].
    destruct (_ && _); simpl in Hstep; [|done]. injection Hstep as <-. split; [|done]. split; [done|]. by eapply refuses_update.
  - unfold update_call in Hstep. destruct (calls s !! k) as [c|] eqn:Hk; simpl in Hstep; [|done].
    destruct (c_ctx c), (c_retry c); simplify_eq/=. split; [|done]. split; [done|]. by eapply refuses_update.
  - unfold update_call in Hstep. destruct (calls s !! k) as [c|] eqn:Hk; simpl in Hstep; [|done].
    destruct (c_retry c), (c_inner c); simplify_eq/=. split; [|done]. split; [done|]. by eapply refuses_update.
  - injection Hstep as <-. unfold Notify. destruct (rpc s !! m); by split.
  - unfold handler_step in Hstep. repeat (case_match; try done); simplify_eq/=; (split; [|done]); (split; [done|]);
      simpl; try done; by eapply refuses_update.
  - injection Hstep as <-. destruct (NotifyAcks_frame ids s) as (H1 & H2 & H3).
    split; [|lia]. split; [congruence|]. by rewrite H1.
  - injection Hstep as <-. by split.
  - injection Hstep as <-. by split.
Qed.

(** Once closed, the engine stays closed: no call that starts later sends
    anything or returns anything but ErrEngineClosed, and the number of running
    calls never grows, so that the wait of Close ends for good. *)
Theorem rpc_closed_refuses (s s' : Engine) :
  closed s = true -> reaches s s' ->
  closed s' = true /\ wg s' <= wg s /\
  forall k c, (length (calls s) <= k)%nat -> calls s' !! k = Some c ->
    c_sends c = 0 /\ (c_pc c = PStart \/ c_pc c = PReturned (Some ErrEngineClosed)).
Proof.
  intros Hcl Hreach.
  assert (refuses_from (length (calls s)) s' /\ wg s' <= wg s) as [[? ?] ?]; [|done].
  induction Hreach as [|l s1 s2 _ [IH Hwg] Hstep].
  - split; [|done]. split; [done|]. intros k c Hk Hc. apply lookup_lt_Some in Hc. lia.
  - unfold run_step in Hstep. destruct (panicked s1); [done|].
    destruct (step_refuses _ _ _ _ IH Hstep). split; [done|lia].
Qed.

(** ** An answered call returns *)

(** The steps of a call itself; [own] ones need nobody else. *)
Definition own (k : nat) (l : Label) : Prop :=
  match l with LCall j _ | LInnerCtx j => j = k | _ => False end.

Definition finishes (k : nat) (s : Engine) : Prop :=
  exists ls s' c' res, Forall (own k) ls /\ run ls s = Some s' /\ calls s' !! k = Some c' /\ c_pc c' = PReturned res.

Lemma finishes_step k l s s1 :
  panicked s = false -> own k l -> step l s = Some s1 -> finishes k s1 -> finishes k s.
Proof.
  intros Hp Hl Hs (ls & s' & c' & res & Hown & Hrun & Hc & Hpc). exists (l :: ls), s', c', res.
  split_and!; [by constructor| |done|done]. simpl. unfold run_step. by rewrite Hp, Hs.
Qed.

(** An answered call: its done channel is closed and retryCtx has ended. *)
Definition answered (k : nat) (p : pc) (s : Engine) : Prop :=
  panicked s = false /\ exists c, calls s !! k = Some c /\ c_pc c = p /\ c_done c = true /\ is_Some (c_retry c).

(** A step that moves an answered call to [p']. *)
Lemma answered_step k p p' l s s1 c c' :
  answered k p s -> own k l -> step l s = Some s1 -> calls s !! k = Some c ->
  calls s1 = <[k := c']> (calls s) -> panicked s1 = false ->
  c_pc c' = p' -> c_done c' = c_done c -> (is_Some (c_retry c) -> is_Some (c_retry c')) ->
  (answered k p' s1 -> finishes k s1) -> finishes k s.
Proof.
  intros [Hp (x & Hx & Hpc & Hd & Hr)] Hl Hs Hk Hcalls Hp1 Hpc' Hd' Hr' Hfin. simplify_eq.
  eapply finishes_step; [done..|]. apply Hfin. split; [done|]. exists c'. split_and!; [|done|congruence|auto].
  rewrite Hcalls. apply list_lookup_insert_eq. by eapply lookup_lt_Some.
Qed.

Ltac own_step ch lemma :=
  intros Ha; pose proof Ha as [Hp (c & Hk & Hpc & Hd & Hr)];
  eapply (answered_step _ _ _ (LCall _ ch) _ _ c _ Ha);
  [done|simpl; unfold Do_step, retryUntilAck_step; rewrite Hk, Hpc, ?Hd; reflexivity|done|reflexivity|done
  |reflexivity|done|done|apply lemma].

Lemma finish_PFinish k res s : answered k (PFinish res) s -> finishes k s.
Proof.
  intros [Hp (c & Hk & Hpc & Hd & Hr)]. eapply (finishes_step k (LCall k ChNext)); [done|done| |].
  { simpl. unfold Do_step. by rewrite Hk, Hpc. }
  eexists [], _, _, res. split_and!; [done|done| |].
  - simpl. apply list_lookup_insert_eq. by eapply lookup_lt_Some.
  - done.
Qed.

Lemma finish_PDelete k res s : answered k (PDelete res) s -> finishes k s.
Proof. own_step ChNext finish_PFinish. Qed.
Lemma finish_PDrop k s : answered k PDrop s -> finishes k s.
Proof. own_step (ChReturns None) finish_PDelete. Qed.
Lemma finish_PSetNop k s : answered k PSetNop s -> finishes k s.
Proof. own_step ChNext finish_PDrop. Qed.
Lemma finish_PSelect k sent s : answered k (PSelect sent) s -> finishes k s.
Proof. own_step ChDone finish_PDelete. Qed.

Lemma finish_PCheck k sent err s : answered k (PCheck sent err) s -> finishes k s.
Proof.
  destruct err as [e|]; [|own_step ChNext finish_PSelect].
  intros Ha. pose proof Ha as [Hp (c & Hk & Hpc & Hd & Hr)]. destruct (is_retry_err c e) eqn:He;
    (eapply (answered_step _ _ _ (LCall _ ChNext) _ _ c _ Ha);
      [done|simpl; unfold Do_step; rewrite Hk, Hpc, He; reflexivity|done|reflexivity|done|reflexivity|done|done
      |first [apply finish_PSelect|apply finish_PDelete]]).
Qed.

Lemma finish_PRemoveAck k sent err s : answered k (PRemoveAck sent err) s -> finishes k s.
Proof. own_step ChNext finish_PCheck. Qed.

(** In the loop the call first sees its context end. *)
Lemma finish_PLoop k ch r s : answered k (PLoop ch r) s -> finishes k s.
Proof.
  assert (forall s, answered k (PLoop ch r) s -> (exists c e, calls s !! k = Some c /\ c_inner c = Some e) -> finishes k s) as Hin.
  { clear s. intros s Ha (c & e & Hk & He). pose proof Ha as [Hp (x & Hx & Hpc & Hd & Hr)]. simplify_eq.
    eapply (answered_step _ _ _ (LCall _ ChCtxDone) _ _ c _ Ha);
      [done|simpl; unfold Do_step, retryUntilAck_step; rewrite Hk, Hpc, He; reflexivity|done|reflexivity|done
      |reflexivity|done|done|apply finish_PRemoveAck]. }
  intros Ha. pose proof Ha as [Hp (c & Hk & Hpc & Hd & [e Hr])].
  destruct (c_inner c) as [e'|] eqn:He; [apply Hin; [done|by exists c, e']|].
  assert (k < length (calls s))%nat as Hlt by (by eapply lookup_lt_Some).
  eapply (answered_step _ _ (PLoop ch r) (LInnerCtx k) _ _ c _ Ha);
    [done|simpl; unfold update_call; rewrite Hk; simpl; rewrite Hr, He; reflexivity|done|reflexivity|done|done|done|done|].
  intros Ha'. apply Hin; [done|]. eexists _, e. split; [by apply list_lookup_insert_eq|done].
Qed.

Lemma finish_PResend k ch r s : answered k (PResend ch r) s -> finishes k s.
Proof.
  intros Ha. pose proof Ha as [Hp (c & Hk & Hpc & Hd & Hr)]. destruct (r + 1 >=? maxRetries) eqn:Hm;
    (eapply (answered_step _ _ _ (LCall _ (ChReturns None)) _ _ c _ Ha);
      [done|simpl; unfold Do_step, retryUntilAck_step; rewrite Hk, Hpc, Hm; reflexivity|done|reflexivity|done
      |reflexivity|done|done|first [apply finish_PRemoveAck|apply finish_PLoop]]).
Qed.

Lemma finish_PSend k ch s : answered k (PSend ch) s -> finishes k s.
Proof. own_step (ChReturns None) finish_PLoop. Qed.

Lemma finish_PWaitAck k s : answered k PWaitAck s -> finishes k s.
Proof.
  intros Ha. pose proof Ha as [Hp (c & Hk & Hpc & Hd & Hr)].
  destruct (ack s !! MsgID (c_req c)) as [ch|] eqn:He;
    (eapply (answered_step _ _ _ (LCall _ ChNext) _ _ c _ Ha);
      [done|simpl; unfold Do_step, retryUntilAck_step, waitAck; rewrite Hk, Hpc, He; reflexivity|done|reflexivity
      |done|reflexivity|done|done|apply finish_PSend]).
Qed.

Lemma finish_PRegister k s : answered k PRegister s -> finishes k s.
Proof. own_step ChNext finish_PWaitAck. Qed.

(** An answered call is never stuck: once the callback has run, the call
    can return by its own steps alone, wherever it is. *)
Theorem rpc_answered_returns (s : Engine) (k : nat) (c : Call) :
  reachable s -> calls s !! k = Some c -> active (c_pc c) = true ->
  c_done c = true -> is_Some (c_retry c) ->
  exists ls s' c' res, Forall (own k) ls /\ run ls s = Some s' /\
    calls s' !! k = Some c' /\ c_pc c' = PReturned res.
Proof.
  intros Hok%engine_reachable_ok Hk Hact Hd Hr.
  assert (answered k (c_pc c) s) as Ha by (split; [apply Hok|by exists c]).
  fold (finishes k s). destruct (c_pc c); try done;
    eauto using finish_PRegister, finish_PWaitAck, finish_PSend, finish_PLoop, finish_PResend, finish_PRemoveAck, finish_PCheck,
      finish_PSelect, finish_PSetNop, finish_PDrop, finish_PDelete, finish_PFinish.
Qed.
End Engine.

Lemma run_reaches maxRetries ls s0 s s' :
  reaches maxRetries s0 s -> run maxRetries ls s = Some s' -> reaches maxRetries s0 s'.
Proof.
  revert s. induction ls as [|l ls IH]; intros s Hs; simpl; [by intros [= <-]|].
  destruct (run_step maxRetries l s) as [s1|] eqn:E; simpl; [|done]. apply IH. by eapply reaches_step.
Qed.

Lemma run_reachable maxRetries ls s : run maxRetries ls New = Some s -> reachable maxRetries s.
Proof. apply run_reaches. constructor. Qed.

(** ** Executions *)

(** A request whose answer decodes when it is not empty. *)
Definition sample_request : Request :=
  mkRequest 4 1 (fun b => match b with [] => Some EOF | _ => None end).

(** A call up to the point where it waits for its acknowledgement. *)
Definition sample_sent : list Label :=
  [LDo sample_request; LCall 0 ChNext; LCall 0 ChNext; LCall 0 ChNext; LCall 0 (ChReturns None)].

(** The answer arrives, and its callback runs. *)
Definition sample_answered : list Label :=
  sample_sent ++ [LNotify 4 (inl [Byte.x01]); LHandler 0; LHandler 0; LHandler 0; LHandler 0].

(** The call sees it and returns. *)
Definition sample_returned : list Label :=
  sample_answered ++
  [LInnerCtx 0; LCall 0 ChCtxDone; LCall 0 ChNext; LCall 0 ChNext; LCall 0 ChDone; LCall 0 ChNext; LCall 0 ChNext].

Definition engine_after (ls : list Label) : Engine := default New (run 5 ls New).

Lemma engine_after_reachable ls : is_Some (run 5 ls New) -> reachable 5 (engine_after ls).
Proof. intros [s Hs]. unfold engine_after. rewrite Hs. by eapply run_reachable. Qed.

Lemma rpc_answers_own_witness :
  let s := engine_after sample_returned in
  reachable 5 s /\
  exists c, calls s !! 0%nat = Some c /\ c_pc c = PReturned None /\
    exists b, c_got c = [inl b] /\ Decode (c_req c) b = None.
Proof.
  intros s. assert (reachable 5 s) as Hs by (apply engine_after_reachable; vm_compute; eauto).
  split; [exact Hs|]. eexists. split; [vm_compute; reflexivity|]. split; [reflexivity|].
  eapply (rpc_answers_own 5 s 0 _ None Hs); [vm_compute; reflexivity|reflexivity].
Defined.

Lemma rpc_never_panics_witness : panicked (engine_after (sample_sent ++ [LAcks [4]; LAcks [4; 4]])) = false.
Proof. apply (rpc_never_panics 5), engine_after_reachable. vm_compute. eauto. Defined.

Lemma rpc_no_leak_witness :
  wg (engine_after sample_returned) = 0 /\
  rpc (engine_after sample_returned) = ∅ /\ ack (engine_after sample_returned) = ∅.
Proof.
  split; [vm_compute; reflexivity|]. apply (rpc_no_leak 5); [apply engine_after_reachable|]; vm_compute; eauto.
Defined.

Lemma rpc_sends_bounded_witness :
  let s := engine_after (sample_sent ++ [LCall 0 ChTimer; LCall 0 (ChReturns None)]) in
  exists c, calls s !! 0%nat = Some c /\ c_sends c = 2 /\ 0 <= c_sends c <= Z.max 1 5 + 1.
Proof.
  intros s. eexists. split; [vm_compute; reflexivity|]. split; [reflexivity|].
  eapply (rpc_sends_bounded 5 s 0); [apply engine_after_reachable; vm_compute; eauto|vm_compute; reflexivity].
Defined.

Lemma rpc_closed_refuses_witness :
  let s := engine_after [LClose] in
  let s' := default New (run 5 [LDo sample_request; LCall 0 ChNext] s) in
  closed s = true /\ closed s' = true /\ wg s' <= wg s /\
  exists c, calls s' !! 0%nat = Some c /\ c_pc c = PReturned (Some ErrEngineClosed).
Proof.
  intros s s'. split; [reflexivity|].
  destruct (rpc_closed_refuses 5 s s') as (Hc & Hw & _);
    [reflexivity|apply (run_reaches 5 [LDo sample_request; LCall 0 ChNext] s s); [constructor|vm_compute; reflexivity]|].
  split; [exact Hc|]. split; [exact Hw|]. eexists. split; [vm_compute; reflexivity|reflexivity].
Defined.

Lemma rpc_answered_returns_witness :
  let s := engine_after sample_answered in
  exists ls s' c' res, Forall (own 0) ls /\ run 5 ls s = Some s' /\
    calls s' !! 0%nat = Some c' /\ c_pc c' = PReturned res.
Proof.
  intros s. eapply (rpc_answered_returns 5 s 0);
    [apply engine_after_reachable; vm_compute; eauto|vm_compute; reflexivity|reflexivity..|vm_compute; eauto].
Defined.

(** The caller gives up between the lookup of the callback and its run. *)
Definition sample_late : list Label :=
  sample_sent ++
  [LNotify 4 (inl [Byte.x01]); LCancel 0 Canceled; LRetryCtx 0; LInnerCtx 0; LCall 0 ChCtxDone; LCall 0 ChNext;
   LCall 0 ChNext; LCall 0 ChCtxDone; LCall 0 ChNext; LCall 0 (ChReturns None); LCall 0 ChNext; LCall 0 ChNext].

(** The callback of a call can run after the call has returned: a
    notification that took it from the map before the deferred delete runs it
    later, and decodes into the output of a request whose Do is over. *)
Theorem rpc_callback_after_return :
  exists s s' c c', reachable 5 s /\ calls s !! 0%nat = Some c /\ c_pc c = PReturned (Some Canceled) /\
    c_got c = [] /\ run 5 [LHandler 0; LHandler 0] s = Some s' /\
    calls s' !! 0%nat = Some c' /\ c_got c' = [inl [Byte.x01]].
Proof.
  exists (engine_after sample_late), (engine_after (sample_late ++ [LHandler 0; LHandler 0])).
  eexists _, _. split; [apply engine_after_reachable; vm_compute; eauto|].
  split_and!; (vm_compute; reflexivity).
Qed.
