(* ===== verification/Conn.v ===== *)
(** * mtproto: a client connection

    Model of the message paths of src/mtproto: read.go, write.go,
    new_encrypted_msg.go, handle_*.go, session.go, salt.go, the bookkeeping of
    ping.go, and the service messages of src/mt they decode.  The components the
    connection talks to (the rpc engine and the handler of the application) are
    seen through the calls made to them, the [events], in order, and through the
    errors these calls return, the record [Peers].  The clock is a sequence of
    readings; every reading takes the next one.  Handling a message recurses for
    containers and gzip-packed objects; [depth] is the depth of calls the stack
    allows, and running out of it is the crash that a stack overflow is. *)
From S2P Require Import Prelude Io Bin MessageID Proto Schema Hash Keys Cipher Salts.

(** ** Service messages (src/mt) *)

Module Mt.
Definition NewSessionCreatedTypeID : Z := 0x9ec20908.
Definition BadMsgNotificationTypeID : Z := 0xa7eff811.
Definition BadServerSaltTypeID : Z := 0xedab447b.
Definition FutureSaltsTypeID : Z := 0xae500895.
Definition PongTypeID : Z := 0x347773c5.
Definition MsgsAckTypeID : Z := 0x62d6b459.
Definition RPCErrorTypeID : Z := 0x2144ca19.
Definition MsgDetailedInfoTypeID : Z := 0x276d3ec6.
Definition MsgNewDetailedInfoTypeID : Z := 0x809db6df.

Record NewSessionCreated : Type := mkNewSession { FirstMsgID : Z; UniqueID : Z; ServerSalt : Z }.
Definition NewSessionCreated_Decode : GoM Buffer NewSessionCreated :=
  field "new_session_created" (ConsumeID NewSessionCreatedTypeID) ;;!
  let! first := field "first_msg_id" Long in
  let! unique := field "unique_id" Long in
  let! salt := field "server_salt" Long in
  ret (mkNewSession first unique salt).

Record BadMsgNotification : Type := mkBadMsg { BadMsgID : Z; BadMsgSeqno : Z; ErrorCode : Z }.
Definition BadMsgNotification_Decode : GoM Buffer BadMsgNotification :=
  field "bad_msg_notification" (ConsumeID BadMsgNotificationTypeID) ;;!
  let! id := field "bad_msg_id" Long in
  let! seqno := field "bad_msg_seqno" Int in
  let! code := field "error_code" Int in
  ret (mkBadMsg id seqno code).

Definition BadServerSalt_Decode : GoM Buffer (BadMsgNotification * Z) :=
  field "bad_server_salt" (ConsumeID BadServerSaltTypeID) ;;!
  let! id := field "bad_msg_id" Long in
  let! seqno := field "bad_msg_seqno" Int in
  let! code := field "error_code" Int in
  let! salt := field "new_server_salt" Long in
  ret (mkBadMsg id seqno code, salt).

Definition FutureSalt_DecodeBare : GoM Buffer FutureSalt :=
  let! since := field "valid_since" Int in
  let! until := field "valid_until" Int in
  let! salt := field "salt" Long in
  ret (mkSalt since until salt).

(** The request id, the server's time and the salts. *)
Definition FutureSalts_Decode : GoM Buffer (Z * Z * list FutureSalt) :=
  field "future_salts" (ConsumeID FutureSaltsTypeID) ;;!
  let! req := field "req_msg_id" Long in
  let! now := field "now" Int in
  let! headerLen := field "salts" Int in
  let! salts := decode_n (Z.to_nat headerLen) (field "salts" FutureSalt_DecodeBare) [] in
  ret (req, now, salts).

(** The message id and the ping id. *)
Definition Pong_Decode : GoM Buffer (Z * Z) :=
  field "pong" (ConsumeID PongTypeID) ;;!
  let! msg := field "msg_id" Long in
  let! ping := field "ping_id" Long in
  ret (msg, ping).

Definition MsgsAck_Decode : GoM Buffer (list Z) :=
  field "msgs_ack" (ConsumeID MsgsAckTypeID) ;;!
  let! headerLen := field "msg_ids" VectorHeader in
  decode_n (Z.to_nat headerLen) (field "msg_ids" Long) [].

(** The error code and the message. *)
Definition RPCError_Decode : GoM Buffer (Z * list byte) :=
  field "rpc_error" (ConsumeID RPCErrorTypeID) ;;!
  let! code := field "error_code" Int in
  let! message := field "error_message" String in
  ret (code, message).
End Mt.
Import Mt.

(** ** The connection *)

Record Session : Type := mkSession { ses_ID : Z; ses_Key : AuthKey; ses_Salt : Z; ses_PermKey : AuthKey }.

(** The calls that the connection makes to the components around it. *)
Inductive Event : Type :=
| NotifyAcks (ids : list Z)
| NotifyError (msgID : Z) (err : error)
| NotifyResult (msgID : Z) (b : list byte)
| OnMessage (b : list byte)
| OnSession (s : Session)
| GotSession                           (* c.gotSession.Signal() *)
| PongClosed (pingID : Z)              (* close(ch) of a waiting ping *)
| AckSend (msgID : Z).                 (* c.ackSendChan <- msgID *)

(** What these calls return. *)
Record Peers : Type := mkPeers {
  NotifyResult_err : Z -> list byte -> option error;
  OnMessage_err : list byte -> option error;
  OnSession_err : Session -> option error }.

Record Conn : Type := mkConn {
  authKey : AuthKey; permKey : AuthKey; salt : Z; sessionID : Z;
  salts : Salts; sentContentMessages : Z; messageID : Gen.MessageIDGen; messageIDBuf : list Z;
  ping : gset Z; clock : list Z; events : list Event }.

Definition set_salt (v : Z) (c : Conn) : Conn :=
  mkConn (authKey c) (permKey c) v (sessionID c) (salts c) (sentContentMessages c) (messageID c)
         (messageIDBuf c) (ping c) (clock c) (events c).
Definition set_salts (v : Salts) (c : Conn) : Conn :=
  mkConn (authKey c) (permKey c) (salt c) (sessionID c) v (sentContentMessages c) (messageID c)
         (messageIDBuf c) (ping c) (clock c) (events c).
Definition set_sent (n : Z) (g : Gen.MessageIDGen) (c : Conn) : Conn :=
  mkConn (authKey c) (permKey c) (salt c) (sessionID c) (salts c) n g
         (messageIDBuf c) (ping c) (clock c) (events c).
Definition set_buf (v : list Z) (c : Conn) : Conn :=
  mkConn (authKey c) (permKey c) (salt c) (sessionID c) (salts c) (sentContentMessages c) (messageID c)
         v (ping c) (clock c) (events c).
Definition set_ping (v : gset Z) (c : Conn) : Conn :=
  mkConn (authKey c) (permKey c) (salt c) (sessionID c) (salts c) (sentContentMessages c) (messageID c)
         (messageIDBuf c) v (clock c) (events c).
Definition set_clock (v : list Z) (c : Conn) : Conn :=
  mkConn (authKey c) (permKey c) (salt c) (sessionID c) (salts c) (sentContentMessages c) (messageID c)
         (messageIDBuf c) (ping c) v (events c).
Definition emit (e : Event) : GoM Conn unit := modify (fun c =>
  mkConn (authKey c) (permKey c) (salt c) (sessionID c) (salts c) (sentContentMessages c) (messageID c)
         (messageIDBuf c) (ping c) (clock c) (events c ++ [e])).

(** c.clock.Now() in unix nanoseconds; the last reading repeats. *)
Definition Now : GoM Conn Z := fun c =>
  match clock c with
  | [] => (Ok 0, c)
  | [t] => (Ok t, c)
  | t :: ts => (Ok t, set_clock ts c)
  end.

(** The result of a call that returns an error. *)
Definition check (err : option error) : GoM Conn unit :=
  match err with Some e => fail e | None => ret tt end.

(** A decoder on a buffer that nothing else uses afterwards. *)
Definition decode {A} (m : GoM Buffer A) (b : Buffer) : GoM Conn A := fun c => (fst (m b), c).

(** *** salt.go, session.go *)

Definition storeSalt (v : Z) : GoM Conn unit := modify (set_salt v).

Definition second : Z := 10 ^ 9.

Definition updateSalt : GoM Conn unit :=
  let! now := Now in
  let! c := get in
  let '(r, s') := Get ((now + 5 * 60 * second) / second) (salts c) in
  put (set_salts s' c) ;;!
  match r with
  | Some (Some v) => storeSalt v
  | _ => ret tt
  end.

Definition session : GoM Conn Session :=
  updateSalt ;;!
  let! c := get in
  ret (mkSession (sessionID c) (authKey c) (salt c) (permKey c)).

(** *** read.go *)

Definition maxPast : Z := 300 * second.
Definition maxFuture : Z := 30 * second.

(** time.Sub saturates only at 292 years, far outside of both bounds. *)
Definition checkMessageID (now rawID : Z) : option error :=
  let created := Time rawID in
  match Type_ rawID with
  | MessageFromServer | MessageServerResponse =>
      if (created <? now) && (now - created >? maxPast)
      then Some (Wrap errRejected "created too far in past")
      else if created - now >? maxFuture
      then Some (Wrap errRejected "created too far in future")
      else None
  | _ => Some (Wrap errRejected "unexpected type")
  end.

Section Conn.
Context `{!IGE, !SortImpl} (gz : gzip_lib) (cipher : Cipher) (peers : Peers).

Definition decryptMessage (b : Buffer) : GoM Conn EncryptedMessageData :=
  let! s := session in
  let! msg := wrapping "decrypt" (decode (DecryptFromBuffer cipher (ses_Key s)) b) in
  if negb (SessionID msg =? ses_ID s) then fail (Wrap errRejected "invalid session")
  else
    let! now := Now in
    wrapping "bad message id" (check (checkMessageID now (MessageID msg))) ;;!
    let! c := get in
    let '(r, buf) := Buf.Consume (MessageID msg) (messageIDBuf c) in
    put (set_buf buf c) ;;!
    match r with
    | Ok true => ret msg
    | Ok false => fail (Wrap errRejected "duplicate or too low message id")
    | Err e => fail e
    | Panic => fun c => (Panic, c)
    end.

(** *** handle_*.go *)

(** Whether the first message differs from the local clock is only logged. *)
Definition handleSessionCreated (b : Buffer) : GoM Conn unit :=
  let! s := wrapping "decode" (decode NewSessionCreated_Decode b) in
  emit GotSession ;;!
  let! now := Now in
  storeSalt (ServerSalt s) ;;!
  let! ses := session in
  emit (OnSession ses) ;;!
  wrapping "handler.OnSession" (check (OnSession_err peers ses)).

Definition handleBadMsg (b : Buffer) : GoM Conn unit :=
  let! id := decode PeekID b in
  if id =? BadMsgNotificationTypeID then
    let! bad := decode BadMsgNotification_Decode b in
    emit (NotifyError (BadMsgID bad) (badMessageError (ErrorCode bad) 0))
  else if id =? BadServerSaltTypeID then
    let! bad := decode BadServerSalt_Decode b in
    emit (NotifyError (BadMsgID (fst bad)) (badMessageError (ErrorCode (fst bad)) (snd bad)))
  else fail (Errorf "unknown type id").

Definition handleFutureSalts (b : Buffer) : GoM Conn unit :=
  let! res := wrapping "error decode" (decode FutureSalts_Decode b) in
  modify (fun c => set_salts (Store (snd res) (salts c)) c).

(** The error of the decoder is only printed. *)
Definition handlePong (b : Buffer) : GoM Conn unit := fun c =>
  match fst (Pong_Decode b) with
  | Ok (_, pingID) =>
      if decide (pingID ∈ ping c)
      then (emit (PongClosed pingID) ;;! modify (fun c => set_ping (ping c ∖ {[pingID]}) c)) c
      else (Ok tt, c)
  | Err _ => (Err (Errorf "decode"), c)
  | Panic => (Panic, c)
  end.

Definition handleAck (b : Buffer) : GoM Conn unit :=
  let! ids := wrapping "decode" (decode MsgsAck_Decode b) in
  emit (NotifyAcks ids).

Definition gzip (b : Buffer) : GoM Conn Buffer :=
  wrapping "decode" (decode (GZIP.Decode gz) b).

(** The second half of handleResult, on the unpacked buffer. *)
Definition handleResult_body (req id : Z) (b : Buffer) : GoM Conn unit :=
  if id =? RPCErrorTypeID then
    let! err := wrapping "error decode" (decode RPCError_Decode b) in
    emit (NotifyError req (RPCError (fst err) (snd err)))
  else if id =? PongTypeID then handlePong b
  else
    emit (NotifyResult req b) ;;!
    check (NotifyResult_err peers req b).

Definition handleResult (b : Buffer) : GoM Conn unit :=
  let! res := wrapping "decode" (decode Result.Decode b) in
  let b := result_body res in
  let! id := decode PeekID b in
  if id =? GZIPTypeID then
    let! content := wrapping "decompress" (gzip b) in
    let! id := wrapping "peek id" (decode PeekID content) in
    handleResult_body (RequestMessageID res) id content
  else handleResult_body (RequestMessageID res) id b.

(** handleContainer and processContainerMessage, with handleMessage for the bodies. *)
Fixpoint handle_all (handle : Buffer -> GoM Conn unit) (ms : list Proto.Message) : GoM Conn unit :=
  match ms with
  | [] => ret tt
  | m :: ms => handle (msg_Body m) ;;! handle_all handle ms
  end.

Definition handleContainer (handle : Buffer -> GoM Conn unit) (b : Buffer) : GoM Conn unit :=
  let! ms := wrapping "container" (decode (MessageContainer.Decode []) b) in
  handle_all handle ms.

Definition handleGZIP (handle : Buffer -> GoM Conn unit) (b : Buffer) : GoM Conn unit :=
  let! content := wrapping "unzip" (gzip b) in
  handle content.

Fixpoint handleMessage (depth : nat) (msgID : Z) (b : Buffer) : GoM Conn unit :=
  match depth with
  | O => fun c => (Panic, c)
  | S depth =>
      let! id := wrapping "peek message type" (decode PeekID b) in
      if id =? NewSessionCreatedTypeID then handleSessionCreated b
      else if (id =? BadMsgNotificationTypeID) || (id =? BadServerSaltTypeID) then handleBadMsg b
      else if id =? FutureSaltsTypeID then handleFutureSalts b
      else if id =? MessageContainerTypeID then handleContainer (handleMessage depth msgID) b
      else if id =? ResultTypeID then handleResult b
      else if id =? PongTypeID then handlePong b
      else if id =? MsgsAckTypeID then handleAck b
      else if id =? GZIPTypeID then handleGZIP (handleMessage depth msgID) b
      else if (id =? MsgDetailedInfoTypeID) || (id =? MsgNewDetailedInfoTypeID) then ret tt
      else emit (OnMessage b) ;;! check (OnMessage_err peers b)
  end.

(** consumeMessage; [ctxErr] is ctx.Err() when the context ends before the
    acknowledgement is queued. *)
Definition consumeMessage (depth : nat) (ctxErr : option error) (buf : Buffer) : GoM Conn unit := fun c =>
  match decryptMessage buf c with
  | (Panic, c) => (Panic, c)
  | (Err e, c) => if Is e errRejected then (Ok tt, c) else (Err (Wrap e "consume message"), c)
  | (Ok msg, c) =>
      match EncryptedMessageData.Data msg with
      | Ok data =>
          match handleMessage depth (MessageID msg) data c with
          | (Panic, c) => (Panic, c)
          | (_, c) =>
              if negb (Z.land (SeqNo msg) 1 =? 0) then
                match ctxErr with
                | Some e => (Err e, c)
                | None => emit (AckSend (MessageID msg)) c
                end
              else (Ok tt, c)
          end
      | Err e => (Err e, c)
      | Panic => (Panic, c)
      end
  end.

(** *** write.go, new_encrypted_msg.go *)

(** nextMsgSeq: the message id and the sequence number. *)
Definition nextMsgSeq (content : bool) : GoM Conn (Z * Z) :=
  let! now := Now in
  let! c := get in
  let '(id, g) := Gen.New now MessageFromClient (messageID c) in
  let sent := sentContentMessages c in
  let seqNo := i32 (sent * 2) in
  let seqNo := if content then i32 (seqNo + 1) else seqNo in
  let sent := if content then i32 (sent + 1) else sent in
  put (set_sent sent g c) ;;!
  ret (id, seqNo).

(** newEncryptedMessage; the random source and the buffer are the state of Encrypt.
    [payload] is the encoder of the message. *)
Definition newEncryptedMessage (compressThreshold : Z) (id seq : Z) (payload : GoM Buffer unit)
    (rand : Stream) (b : Buffer) : GoM Conn (Stream * Buffer) := fun c =>
  match session c with
  | (Ok s, c) =>
      let data (l : Z) (raw : list byte) (m : option (GoM Buffer unit)) :=
        mkData (ses_Salt s) (ses_ID s) id seq l raw m in
      let d :=
        if compressThreshold <=? 0 then Ok (data 0 [] (Some payload))
        else
          match payload [] with
          | (Ok _, buf) =>
              if zlen buf >? compressThreshold then Ok (data 0 [] (Some (GZIP.Encode gz buf)))
              else Ok (data (i32 (zlen buf)) buf None)
          | (Err e, _) => Err (Wrap e "encode payload")
          | (Panic, _) => Panic
          end in
      match d with
      | Ok d =>
          match Encrypt cipher (ses_Key s) d (rand, b) with
          | (Ok _, st) => (Ok st, c)
          | (Err e, _) => (Err (Wrap e "encrypt"), c)
          | (Panic, _) => (Panic, c)
          end
      | Err e => (Err e, c)
      | Panic => (Panic, c)
      end
  | (Err e, c) => (Err e, c)
  | (Panic, c) => (Panic, c)
  end.

(** *** ping.go *)

Definition pong (pingID : Z) : GoM Conn unit := modify (fun c => set_ping ({[pingID]} ∪ ping c) c).
Definition removePong (pingID : Z) : GoM Conn unit := modify (fun c => set_ping (ping c ∖ {[pingID]}) c).
End Conn.

(** ** Message ids *)

(** An incoming message id is accepted exactly when it is of one of the two
    server types and was created at most 300 seconds ago and at most 30 seconds ahead. *)
Theorem message_id_window (now id : Z) :
  checkMessageID now id = None <->
  (Type_ id = MessageFromServer \/ Type_ id = MessageServerResponse) /\
  now - 300 * 10 ^ 9 <= Time id <= now + 30 * 10 ^ 9.
Proof.
  unfold checkMessageID, maxPast, maxFuture, second. set (t := Time id). clearbody t.
  assert ((if (t <? now) && (now - t >? 300 * 10 ^ 9) then Some (Wrap errRejected "created too far in past")
           else if t - now >? 30 * 10 ^ 9 then Some (Wrap errRejected "created too far in future") else None) = None
          <-> now - 300 * 10 ^ 9 <= t <= now + 30 * 10 ^ 9) as Hwindow.
  { destruct ((t <? now) && (now - t >? 300 * 10 ^ 9)) eqn:Ep; [bool_to_prop; split; [done|intros; exfalso; lia]|].
    apply andb_false_iff in Ep. destruct (t - now >? 30 * 10 ^ 9) eqn:Ef; bool_to_prop.
    - split; [done|]. intros. exfalso. lia.
    - split; [intros _|done]. destruct Ep; bool_to_prop; lia. }
  destruct (Type_ id); rewrite ?Hwindow; naive_solver.
Qed.

(** ** Sessions *)

(** Everything but the salts and the clock. *)
Definition same_core (c c' : Conn) : Prop :=
  authKey c' = authKey c /\ permKey c' = permKey c /\ sessionID c' = sessionID c /\
  sentContentMessages c' = sentContentMessages c /\ messageID c' = messageID c /\
  messageIDBuf c' = messageIDBuf c /\ ping c' = ping c /\ events c' = events c.

(** A reading of the clock of [c], and the clock after it. *)
Definition reading (c : Conn) (t : Z) : Prop := t ∈ clock c \/ clock c = [] /\ t = 0.
Definition later (c c' : Conn) : Prop := clock c' `suffix_of` clock c /\ (clock c' = [] -> clock c = []).

#[export] Instance same_core_preorder : PreOrder same_core.
Proof.
  split; [done|]. intros c1 c2 c3 (?&?&?&?&?&?&?&?) (?&?&?&?&?&?&?&?). unfold same_core. split_and!; congruence.
Qed.
#[export] Instance later_preorder : PreOrder later.
Proof. split; [done|]. intros c1 c2 c3 [] []. split; [by etrans|auto]. Qed.

Lemma reading_later c c' t : later c c' -> reading c' t -> reading c t.
Proof.
  intros [[l Hl] Hn] [Ht|[He ->]]; [left; rewrite Hl; set_solver|]. right. auto.
Qed.

Lemma Now_spec c : exists t c', Now c = (Ok t, c') /\ reading c t /\ same_core c c' /\ later c c' /\
  salt c' = salt c /\ salts c' = salts c.
Proof.
  unfold Now, reading, later. destruct (clock c) as [|t [|t' ts]] eqn:E.
  - exists 0, c. rewrite E. split_and!; try done. by right.
  - exists t, c. rewrite E. split_and!; try done. left. set_solver.
  - exists t, (set_clock (t' :: ts) c). simpl. split_and!; try done; [left; set_solver|by exists [t]].
Qed.

Lemma session_spec c : exists s c',
  session c = (Ok s, c') /\ ses_ID s = sessionID c /\ ses_Key s = authKey c /\ ses_PermKey s = permKey c /\
  same_core c c' /\ later c c'.
Proof.
  destruct (Now_spec c) as (t & c1 & Hn & _ & Hc & Hl & _).
  unfold session, updateSalt, bind. rewrite Hn. simpl.
  destruct (Get _ (salts c1)) as [r s'] eqn:EG. simpl.
  destruct Hc as (H1 & H2 & H3 & H4 & H5 & H6 & H7 & H8).
  destruct r as [[v|]|]; eexists _, _; (split; [reflexivity|]); simpl; split_and!; try done; by unfold same_core.
Qed.

(** A salt taken from the store is one of its salts. *)
Lemma Get_elem date s v s' : Get date s = (Some (Some v), s') -> exists x, x ∈ s /\ Salts.Salt x = v.
Proof.
  rewrite Get_eq. destruct (last s) as [x|] eqn:El; [|done]. destruct (Salts.valid date x).
  - intros [= <- _]. exists x. split; [by apply last_Some_elem_of|done].
  - cbv zeta. destruct (last (filter (fun x => Salts.valid date x = true) s)) as [y|] eqn:Ey; [|done].
    intros [= <- _]. exists y. split; [|done].
    apply last_Some_elem_of in Ey. by apply list_elem_of_filter in Ey as [_ ?].
Qed.

(** The salts are int64 values. *)
Definition salts_typed (c : Conn) : Prop := int64 (salt c) /\ Forall (fun x => int64 (Salts.Salt x)) (salts c).

Lemma session_salt c :
  salts_typed c ->
  exists s c1, session c = (Ok s, c1) /\ ses_ID s = sessionID c /\ ses_Key s = authKey c /\
    ses_Salt s = salt c1 /\ same_core c c1 /\ salts_typed c1.
Proof.
  intros [Hs Hss]. destruct (Now_spec c) as (t & c1 & Hn & _ & Hc & _ & Hsalt & Hsalts).
  unfold session, updateSalt, bind. rewrite Hn. simpl. rewrite Hsalts.
  destruct Hc as (H1 & H2 & H3 & H4).
  destruct (Get _ (salts c)) as [r s'] eqn:EG. simpl.
  assert (Forall (fun x => int64 (Salts.Salt x)) s') as Hs'.
  { rewrite Forall_forall in Hss |- *. intros x Hx. apply Hss.
    eapply elem_of_sublist; [exact Hx|]. change s' with (snd (r, s')). rewrite <- EG. apply Get_sublist. }
  assert (salts_typed (set_salts s' c1)) by (split; simpl; [by rewrite Hsalt|done]).
  destruct r as [[v|]|]; eexists _, _; (split; [reflexivity|]); simpl; split_and!; try done.
  split; [|done]. simpl. destruct (Get_elem _ _ _ _ EG) as (x & Hx & <-). rewrite Forall_forall in Hss. by apply Hss.
Qed.

(** ** What is handled is authentic *)

Lemma Consume_cases id buf :
  match Buf.Consume id buf with
  | (Ok true, buf') => id ∉ buf
  | (Ok false, buf') => buf' = buf
  | (Err _, _) => False
  | (Panic, buf') => buf = []
  end.
Proof.
  unfold Buf.Consume. destruct (Buf.scan id 0 buf 0 0) as [[mx m]|] eqn:E; [|done].
  destruct (id <? m); [done|]. destruct (Nat.ltb_spec mx (length buf)).
  - rewrite <- (scan_None id buf 0 0 0). by rewrite E.
  - apply scan_index in E. destruct buf; [done|]. simpl in *. lia.
Qed.

Section Authentic.
Context `{!IGE, !SortImpl} (gz : gzip_lib) (cipher : Cipher) (peers : Peers).

Lemma DecryptFromBuffer_no_panic k b : fst (DecryptFromBuffer cipher k b) <> Panic.
Proof.
  unfold DecryptFromBuffer, bind. destruct (safe_envelope_decode b) as (r & b' & -> & Hr & _).
  destruct r; [|done|done]. simpl. apply Decrypt_no_panic.
Qed.

Lemma decryptMessage_spec b c :
  match decryptMessage cipher b c with
  | (Ok m, c') => exists t rest c1 buf',
      DecryptFromBuffer cipher (authKey c) b = (Ok m, rest) /\ SessionID m = sessionID c /\
      reading c t /\ checkMessageID t (MessageID m) = None /\
      Buf.Consume (MessageID m) (messageIDBuf c) = (Ok true, buf') /\ same_core c c1 /\ c' = set_buf buf' c1
  | (Err _, c') => same_core c c'
  | (Panic, c') => messageIDBuf c = []
  end.
Proof.
  destruct (session_spec c) as (s & c1 & Hs & Hid & Hkey & _ & Hc1 & Hl1).
  unfold decryptMessage. unfold bind at 1. rewrite Hs. unfold bind at 1. unfold wrapping at 1, decode. rewrite Hkey.
  destruct (DecryptFromBuffer cipher (authKey c) b) as [[m|e|] rest] eqn:ED; simpl; [|done|].
  2: { by destruct (DecryptFromBuffer_no_panic (authKey c) b); rewrite ED. }
  rewrite Hid. destruct (Z.eqb_spec (SessionID m) (sessionID c)) as [Hses|]; simpl; [|done].
  destruct (Now_spec c1) as (t & c2 & Hn & Ht & Hc2 & _). unfold bind at 1. rewrite Hn.
  unfold bind at 1. unfold wrapping at 1, check.
  destruct (checkMessageID t (MessageID m)) as [e|] eqn:EC; simpl; [by etrans|].
  unfold bind at 1. simpl.
  assert (messageIDBuf c2 = messageIDBuf c) as Hbuf by (transitivity (messageIDBuf c1); [apply Hc2|apply Hc1]).
  rewrite Hbuf. pose proof (Consume_cases (MessageID m) (messageIDBuf c)) as HC.
  destruct (Buf.Consume (MessageID m) (messageIDBuf c)) as [[[]|e|] buf'] eqn:EB; simpl; [| |done|done].
  - exists t, rest, c2, buf'. split_and!; try done; [by eapply reading_later|by etrans].
  - subst buf'. transitivity c2; [by etrans|]. unfold same_core. simpl. by rewrite Hbuf.
Qed.

(** C19: a connection acts only on authentic messages: whatever arrives, either
    nothing but the server salt and the clock changes, or the buffer decrypted
    under the connection's key, carries its session id and an id inside the time
    window of a server message, and that id is not in the replay buffer. *)
Theorem conn_only_authentic (depth : nat) (ctxErr : option error) (buf : Buffer) (c c' : Conn) (r : outcome unit) :
  consumeMessage gz cipher peers depth ctxErr buf c = (r, c') -> messageIDBuf c <> [] ->
  same_core c c' \/
  exists m rest t, DecryptFromBuffer cipher (authKey c) buf = (Ok m, rest) /\ SessionID m = sessionID c /\
    reading c t /\ checkMessageID t (MessageID m) = None /\ MessageID m ∉ messageIDBuf c.
Proof.
  unfold consumeMessage. pose proof (decryptMessage_spec buf c) as HD. intros Hrun Hne.
  destruct (decryptMessage cipher buf c) as [[m|e|] c1].
  - right. destruct HD as (t & rest & c2 & buf' & HD & Hses & Ht & HC & HB & _).
    exists m, rest, t. split_and!; try done. pose proof (Consume_cases (MessageID m) (messageIDBuf c)) as Hnew.
    by rewrite HB in Hnew.
  - left. by destruct (Is e errRejected); simplify_eq.
  - done.
Qed.
End Authentic.

(** ** Dispatch *)

(** The branch that handleMessage takes. *)
Definition dispatch (gz : gzip_lib) `{!SortImpl} (peers : Peers) (depth : nat) (msgID id : Z) (b : Buffer)
    : GoM Conn unit :=
  if id =? NewSessionCreatedTypeID then handleSessionCreated peers b
  else if (id =? BadMsgNotificationTypeID) || (id =? BadServerSaltTypeID) then handleBadMsg b
  else if id =? FutureSaltsTypeID then handleFutureSalts b
  else if id =? MessageContainerTypeID then handleContainer (handleMessage gz peers depth msgID) b
  else if id =? ResultTypeID then handleResult gz peers b
  else if id =? PongTypeID then handlePong b
  else if id =? MsgsAckTypeID then handleAck b
  else if id =? GZIPTypeID then handleGZIP gz (handleMessage gz peers depth msgID) b
  else if (id =? MsgDetailedInfoTypeID) || (id =? MsgNewDetailedInfoTypeID) then ret tt
  else emit (OnMessage b) ;;! check (OnMessage_err peers b).

Section Dispatch.
Context `{!SortImpl} (gz : gzip_lib) (peers : Peers).

Lemma handleMessage_id depth msgID id rest c :
  is_unsigned 32 id ->
  handleMessage gz peers (S depth) msgID (le_split 4 id ++ rest) c =
  dispatch gz peers depth msgID id (le_split 4 id ++ rest) c.
Proof.
  intros Hid. simpl. unfold bind at 1. unfold wrapping at 1, decode. by rewrite PeekID_app.
Qed.

(** A container is handled as its messages one after the other, in order,
    up to the first error. *)
Theorem conn_container_in_order (depth : nat) (msgID : Z) (ms : list Proto.Message) (c : Conn) :
  Forall message_ok ms -> zlen ms < 2 ^ 31 ->
  handleMessage gz peers (S depth) msgID (container_bytes ms) c =
  handle_all (handleMessage gz peers depth msgID) ms c.
Proof.
  intros Hms Hl. unfold container_bytes at 1. rewrite handleMessage_id by done.
  fold (container_bytes ms). unfold dispatch, handleContainer.
  change (handleContainer (handleMessage gz peers depth msgID) (container_bytes ms) c =
          handle_all (handleMessage gz peers depth msgID) ms c).
  unfold handleContainer. unfold bind at 1. unfold wrapping at 1, decode.
  by rewrite (parses_nil _ _ _ (parses_MessageContainer ms [] Hms Hl)).
Qed.

End Dispatch.

(** ** End to end *)


Section EndToEnd.
Context `{!IGE, !LawfulIGE, !SortImpl} (gz : gzip_lib) (peers : Peers).


End EndToEnd.

(** ** The depth of calls *)

(** [calm m]: [m] does not crash. *)
Definition calm {A} (m : GoM Conn A) : Prop := forall c, fst (m c) <> Panic.

Lemma calm_ret {A} (a : A) : calm (ret a).
Proof. done. Qed.
Lemma calm_fail {A} e : calm (@fail Conn A e).
Proof. done. Qed.
Lemma calm_get : calm (@get Conn).
Proof. done. Qed.
Lemma calm_put c : calm (put c).
Proof. done. Qed.
Lemma calm_modify f : calm (@modify Conn f).
Proof. done. Qed.
Lemma calm_emit e : calm (emit e).
Proof. done. Qed.
Lemma calm_check e : calm (check e).
Proof. by destruct e. Qed.
Lemma calm_bind {A B} (m : GoM Conn A) (k : A -> GoM Conn B) :
  calm m -> (forall a, calm (k a)) -> calm (bind m k).
Proof.
  intros Hm Hk c. unfold bind. specialize (Hm c). destruct (m c) as [[a|e|] c']; [apply Hk|done|done].
Qed.
Lemma calm_wrapping {A} msg (m : GoM Conn A) : calm m -> calm (wrapping msg m).
Proof. intros Hm c. unfold wrapping. specialize (Hm c). by destruct (m c) as [[] ?]. Qed.
Lemma calm_decode {A} (m : GoM Buffer A) b : safe m -> calm (decode m b).
Proof. intros Hm c. unfold decode. destruct (Hm b) as (r & b' & -> & Hr & _). done. Qed.
Lemma calm_Now : calm Now.
Proof. intros c. destruct (Now_spec c) as (t & c' & -> & _). done. Qed.
Lemma calm_session : calm session.
Proof. intros c. destruct (session_spec c) as (s & c' & -> & _). done. Qed.

Create HintDb calm.
#[export] Hint Resolve calm_ret calm_fail calm_get calm_put calm_modify calm_emit calm_check calm_bind
  calm_wrapping calm_decode calm_Now calm_session : calm.

Lemma safe_NewSessionCreated : safe NewSessionCreated_Decode.
Proof. unfold NewSessionCreated_Decode, field. solve_safe. Qed.
Lemma safe_BadMsgNotification : safe BadMsgNotification_Decode.
Proof. unfold BadMsgNotification_Decode, field. solve_safe. Qed.
Lemma safe_BadServerSalt : safe BadServerSalt_Decode.
Proof. unfold BadServerSalt_Decode, field. solve_safe. Qed.
Lemma safe_FutureSalts : safe FutureSalts_Decode.
Proof. unfold FutureSalts_Decode, FutureSalt_DecodeBare, field. solve_safe. apply safe_decode_n. solve_safe. Qed.
Lemma safe_Pong : safe Pong_Decode.
Proof. unfold Pong_Decode, field. solve_safe. Qed.
Lemma safe_MsgsAck : safe MsgsAck_Decode.
Proof. unfold MsgsAck_Decode, field. solve_safe. apply safe_decode_n. solve_safe. Qed.
Lemma safe_RPCError : safe RPCError_Decode.
Proof. unfold RPCError_Decode, field. solve_safe. Qed.
#[export] Hint Resolve safe_NewSessionCreated safe_BadMsgNotification safe_BadServerSalt safe_FutureSalts
  safe_Pong safe_MsgsAck safe_RPCError : bin.

Lemma safe_get : safe get.
Proof. intros b. by exists (Ok b), b. Qed.
#[export] Hint Resolve safe_get : bin.

Lemma safe_Result : safe Result.Decode.
Proof.
  unfold Result.Decode. apply safe_bind; [solve_safe|intros _]. apply safe_bind; [solve_safe|intros id].
  intros b. unfold bind, get, Skip, ret. simpl. pose proof (zlen_nonneg b).
  replace ((zlen b <? 0) || (zlen b <? zlen b)) with false by lia. eexists _, _. split; [done|]. split; [done|].
  apply suffix_drop.
Qed.

Lemma safe_GZIP gz : safe (GZIP.Decode gz).
Proof.
  unfold GZIP.Decode. apply safe_bind; [solve_safe|intros _]. apply safe_bind; [solve_safe|intros buf].
  intros b. eexists _, _. split; [done|]. split; [|done].
  unfold GZIP.decompress. destruct (gz_open gz buf); [done|].
  destruct (GZIP.read_all_limited _) as [data [e|]]; [by destruct (gz_close gz buf)|].
  case_bool; destruct (gz_close gz buf); done.
Qed.
#[export] Hint Resolve safe_Result safe_GZIP : bin.

Ltac solve_calm :=
  repeat first
    [ solve [eauto 3 with calm bin nocore]
    | apply calm_wrapping | apply calm_bind; [|intros ?]
    | match goal with |- calm (if ?b then _ else _) => destruct b end ].

Section Depth.
Context `{!SortImpl} (gz : gzip_lib) (peers : Peers).

Lemma calm_handleSessionCreated b : calm (handleSessionCreated peers b).
Proof. unfold handleSessionCreated, storeSalt. solve_calm. Qed.
Lemma calm_handleBadMsg b : calm (handleBadMsg b).
Proof. unfold handleBadMsg. solve_calm. Qed.
Lemma calm_handleFutureSalts b : calm (handleFutureSalts b).
Proof. unfold handleFutureSalts. solve_calm. Qed.
Lemma calm_handleAck b : calm (handleAck b).
Proof. unfold handleAck. solve_calm. Qed.
Lemma calm_handlePong b : calm (handlePong b).
Proof.
  intros c. unfold handlePong. destruct (safe_Pong b) as (r & b' & -> & Hr & _). simpl.
  destruct r as [[m p]|e|]; [|done|done]. by destruct (decide _).
Qed.
Lemma calm_handleResult b : calm (handleResult gz peers b).
Proof.
  assert (forall req id b, calm (handleResult_body peers req id b)) as Hbody.
  { intros. unfold handleResult_body. repeat (case_bool; try apply calm_handlePong); solve_calm. }
  unfold handleResult, gzip. solve_calm; apply Hbody.
Qed.

Lemma calm_handle_all handle ms :
  (forall m, m ∈ ms -> calm (handle (msg_Body m))) -> calm (handle_all handle ms).
Proof.
  induction ms as [|m ms IH]; intros Hms; simpl; [apply calm_ret|]. apply calm_bind; [apply Hms; by left|].
  intros _. apply IH. intros x Hx. apply Hms. by right.
Qed.

(** The messages of a container are shorter than it. *)
Lemma container_bodies b ms b' m :
  MessageContainer.Decode [] b = (Ok ms, b') -> m ∈ ms -> (length (msg_Body m) < length b)%nat.
Proof.
  unfold MessageContainer.Decode, wrapping. intros Hdec Hm.
  apply bind_inv_ok in Hdec as (u & b1 & H1 & Hdec).
  destruct (ConsumeID MessageContainerTypeID b) as [[]?] eqn:Hid; simplify_eq.
  inv_read. apply decode_messages_inv in Hdec as (new & -> & _ & Hok & ->). simpl in Hm.
  apply list_elem_of_split in Hm as (l1 & l2 & ->). rewrite map_app, concat_app. simpl.
  unfold message_bytes at 2. rewrite !length_app, !length_le_split. lia.
Qed.

(** The nesting of containers cannot exhaust the stack: without packed
    objects that open, handling a message of n bytes never needs more than n + 1
    nested calls, and no handler panics. *)
Theorem conn_containers_bounded (msgID : Z) (b : Buffer) (depth : nat) (c : Conn) :
  (forall x, gz_open gz x <> None) -> (length b < depth)%nat ->
  fst (handleMessage gz peers depth msgID b c) <> Panic.
Proof.
  intros Hgz. revert b c. induction depth as [|depth IH]; intros b c Hlen; [lia|]. revert c.
  change (calm (handleMessage gz peers (S depth) msgID b)). simpl.
  apply calm_bind; [solve_calm|]. intros id.
  repeat match goal with |- calm (if ?b then _ else _) => destruct b end;
    auto using calm_handleSessionCreated, calm_handleBadMsg, calm_handleFutureSalts, calm_handleAck, calm_handlePong,
      calm_handleResult; [| |solve_calm..].
  - intros c. unfold handleContainer, bind at 1, wrapping at 1, decode.
    destruct (MessageContainer.Decode [] b) as [[ms|e|] b'] eqn:ED; simpl; [|done|].
    + apply calm_handle_all. intros m Hm c'. apply IH. pose proof (container_bodies b ms b' m ED Hm). lia.
    + destruct (safe_MessageContainer [] b) as (r & b2 & Hr & Hp & _). congruence.
  - intros c. unfold handleGZIP, gzip, bind at 1, wrapping, decode, GZIP.Decode, bind.
    destruct (ConsumeID GZIPTypeID b) as [[[]|e|] b1] eqn:E1; simpl; [|done|].
    + destruct (Bytes b1) as [[x|e|] b2] eqn:E2; simpl; [|done|].
      * unfold GZIP.decompress. by destruct (gz_open gz x) eqn:Eo; [|by destruct (Hgz x)].
      * destruct (safe_Bytes b1) as (r & b3 & Hr & Hp & _). congruence.
    + destruct (safe_ConsumeID GZIPTypeID b) as (r & b3 & Hr & Hp & _). congruence.
Qed.

(** Packed objects have no such bound: an object that unpacks to itself
    exhausts every stack. *)
Theorem conn_gzip_unbounded (msgID : Z) (rest : list byte) (depth : nat) (c : Conn) :
  let b := le_split 4 GZIPTypeID ++ rest in
  fst (GZIP.Decode gz b) = Ok b ->
  handleMessage gz peers depth msgID b c = (Panic, c).
Proof.
  intros b Hq. revert c. induction depth as [|depth IH]; intros c; [done|].
  unfold b at 1. rewrite handleMessage_id by done. fold b.
  change (dispatch gz peers depth msgID GZIPTypeID b c) with (handleGZIP gz (handleMessage gz peers depth msgID) b c).
  unfold handleGZIP, gzip, bind, wrapping, decode. by rewrite Hq.
Qed.
End Depth.

(** ** Outgoing messages *)

(** The numbers of a sequence of messages, [true] for content messages. *)
Fixpoint nextMsgSeqs (flags : list bool) : GoM Conn (list (Z * Z)) :=
  match flags with
  | [] => ret []
  | content :: flags =>
      let! x := nextMsgSeq content in
      let! xs := nextMsgSeqs flags in
      ret (x :: xs)
  end.

Definition count_content (flags : list bool) : Z := zlen (List.filter id flags).

Lemma count_content_cons f flags : count_content (f :: flags) = Z.b2z f + count_content flags.
Proof. unfold count_content. destruct f; simpl; rewrite ?zlen_cons; lia. Qed.

Lemma nextMsgSeq_run content c :
  0 <= sentContentMessages c < 2 ^ 30 - 1 ->
  exists id c', nextMsgSeq content c = (Ok (id, 2 * sentContentMessages c + Z.b2z content), c') /\
    sentContentMessages c' = sentContentMessages c + Z.b2z content.
Proof.
  intros Hs. unfold nextMsgSeq. destruct (Now_spec c) as (t & c1 & Hn & _ & Hc & _).
  unfold bind at 1. rewrite Hn. unfold bind at 1. cbn [get].
  destruct (Gen.New t MessageFromClient (messageID c1)) as [id g].
  assert (sentContentMessages c1 = sentContentMessages c) as -> by apply Hc.
  set (n := sentContentMessages c) in *. clearbody n.
  assert (i32 (n * 2) = 2 * n) as -> by (rewrite swrap_id; [lia|lia|unfold is_signed; lia]).
  rewrite !swrap_id by (unfold is_signed; lia).
  unfold bind, put, ret. destruct content; simpl; rewrite ?Z.add_0_r; eexists id, _; by split.
Qed.

(** The sequence number of each outgoing message is twice the number of
    content messages before it, plus one if it is a content message itself. *)
Theorem conn_sequence_numbers (flags : list bool) (c : Conn) :
  0 <= sentContentMessages c -> sentContentMessages c + zlen flags < 2 ^ 30 ->
  exists out c', nextMsgSeqs flags c = (Ok out, c') /\ length out = length flags /\
    sentContentMessages c' = sentContentMessages c + count_content flags /\
    forall i content, flags !! i = Some content ->
      exists id, out !! i = Some (id, 2 * (sentContentMessages c + count_content (take i flags)) + Z.b2z content).
Proof.
  revert c. induction flags as [|f flags IH]; intros c H0 Hl.
  { exists [], c. split_and!; try done. unfold count_content. simpl. rewrite zlen_nil. lia. }
  rewrite zlen_cons in Hl. pose proof (zlen_nonneg flags).
  destruct (nextMsgSeq_run f c ltac:(lia)) as (id & c1 & Hr & Hs).
  assert (0 <= Z.b2z f <= 1) by (by destruct f).
  destruct (IH c1) as (out & c' & Hrun & Hlen & Hsent & Hspec); [lia|lia|].
  exists ((id, 2 * sentContentMessages c + Z.b2z f) :: out), c'. split_and!.
  - simpl. erewrite bind_ok by exact Hr. by erewrite bind_ok by exact Hrun.
  - simpl. by rewrite Hlen.
  - rewrite count_content_cons. lia.
  - intros [|i] content Hi; simpl in Hi.
    + injection Hi as <-. exists id. simpl. unfold count_content. simpl. rewrite zlen_nil. do 2 f_equal. lia.
    + destruct (Hspec i content Hi) as [id' Hid']. exists id'. simpl. rewrite Hid'.
      rewrite count_content_cons, Hs. do 2 f_equal. lia.
Qed.

Section Outgoing.
Context `{!IGE, !LawfulIGE, !SortImpl} (gz : gzip_lib) (Hgz : GzipRoundtrip gz).

Lemma gzip_bytes_aligned data : zlen (gzip_bytes gz data) mod 4 = 0.
Proof.
  unfold gzip_bytes. autorewrite with zlen. rewrite <- Zplus_mod_idemp_r, bytes_frame_aligned. done.
Qed.

Lemma gzip_bytes_short data :
  zlen (gz_write gz data) <= maxLongStringLength -> zlen (gzip_bytes gz data) < 2 ^ 31.
Proof.
  intros Hw. unfold gzip_bytes. autorewrite with zlen. rewrite zlen_bytes_frame.
  pose proof (zlen_nonneg (gz_write gz data)). pose proof (zlen_bytes_header (zlen (gz_write gz data))) as Hh.
  destruct (nearestPaddedValueLength_spec
              (zlen (bytes_header (zlen (gz_write gz data))) + zlen (gz_write gz data))) as [_ Hn];
    unfold maxLongStringLength in *; destruct (_ <=? maxSmallStringLength); lia.
Qed.

(** What newEncryptedMessage puts into the envelope. *)
Definition packed (threshold : Z) (p : list byte) : list byte :=
  if (threshold <=? 0) || (zlen p <=? threshold) then p else gzip_bytes gz p.

Lemma newEncryptedMessage_roundtrip (threshold id seq : Z) (payload : GoM Buffer unit) (p : list byte)
    (rand : Stream) (b : Buffer) (c : Conn) :
  (forall b, payload b = (Ok tt, b ++ p)) -> zlen p mod 4 = 0 -> zlen p < maxUncompressedSize ->
  ((threshold <=? 0) || (zlen p <=? threshold) = false -> zlen (gz_write gz p) <= maxLongStringLength) ->
  zlen (ak_ID (authKey c)) = 8 -> int64 (salt c) -> Forall (fun x => int64 (Salts.Salt x)) (salts c) ->
  int64 (sessionID c) -> int64 id -> int32 seq ->
  268 <= zlen (incoming rand) ->
  exists rand' out c' m rest data,
    newEncryptedMessage gz NewClientCipher threshold id seq payload rand b c = (Ok (rand', out), c') /\
    DecryptFromBuffer NewServerCipher (authKey c) out = (Ok m, rest) /\
    SessionID m = sessionID c /\ MessageID m = id /\ SeqNo m = seq /\ Cipher.Salt m = salt c' /\
    EncryptedMessageData.Data m = Ok data /\ data = packed threshold p /\
    (data = p \/ GZIP.Decode gz data = (Ok p, [])) /\
    zlen (incoming rand) - 268 <= zlen (incoming rand') /\ same_core c c' /\ salts_typed c'.
Proof.
  intros Hp Hal Hmax Hw Hk Hsalt Hsalts Hses Hid Hseq Hr. pose proof (zlen_nonneg p).
  assert (exists s c1, session c = (Ok s, c1) /\ ses_ID s = sessionID c /\ ses_Key s = authKey c /\
            ses_Salt s = salt c1 /\ same_core c c1 /\ salts_typed c1) as (s & c1 & Hs & Hsid & Hskey & Hss & Hcore & Hty).
  { by apply session_salt. }
  assert (int64 (ses_Salt s)) as Hsi by (rewrite Hss; apply Hty).
  unfold newEncryptedMessage. rewrite Hs, Hskey.
  set (d := mkData (ses_Salt s) (ses_ID s) id seq).
  assert (exists l raw msg, (if threshold <=? 0 then Ok (d 0 [] (Some payload))
      else match payload [] with
           | (Ok _, buf) => if zlen buf >? threshold then Ok (d 0 [] (Some (GZIP.Encode gz buf)))
                            else Ok (d (i32 (zlen buf)) buf None)
           | (Err e, _) => Err (Wrap e "encode payload") | (Panic, _) => Panic end) = Ok (d l raw msg) /\
      carries (d l raw msg) (packed threshold p)) as (l & raw & msg & Hd & Hc).
  { unfold packed. rewrite Hp. simpl. destruct (Z.leb_spec threshold 0); simpl; [by eexists _, _, _|].
    rewrite Z.gtb_ltb. destruct (Z.leb_spec (zlen p) threshold).
    - replace (threshold <? zlen p) with false by lia. eexists _, _, _. split; [done|]. simpl. split; [|done].
      apply swrap_id; [lia|]. unfold is_signed, maxUncompressedSize in *. lia.
    - replace (threshold <? zlen p) with true by lia. eexists _, _, _. split; [done|]. intros b'. apply GZIP_Encode_app. }
  rewrite Hd.
  destruct (Encrypt_Decrypt Client (authKey c) (d l raw msg) (packed threshold p) rand b)
    as (rand' & out & m & rest & HE & HD & HmS & HmI & HmM & HmQ & HmD & Hrd); try done.
  - unfold header_ok. simpl. by rewrite Hsid.
  - unfold packed. destruct (_ || _); [done|apply gzip_bytes_aligned].
  - unfold packed, maxUncompressedSize in *. destruct (_ || _) eqn:E; [lia|by apply gzip_bytes_short, Hw].
  - exists rand', out, c1, m, rest, (packed threshold p).
    change (Encrypt NewClientCipher) with (Encrypt (mkCipher Client)). rewrite HE. split_and!; try done.
    + by rewrite HmI.
    + by rewrite HmS.
    + unfold packed. destruct (_ || _) eqn:E; [by left|right].
      rewrite <- (app_nil_r (gzip_bytes gz p)). apply GZIP_Decode_bytes; auto.
Qed.

(** What the connection sends, the server reads back: the session id, the
    message id, the sequence number and the payload, packed with gzip exactly when
    it is longer than a positive threshold; a packed payload unpacks to the original. *)
Theorem conn_outgoing_roundtrip (threshold id seq : Z) (payload : GoM Buffer unit) (p : list byte)
    (rand : Stream) (b : Buffer) (c : Conn) :
  (forall b, payload b = (Ok tt, b ++ p)) -> zlen p mod 4 = 0 -> zlen p < maxUncompressedSize ->
  zlen (gz_write gz p) <= maxLongStringLength ->
  zlen (ak_ID (authKey c)) = 8 -> int64 (salt c) -> Forall (fun x => int64 (Salts.Salt x)) (salts c) ->
  int64 (sessionID c) -> int64 id -> int32 seq ->
  268 <= zlen (incoming rand) ->
  exists rand' out c' m rest data,
    newEncryptedMessage gz NewClientCipher threshold id seq payload rand b c = (Ok (rand', out), c') /\
    DecryptFromBuffer NewServerCipher (authKey c) out = (Ok m, rest) /\
    SessionID m = sessionID c /\ MessageID m = id /\ SeqNo m = seq /\ Cipher.Salt m = salt c' /\
    EncryptedMessageData.Data m = Ok data /\ data = packed threshold p /\
    (data = p \/ GZIP.Decode gz data = (Ok p, [])).
Proof.
  intros. destruct (newEncryptedMessage_roundtrip threshold id seq payload p rand b c)
    as (rand' & out & c' & m & rest & data & ? & ? & ? & ? & ? & ? & ? & ? & ? & _); try done.
  by exists rand', out, c', m, rest, data.
Qed.
End Outgoing.

(** ** Instances *)

Section Samples.
#[local] Instance ige_plain : IGE := { ige_encrypt _ _ p := p; ige_decrypt _ _ p := p }.
#[local] Instance ige_plain_lawful : LawfulIGE.
Proof. by split. Qed.
#[local] Existing Instance merge_sort_salts.

Definition sample_now : Z := 1700000000 * 10 ^ 9.
Definition sample_id : Z := NewMessageID sample_now MessageServerResponse.
Definition sample_peers : Peers := mkPeers (fun _ _ => None) (fun _ => None) (fun _ => None).
Definition sample_conn : Conn :=
  mkConn (WithID (zeros 256)) (WithID (zeros 256)) 5 7 [] 0 Gen.NewMessageIDGen (Buf.NewMessageIDBuf 100) ∅
         [sample_now] [].




Lemma conn_only_authentic_witness :
  let r := consumeMessage stored_gzip NewClientCipher sample_peers 1 None (zeros 40) sample_conn in
  messageIDBuf sample_conn <> [] /\ same_core sample_conn (snd r).
Proof.
  intros r. split; [discriminate|].
  destruct (conn_only_authentic stored_gzip NewClientCipher sample_peers 1 None (zeros 40) sample_conn (snd r) (fst r))
    as [Hsame|(m & rest & t & HD & _)]; [apply surjective_pairing|discriminate|exact Hsame|].
  exfalso. revert HD. vm_compute. discriminate.
Defined.

Definition sample_container : list Proto.Message :=
  [mkMessage 1 0 20 (le_split 4 MsgsAckTypeID ++ le_split 4 TypeVector ++ le_split 4 1 ++ le_split 8 42);
   mkMessage 5 0 4 (le_split 4 0x11111111)].

Lemma conn_container_in_order_witness :
  Forall message_ok sample_container /\
  events (snd (handleMessage stored_gzip sample_peers 2 0 (container_bytes sample_container) sample_conn)) =
    [NotifyAcks [42]; OnMessage (le_split 4 0x11111111)].
Proof.
  assert (Forall message_ok sample_container) as Hok by (apply (bool_decide_unpack _); vm_compute; exact I).
  split; [exact Hok|].
  rewrite (conn_container_in_order stored_gzip sample_peers 1 0 sample_container sample_conn Hok);
    vm_compute; reflexivity.
Defined.

(** A library that opens nothing. *)
Definition closed_gzip : gzip_lib :=
  {| gz_open _ := Some EOF; gz_stream _ := ([], None); gz_close _ := None; gz_write d := d |}.

Lemma conn_containers_bounded_witness :
  fst (handleMessage closed_gzip sample_peers 100 0 (container_bytes sample_container) sample_conn) <> Panic.
Proof.
  apply (conn_containers_bounded closed_gzip sample_peers 0 (container_bytes sample_container) 100 sample_conn);
    [done|vm_compute; lia].
Defined.

(** A library for which one packed object unpacks to itself. *)
Definition quine : list byte := le_split 4 GZIPTypeID ++ bytes_frame [Byte.x1f; Byte.x8b].
Definition quine_gzip : gzip_lib :=
  {| gz_open _ := None; gz_stream _ := (quine, None); gz_close _ := None; gz_write d := d |}.

Lemma conn_gzip_unbounded_witness :
  fst (GZIP.Decode quine_gzip quine) = Ok quine /\
  handleMessage quine_gzip sample_peers 1000 0 quine sample_conn = (Panic, sample_conn).
Proof.
  split; [vm_compute; reflexivity|].
  apply (conn_gzip_unbounded quine_gzip sample_peers 0 (bytes_frame [Byte.x1f; Byte.x8b]) 1000 sample_conn).
  vm_compute. reflexivity.
Defined.

Lemma conn_sequence_numbers_witness :
  exists out c', nextMsgSeqs [true; false; true] sample_conn = (Ok out, c') /\
    sentContentMessages c' = 2 /\ map snd out = [1; 2; 3].
Proof.
  destruct (conn_sequence_numbers [true; false; true] sample_conn) as (out & c' & Hrun & _ & Hs & _); [done|done|].
  exists out, c'. split; [exact Hrun|]. split; [exact Hs|]. revert Hrun. vm_compute. intros [= <- _]. reflexivity.
Defined.

Lemma conn_outgoing_roundtrip_witness :
  exists rand' out c' m rest data,
    newEncryptedMessage stored_gzip NewClientCipher 4 sample_id 1 (modify (fun b => b ++ zeros 8))
      (mkStream (zeros 300) EOF) [] sample_conn = (Ok (rand', out), c') /\
    DecryptFromBuffer NewServerCipher (WithID (zeros 256)) out = (Ok m, rest) /\
    EncryptedMessageData.Data m = Ok data /\ GZIP.Decode stored_gzip data = (Ok (zeros 8), []).
Proof.
  destruct (conn_outgoing_roundtrip stored_gzip stored_gzip_roundtrip 4 sample_id 1
    (modify (fun b => b ++ zeros 8)) (zeros 8) (mkStream (zeros 300) EOF) [] sample_conn)
    as (rand' & out & c' & m & rest & data & Hrun & HD & _ & _ & _ & _ & Hdata & Hp & Hor).
  - done.
  - reflexivity.
  - reflexivity.
  - vm_compute. discriminate.
  - reflexivity.
  - apply (bool_decide_unpack _). vm_compute. exact I.
  - constructor.
  - apply (bool_decide_unpack _). vm_compute. exact I.
  - apply (bool_decide_unpack _). vm_compute. exact I.
  - apply (bool_decide_unpack _). vm_compute. exact I.
  - vm_compute. discriminate.
  - exists rand', out, c', m, rest, data. split; [exact Hrun|]. split; [exact HD|]. split; [exact Hdata|].
    destruct Hor as [->|Hz]; [|exact Hz]. exfalso. revert Hp. vm_compute. discriminate.
Defined.
End Samples.
