(* ===== verification/Lifecycle.v ===== *)
(** * mtproto: lifecycle of a connection

    Model of src/mtproto options.go, connect.go, bind.go, pfs.go, ack.go, rpc.go, the
    loops of ping.go and salt.go, handleAuthKeyNotFound of read.go, and New and Run
    of conn.go, on top of Conn.v (the session), Flow.v (the key exchange) and
    Tgerr.v.  The answers of the server to requests of the connection, and the
    errors with which they end, are a list that every call of rpc.Do takes the next
    entry of; the frames of a key exchange are the inbox of the flow.  Loops are
    functions of the events that wake them up.  What other goroutines do to the
    session during a call is left out, as are contexts except for how they end. *)
From Stdlib Require Import Zpow_facts Znumtheory.
From S2P Require Import Prelude Io Bin MessageID Proto Schema Tgerr Hash Keys Cipher Exchange Dh Pq Flow Salts Conn.

(** ** State *)

(** The configuration of a connection. *)
Record Config : Type := mkConfig {
  dcID : Z; pfs : bool; tempKeyTTL : Z; rsaPublicKeys : list PublicKey; ackBatchSize : Z;
  pingInterval : Z; pingTimeout : Z; compressThreshold : Z }.

(** An auth.bindTempAuthKey request. *)
Record BindRequest : Type := mkBindRequest {
  br_PermAuthKeyID : Z; br_Nonce : Z; br_ExpiresAt : Z; br_EncryptedMessage : list byte }.

(** The requests that the modelled code makes itself, and the ones of callers. *)
Inductive Input : Type :=
| InBind (r : BindRequest)
| InDropAnswer (reqMsgID : Z)
| InCaller (b : list byte).

Record Request : Type := mkRequest { rq_MsgID : Z; rq_SeqNo : Z; rq_Input : Input }.

(** Conn.v's fields and the ones that the lifecycle adds: [wire] has the random
    source, the frames of the transport and the cache of the process. *)
Record Life : Type := mkLife {
  base : Conn; wire : flow;
  permKeyCreatedAt : Z; tempKeyExpiry : Z;
  up : bool;                                 (* c.conn != nil *)
  closes : Z;                                (* calls of conn.Close *)
  answers : list (error + Buffer);           (* how the next calls of rpc.Do end *)
  requests : list Request;
  ran : bool; tasks : list string }.

Definition set_base (v : Conn) (l : Life) : Life :=
  mkLife v (wire l) (permKeyCreatedAt l) (tempKeyExpiry l) (up l) (closes l) (answers l) (requests l) (ran l) (tasks l).
Definition set_wire (v : flow) (l : Life) : Life :=
  mkLife (base l) v (permKeyCreatedAt l) (tempKeyExpiry l) (up l) (closes l) (answers l) (requests l) (ran l) (tasks l).
Definition set_created (v : Z) (l : Life) : Life :=
  mkLife (base l) (wire l) v (tempKeyExpiry l) (up l) (closes l) (answers l) (requests l) (ran l) (tasks l).
Definition set_expiry (v : Z) (l : Life) : Life :=
  mkLife (base l) (wire l) (permKeyCreatedAt l) v (up l) (closes l) (answers l) (requests l) (ran l) (tasks l).
Definition set_up (v : bool) (n : Z) (l : Life) : Life :=
  mkLife (base l) (wire l) (permKeyCreatedAt l) (tempKeyExpiry l) v n (answers l) (requests l) (ran l) (tasks l).
Definition set_answers (v : list (error + Buffer)) (r : list Request) (l : Life) : Life :=
  mkLife (base l) (wire l) (permKeyCreatedAt l) (tempKeyExpiry l) (up l) (closes l) v r (ran l) (tasks l).
Definition set_ran (l : Life) : Life :=
  mkLife (base l) (wire l) (permKeyCreatedAt l) (tempKeyExpiry l) (up l) (closes l) (answers l) (requests l) true (tasks l).
Definition add_task (t : string) (l : Life) : Life :=
  mkLife (base l) (wire l) (permKeyCreatedAt l) (tempKeyExpiry l) (up l) (closes l) (answers l) (requests l) (ran l)
         (tasks l ++ [t]).

(** The fields of the session, written under sessionMux. *)
Definition set_session (auth perm : AuthKey) (s id : Z) (c : Conn) : Conn :=
  mkConn auth perm s id (salts c) (sentContentMessages c) (messageID c) (messageIDBuf c) (ping c) (clock c) (events c).

Definition on_base {A} (m : GoM Conn A) : GoM Life A := fun l =>
  let '(r, c) := m (base l) in (r, set_base c l).
Definition draw {A} (m : GoM Stream A) : GoM Life A := fun l =>
  let '(r, f) := Flow.random m (wire l) in (r, set_wire f l).

(** c.clock.Now().Unix() *)
Definition NowUnix : GoM Life Z := let! t := on_base Now in ret (t / second).

(** One call of rpc.Do: the request is recorded, the answer decoded. *)
Definition Do {A} (req : Request) (output : GoM Buffer A) : GoM Life A := fun l =>
  match answers l with
  | [] => (Err (fl_ctx (wire l)), set_answers [] (requests l ++ [req]) l)
  | inl e :: rest => (Err e, set_answers rest (requests l ++ [req]) l)
  | inr b :: rest => (fst (output b), set_answers rest (requests l ++ [req]) l)
  end.

(** errors.As with a *badMessageError target: code and salt. *)
Fixpoint as_badMessageError (err : error) : option (Z * Z) :=
  match err with
  | badMessageError code salt => Some (code, salt)
  | Wrap e _ | ServerExchangeError _ e => as_badMessageError e
  | MultiErr e1 e2 =>
      match as_badMessageError e1 with Some r => Some r | None => as_badMessageError e2 end
  | _ => None
  end.

Definition codeIncorrectServerSalt : Z := 48.

(** The salt that an error tells to use instead. *)
Definition bad_salt (err : error) : option Z :=
  match as_badMessageError err with
  | Some (code, salt) => if code =? codeIncorrectServerSalt then Some salt else None
  | None => None
  end.

(** [c.storeSalt(s); c.salts.Reset()] *)
Definition use_salt (s : Z) : GoM Life unit :=
  on_base (storeSalt s) ;;! on_base (modify (fun c => set_salts (Reset (salts c)) c)).

(** ** rpc.go *)

Definition Invoke {A} (input : Input) (output : GoM Buffer A) : GoM Life A :=
  let! ids := on_base (nextMsgSeq true) in
  let req := mkRequest (fst ids) (snd ids) input in
  fun l =>
    match Do req output l with
    | (Err e, l) =>
        match bad_salt e with
        | Some s => (use_salt s ;;! Do req output) l
        | None => (Err (Wrap e "rpcDoRequest"), l)
        end
    | r => r
    end.

Inductive RPCDropAnswerClass : Type :=
| RPCAnswerUnknown | RPCAnswerDroppedRunning | RPCAnswerDropped (msgID seqNo bytes : Z).

Definition RPCAnswerUnknownTypeID : Z := 0x5e2ad36e.
Definition RPCAnswerDroppedRunningTypeID : Z := 0xcd78e586.
Definition RPCAnswerDroppedTypeID : Z := 0xa43ad8b7.

Definition DecodeRPCDropAnswer : GoM Buffer RPCDropAnswerClass :=
  let! id := PeekID in
  if id =? RPCAnswerUnknownTypeID then
    wrapping "RPCDropAnswerClass" (field "rpc_answer_unknown" (ConsumeID RPCAnswerUnknownTypeID) ;;! ret RPCAnswerUnknown)
  else if id =? RPCAnswerDroppedRunningTypeID then
    wrapping "RPCDropAnswerClass"
      (field "rpc_answer_dropped_running" (ConsumeID RPCAnswerDroppedRunningTypeID) ;;! ret RPCAnswerDroppedRunning)
  else if id =? RPCAnswerDroppedTypeID then
    wrapping "RPCDropAnswerClass"
      (field "rpc_answer_dropped" (ConsumeID RPCAnswerDroppedTypeID) ;;!
       let! msgID := field "msg_id" Long in
       let! seqNo := field "seq_no" Int in
       let! bytes := field "bytes" Int in
       ret (RPCAnswerDropped msgID seqNo bytes))
  else fail (Wrap (UnexpectedIDErr id) "RPCDropAnswerClass").

Definition dropRPC (req : Request) : GoM Life unit :=
  let! resp := Invoke (InDropAnswer (rq_MsgID req)) DecodeRPCDropAnswer in
  match resp with
  | RPCAnswerDropped _ _ _ | RPCAnswerDroppedRunning => ret tt
  | RPCAnswerUnknown => fail (Errorf "answer unknown")
  end.

(** ** bind.go *)

Definition maxBindTempAuthKeyAttempts : nat := 3.

(** tg.BoolBox *)
Definition DecodeBool : GoM Buffer bool :=
  let! id := PeekID in
  if id =? TypeFalse then
    wrapping "BoolClass" (field "boolFalse" (ConsumeID TypeFalse) ;;! ret false)
  else if id =? TypeTrue then
    wrapping "BoolClass" (field "boolTrue" (ConsumeID TypeTrue) ;;! ret true)
  else fail (Wrap (UnexpectedIDErr id) "BoolClass").

(** The expiry of the temporary key, or an estimate. *)
Definition expiresAt_ (cfg : Config) : GoM Life Z :=
  let! l := get in
  if tempKeyExpiry l =? 0
  then let! now := NowUnix in ret (i64 (now + tempKeyTTL cfg))
  else ret (tempKeyExpiry l).

Section Bind.
Context `{!IGE} (cfg : Config).

Definition bindTempAuthKeyAttempt : GoM Life unit :=
  let! s := on_base session in
  if AuthKey_Zero (ses_Key s) then fail (Errorf "temporary key is zero")
  else if AuthKey_Zero (ses_PermKey s) then fail (Errorf "permanent key is zero")
  else if ses_ID s =? 0 then fail (Errorf "temporary session id is zero")
  else
    let! expiresAt := expiresAt_ cfg in
    let! nonce := wrapping "generate nonce" (draw RandInt64) in
    let inner := mkBind nonce (IntID (ses_Key s)) (IntID (ses_PermKey s)) (ses_ID s) expiresAt in
    let! ids := on_base (nextMsgSeq true) in
    let! encryptedMessage :=
      wrapping "encrypt bind message" (draw (EncryptBindMessage (ses_PermKey s) (fst ids) inner)) in
    let call := mkRequest (fst ids) (snd ids)
      (InBind (mkBindRequest (IntID (ses_PermKey s)) nonce expiresAt encryptedMessage)) in
    let! ok := fun l =>
      match Do call DecodeBool l with
      | (Err e, l) =>
          match bad_salt e with
          | Some s => (use_salt s ;;! wrapping "invoke auth.bindTempAuthKey" (Do call DecodeBool)) l
          | None => (Err (Wrap e "invoke auth.bindTempAuthKey"), l)
          end
      | r => r
      end in
    if negb ok then fail (Errorf "temp auth key bind rejected") else ret tt.

Definition permKeyAgeKnown : GoM Life bool := let! l := get in ret (negb (permKeyCreatedAt l =? 0)).

Definition permKeyOlderThan60s : GoM Life bool :=
  let! l := get in
  if permKeyCreatedAt l =? 0 then ret false
  else let! now := NowUnix in ret (now - permKeyCreatedAt l >? 60).

Definition ZeroKey : AuthKey := mkAuthKey (zeros KeySize) (zeros 8).

Definition dropPFSKeys : GoM Life unit :=
  modify (fun l => set_base (set_session ZeroKey ZeroKey 0 0 (base l)) (set_expiry 0 (set_created 0 l))).

Definition handleBindEncryptedMessageInvalid (attempt : nat) : GoM Life unit :=
  let! older := permKeyOlderThan60s in
  if older then
    dropPFSKeys ;;! fail (Wrap ErrPFSDropKeysRequired "pfs keys dropped after ENCRYPTED_MESSAGE_INVALID")
  else
    let! known := permKeyAgeKnown in
    if negb known then
      if Nat.leb maxBindTempAuthKeyAttempts attempt then
        dropPFSKeys ;;!
        fail (Wrap ErrPFSDropKeysRequired
          "pfs keys dropped after repeated ENCRYPTED_MESSAGE_INVALID with unknown key age")
      else ret tt
    else ret tt.

Definition handleBindConnectionNotInited (attempt : nat) : GoM Life unit :=
  if Nat.ltb attempt maxBindTempAuthKeyAttempts then ret tt
  else fail (Errorf "auth.bindTempAuthKey failed with CONNECTION_NOT_INITED after retries").

Definition ErrEncryptedMessageInvalid : list byte := bytes_of_string "ENCRYPTED_MESSAGE_INVALID".
Definition ConnectionNotInited : list byte := bytes_of_string "CONNECTION_NOT_INITED".

(** The loop: [attempt] is the number of the next attempt, [remaining] how many there are left. *)
Fixpoint bind_loop (remaining attempt : nat) (lastErr : error) : GoM Life unit :=
  match remaining with
  | O => fail (Wrap lastErr "temporary auth key bind retry limit reached")
  | S remaining => fun l =>
      match bindTempAuthKeyAttempt l with
      | (Ok _, l) => (Ok tt, l)
      | (Panic, l) => (Panic, l)
      | (Err e, l) =>
          if IsOneOfTypes e [ErrEncryptedMessageInvalid]
          then (handleBindEncryptedMessageInvalid attempt ;;! bind_loop remaining (S attempt) e) l
          else if IsOneOfTypes e [ConnectionNotInited]
          then (handleBindConnectionNotInited attempt ;;! bind_loop remaining (S attempt) e) l
          else (Err e, l)
      end
  end.

(** A nil lastErr cannot be returned: the loop runs at least once. *)
Definition bindTempAuthKey : GoM Life unit := bind_loop maxBindTempAuthKeyAttempts 1 (OtherErr 0).
End Bind.

(** ** connect.go *)

Section Connect.
Context `{!IGE, !XorLib} (ProbablyPrime : Z -> bool) (cfg : Config).

(** runExchange: the flow of Flow.v on the transport, the random source and the
    clock of the connection.  Without WithTempMode the mode is permanent. *)
Definition runExchange (mode : ExchangeMode) (expiresIn : Z) : GoM Life ClientExchangeResult := fun l =>
  if negb (up l) then (Err ErrTransportNotReady, l)
  else
    let client := mkClient (rsaPublicKeys cfg) (dcID cfg) mode
      match mode with ExchangeModeTemporary => expiresIn | ExchangeModePermanent => 0 end in
    let '(r, f) := Client_Run ProbablyPrime client (Flow.set_clock (clock (base l)) (wire l)) in
    (r, set_wire f (set_base (set_clock (fl_clock f) (base l)) l)).

Definition createAuthKey : GoM Life unit :=
  let! r := runExchange ExchangeModePermanent 0 in
  modify (fun l => set_base (set_session (cr_AuthKey r) (permKey (base l)) (cr_ServerSalt r) (cr_SessionID r) (base l)) l).

Definition createPermAuthKey : GoM Life unit :=
  let! r := runExchange ExchangeModePermanent 0 in
  let! now := NowUnix in
  modify (fun l => set_base (set_session (authKey (base l)) (cr_AuthKey r) (salt (base l)) (sessionID (base l)) (base l))
                     (set_created now l)).

Definition createTempAuthKey : GoM Life unit :=
  let! r := runExchange ExchangeModeTemporary (tempKeyTTL cfg) in
  let! expiresAt :=
    (if cr_ExpiresAt r =? 0 then let! now := NowUnix in ret (i64 (now + tempKeyTTL cfg))
     else ret (cr_ExpiresAt r)) in
  modify (fun l => set_base (set_session (cr_AuthKey r) (permKey (base l)) (cr_ServerSalt r) (cr_SessionID r) (base l))
                     (set_expiry expiresAt l)).

Definition connectPFS : GoM Life unit :=
  let! l := get in
  (if AuthKey_Zero (permKey (base l)) then wrapping "create permanent auth key" createPermAuthKey else ret tt) ;;!
  wrapping "create temporary auth key" createTempAuthKey.

(** session.go *)
Definition newSessionID : GoM Life unit :=
  let! id := draw RandInt64 in
  modify (fun l => set_base (set_session (authKey (base l)) (permKey (base l)) (salt (base l)) id (base l)) l).

(** What connect does on an open transport. *)
Definition connect_body : GoM Life unit :=
  if pfs cfg then connectPFS
  else
    let! s := on_base session in
    if AuthKey_Zero (ses_Key s) then wrapping "create auth key" createAuthKey
    else if ses_ID s =? 0 then newSessionID
    else ret tt.

(** connect: [dialErr] and [closeErr] are what the dialer and conn.Close return. *)
Definition connect (dialErr closeErr : option error) : GoM Life unit := fun l =>
  match dialErr with
  | Some e => (Err (Wrap e "dial failed"), l)
  | None =>
      match connect_body (set_up true (closes l) l) with
      | (Err e, l) =>
          (Err match closeErr with Some e' => MultiErr e e' | None => e end, set_up (up l) (closes l + 1) l)
      | r => r
      end
  end.

(** read.go: the server does not know the key. *)
Definition handleAuthKeyNotFound : GoM Life unit :=
  let! s := on_base session in
  if pfs cfg then fail (Wrap ErrPFSReconnectRequired "temporary auth key not found in pfs mode")
  else wrapping "unable to create auth key" createAuthKey.

(** ** pfs.go *)

(** time.Time.Sub of instants given in nanoseconds saturates. *)
Definition Sub (t u : Z) : Z := Z.max (- 2 ^ 63) (Z.min (2 ^ 63 - 1) (t - u)).

(** tempKeyRenewalLoop up to its timer: how long it waits, in nanoseconds. *)
Definition renewal_wait : GoM Life Z :=
  let! expiresAt := expiresAt_ cfg in
  let renewAt := i64 (expiresAt - (tempKeyTTL cfg) `quot` 4) in
  let! now := on_base Now in
  let wait := Sub (renewAt * second) now in
  ret (if wait <? 0 then 0 else wait).

(** The loop: [done] is ctx.Err() when the context ends before the timer fires. *)
Definition tempKeyRenewalLoop (done : option error) : GoM Life unit :=
  if negb (pfs cfg) then fun l => (Err (default (fl_ctx (wire l)) done), l)
  else
    let! wait := renewal_wait in
    match done with
    | Some e => fail e
    | None => fail (Wrap ErrPFSReconnectRequired "temporary auth key renewal required")
    end.

(** ** conn.go *)

(** Run, up to the goroutines it starts and waits for; [group] is what they end
    with.  A failed bind returns without waiting for them. *)
Definition Run (dialErr closeErr group : option error) : GoM Life unit :=
  let! l := get in
  modify set_ran ;;!
  if ran l then fail (Errorf "do Run on closed connection")
  else
    wrapping "start" (connect dialErr closeErr) ;;!
    modify (add_task "handleClose") ;;!
    modify (add_task "readLoop") ;;!
    (if pfs cfg then wrapping "initial temp key bind" (bindTempAuthKey cfg) else ret tt) ;;!
    modify (add_task "pingLoop") ;;!
    modify (add_task "ackLoop") ;;!
    modify (add_task "saltsLoop") ;;!
    (if pfs cfg then modify (add_task "tempKeyRenewal") else ret tt) ;;!
    modify (add_task "userCallback") ;;!
    match group with Some e => fail (Wrap e "group") | None => ret tt end.
End Connect.

(** ** write.go, ack.go, ping.go, salt.go *)

(** The service messages of src/mt that the loops send. *)
Definition MsgsAck_Encode (msgIDs : list Z) : GoM Buffer unit :=
  modify (PutID Mt.MsgsAckTypeID) ;;!
  modify (PutVectorHeader (zlen msgIDs)) ;;!
  put_all PutLong msgIDs.

Definition PingRequestTypeID : Z := 0x7abe77ec.
Definition PingRequest_Encode (pingID : Z) : GoM Buffer unit :=
  modify (PutID PingRequestTypeID) ;;! modify (PutLong pingID).

Definition PingDelayDisconnectRequestTypeID : Z := 0xf3427b8c.
Definition PingDelayDisconnectRequest_Encode (pingID disconnectDelay : Z) : GoM Buffer unit :=
  modify (PutID PingDelayDisconnectRequestTypeID) ;;! modify (PutLong pingID) ;;! modify (PutInt disconnectDelay).

Definition GetFutureSaltsRequestTypeID : Z := 0xb921bd04.
Definition GetFutureSaltsRequest_Encode (num : Z) : GoM Buffer unit :=
  modify (PutID GetFutureSaltsRequestTypeID) ;;! modify (PutInt num).

(** What wakes up the loops.  A tick of the ping loop comes with how the ping it
    sends ends: a pong, or the end of its context. *)
Inductive AckEvent : Type := AckTick | AckQueued (msgID : Z) | AckDone (ctxErr : error).
Inductive PingEvent : Type := PingTick (answer : option error) | PingDone (ctxErr : error).
Inductive SaltEvent : Type := SaltTick | SaltDone (ctxErr : error).

Section Loops.
Context `{!IGE} (gz : gzip_lib) (cipher : Cipher) (cfg : Config).

(** write: the random source of the cipher is the one of the connection.  An
    encryption that fails leaves the source as it was. *)
Definition write (msgID seqNo : Z) (message : GoM Buffer unit) : GoM Life unit := fun l =>
  match newEncryptedMessage gz cipher (compressThreshold cfg) msgID seqNo message (fl_rand (wire l)) [] (base l) with
  | (Ok (rand, b), c) =>
      let l := set_wire (set_rand rand (wire l)) (set_base c l) in
      if negb (up l) then (Err ErrTransportNotReady, l)
      else let '(r, f) := Send b (wire l) in (r, set_wire f l)
  | (Err e, c) => (Err e, set_base c l)
  | (Panic, c) => (Panic, set_base c l)
  end.

Definition writeContentMessage : Z -> Z -> GoM Buffer unit -> GoM Life unit := write.

Definition writeServiceMessage (message : GoM Buffer unit) : GoM Life unit :=
  let! ids := on_base (nextMsgSeq false) in
  write (fst ids) (snd ids) message.

(** [send] of ackLoop: an error is logged, and the buffer is emptied in any case. *)
Definition ack_send (buf : list Z) : GoM Life (list Z) := fun l =>
  match writeServiceMessage (MsgsAck_Encode buf) l with
  | (Panic, l) => (Panic, l)
  | (_, l) => (Ok (take 0 buf), l)
  end.

(** ackLoop; it returns the buffer when it is left waiting for the next event. *)
Fixpoint ackLoop (events : list AckEvent) (buf : list Z) : GoM Life (list Z) :=
  match events with
  | [] => ret buf
  | AckDone e :: _ => fail (Wrap e "acl")
  | AckTick :: events =>
      let! buf := (if zlen buf >? 0 then ack_send buf else ret buf) in
      ackLoop events buf
  | AckQueued msgID :: events =>
      let buf := buf ++ [msgID] in
      let! buf := (if zlen buf >=? ackBatchSize cfg then ack_send buf else ret buf) in
      ackLoop events buf
  end.

(** [defer f()] around [m]. *)
Definition deferred {A} (f : Life -> Life) (m : GoM Life A) : GoM Life A := fun l =>
  let '(r, l) := m l in (r, f l).

(** Ping and pingDelayDisconnect, from the random id on. *)
Definition ping_with (message : Z -> GoM Buffer unit) (answer : option error) : GoM Life unit :=
  let! pingID := draw RandInt64 in
  on_base (pong pingID) ;;!
  deferred (fun l => snd (on_base (removePong pingID) l))
    (wrapping "write" (writeServiceMessage (message pingID)) ;;!
     match answer with None => ret tt | Some e => fail e end).

Definition Ping : option error -> GoM Life unit := ping_with PingRequest_Encode.
Definition pingDelayDisconnect (delay : Z) : option error -> GoM Life unit :=
  ping_with (fun pingID => PingDelayDisconnectRequest_Encode pingID delay).

(** int(delay.Seconds()), with the sum of the durations as an int64. *)
Definition ping_delay : Z := (i64 (pingInterval cfg + pingTimeout cfg)) `quot` second.

Fixpoint pingLoop (events : list PingEvent) : GoM Life unit :=
  match events with
  | [] => ret tt
  | PingDone e :: _ => fail (Wrap e "ping loop")
  | PingTick answer :: events =>
      wrapping "disconnect (pong missed)" (pingDelayDisconnect ping_delay answer) ;;!
      pingLoop events
  end.

Definition defaultSaltsNum : Z := 4.

Definition getSalts : GoM Life unit :=
  wrapping "request salts" (writeServiceMessage (GetFutureSaltsRequest_Encode defaultSaltsNum)).

Fixpoint salt_ticks (events : list SaltEvent) : GoM Life unit :=
  match events with
  | [] => ret tt
  | SaltDone e :: _ => fail e
  | SaltTick :: events => getSalts ;;! salt_ticks events
  end.

(** saltLoop: [ready] is how the wait for the session ends. *)
Definition saltLoop (ready : option error) (events : list SaltEvent) : GoM Life unit :=
  match ready with
  | Some e => fail e
  | None => getSalts ;;! salt_ticks events
  end.
End Loops.

(** ** options.go and New *)

(** The options that the modelled code reads; intervals are in nanoseconds. *)
Record Options : Type := mkOptions {
  o_DC : Z; o_PublicKeys : list PublicKey; o_AckBatchSize : Z; o_AckInterval : Z; o_RetryInterval : Z;
  o_MaxRetries : Z; o_DialTimeout : Z; o_ExchangeTimeout : Z; o_SaltFetchInterval : Z; o_PingTimeout : Z;
  o_PingInterval : Z; o_CompressThreshold : Z; o_Key : AuthKey; o_PermKey : AuthKey; o_Salt : Z;
  o_EnablePFS : bool; o_TempKeyTTL : Z }.

Definition defaultTempKeyTTL : Z := 24 * 60 * 60.
Definition minTempKeyTTL : Z := 60.

Definition setDefaults (vendoredKeys : list PublicKey) (opt : Options) : Options :=
  let or (v d : Z) := if v =? 0 then d else v in
  let ttl := or (o_TempKeyTTL opt) defaultTempKeyTTL in
  mkOptions (or (o_DC opt) 2)
    (if zlen (o_PublicKeys opt) =? 0 then vendoredKeys else o_PublicKeys opt)
    (or (o_AckBatchSize opt) 20) (or (o_AckInterval opt) (15 * second)) (or (o_RetryInterval opt) (5 * second))
    (or (o_MaxRetries opt) 5) (or (o_DialTimeout opt) (35 * second)) (or (o_ExchangeTimeout opt) (60 * second))
    (or (o_SaltFetchInterval opt) (3600 * second)) (or (o_PingTimeout opt) (15 * second))
    (or (o_PingInterval opt) (60 * second)) (or (o_CompressThreshold opt) 1024)
    (o_Key opt)
    (if o_EnablePFS opt && AuthKey_Zero (o_PermKey opt) && negb (AuthKey_Zero (o_Key opt))
     then o_Key opt else o_PermKey opt)
    (o_Salt opt) (o_EnablePFS opt) (if ttl <? minTempKeyTTL then minTempKeyTTL else ttl).

(** New: the configuration and the state.  The clock, the random source and the
    transport belong to the caller; [w] and [t] are theirs. *)
Definition New (vendoredKeys : list PublicKey) (opt : Options) (w : flow) (t : list Z) (ans : list (error + Buffer))
    : Config * Life :=
  let opt := setDefaults vendoredKeys opt in
  let perm :=
    if o_EnablePFS opt && AuthKey_Zero (o_PermKey opt) && negb (AuthKey_Zero (o_Key opt))
    then o_Key opt else o_PermKey opt in
  let auth := if o_EnablePFS opt then ZeroKey else o_Key opt in
  (mkConfig (o_DC opt) (o_EnablePFS opt) (o_TempKeyTTL opt) (o_PublicKeys opt) (o_AckBatchSize opt)
     (o_PingInterval opt) (o_PingTimeout opt) (o_CompressThreshold opt),
   mkLife (mkConn auth perm (o_Salt opt) 0 [] 0 Gen.NewMessageIDGen (Buf.NewMessageIDBuf 100) ∅ t [])
     w 0 0 false 0 ans [] false []).

(** ** Acknowledgements *)

(** What MsgsAck.Encode appends. *)
Definition ack_bytes (ids : list Z) : list byte :=
  le_split 4 Mt.MsgsAckTypeID ++ PutVectorHeader (zlen ids) [] ++ concat (map (fun v => le_split 8 (u64 v)) ids).

Lemma MsgsAck_Encode_app ids b : MsgsAck_Encode ids b = (Ok tt, b ++ ack_bytes ids).
Proof.
  unfold MsgsAck_Encode, ack_bytes. run_puts. rewrite put_all_longs, PutVectorHeader_app. by rewrite <- !app_assoc.
Qed.

Lemma zlen_ack_bytes ids : zlen (ack_bytes ids) = 12 + 8 * zlen ids.
Proof.
  unfold ack_bytes. autorewrite with zlen. change (zlen (PutVectorHeader _ [])) with 8.
  assert (zlen (concat (map (fun v => le_split 8 (u64 v)) ids)) = 8 * zlen ids); [|lia].
  induction ids as [|v ids IH]; [done|]. cbn [map concat]. rewrite zlen_app, IH, zlen_cons.
  autorewrite with zlen. lia.
Qed.

Lemma parses_MsgsAck ids :
  Forall (fun v => int64 v) ids -> zlen ids < 2 ^ 31 -> parses Mt.MsgsAck_Decode (ack_bytes ids) ids.
Proof.
  intros Hi Hl. pose proof (zlen_nonneg ids). unfold Mt.MsgsAck_Decode, ack_bytes, field.
  eapply parses_bind; [solve_field|].
  eapply parses_bind; [apply parses_wrapping, parses_VectorHeader; lia|].
  unfold zlen. rewrite Nat2Z.id.
  apply (parses_decode_n (wrapping "msg_ids" Long) (fun v => le_split 8 (u64 v)) ids []).
  eapply Forall_impl; [exact Hi|]. intros v Hv. apply parses_wrapping. by apply parses_Long.
Qed.

(** The session of a connection that can send. *)
Definition ready (l : Life) : Prop :=
  up l = true /\ zlen (ak_ID (authKey (base l))) = 8 /\ salts_typed (base l) /\ int64 (sessionID (base l)).

(** The server of session [sid] with key [k] reads [data] from a frame. *)
Definition server_reads `{!IGE} (k : AuthKey) (sid : Z) (frame data : list byte) : Prop :=
  exists m rest, DecryptFromBuffer NewServerCipher k frame = (Ok m, rest) /\ SessionID m = sid /\
    EncryptedMessageData.Data m = Ok data.

(** The result of the next send, and whether it puts a frame on the wire. *)
Definition next_send (l : Life) : outcome unit :=
  match fl_sends (wire l) with Some e :: _ => Err e | _ => Ok tt end.

Lemma nextMsgSeq_typed content c : exists id seq c', nextMsgSeq content c = (Ok (id, seq), c') /\
  int64 id /\ int32 seq /\ authKey c' = authKey c /\ permKey c' = permKey c /\ sessionID c' = sessionID c /\
  (salts_typed c -> salts_typed c') /\ later c c'.
Proof.
  unfold nextMsgSeq. destruct (Now_spec c) as (t & c1 & Hn & _ & (Ha & Hp & Hi & _) & Hl & Hs & Hss).
  erewrite bind_ok by exact Hn. erewrite bind_ok by done.
  destruct (Gen.New t MessageFromClient (messageID c1)) as [id g] eqn:EG.
  eexists id, _, _. split; [reflexivity|]. split_and!; try done.
  - unfold Gen.New in EG. injection EG as <- _. apply is_signed_lor; [lia|apply swrap_range; lia..].
  - destruct content; apply swrap_range; lia.
  - unfold salts_typed. simpl. by rewrite Hs, Hss.
Qed.

Section Acks.
Context `{ige : IGE, lige : !LawfulIGE, sort : !SortImpl} (gz : gzip_lib) (Hgz : GzipRoundtrip gz) (cfg : Config).

(** What a loop that sends frames leaves alone. *)
Record sent_from (l l' : Life) : Prop := {
  sf_ready : ready l -> ready l';
  sf_key : authKey (base l') = authKey (base l);
  sf_session : sessionID (base l') = sessionID (base l) }.

#[local] Instance sent_from_preorder : PreOrder sent_from.
Proof.
  split; [by split|]. intros l1 l2 l3 [] []. split; [auto|congruence..].
Qed.

(** A payload that is sent as it is. *)
Definition unpacked (p : list byte) : Prop :=
  zlen p mod 4 = 0 /\ zlen p < maxUncompressedSize /\ (compressThreshold cfg <= 0 \/ zlen p <= compressThreshold cfg).

Lemma writeServiceMessage_spec payload p l :
  ready l -> (forall b, payload b = (Ok tt, b ++ p)) -> unpacked p -> 268 <= zlen (incoming (fl_rand (wire l))) ->
  exists frame l', writeServiceMessage gz NewClientCipher cfg payload l = (next_send l, l') /\
    server_reads (authKey (base l)) (sessionID (base l)) frame p /\ sent_from l l' /\
    fl_outbox (wire l') = fl_outbox (wire l) ++ (if next_send l is Ok _ then [frame] else []) /\
    fl_sends (wire l') = tl (fl_sends (wire l)) /\
    zlen (incoming (fl_rand (wire l))) - 268 <= zlen (incoming (fl_rand (wire l'))).
Proof.
  intros (Hup & Hk & Hty & Hid) Hp (Hal & Hmax & Hth) Hr. unfold writeServiceMessage.
  destruct (nextMsgSeq_typed false (base l)) as (id & seq & c1 & Hn & Hi & Hq & Ha & _ & Hs & Ht & _).
  erewrite bind_ok by (unfold on_base; rewrite Hn; done). cbn [fst snd].
  assert ((compressThreshold cfg <=? 0) || (zlen p <=? compressThreshold cfg) = true) as Hpk by lia.
  destruct (Ht Hty) as [Ht1 Ht2].
  destruct (newEncryptedMessage_roundtrip gz Hgz (compressThreshold cfg) id seq payload p (fl_rand (wire l)) [] c1)
    as (rand' & frame & c2 & m & rest & data & HE & HD & Hm & _ & _ & _ & Hd & -> & _ & Hrd & Hc & Hty');
    try done; try (by rewrite ?Ha, ?Hs); [by rewrite Hpk|].
  exists frame. unfold write. cbn [base wire set_base]. rewrite HE. cbn [up set_wire set_base negb]. rewrite Hup.
  cbn [negb]. unfold Send, next_send. cbn [wire set_wire set_rand fl_sends].
  unfold packed in Hd. rewrite Hpk in Hd. destruct Hc as (Hc1 & _ & Hc3 & _).
  assert (forall f, sent_from l (set_wire f (set_base c2 l))) as Hsf.
  { intros f. split; cbn [base set_wire set_base]; [|congruence..]. intros _.
    split; [done|]. cbn [base set_wire set_base]. rewrite Hc1, Hc3, Ha, Hs. done. }
  assert (server_reads (authKey (base l)) (sessionID (base l)) frame p) as Hsr.
  { exists m, rest. rewrite <- Ha, <- Hs. done. }
  destruct (fl_sends (wire l)) as [|[e|] sends]; eexists; (split; [reflexivity|]); cbn;
    rewrite ?app_nil_r; split_and!; try done; apply (Hsf _).
Qed.

(** The ids that the read loop queues, and the batches whose send succeeds. *)
Fixpoint queued (events : list AckEvent) : list Z :=
  match events with
  | [] => []
  | AckQueued id :: events => id :: queued events
  | _ :: events => queued events
  end.

Fixpoint delivered (sends : list (option error)) (batches : list (list Z)) : list (list Z) :=
  match batches with
  | [] => []
  | ids :: batches =>
      match sends with
      | Some _ :: sends => delivered sends batches
      | _ => ids :: delivered (tl sends) batches
      end
  end.

Definition not_done (e : AckEvent) : Prop := if e is AckDone _ then False else True.

(** The batches can be sent without packing. *)
Definition batch_fits : Prop :=
  1 <= ackBatchSize cfg /\ 12 + 8 * ackBatchSize cfg < maxUncompressedSize /\
  (compressThreshold cfg <= 0 \/ 12 + 8 * ackBatchSize cfg <= compressThreshold cfg).

(** A frame with which the server gets [ids]. *)
Definition acknowledges (k : AuthKey) (sid : Z) (ids : list Z) (frame : list byte) : Prop :=
  exists data, server_reads k sid frame data /\ Mt.MsgsAck_Decode data = (Ok ids, []).

Lemma ack_send_spec buf l :
  ready l -> batch_fits -> zlen buf <= ackBatchSize cfg -> Forall (fun v => int64 v) buf ->
  268 <= zlen (incoming (fl_rand (wire l))) ->
  exists frame l', ack_send gz NewClientCipher cfg buf l = (Ok [], l') /\
    acknowledges (authKey (base l)) (sessionID (base l)) buf frame /\ sent_from l l' /\
    fl_outbox (wire l') = fl_outbox (wire l) ++ (if next_send l is Ok _ then [frame] else []) /\
    fl_sends (wire l') = tl (fl_sends (wire l)) /\
    zlen (incoming (fl_rand (wire l))) - 268 <= zlen (incoming (fl_rand (wire l'))).
Proof.
  intros Hl (H1 & H2 & H3) Hb Hi Hr. pose proof (zlen_nonneg buf).
  destruct (writeServiceMessage_spec (MsgsAck_Encode buf) (ack_bytes buf) l) as (frame & l' & Hw & Hs & Hrest); try done.
  - intros b. apply MsgsAck_Encode_app.
  - unfold unpacked. rewrite zlen_ack_bytes. split_and!; [|lia|lia].
    replace (12 + 8 * zlen buf) with ((3 + 2 * zlen buf) * 4) by lia. by rewrite Z.mod_mul by lia.
  - exists frame, l'. unfold ack_send. rewrite Hw. split; [by unfold next_send; destruct (fl_sends (wire l)) as [|[]]|].
    split; [|done]. exists (ack_bytes buf). split; [done|].
    rewrite <- (app_nil_r (ack_bytes buf)). apply parses_MsgsAck; [done|]. unfold maxUncompressedSize in *. lia.
Qed.

(** How a run of the loop from [l] disposes of [ids]: in batches of at most the
    batch size, each sent once, and a rest that is empty after a tick. *)
Definition acked (ids : list Z) (flushed : bool) (l : Life) (run : outcome (list Z) * Life) : Prop :=
  exists batches pending frames l', run = (Ok pending, l') /\
    concat batches ++ pending = ids /\
    Forall (fun batch => 1 <= zlen batch <= ackBatchSize cfg) batches /\ zlen pending < ackBatchSize cfg /\
    (flushed = true -> pending = []) /\
    fl_outbox (wire l') = fl_outbox (wire l) ++ frames /\
    Forall2 (acknowledges (authKey (base l)) (sessionID (base l))) (delivered (fl_sends (wire l)) batches) frames.

Lemma acked_send out ids flushed l (k : list Z -> GoM Life (list Z)) :
  ready l -> batch_fits -> 1 <= zlen out <= ackBatchSize cfg -> Forall (fun v => int64 v) out ->
  268 <= zlen (incoming (fl_rand (wire l))) ->
  (forall l', ready l' -> zlen (incoming (fl_rand (wire l))) - 268 <= zlen (incoming (fl_rand (wire l'))) ->
    acked ids flushed l' (k [] l')) ->
  acked (out ++ ids) flushed l ((let! buf := ack_send gz NewClientCipher cfg out in k buf) l).
Proof.
  intros Hl Hfit Ho Hoi Hr Hk.
  destruct (ack_send_spec out l Hl Hfit ltac:(lia) Hoi Hr) as (frame & l1 & Hw & Ha & Hsf & Hout & Hse & Hrd).
  destruct (Hk l1) as (batches & pending & frames & l' & Hrun & <- & Hbs & Hp & Hla & Hout' & Hall);
    [by apply Hsf|done|].
  exists (out :: batches), pending, ((if next_send l is Ok _ then [frame] else []) ++ frames), l'.
  erewrite bind_ok by exact Hw. split; [done|]. simpl. rewrite <- app_assoc.
  split; [done|]. split; [by constructor|]. split; [done|]. split; [done|].
  split; [by rewrite Hout', Hout, <- app_assoc|].
  rewrite (sf_key _ _ Hsf), (sf_session _ _ Hsf), Hse in Hall. unfold next_send.
  destruct (fl_sends (wire l)) as [|[err|] sends]; simpl in Hall |- *; [by constructor|done|by constructor].
Qed.

(** Whether the loop has seen a tick since the last id. *)
Fixpoint ticked (init : bool) (events : list AckEvent) : bool :=
  match events with
  | [] => init
  | AckTick :: events => ticked true events
  | _ :: events => ticked false events
  end.

Lemma ticked_mono events : ticked false events = true -> ticked true events = true.
Proof. by destruct events as [|[] ?]. Qed.

Lemma last_ticked init events : last events = Some AckTick -> ticked init events = true.
Proof.
  revert init. induction events as [|e [|e' events] IH]; intros init; [done| |].
  - simpl. by intros [= ->].
  - intros H. destruct e; [exact (IH true H)|exact (IH false H)..].
Qed.

Lemma acked_weaken ids (f f' : bool) l run : acked ids f l run -> (f' = true -> f = true) -> acked ids f' l run.
Proof. intros (bs & pe & fr & l' & ? & ? & ? & ? & ? & ? & ?) Hf. exists bs, pe, fr, l'. split_and!; auto. Qed.

Lemma ackLoop_spec events buf l :
  ready l -> batch_fits -> zlen buf < ackBatchSize cfg -> Forall (fun v => int64 v) (buf ++ queued events) ->
  Forall not_done events -> 268 * zlen events <= zlen (incoming (fl_rand (wire l))) ->
  acked (buf ++ queued events) (ticked (zlen buf =? 0) events) l (ackLoop gz NewClientCipher cfg events buf l).
Proof.
  intros Hl Hfit. revert buf l Hl. induction events as [|e events IH]; intros buf l Hl Hb Hi Hd Hr.
  { exists [], buf, [], l. simpl. rewrite !app_nil_r. split_and!; try done. destruct buf; [done|].
    rewrite zlen_cons. pose proof (zlen_nonneg buf). intros ?. lia. }
  rewrite zlen_cons in Hr. pose proof (zlen_nonneg events). pose proof (zlen_nonneg buf).
  apply Forall_cons in Hd as [He Hd]. pose proof (proj1 Hfit) as H1.
  assert (forall l', ready l' -> Forall (fun v => int64 v) (queued events) ->
    268 * zlen events <= zlen (incoming (fl_rand (wire l'))) ->
    acked (queued events) (ticked true events) l' (ackLoop gz NewClientCipher cfg events [] l')) as Hnil.
  { intros l' Hl' Hq Hr'. apply (IH [] l' Hl'); try done. rewrite zlen_nil. lia. }
  destruct e as [|id|err]; [| |done]; cbn [ackLoop queued ticked] in *.
  - apply Forall_app in Hi as [Hi1 Hi2]. rewrite Z.gtb_ltb. destruct (Z.ltb_spec 0 (zlen buf)).
    + apply acked_send; try done; [lia..|]. intros l' Hl' Hr'. apply Hnil; [done..|lia].
    + destruct buf; [|rewrite zlen_cons in *; pose proof (zlen_nonneg buf); lia].
      erewrite bind_ok by done. apply Hnil; [done..|lia].
  - rewrite (cons_middle id buf), app_assoc in Hi |- *. pose proof Hi as Hi'. apply Forall_app in Hi' as [Hi1 Hi2].
    assert (zlen (buf ++ [id]) = zlen buf + 1) as Hz by (rewrite zlen_app, zlen_cons, zlen_nil; lia).
    rewrite Z.geb_leb. destruct (Z.leb_spec (ackBatchSize cfg) (zlen (buf ++ [id]))).
    + apply acked_send; try done; [lia..|]. intros l' Hl' Hr'.
      eapply acked_weaken; [apply Hnil; [done..|lia]|apply ticked_mono].
    + erewrite bind_ok by done. specialize (IH (buf ++ [id]) l Hl). rewrite Hz in IH.
      replace (zlen buf + 1 =? 0) with false in IH by lia. apply IH; try done; lia.
Qed.

(** The loop that acknowledges messages sends every queued id exactly once, in the
    order of the queue: the ids are cut into batches of at most the batch size,
    every batch is one msgs_ack that the server decrypts and decodes, except the
    batches whose send fails, which are not sent again; after a tick nothing is
    left.  268 random bytes per event are enough. *)
Theorem acks_sent_once (events : list AckEvent) (l : Life) :
  ready l -> batch_fits -> Forall (fun v => int64 v) (queued events) -> Forall not_done events ->
  268 * zlen events <= zlen (incoming (fl_rand (wire l))) ->
  exists batches pending frames l',
    ackLoop gz NewClientCipher cfg events [] l = (Ok pending, l') /\
    concat batches ++ pending = queued events /\
    Forall (fun batch => 1 <= zlen batch <= ackBatchSize cfg) batches /\ zlen pending < ackBatchSize cfg /\
    (last events = Some AckTick -> pending = []) /\
    fl_outbox (wire l') = fl_outbox (wire l) ++ frames /\
    Forall2 (acknowledges (authKey (base l)) (sessionID (base l))) (delivered (fl_sends (wire l)) batches) frames.
Proof.
  intros Hl Hfit Hi Hd Hr.
  destruct (ackLoop_spec events [] l Hl Hfit ltac:(rewrite zlen_nil; destruct Hfit; lia) Hi Hd Hr)
    as (bs & pe & fr & l' & ? & ? & ? & ? & Ht & ? & ?).
  exists bs, pe, fr, l'. split_and!; try done. intros Hla. by apply Ht, last_ticked.
Qed.
End Acks.

(** ** Binding *)

Section BindPolicy.
Context `{ige : IGE, lige : !LawfulIGE} (cfg : Config).

(** What binding is about. *)
Definition pfs_keys (l : Life) : AuthKey * AuthKey * Z * Z * Z :=
  (authKey (base l), permKey (base l), sessionID (base l), permKeyCreatedAt l, tempKeyExpiry l).

(** The random source does not fail with an error of the server. *)
Definition quiet (l : Life) : Prop := As (ending (fl_rand (wire l))) = None.

(** A request to bind the keys of [l]: whoever has the permanent key reads that the
    temporary key and the session belong to it, until when. *)
Definition binds (l : Life) (r : Request) : Prop :=
  exists nonce expires out, rq_Input r = InBind (mkBindRequest (IntID (permKey (base l))) nonce expires out) /\
    (tempKeyExpiry l <> 0 -> expires = tempKeyExpiry l) /\
    (zlen (ak_ID (permKey (base l))) = 8 -> int64 (sessionID (base l)) -> int32 expires ->
     bind_envelope (permKey (base l))
       (mkBind nonce (IntID (authKey (base l))) (IntID (permKey (base l))) (sessionID (base l)) expires) out).

(** From [l0] the requests [rs] were made, each of which took one of the answers of
    the server while there were any, and the keys are as they were. *)
Record tried (l0 : Life) (rs : list Request) (l : Life) : Prop := {
  tr_keys : pfs_keys l = pfs_keys l0;
  tr_requests : requests l = requests l0 ++ rs;
  tr_answers : answers l = drop (length rs) (answers l0);
  tr_later : later (base l0) (base l);
  tr_quiet : quiet l0 -> quiet l;
  tr_binds : Forall (binds l0) rs;
  tr_run : tasks l = tasks l0 /\ up l = up l0 }.

Lemma tried_refl l : tried l [] l.
Proof. split; try done. by rewrite app_nil_r. Qed.

Lemma tried_trans l0 rs1 l1 rs2 l2 : tried l0 rs1 l1 -> tried l1 rs2 l2 -> tried l0 (rs1 ++ rs2) l2.
Proof.
  intros [K1 R1 A1 L1 Q1 B1 [T1 U1]] [K2 R2 A2 L2 Q2 B2 [T2 U2]]. split; [congruence| | |by etrans|auto| |split; congruence].
  - by rewrite R2, R1, app_assoc.
  - by rewrite A2, A1, drop_drop, length_app.
  - apply Forall_app. split; [done|]. eapply Forall_impl; [exact B2|].
    intros r. unfold binds. unfold pfs_keys in K1. injection K1 as -> -> -> _ ->. done.
Qed.

(** A call that only touches the session, the salts and the clock. *)
Lemma tried_base l0 rs l c : tried l0 rs l ->
  authKey c = authKey (base l) -> permKey c = permKey (base l) -> sessionID c = sessionID (base l) -> later (base l) c ->
  tried l0 rs (set_base c l).
Proof.
  intros [K R A L Q B T] Ha Hp Hs Hl. split; try done; cbn [base set_base requests].
  - rewrite <- K. unfold pfs_keys. cbn. by rewrite Ha, Hp, Hs.
  - by etrans.
Qed.

Lemma tried_rand l0 rs l r : tried l0 rs l -> ending r = ending (fl_rand (wire l)) ->
  tried l0 rs (set_wire (set_rand r (wire l)) l).
Proof. intros [K R A L Q B T] He. split; try done. unfold quiet in *. cbn. by rewrite He. Qed.

Lemma post_session l0 rs l E : tried l0 rs l ->
  post (on_base session) l (fun s l' => tried l0 rs l' /\ ses_ID s = sessionID (base l0) /\ ses_Key s = authKey (base l0) /\
    ses_PermKey s = permKey (base l0)) E.
Proof.
  intros Ht. destruct (session_spec (base l)) as (s & c' & Hs & H1 & H2 & H3 & (Ha & Hp & Hi & _) & Hl).
  unfold post, on_base. rewrite Hs. pose proof (tr_keys _ _ _ Ht) as K. injection K as Ka Kp Ks _ _.
  split; [by apply tried_base|]. split_and!; congruence.
Qed.

Lemma post_Now l0 rs l E : tried l0 rs l ->
  post (on_base Conn.Now) l (fun t l' => tried l0 rs l' /\ reading (base l0) t) E.
Proof.
  intros Ht. destruct (Now_spec (base l)) as (t & c' & Hs & H1 & (Ha & Hp & Hi & _) & Hl & _).
  unfold post, on_base. rewrite Hs. split; [by apply tried_base|].
  eapply reading_later; [apply Ht|done].
Qed.

Lemma post_expiresAt l0 rs l E : tried l0 rs l ->
  post (expiresAt_ cfg) l (fun e l' => tried l0 rs l' /\ (tempKeyExpiry l0 <> 0 -> e = tempKeyExpiry l0)) E.
Proof.
  intros Ht. pose proof (tr_keys _ _ _ Ht) as K. injection K as _ _ _ _ Ke.
  unfold expiresAt_. apply post_bind, post_get. rewrite Ke.
  destruct (Z.eqb_spec (tempKeyExpiry l0) 0) as [H0|H0]; [|by apply post_ret].
  unfold NowUnix. apply post_bind, post_bind. eapply post_mono; [by apply post_Now| |done].
  intros t l' [Hl _]. apply post_ret, post_ret. done.
Qed.

Lemma post_nextMsgSeq content l0 rs l E : tried l0 rs l ->
  post (on_base (nextMsgSeq content)) l (fun _ => tried l0 rs) E.
Proof.
  intros Ht. destruct (nextMsgSeq_typed content (base l)) as (id & seq & c & Hn & _ & _ & Ha & Hp & Hs & _ & Hl).
  unfold post, on_base. rewrite Hn. by apply tried_base.
Qed.

(** Reads of the random source. *)
Lemma post_draw {A} (m : GoM Stream A) (Q : A -> Prop) msg l0 rs l : tried l0 rs l ->
  post m (fl_rand (wire l)) (fun a r => ending r = ending (fl_rand (wire l)) /\ Q a)
    (fun e r => ending r = ending (fl_rand (wire l)) /\
       (As (ending (fl_rand (wire l))) = None -> As e = None)) ->
  post (wrapping msg (draw m)) l (fun a l' => tried l0 rs l' /\ Q a) (fun e l' => tried l0 rs l' /\ (quiet l0 -> As e = None)).
Proof.
  intros Ht Hm. apply post_wrapping. unfold post, draw, Flow.random in *.
  destruct (m (fl_rand (wire l))) as [[a|e|] r]; [..|done]; destruct Hm as [He Hq]; split; try by apply tried_rand.
  - done.
  - intros H0. by apply Hq, (tr_quiet _ _ _ Ht).
Qed.

Lemma RandInt64_post r : post RandInt64 r (fun v r' => ending r' = ending r /\ int64 v)
  (fun e r' => ending r' = ending r /\ (As (ending r) = None -> As e = None)).
Proof.
  unfold RandInt64. eapply post_seq.
  - eapply post_mono; [apply must_read_post; unfold Word; lia|intros a s Ha; exact Ha|].
    intros e r' (He & _ & Hor). split; [done|]. by destruct Hor as [-> | ->].
  - intros buf r' (_ & Hz & He). unfold post, Long, Uint64, bind, ret. rewrite Hz, Z.ltb_irrefl.
    split; [done|]. apply swrap_range. lia.
Qed.

(** One call of rpc.Do for a request that binds the keys. *)
Lemma post_Do {A} (m : GoM Buffer A) req l0 rs l : safe m -> tried l0 rs l -> binds l0 req ->
  post (Do req m) l
    (fun a l' => tried l0 (rs ++ [req]) l' /\ exists b, answers l0 !! length rs = Some (inr b) /\ fst (m b) = Ok a)
    (fun _ => tried l0 (rs ++ [req])).
Proof.
  intros Hm [K R An L Q B T] Hb. unfold post, Do.
  assert (tried l0 (rs ++ [req]) (set_answers (drop 1 (answers l)) (requests l ++ [req]) l)) as Ht.
  { split; try done; cbn; [by rewrite R, app_assoc|by rewrite An, drop_drop, length_app|].
    apply Forall_app. split; [done|]. by constructor. }
  destruct (answers l) as [|[e|b] ans] eqn:Ea; try apply Ht.
  assert (answers l0 !! length rs = Some (inr b)) as Hat.
  { rewrite <- (Nat.add_0_r (length rs)), <- lookup_drop, <- An. done. }
  destruct (Hm b) as (r & b' & Hr & Hs & _). rewrite Hr. destruct r; simpl in *; [|apply Ht|done].
  split; [exact Ht|]. exists b. by rewrite Hr.
Qed.

Lemma post_use_salt v l0 rs l E : tried l0 rs l -> post (use_salt v) l (fun _ => tried l0 rs) E.
Proof. intros Ht. unfold use_salt, post, bind, on_base, storeSalt, modify. simpl. apply tried_base; [by apply tried_base|done..]. Qed.

Lemma safe_DecodeBool : safe DecodeBool.
Proof. unfold DecodeBool, field. solve_safe. Qed.

(** The id of boolTrue is what makes the answer true. *)
Lemma DecodeBool_true b : fst (DecodeBool b) = Ok true -> exists rest, b = le_split 4 TypeTrue ++ rest.
Proof.
  unfold DecodeBool, bind. destruct (PeekID b) as [[id|e|] b1] eqn:E; [|done..].
  apply PeekID_inv in E as (-> & _). unfold field, wrapping, bind. destruct (id =? TypeFalse).
  - by destruct (ConsumeID TypeFalse b) as [[]].
  - destruct (id =? TypeTrue); [|done]. destruct (ConsumeID TypeTrue b) as [[u|e|] rest] eqn:E2; [|done..].
    intros _. exists rest. by eapply ConsumeID_inv.
Qed.

(** The last of the requests [rs] was answered with boolTrue. *)
Definition accepted (l0 : Life) (rs : list Request) : Prop :=
  exists rest, answers l0 !! pred (length rs) = Some (inr (le_split 4 TypeTrue ++ rest)).

(** An error of the server comes from a request. *)
Definition attempt_failed (l0 : Life) (e : error) (l : Life) : Prop :=
  exists rs, tried l0 rs l /\ (length rs <= 2)%nat /\ (quiet l0 -> As e <> None -> rs <> []).

Lemma attempt_failed_none l0 e l : tried l0 [] l -> (quiet l0 -> As e = None) -> attempt_failed l0 e l.
Proof. intros Ht He. exists []. split; [done|]. split; [simpl; lia|]. intros Hq. by rewrite (He Hq). Qed.

(** The call of bindTempAuthKey with its retry after a new salt. *)
Lemma post_call l0 req l (k : bool -> GoM Life unit) :
  tried l0 [] l -> binds l0 req ->
  k false = fail (Errorf "temp auth key bind rejected") -> k true = ret tt ->
  post (let! ok := fun l =>
      match Do req DecodeBool l with
      | (Err e, l) =>
          match bad_salt e with
          | Some s => (use_salt s ;;! wrapping "invoke auth.bindTempAuthKey" (Do req DecodeBool)) l
          | None => (Err (Wrap e "invoke auth.bindTempAuthKey"), l)
          end
      | r => r
      end in k ok) l
    (fun _ l' => exists rs, tried l0 rs l' /\ (1 <= length rs <= 2)%nat /\ accepted l0 rs) (attempt_failed l0).
Proof.
  intros Ht Hb Hk0 Hk1. pose proof safe_DecodeBool as Hsafe.
  eapply (post_seq _ _ _ (fun ok l' => exists rs, tried l0 rs l' /\ (1 <= length rs <= 2)%nat /\
    exists b, answers l0 !! pred (length rs) = Some (inr b) /\ fst (DecodeBool b) = Ok ok)).
  - pose proof (post_Do DecodeBool req l0 [] l Hsafe Ht Hb) as H1. unfold post at 1. unfold post in H1.
    destruct (Do req DecodeBool l) as [[a|e|] l1]; [exists [req]; split; [apply H1|]; split; [simpl; lia|apply H1]| |done].
    destruct (bad_salt e) as [v|]; [|exists [req]; split; [done|]; split; [simpl; lia|done]].
    lazymatch goal with |- match ?m ?x with _ => _ end => change (post m x
      (fun ok l' => exists rs, tried l0 rs l' /\ (1 <= length rs <= 2)%nat /\
        exists b, answers l0 !! pred (length rs) = Some (inr b) /\ fst (DecodeBool b) = Ok ok) (attempt_failed l0)) end.
    eapply post_seq; [by apply post_use_salt|]. intros u l2 H2. apply post_wrapping.
    eapply post_mono; [apply post_Do; [done|exact H2|done]|..].
    + intros ok l3 [H3 H4]. eexists. split; [exact H3|]. split; [simpl; lia|exact H4].
    + intros e' l3 H3. eexists. split; [exact H3|]. split; [simpl; lia|done].
  - intros ok l' (rs & Hrs & Hlen & b & Hb1 & Hb2). destruct ok; [rewrite Hk1|rewrite Hk0].
    + apply DecodeBool_true in Hb2 as [rest ->]. exists rs. split_and!; try done; try lia. by exists rest.
    + exists rs. split; [done|]. split; [lia|]. by simpl.
Qed.

(** The keys and the session are there. *)
Definition bindable (l : Life) : Prop :=
  AuthKey_Zero (authKey (base l)) = false /\ AuthKey_Zero (permKey (base l)) = false /\ sessionID (base l) <> 0.

Lemma bindTempAuthKeyAttempt_post l :
  post (bindTempAuthKeyAttempt cfg) l
    (fun _ l' => bindable l /\ exists rs, tried l rs l' /\ (1 <= length rs <= 2)%nat /\ accepted l rs) (attempt_failed l).
Proof.
  unfold bindTempAuthKeyAttempt.
  eapply post_seq; [by apply post_session, tried_refl|]. intros s l1 (H1 & Hid & Hkey & Hperm).
  destruct (AuthKey_Zero (ses_Key s)) eqn:EZ; [by apply post_fail, attempt_failed_none|].
  destruct (AuthKey_Zero (ses_PermKey s)) eqn:EP; [by apply post_fail, attempt_failed_none|].
  destruct (Z.eqb_spec (ses_ID s) 0); [by apply post_fail, attempt_failed_none|].
  eapply post_seq; [by apply post_expiresAt|]. intros expires l2 (H2 & Hexp).
  eapply post_seq.
  { eapply post_mono; [eapply post_draw; [exact H2|apply RandInt64_post]|intros a s' Ha; exact Ha|].
    intros e l' [? ?]. by apply attempt_failed_none. }
  intros nonce l3 (H3 & Hn). eapply post_seq; [by apply post_nextMsgSeq|]. intros [id seq] l4 H4. cbn [fst snd].
  eapply post_seq.
  { eapply post_mono; [eapply post_draw; [exact H4|]|intros a s' Ha; exact Ha|].
    - eapply post_mono; [by apply EncryptBindMessage_post|intros a s' Ha; exact Ha|].
      intros e r (He & _ & e' & msg & -> & Hor). split; [done|]. by destruct Hor as [-> | ->].
    - intros e l' [? ?]. by apply attempt_failed_none. }
  intros out l5 (H5 & Henv). eapply post_mono; [apply post_call; [exact H5| |done|done]|..|done].
  2: { intros u l6 H6. split; [|exact H6]. unfold bindable. rewrite <- Hkey, <- Hperm, <- Hid. done. }
  exists nonce, expires, out. rewrite <- Hperm, <- Hkey, <- Hid. split; [done|]. split; [done|].
  intros Hz Hs He. apply Henv; [done|]. split_and!; try done; apply swrap_range; lia.
Qed.

(** The permanent key was made more than a minute ago, at some reading of the clock. *)
Definition older (l : Life) : Prop :=
  permKeyCreatedAt l <> 0 /\ exists now, reading (base l) now /\ now / second - permKeyCreatedAt l > 60.

(** The keys were dropped, for a reason. *)
Definition dropped (l0 : Life) (rs : list Request) (e : error) (l : Life) : Prop :=
  pfs_keys l = (ZeroKey, ZeroKey, 0, 0, 0) /\ requests l = requests l0 ++ rs /\ Forall (binds l0) rs /\
  tasks l = tasks l0 /\ (exists msg, e = Wrap ErrPFSDropKeysRequired msg) /\ (older l0 \/ permKeyCreatedAt l0 = 0 /\ (quiet l0 -> (3 <= length rs)%nat)).

Lemma post_dropPFSKeys msg l0 rs l (Q : unit -> Life -> Prop) : tried l0 rs l ->
  older l0 \/ permKeyCreatedAt l0 = 0 /\ (quiet l0 -> (3 <= length rs)%nat) ->
  post (dropPFSKeys ;;! fail (Wrap ErrPFSDropKeysRequired msg)) l Q (dropped l0 rs).
Proof. intros [?????? []] ?. apply post_bind, post_modify, post_fail. split_and!; try done. by exists msg. Qed.

Lemma handleBind_post attempt l0 rs l : tried l0 rs l -> (quiet l0 -> (attempt <= length rs)%nat) ->
  post (handleBindEncryptedMessageInvalid attempt) l (fun _ => tried l0 rs) (dropped l0 rs).
Proof.
  intros Ht Ha. pose proof (tr_keys _ _ _ Ht) as K. injection K as _ _ _ Kc _.
  unfold handleBindEncryptedMessageInvalid, permKeyOlderThan60s, permKeyAgeKnown, NowUnix.
  apply post_bind, post_bind, post_get. rewrite Kc. destruct (Z.eqb_spec (permKeyCreatedAt l0) 0) as [H0|H0].
  - apply post_ret, post_bind, post_bind, post_get, post_ret. rewrite Kc, H0. cbn [negb Z.eqb].
    destruct (Nat.leb_spec maxBindTempAuthKeyAttempts attempt) as [Hle|Hgt]; [|by apply post_ret].
    apply post_dropPFSKeys; [done|]. right. split; [done|]. intros Hq. specialize (Ha Hq). unfold maxBindTempAuthKeyAttempts in Hle. lia.
  - apply post_bind, post_bind. eapply post_mono; [by apply post_Now| |done]. intros t l1 [H1 Hr].
    apply post_ret, post_ret. rewrite Z.gtb_ltb. destruct (Z.ltb_spec 60 (t / second - permKeyCreatedAt l0)).
    + apply post_dropPFSKeys; [done|]. left. split; [done|]. exists t. split; [done|lia].
    + pose proof (tr_keys _ _ _ H1) as K1. injection K1 as _ _ _ Kc1 _.
      apply post_bind, post_bind, post_get, post_ret. rewrite Kc1. rewrite (proj2 (Z.eqb_neq _ _) H0). by apply post_ret.
Qed.

Lemma handleNotInited_post attempt l0 rs l : tried l0 rs l ->
  post (handleBindConnectionNotInited attempt) l (fun _ => tried l0 rs) (fun _ => tried l0 rs).
Proof. intros Ht. unfold handleBindConnectionNotInited. by destruct (_ <? _)%nat. Qed.

(** The loop at attempt [attempt], with [remaining] left. *)
Lemma bind_loop_post remaining attempt lastErr l0 rs l : tried l0 rs l ->
  (1 <= attempt)%nat -> (length rs <= 2 * (attempt - 1))%nat -> (quiet l0 -> (attempt <= length rs + 1)%nat) ->
  post (bind_loop cfg remaining attempt lastErr) l
    (fun _ l' => bindable l0 /\ exists rs', tried l0 rs' l' /\ (1 <= length rs' <= 2 * (attempt + remaining - 1))%nat /\
       accepted l0 rs')
    (fun e l' => exists rs', (length rs' <= 2 * (attempt + remaining - 1))%nat /\ (tried l0 rs' l' \/ dropped l0 rs' e l')).
Proof.
  revert attempt lastErr rs l. induction remaining as [|n IH]; intros attempt lastErr rs l Ht H1a Hlen Hq.
  { simpl. exists rs. split; [lia|by left]. }
  pose proof (bindTempAuthKeyAttempt_post l) as Hp. unfold post at 1. cbn [bind_loop]. unfold post in Hp.
  destruct (bindTempAuthKeyAttempt cfg l) as [[u|e|] l1]; [| |done].
  { destruct Hp as (Hb & rs1 & H1 & Hl1 & rest & Hacc). split.
    - pose proof (tr_keys _ _ _ Ht) as K. injection K as Ka Kp Ks _ _. unfold bindable in *. congruence.
    - exists (rs ++ rs1). split; [by eapply tried_trans|]. split; [rewrite length_app; lia|].
      exists rest. rewrite (tr_answers _ _ _ Ht), lookup_drop in Hacc. rewrite <- Hacc, length_app. f_equal. lia. }
  destruct Hp as (rs1 & H1 & Hl1 & Hne). pose proof (tried_trans _ _ _ _ _ Ht H1) as H2.
  assert (forall ts, IsOneOfTypes e ts = true -> quiet l0 -> (1 <= length rs1)%nat) as Hone.
  { intros ts. unfold IsOneOfTypes. destruct (As e) eqn:EA; [|done]. intros _ H0.
    destruct rs1; [|simpl; lia]. exfalso. by apply Hne; [apply (tr_quiet _ _ _ Ht)|..]. }
  assert (forall (h : GoM Life unit), (quiet l0 -> (1 <= length rs1)%nat) ->
    post h l1 (fun _ => tried l0 (rs ++ rs1)) (fun e l' => tried l0 (rs ++ rs1) l' \/ dropped l0 (rs ++ rs1) e l') ->
    post (h ;;! bind_loop cfg n (S attempt) e) l1
      (fun _ l' => bindable l0 /\ exists rs', tried l0 rs' l' /\ (1 <= length rs' <= 2 * (attempt + S n - 1))%nat /\
         accepted l0 rs')
      (fun e l' => exists rs', (length rs' <= 2 * (attempt + S n - 1))%nat /\ (tried l0 rs' l' \/ dropped l0 rs' e l'))) as Hgo.
  { intros h Hl Hh. eapply post_seq.
    - eapply post_mono; [exact Hh|intros a s' Ha; exact Ha|]. intros e' l' He'. exists (rs ++ rs1).
      split; [rewrite length_app; lia|done].
    - intros a l' Hl'. replace (attempt + S n)%nat with (S attempt + n)%nat by lia.
      eapply IH; [exact Hl'|lia|rewrite length_app; lia|]. intros H0. rewrite length_app.
      specialize (Hl H0). specialize (Hq H0). lia. }
  destruct (IsOneOfTypes e [ErrEncryptedMessageInvalid]) eqn:E1; [|destruct (IsOneOfTypes e [ConnectionNotInited]) eqn:E2].
  - apply Hgo; [by eapply Hone|]. eapply post_mono; [apply (handleBind_post attempt); [exact H2|]|done|by right].
    intros H0. rewrite length_app. pose proof (Hone _ E1 H0). specialize (Hq H0). lia.
  - apply Hgo; [by eapply Hone|]. eapply post_mono; [by apply handleNotInited_post|done|by left].
  - exists (rs ++ rs1). split; [rewrite length_app; lia|by left].
Qed.

Lemma bindTempAuthKey_post l :
  post (bindTempAuthKey cfg) l
    (fun _ l' => bindable l /\ exists rs, tried l rs l' /\ (1 <= length rs <= 6)%nat /\ accepted l rs)
    (fun e l' => exists rs, (length rs <= 6)%nat /\ (tried l rs l' \/ dropped l rs e l')).
Proof. apply (bind_loop_post 3 1 (OtherErr 0) l []); [apply tried_refl|simpl; lia..]. Qed.

(** A draw that has enough bytes. *)
Lemma draw_run {A} (m : GoM Stream A) a r' l : m (fl_rand (wire l)) = (Ok a, r') ->
  draw m l = (Ok a, set_wire (set_rand r' (wire l)) l).
Proof. intros Hm. unfold draw, Flow.random. by rewrite Hm. Qed.

Lemma RandInt64_run r : 8 <= zlen (incoming r) ->
  exists v r', RandInt64 r = (Ok v, r') /\ zlen (incoming r) - 8 <= zlen (incoming r').
Proof.
  intros Hr. pose proof (must_read_post (Word * 2) r ltac:(unfold Word; lia)) as Hp. unfold RandInt64, bind, post, Word in *.
  destruct (must_read (4 * 2) r) as [[buf|e|] r']; [|lia|done]. destruct Hp as (Hin & Hz & _).
  exists (i64 (le_combine (take 8 buf))), r'. split.
  - unfold Long, Uint64, bind, ret, Word. by rewrite Hz.
  - rewrite Hin, zlen_app. lia.
Qed.

Lemma EncryptBindMessage_run (permKey : AuthKey) msgID inner r : AuthKey_Zero permKey = false -> 31 <= zlen (incoming r) ->
  exists out r', EncryptBindMessage permKey msgID inner r = (Ok out, r').
Proof.
  intros Hz Hr. pose proof (EncryptBindMessage_post permKey msgID inner r Hz) as Hp. unfold post in Hp.
  destruct (EncryptBindMessage permKey msgID inner r) as [[out|e|] r']; [by exists out, r'| |done].
  destruct Hp as (_ & ? & _). lia.
Qed.

(** A connection with both keys and a session binds them at the first try, when the
    server answers boolTrue and 39 random bytes are left. *)
Lemma bindTempAuthKey_ok l b ans : bindable l -> 39 <= zlen (incoming (fl_rand (wire l))) ->
  answers l = inr b :: ans -> fst (DecodeBool b) = Ok true ->
  exists l', bindTempAuthKey cfg l = (Ok tt, l').
Proof.
  intros (Hk & Hp & Hs) Hr Ha Hb. unfold bindTempAuthKey. cbn [bind_loop maxBindTempAuthKeyAttempts].
  assert (exists l', bindTempAuthKeyAttempt cfg l = (Ok tt, l')) as [l' ->]; [|by exists l'].
  unfold bindTempAuthKeyAttempt.
  destruct (session_spec (base l)) as (s & c1 & Hse & H1 & H2 & H3 & _).
  erewrite bind_ok by (unfold on_base; rewrite Hse; done). rewrite H1, H2, H3, Hk, Hp, (proj2 (Z.eqb_neq _ _) Hs).
  assert (exists e c2, expiresAt_ cfg (set_base c1 l) = (Ok e, set_base c2 l)) as (e & c2 & He).
  { unfold expiresAt_, NowUnix. erewrite bind_ok by done. destruct (tempKeyExpiry _ =? 0); [|by eexists _, c1].
    destruct (Now_spec c1) as (t & c2 & Hn & _).
    erewrite bind_ok; [|erewrite bind_ok; [|unfold on_base; cbn [base set_base]; rewrite Hn; reflexivity]; reflexivity].
    by eexists _, c2. }
  erewrite bind_ok by exact He.
  destruct (RandInt64_run (fl_rand (wire l)) ltac:(lia)) as (nonce & r1 & Hn & Hr1).
  erewrite bind_ok by (apply wrapping_run, draw_run; exact Hn).
  destruct (nextMsgSeq_typed true c2) as (id & seq & c3 & Hq & _).
  erewrite bind_ok by (unfold on_base; cbn [base set_base set_wire]; rewrite Hq; done). cbn [fst snd].
  set (inner := mkBind _ _ _ _ _).
  destruct (EncryptBindMessage_run (permKey (base l)) id inner r1 Hp ltac:(lia)) as (out & r2 & Ho).
  erewrite bind_ok by (apply wrapping_run, draw_run; exact Ho).
  unfold bind, Do. cbn [answers set_wire set_base]. rewrite Ha, Hb. by eexists.
Qed.

(** Binding a temporary key never panics, makes at most six requests, all of which
    bind the keys of the connection (when it succeeds, the last of them was answered
    with boolTrue), and does
    not touch the keys, the session and their times, with one exception: it drops
    them all, with an error that asks for new ones, when the permanent key is older
    than a minute, or of unknown age and binding has been tried three times (each try
    is a request, unless the random source reports errors of the server). *)
Theorem bind_policy (l : Life) :
  match bindTempAuthKey cfg l with
  | (Ok _, l') => bindable l /\ exists rs, tried l rs l' /\ (1 <= length rs <= 6)%nat /\ accepted l rs
  | (Err e, l') => exists rs, (length rs <= 6)%nat /\ (tried l rs l' \/ dropped l rs e l')
  | (Panic, _) => False
  end.
Proof. exact (bindTempAuthKey_post l). Qed.

(** When the server rejects the first binding of a key that is older than a minute
    with ENCRYPTED_MESSAGE_INVALID, the keys are dropped without another attempt. *)
Theorem bind_drops_old_key (l l1 : Life) (e : error) :
  bindTempAuthKeyAttempt cfg l = (Err e, l1) -> IsOneOfTypes e [ErrEncryptedMessageInvalid] = true ->
  permKeyCreatedAt l <> 0 -> (forall now, reading (base l) now -> now / second - permKeyCreatedAt l > 60) ->
  exists l', bindTempAuthKey cfg l =
      (Err (Wrap ErrPFSDropKeysRequired "pfs keys dropped after ENCRYPTED_MESSAGE_INVALID"), l') /\
    pfs_keys l' = (ZeroKey, ZeroKey, 0, 0, 0) /\ requests l' = requests l1.
Proof.
  intros Ha He Hc Hold. unfold bindTempAuthKey. cbn [bind_loop maxBindTempAuthKeyAttempts]. rewrite Ha, He.
  pose proof (bindTempAuthKeyAttempt_post l) as Hp. unfold post in Hp. rewrite Ha in Hp.
  destruct Hp as (rs & Ht & _ & _). pose proof (tr_keys _ _ _ Ht) as K. injection K as _ _ _ Kc _.
  unfold handleBindEncryptedMessageInvalid, permKeyOlderThan60s, NowUnix, bind at 1 2 3, get.
  rewrite Kc. rewrite (proj2 (Z.eqb_neq _ _) Hc).
  destruct (Now_spec (base l1)) as (t & c & Hn & Hr & _). unfold bind at 1 2, on_base. rewrite Hn.
  specialize (Hold t (reading_later _ _ _ (tr_later _ _ _ Ht) Hr)).
  unfold ret at 1. rewrite Z.gtb_ltb. rewrite (proj2 (Z.ltb_lt 60 (t / second - permKeyCreatedAt l))) by lia.
  eexists. split; [reflexivity|done].
Qed.
End BindPolicy.

(** ** Connecting *)

(** [idle R m]: whatever [m] returns, it relates the state before to the one after by [R]. *)
Definition idle {A} (R : Life -> Life -> Prop) (m : GoM Life A) : Prop := forall l, R l (snd (m l)).

Section Idle.
Context (R : Life -> Life -> Prop) `{!PreOrder R}.

Lemma idle_ret {A} (a : A) : idle R (ret a).
Proof. intros l. simpl. reflexivity. Qed.
Lemma idle_get : idle R get.
Proof. intros l. simpl. reflexivity. Qed.
Lemma idle_bind {A B} (m : GoM Life A) (k : A -> GoM Life B) : idle R m -> (forall a, idle R (k a)) -> idle R (bind m k).
Proof.
  intros Hm Hk l. unfold bind. specialize (Hm l). destruct (m l) as [[a|e|] l']; simpl in *; [|done..].
  etrans; [exact Hm|apply Hk].
Qed.
Lemma idle_wrapping {A} msg (m : GoM Life A) : idle R m -> idle R (wrapping msg m).
Proof. intros Hm l. unfold wrapping. specialize (Hm l). by destruct (m l) as [[a|e|] l']. Qed.
Lemma idle_modify f : (forall l, R l (f l)) -> idle R (modify f).
Proof. intros Hf l. apply Hf. Qed.
End Idle.
Create HintDb idle.
#[local] Hint Resolve idle_ret idle_get : idle.
Ltac solve_idle :=
  repeat first
    [ solve [auto 3 with idle nocore]
    | apply idle_bind; [apply _| |intros ?]
    | apply idle_wrapping
    | apply idle_modify; intros ?; done
    | match goal with |- idle _ (if ?b then _ else _) => destruct b end ].

(** What the key exchange has nothing to do with. *)
Definition around (l l' : Life) : Prop :=
  tasks l' = tasks l /\ requests l' = requests l /\ answers l' = answers l /\ up l' = up l /\ closes l' = closes l.
Definition same_perm (l l' : Life) : Prop := permKey (base l') = permKey (base l).
#[local] Instance around_preorder : PreOrder around.
Proof. split; [done|]. unfold around. intros l1 l2 l3 ? ?. destruct_and!. split_and!; congruence. Qed.
#[local] Instance same_perm_preorder : PreOrder same_perm.
Proof. split; [done|]. unfold same_perm. congruence. Qed.

Section RunPFS.
Context {ige : IGE} {lige : LawfulIGE} {xor : XorLib} (ProbablyPrime : Z -> bool) (cfg : Config).

Lemma around_base {A} (m : GoM Conn A) : idle around (on_base m).
Proof. intros l. unfold on_base. by destruct (m (base l)). Qed.
Lemma around_draw {A} (m : GoM Stream A) : idle around (draw m).
Proof. intros l. unfold draw. by destruct (Flow.random m (wire l)). Qed.
Lemma around_exchange mode n : idle around (runExchange ProbablyPrime cfg mode n).
Proof. intros l. unfold runExchange. destruct (up l) eqn:E; [|done]. by destruct (Client_Run _ _ _). Qed.
#[local] Hint Resolve around_base around_draw around_exchange : idle.

Lemma around_body : idle around (connect_body ProbablyPrime cfg).
Proof.
  unfold connect_body, connectPFS, createAuthKey, createPermAuthKey, createTempAuthKey, newSessionID, NowUnix.
  destruct (pfs cfg); solve_idle.
Qed.

Lemma same_perm_base {A} (m : GoM Conn A) : (forall c, permKey (snd (m c)) = permKey c) -> idle same_perm (on_base m).
Proof. intros Hm l. unfold on_base. specialize (Hm (base l)). by destruct (m (base l)). Qed.
Lemma permKey_Now c : permKey (snd (Conn.Now c)) = permKey c.
Proof. destruct (Now_spec c) as (t & c' & -> & _ & (_ & H & _) & _). done. Qed.
Lemma same_perm_exchange mode n : idle same_perm (runExchange ProbablyPrime cfg mode n).
Proof. intros l. unfold runExchange. destruct (up l); [|done]. by destruct (Client_Run _ _ _). Qed.
#[local] Hint Resolve same_perm_exchange : idle.
#[local] Hint Extern 1 (idle same_perm (on_base Conn.Now)) => apply same_perm_base, permKey_Now : idle.

Lemma same_perm_temp : idle same_perm (createTempAuthKey ProbablyPrime cfg).
Proof. unfold createTempAuthKey, NowUnix. solve_idle. Qed.

(** A connection that comes up reuses the permanent key it has. *)
Lemma connect_pfs_ok dialErr closeErr l l' : pfs cfg = true ->
  connect ProbablyPrime cfg dialErr closeErr l = (Ok tt, l') ->
  tasks l' = tasks l /\ requests l' = requests l /\ answers l' = answers l /\ up l' = true /\
  (AuthKey_Zero (permKey (base l)) = false -> permKey (base l') = permKey (base l)).
Proof.
  intros Hp. unfold connect. destruct dialErr; [done|]. pose proof (around_body (set_up true (closes l) l)) as Ha.
  destruct (connect_body ProbablyPrime cfg (set_up true (closes l) l)) as [[u|e|] l1] eqn:E; [|done..].
  intros [= _ ->]. destruct Ha as (? & ? & ? & ? & _). split_and!; try done. intros Hz.
  unfold connect_body in E. rewrite Hp in E. unfold connectPFS in E. unfold bind at 1, get in E.
  cbn [base set_up] in E. rewrite Hz in E. unfold bind, ret in E. apply wrapping_inv in E.
  pose proof (same_perm_temp (set_up true (closes l) l)) as Hs. by rewrite E in Hs.
Qed.

(** A temporary key that the exchange makes becomes the key of the connection. *)
Lemma createTempAuthKey_run l r f : up l = true ->
  Client_Run ProbablyPrime (mkClient (rsaPublicKeys cfg) (dcID cfg) ExchangeModeTemporary (tempKeyTTL cfg))
    (Flow.set_clock (clock (base l)) (wire l)) = (Ok r, f) ->
  exists l', createTempAuthKey ProbablyPrime cfg l = (Ok tt, l') /\
    authKey (base l') = cr_AuthKey r /\ permKey (base l') = permKey (base l) /\ sessionID (base l') = cr_SessionID r /\
    wire l' = f /\ requests l' = requests l /\ answers l' = answers l /\ tasks l' = tasks l.
Proof.
  intros Hu E. unfold createTempAuthKey. erewrite bind_ok by (unfold runExchange; rewrite Hu; cbn [negb]; rewrite E; reflexivity).
  set (l1 := set_wire f _). unfold bind at 1. destruct (cr_ExpiresAt r =? 0).
  - unfold NowUnix, bind, on_base. destruct (Now_spec (base l1)) as (t & c & -> & _ & (_ & Hp & _) & _).
    eexists. split; [reflexivity|]. cbn. rewrite Hp. done.
  - eexists. split; [reflexivity|]. done.
Qed.

Lemma connect_pfs_run closeErr l r f : pfs cfg = true -> AuthKey_Zero (permKey (base l)) = false ->
  Client_Run ProbablyPrime (mkClient (rsaPublicKeys cfg) (dcID cfg) ExchangeModeTemporary (tempKeyTTL cfg))
    (Flow.set_clock (clock (base l)) (wire l)) = (Ok r, f) ->
  exists l', connect ProbablyPrime cfg None closeErr l = (Ok tt, l') /\
    authKey (base l') = cr_AuthKey r /\ permKey (base l') = permKey (base l) /\ sessionID (base l') = cr_SessionID r /\
    wire l' = f /\ requests l' = requests l /\ answers l' = answers l /\ tasks l' = tasks l.
Proof.
  intros Hp Hz E. destruct (createTempAuthKey_run (set_up true (closes l) l) r f eq_refl E) as (l' & Hc & H).
  exists l'. split; [|exact H]. unfold connect, connect_body. rewrite Hp. unfold connectPFS, bind, get.
  cbn [base set_up]. rewrite Hz. unfold ret, wrapping. by rewrite Hc.
Qed.

Lemma connect_around dialErr closeErr l : tasks (snd (connect ProbablyPrime cfg dialErr closeErr l)) = tasks l.
Proof.
  unfold connect. destruct dialErr; [done|]. pose proof (around_body (set_up true (closes l) l)) as Ha.
  destruct (connect_body ProbablyPrime cfg (set_up true (closes l) l)) as [[u|e|] l1]; apply Ha.
Qed.

(** C8: in PFS mode the callback of the caller only starts on a connection whose
    temporary key has been bound: the transport is up, both keys and the session id
    are set, a permanent key that was there before is kept, the requests that were
    made, one to six, bind these keys, and the server answered the last one with
    boolTrue. *)
Theorem run_binds_before_use (dialErr closeErr group : option error) (l l' : Life) (r : outcome unit) :
  pfs cfg = true -> tasks l = [] -> Run ProbablyPrime cfg dialErr closeErr group l = (r, l') ->
  "userCallback"%string ∈ tasks l' ->
  ran l = false /\ up l' = true /\ bindable l' /\
  (AuthKey_Zero (permKey (base l)) = false -> permKey (base l') = permKey (base l)) /\
  exists rs, (1 <= length rs <= 6)%nat /\ requests l' = requests l ++ rs /\ Forall (binds l') rs /\
    answers l' = drop (length rs) (answers l) /\
    exists rest, answers l !! pred (length rs) = Some (inr (le_split 4 TypeTrue ++ rest)).
Proof.
  intros Hp Ht. unfold Run. unfold bind at 1 2, get, modify. destruct (ran l) eqn:Er.
  { intros [= _ <-]. cbn. rewrite Ht. set_solver. }
  unfold bind at 1, wrapping at 1. pose proof (connect_around dialErr closeErr (set_ran l)) as Hta.
  destruct (connect ProbablyPrime cfg dialErr closeErr (set_ran l)) as [[[]|e|] l1] eqn:Ec.
  2,3: intros [= _ <-]; simpl in Hta; rewrite Hta, Ht; set_solver.
  destruct (connect_pfs_ok _ _ _ _ Hp Ec) as (Ht1 & Hr1 & Ha1 & Hu1 & Hp1). rewrite Hp.
  unfold bind at 1 2 3, wrapping.
  set (l2 := add_task "readLoop" (add_task "handleClose" l1)).
  pose proof (bindTempAuthKey_post cfg l2) as Hb. unfold post in Hb.
  destruct (bindTempAuthKey cfg l2) as [[u|e|] l3]; [| |done].
  - destruct Hb as (Hbd & rs & [K R A L _ B [T U]] & Hl & rest & Hacc). injection K as Ka Kp Ks _ Ke.
    change (answers l2) with (answers l1) in A, Hacc. rewrite Ha1 in A, Hacc. change (answers (set_ran l)) with (answers l) in A, Hacc.
    assert (forall l4, base l4 = base l3 -> up l4 = up l3 -> requests l4 = requests l3 -> tempKeyExpiry l4 = tempKeyExpiry l3 ->
      answers l4 = answers l3 ->
      false = false /\ up l4 = true /\ bindable l4 /\
      (AuthKey_Zero (permKey (base l)) = false -> permKey (base l4) = permKey (base l)) /\
      exists rs, (1 <= length rs <= 6)%nat /\ requests l4 = requests l ++ rs /\ Forall (binds l4) rs /\
        answers l4 = drop (length rs) (answers l) /\
        exists rest, answers l !! pred (length rs) = Some (inr (le_split 4 TypeTrue ++ rest))) as Hend.
    { intros l4 H1 H2 H3 H4 H5. split; [done|]. split; [rewrite H2, U; exact Hu1|].
      split; [unfold bindable in *; rewrite H1, Ka, Kp, Ks; exact Hbd|].
      split; [intros Hz; rewrite H1, Kp; by apply Hp1|]. exists rs.
      split; [done|]. split; [rewrite H3, R; cbn; by rewrite Hr1|].
      split; [|split; [by rewrite H5, A|by exists rest]].
      eapply Forall_impl; [exact B|]. intros q. unfold binds. by rewrite H1, H4, Ka, Kp, Ks, Ke. }
    destruct group; intros [= _ <-] _; by apply Hend.
  - assert (tasks l3 = ["handleClose"; "readLoop"]%string) as Hts.
    { destruct Hb as (rs & _ & [[_ _ _ _ _ _ [T _]]|(_ & _ & _ & T & _)]); rewrite T; cbn; by rewrite Ht1; cbn; rewrite Ht. }
    intros [= _ <-]. rewrite Hts. set_solver.
Qed.
End RunPFS.

(** ** Renewal and options *)

(** In PFS mode the renewal loop asks for a new connection before the temporary key
    expires: with a lifetime that New allows, its timer fires at least 15 seconds
    before the expiry, or at once when it is later than that already. *)
Theorem renewal_before_expiry (cfg : Config) (l : Life) :
  pfs cfg = true -> minTempKeyTTL <= tempKeyTTL cfg < 2 ^ 31 -> 0 < tempKeyExpiry l < 2 ^ 33 ->
  (forall now, reading (base l) now -> 0 <= now < 2 ^ 63) ->
  exists wait now l', renewal_wait cfg l = (Ok wait, l') /\ reading (base l) now /\ 0 <= wait < 2 ^ 63 /\
    (wait = 0 \/ now + wait + 15 * second <= tempKeyExpiry l * second) /\
    (wait = 0 -> tempKeyExpiry l * second - now <= (tempKeyTTL cfg `quot` 4) * second) /\
    fst (tempKeyRenewalLoop cfg None l) = Err (Wrap ErrPFSReconnectRequired "temporary auth key renewal required").
Proof.
  unfold minTempKeyTTL. intros Hp Ht He Hr. unfold tempKeyRenewalLoop, renewal_wait, expiresAt_.
  rewrite Hp. cbn [negb]. unfold bind at 1 2 3 5 6 7, get. rewrite (proj2 (Z.eqb_neq _ _)) by lia. unfold ret at 1 3.
  destruct (Now_spec (base l)) as (now & c & Hn & Hre & _). unfold bind, on_base. rewrite Hn.
  specialize (Hr now Hre). rewrite Z.quot_div_nonneg by lia.
  pose proof (Z.div_mod (tempKeyTTL cfg) 4 ltac:(lia)). pose proof (Z.mod_pos_bound (tempKeyTTL cfg) 4 ltac:(lia)).
  rewrite swrap_id by (unfold is_signed; lia). unfold Sub, second.
  eexists _, now, _. split; [reflexivity|]. split; [done|]. split; [|split; [|split; [|reflexivity]]].
  all: destruct (Z.ltb_spec (Z.max (-2 ^ 63) (Z.min (2 ^ 63 - 1) ((tempKeyExpiry l - tempKeyTTL cfg / 4) * 10 ^ 9 - now))) 0); lia.
Qed.

(** New applies the defaults once and for all, keeps the lifetime of temporary keys
    at a minute or more, and places the keys: without PFS as given; with PFS the
    temporary key is always made anew, and a key that was stored as the only one
    becomes the permanent key unless there is one. *)
Theorem new_places_keys (vendored : list PublicKey) (opt : Options) (w : flow) (t : list Z) (ans : list (error + Buffer)) :
  let '(cfg, l) := New vendored opt w t ans in
  setDefaults vendored (setDefaults vendored opt) = setDefaults vendored opt /\
  minTempKeyTTL <= tempKeyTTL cfg /\ up l = false /\ ran l = false /\ tasks l = [] /\ permKeyCreatedAt l = 0 /\
  (o_EnablePFS opt = false -> authKey (base l) = o_Key opt /\ permKey (base l) = o_PermKey opt) /\
  (o_EnablePFS opt = true -> authKey (base l) = ZeroKey /\
     permKey (base l) = if AuthKey_Zero (o_PermKey opt) && negb (AuthKey_Zero (o_Key opt)) then o_Key opt else o_PermKey opt).
Proof.
  unfold New. cbn. split_and!; try done.
  - destruct opt. unfold setDefaults. cbn. unfold minTempKeyTTL, defaultTempKeyTTL.
    f_equal; repeat case_match; lia || congruence || auto.
  - unfold minTempKeyTTL. case_match; lia.
  - intros ->. done.
  - intros ->. cbn. destruct (AuthKey_Zero (o_PermKey opt)) eqn:EP, (AuthKey_Zero (o_Key opt)) eqn:EK; cbn; rewrite ?EP, ?EK; done.
Qed.

(** ** Instances *)

Section Sample.
#[local] Existing Instance sample_ige.
#[local] Existing Instance sample_ige_lawful.
#[local] Existing Instance sample_xor.
#[local] Existing Instance merge_sort_salts.

Definition sample_perm : AuthKey := WithID (replicate 256 Byte.x07).

(** Options of a restored PFS session, with everything else left to the defaults. *)
Definition sample_options : Options :=
  mkOptions 0 [Some sample_key] 0 0 0 0 0 0 0 0 0 0 sample_perm ZeroKey 0 true 0.

(** The transport of the sample exchange, whose client is in temporary mode. *)
Definition sample_new_conn : Config * Life :=
  New [] sample_options sample_flow sample_clock [inr (le_split 4 TypeTrue)].
Definition sample_up : outcome unit * Life :=
  Run (fun _ => true) (fst sample_new_conn) None None None (snd sample_new_conn).

Lemma sample_run :
  Run (fun _ => true) (fst sample_new_conn) None None None (snd sample_new_conn) = (fst sample_up, snd sample_up).
Proof. unfold sample_up. apply surjective_pairing. Qed.

Lemma shared_key_nonzero p a b : 1 < p < 2 ^ 2048 -> Z.gcd p server_g = 1 -> 0 <= a * b ->
  AuthKey_Zero (WithID (shared_key p a b)) = false.
Proof.
  intros Hp Hg Hab. apply bool_decide_eq_false_2. intros Heq. apply (f_equal ak_Value) in Heq. simpl in Heq.
  apply (f_equal be_combine) in Heq. unfold shared_key in Heq. set (x := server_g ^ (a * b)) in *.
  pose proof (Z.mod_pos_bound x p ltac:(lia)).
  rewrite be_combine_split in Heq by (unfold is_unsigned; change (Z.of_nat 256 * 8) with 2048; lia).
  change (be_combine (zeros KeySize)) with 0 in Heq. apply Z.mod_divide in Heq; [|lia].
  assert (Znumtheory.rel_prime p x) as Hrel by (apply rel_prime_Zpower_r; [done|by apply Znumtheory.Zgcd_1_rel_prime]).
  apply Znumtheory.Zgcd_1_rel_prime in Hrel. apply Z.divide_gcd_iff in Heq; [|lia]. lia.
Qed.

Lemma sample_shared_key : AuthKey_Zero (WithID (shared_key sample_prime 1270 1271)) = false.
Proof.
  apply shared_key_nonzero; [|vm_compute; reflexivity|lia].
  split; [apply Z.ltb_lt|apply Z.ltb_lt]; vm_compute; reflexivity.
Qed.

Lemma sample_connects : exists l,
  connect (fun _ => true) (fst sample_new_conn) None None (set_ran (snd sample_new_conn)) = (Ok tt, l) /\
  bindable l /\ fl_rand (wire l) = mkStream (zeros 64) EOF /\ answers l = [inr (le_split 4 TypeTrue)].
Proof.
  destruct sample_client_runs as (r & f & E & Hkey & Hsid & Hrand).
  assert (AuthKey_Zero sample_perm = false) as Hz by (vm_compute; reflexivity).
  destruct (connect_pfs_run (fun _ => true) (fst sample_new_conn) None (set_ran (snd sample_new_conn)) r f eq_refl Hz E)
    as (l & Hc & Ha & Hp & Hs & Hw & _ & Hans & _).
  exists l. split; [exact Hc|]. split; [|split; [rewrite Hw; exact Hrand|exact Hans]].
  split; [rewrite Ha, Hkey; exact sample_shared_key|]. split; [rewrite Hp; exact Hz|]. rewrite Hs, Hsid. discriminate.
Qed.

Lemma sample_calls_back : "userCallback"%string ∈ tasks (snd sample_up).
Proof.
  destruct sample_connects as (l & Hc & Hb & Hr & Ha).
  unfold sample_up, Run. unfold bind at 1 2, get, modify. change (ran (snd sample_new_conn)) with false. cbv iota.
  unfold bind at 1, wrapping at 1. rewrite Hc. unfold bind at 1 2 3, wrapping. change (pfs (fst sample_new_conn)) with true.
  set (l2 := add_task "readLoop" (add_task "handleClose" l)).
  destruct (bindTempAuthKey_ok (fst sample_new_conn) l2 (le_split 4 TypeTrue) []) as [l3 ->].
  - exact Hb.
  - change (wire l2) with (wire l). rewrite Hr. vm_compute. discriminate.
  - exact Ha.
  - vm_compute. reflexivity.
  - unfold bind, ret. cbn [snd tasks add_task]. apply elem_of_app. right. by apply list_elem_of_singleton.
Qed.

Lemma run_binds_before_use_witness :
  up (snd sample_up) = true /\ bindable (snd sample_up) /\ permKey (base (snd sample_up)) = sample_perm /\
  exists rs, (1 <= length rs <= 6)%nat /\ requests (snd sample_up) = rs /\ Forall (binds (snd sample_up)) rs.
Proof.
  destruct (run_binds_before_use (fun _ => true) (fst sample_new_conn) None None None (snd sample_new_conn)
    (snd sample_up) (fst sample_up) eq_refl eq_refl sample_run)
    as (_ & H1 & H2 & H3 & rs & H4 & H5 & H6 & _).
  - exact sample_calls_back.
  - split; [exact H1|]. split; [exact H2|]. split; [exact (H3 eq_refl)|].
    exact (ex_intro _ rs (conj H4 (conj H5 H6))).
Defined.

(** A connection with both keys whose first binding the server rejects. *)
Definition sample_rejected : Life :=
  mkLife (mkConn (WithID (zeros 256)) sample_perm 0 1 [] 0 Gen.NewMessageIDGen (Buf.NewMessageIDBuf 100) ∅ sample_clock [])
    (mkFlow (mkStream (zeros 1000) EOF) [] [] [] sample_clock empty_cache Canceled)
    1699999900 1700086400 true 0 [inl (RPCError 400 ErrEncryptedMessageInvalid)] [] true [].
Definition sample_config : Config :=
  fst (New [] sample_options (mkFlow (mkStream [] EOF) [] [] [] [] empty_cache Canceled) [] []).

Lemma sample_reading_now now : reading (base sample_rejected) now -> now = 1700000000 * 10 ^ 9.
Proof. intros [H|[H _]]; [|done]. by apply list_elem_of_singleton in H. Qed.

Lemma bind_drops_old_key_witness :
  exists l', bindTempAuthKey sample_config sample_rejected =
      (Err (Wrap ErrPFSDropKeysRequired "pfs keys dropped after ENCRYPTED_MESSAGE_INVALID"), l') /\
    pfs_keys l' = (ZeroKey, ZeroKey, 0, 0, 0) /\
    requests l' = requests (snd (bindTempAuthKeyAttempt sample_config sample_rejected)).
Proof.
  apply (bind_drops_old_key sample_config sample_rejected (snd (bindTempAuthKeyAttempt sample_config sample_rejected))
    (Wrap (RPCError 400 ErrEncryptedMessageInvalid) "invoke auth.bindTempAuthKey")).
  - vm_compute. reflexivity.
  - vm_compute. reflexivity.
  - discriminate.
  - intros now Hn. rewrite (sample_reading_now now Hn). reflexivity.
Defined.

Lemma bind_policy_witness :
  match bindTempAuthKey sample_config sample_rejected with
  | (Err e, l') => exists rs, (length rs <= 6)%nat /\ (tried sample_rejected rs l' \/ dropped sample_rejected rs e l')
  | _ => False
  end.
Proof.
  pose proof (bind_policy sample_config sample_rejected) as H.
  assert (exists e l', bindTempAuthKey sample_config sample_rejected = (Err e, l')) as (e & l' & E).
  { eexists _, _. vm_compute. reflexivity. }
  rewrite E in H |- *. exact H.
Defined.

Definition sample_events : list AckEvent := [AckQueued 5; AckQueued 9; AckTick].

Lemma acks_sent_once_witness :
  exists batches frames l',
    ackLoop stored_gzip NewClientCipher sample_config sample_events [] sample_rejected = (Ok [], l') /\
    concat batches = [5; 9] /\ fl_outbox (wire l') = frames /\
    Forall2 (acknowledges (WithID (zeros 256)) 1) batches frames.
Proof.
  destruct (acks_sent_once stored_gzip stored_gzip_roundtrip sample_config sample_events sample_rejected)
    as (bs & pe & fr & l' & H1 & H2 & _ & _ & H3 & H4 & H5).
  - split; [reflexivity|]. split; [reflexivity|]. split; [split; [apply (bool_decide_unpack _); vm_compute; exact I|constructor]|].
    apply (bool_decide_unpack _). vm_compute. exact I.
  - split; [vm_compute; discriminate|]. split; [reflexivity|]. right. vm_compute. discriminate.
  - apply (bool_decide_unpack _). vm_compute. exact I.
  - repeat constructor.
  - vm_compute. discriminate.
  - rewrite (H3 eq_refl) in H1, H2. rewrite app_nil_r in H2. exists bs, fr, l'. split; [exact H1|]. split; [exact H2|].
    split; [exact H4|]. assert (forall b, delivered [] b = b) as Hd by (induction b as [|x b IH]; simpl; congruence).
    rewrite <- (Hd bs). exact H5.
Defined.

Lemma renewal_before_expiry_witness :
  exists wait now l', renewal_wait sample_config sample_rejected = (Ok wait, l') /\
    (wait = 0 \/ now + wait + 15 * second <= 1700086400 * second).
Proof.
  destruct (renewal_before_expiry sample_config sample_rejected) as (wait & now & l' & H1 & _ & _ & H2 & _).
  - reflexivity.
  - vm_compute. split; [discriminate|reflexivity].
  - vm_compute. split; reflexivity.
  - intros now Hn. rewrite (sample_reading_now now Hn). vm_compute. split; [discriminate|reflexivity].
  - exists wait, now, l'. exact (conj H1 H2).
Defined.
End Sample.
